(** * Syllabus organizer: text core of [organizer.py]

    A shallow embedding of the text-processing core of the syllabus
    organizer (normalisation, fragment merging, concatenation splitting,
    scoring, header detection and the classification run), together with
    the properties proved about it.

    Python strings are sequences of Unicode code points: a character is a
    code point [N], a text is a list of them.  The character tables of the
    Python runtime that the code relies on ([str.isspace], [\s], [\d], [\w],
    [str.lower], [str.isupper], [str.islower]) are given below.  The
    whitespace table is the complete one of [str.isspace]; digits, letters
    and case mapping are those of ASCII and Latin-1 (code points up to
    U+00FF), every code point above U+00FF that is not whitespace being an
    uncased symbol.

    Regular expressions are values of the type [re], run by a backtracking
    matcher that follows the semantics of Python's [re] module for the
    constructs the source uses: ordered alternation, greedy bounded
    repetition of a character class, capturing groups, [^], [$], [\b],
    look-ahead and one-character look-behind.

    Code that can raise returns a [result]: [IndexError] from an index
    outside a string or a list, [ValueError] from [int] on a run of more
    digits than the interpreter converts (4300, the default of CPython
    3.11).  The semantic analyzer is a parameter, any function from texts
    to documents, or none. *)

From Stdlib Require Import String Ascii DecimalString List NArith ZArith Arith Bool Lia.
Import ListNotations.
Open Scope string_scope.
Open Scope list_scope.
Open Scope nat_scope.

Set Warnings "-comment-terminator-in-string".

(* ================================================================= *)
(** ** Characters and texts *)

Definition char := N.
Definition text := list char.

(** An ASCII literal as a text. *)
Definition str (s : string) : text :=
  map N_of_ascii (list_ascii_of_string s).

Definition in_range (lo hi c : N) : bool := (N.leb lo c) && (N.leb c hi).

(** [str.isspace] for one character, which is also the class [\s]. *)
Definition is_space (c : char) : bool :=
  in_range 9 13 c || in_range 28 32 c || N.eqb c 133 || N.eqb c 160
  || N.eqb c 5760 || in_range 8192 8202 c || N.eqb c 8232 || N.eqb c 8233
  || N.eqb c 8239 || N.eqb c 8287 || N.eqb c 12288.

(** The class [\d]. *)
Definition is_digit (c : char) : bool := in_range 48 57 c.

Definition is_ascii_upper (c : char) : bool := in_range 65 90 c.
Definition is_ascii_lower (c : char) : bool := in_range 97 122 c.

(** Uppercase and lowercase letters ([c.isupper()], [c.islower()]). *)
Definition is_upper_char (c : char) : bool :=
  is_ascii_upper c || in_range 192 214 c || in_range 216 222 c.

Definition is_lower_char (c : char) : bool :=
  is_ascii_lower c || N.eqb c 170 || N.eqb c 181 || N.eqb c 186
  || in_range 223 246 c || in_range 248 255 c.

(** [c.isalnum()]: letters, digits and the numeric characters of Latin-1. *)
Definition is_alnum (c : char) : bool :=
  is_upper_char c || is_lower_char c || is_digit c
  || N.eqb c 178 || N.eqb c 179 || N.eqb c 185 || in_range 188 190 c.

(** The class [\w]. *)
Definition is_word (c : char) : bool := is_alnum c || N.eqb c 95.

Definition lower_char (c : char) : char :=
  if is_upper_char c then (c + 32)%N else c.

Definition upper_char (c : char) : char :=
  if is_ascii_lower c || in_range 224 246 c || in_range 248 254 c
  then (c - 32)%N else c.

(** [text.lower()] *)
Definition lower (t : text) : text := map lower_char t.

(** [text.isupper()]: no lowercase letter and at least one uppercase one. *)
Definition isupper (t : text) : bool :=
  forallb (fun c => negb (is_lower_char c)) t && existsb is_upper_char t.

Fixpoint text_eqb (a b : text) : bool :=
  match a, b with
  | [], [] => true
  | x :: a', y :: b' => N.eqb x y && text_eqb a' b'
  | _, _ => false
  end.

(** [t.startswith(p)] *)
Fixpoint startswith (p t : text) : bool :=
  match p, t with
  | [], _ => true
  | x :: p', y :: t' => N.eqb x y && startswith p' t'
  | _ :: _, [] => false
  end.

(** [t.endswith(p)] *)
Definition endswith (p t : text) : bool := startswith (rev p) (rev t).

(** [t[a:b]] for [0 <= a] and [0 <= b]. *)
Definition slice (a b : nat) (t : text) : text := firstn (b - a) (skipn a t).

(** [t.lstrip()], [t.rstrip()] and [t.strip()]. *)
Fixpoint lstrip (t : text) : text :=
  match t with
  | c :: t' => if is_space c then lstrip t' else t
  | [] => []
  end.

Definition rstrip (t : text) : text := rev (lstrip (rev t)).

Definition strip (t : text) : text := rstrip (lstrip t).

(** [t.replace(a, b)] for a one-character [a]. *)
Definition replace_char (a : char) (b : text) (t : text) : text :=
  flat_map (fun c => if N.eqb c a then b else [c]) t.

(** [c in chars] for a character. *)
Definition mem (c : char) (chars : text) : bool := existsb (N.eqb c) chars.

(* ================================================================= *)
(** ** Regular expressions *)

Module Regex.

(** A character class is a predicate on characters. *)
Definition cls := char -> bool.

Definition one (c : char) : cls := N.eqb c.
Definition of_set (s : string) : cls := fun c => mem c (str s).
Definition rng (a b : string) : cls :=
  fun c => match str a, str b with
           | [x], [y] => in_range x y c
           | _, _ => false
           end.
Definition cor (p q : cls) : cls := fun c => p c || q c.
Definition cnot (p : cls) : cls := fun c => negb (p c).
(** [.]: any character except a newline. *)
Definition dot : cls := fun c => negb (N.eqb c 10).
Definition AZ : cls := rng "A" "Z".
Definition az : cls := rng "a" "z".

(** Under [re.IGNORECASE] a class accepts a character when it holds the
    character, its lowercase or its uppercase. *)
Definition ci (p : cls) : cls :=
  fun c => p c || p (lower_char c) || p (upper_char c).

Inductive re : Type :=
| Eps : re
| Cls : cls -> re                          (* one character of a class *)
| Rep : cls -> nat -> option nat -> re     (* greedy [c{lo,hi}]; [None] is no upper bound *)
| Cat : re -> re -> re
| Alt : re -> re -> re                     (* [a|b], the left one first *)
| Grp : nat -> re -> re                    (* capturing group number n *)
| Bol : re                                 (* [^] *)
| Eol : re                                 (* [$] *)
| Wb : re                                  (* [\b] *)
| Ahead : re -> re                         (* [(?=r)] *)
| Behind : cls -> re.                      (* [(?<=[class])] *)

(** The state of a match: the text before the position (nearest character
    first), the text from the position on, the position, and the spans of
    the groups matched so far (the latest first). *)
Record mstate : Type := MS {
  pre : list char;
  suf : list char;
  idx : nat;
  caps : list (nat * (nat * nat))
}.

Definition may_take (hi : option nat) : bool :=
  match hi with
  | Some 0 => false
  | _ => true
  end.

Definition dec (hi : option nat) : option nat := option_map pred hi.

(** Greedy repetition: as many characters as allowed, fewer when the rest
    of the pattern fails after them. *)
Fixpoint rep_run (p : cls) (lo : nat) (hi : option nat)
    (pr sf : list char) (i : nat) (cs : list (nat * (nat * nat)))
    (k : mstate -> option mstate) {struct sf} : option mstate :=
  let stop := if Nat.eqb lo 0 then k (MS pr sf i cs) else None in
  match sf with
  | c :: sf' =>
      if p c && may_take hi then
        match rep_run p (pred lo) (dec hi) (c :: pr) sf' (S i) cs k with
        | Some r => Some r
        | None => stop
        end
      else stop
  | [] => stop
  end.

Definition at_bol (st : mstate) : bool :=
  match pre st with [] => true | _ => false end.

(** [$] holds at the end, and before a newline that ends the text. *)
Definition at_eol (st : mstate) : bool :=
  match suf st with
  | [] => true
  | [c] => N.eqb c 10
  | _ => false
  end.

Definition word_at (l : list char) : bool :=
  match l with
  | c :: _ => is_word c
  | [] => false
  end.

Definition at_wb (st : mstate) : bool := xorb (word_at (pre st)) (word_at (suf st)).

(** The matcher, in continuation-passing style: [run r st k] matches [r]
    at [st] and hands the state after it to [k]; when [k] fails the next
    way of matching [r] is tried. *)
Fixpoint run (r : re) (st : mstate) (k : mstate -> option mstate) : option mstate :=
  match r with
  | Eps => k st
  | Cls p =>
      match suf st with
      | c :: sf' => if p c then k (MS (c :: pre st) sf' (S (idx st)) (caps st)) else None
      | [] => None
      end
  | Rep p lo hi => rep_run p lo hi (pre st) (suf st) (idx st) (caps st) k
  | Cat a b => run a st (fun st' => run b st' k)
  | Alt a b =>
      match run a st k with
      | Some res => Some res
      | None => run b st k
      end
  | Grp n a =>
      run a st (fun st' =>
        k (MS (pre st') (suf st') (idx st') ((n, (idx st, idx st')) :: caps st')))
  | Bol => if at_bol st then k st else None
  | Eol => if at_eol st then k st else None
  | Wb => if at_wb st then k st else None
  | Ahead a =>
      match run a st Some with
      | Some _ => k st
      | None => None
      end
  | Behind p =>
      match pre st with
      | c :: _ => if p c then k st else None
      | [] => None
      end
  end.

(** Pattern-building helpers. *)
Definition seq (rs : list re) : re := fold_right Cat Eps rs.
Definition alts (rs : list re) : re :=
  match rs with
  | [] => Eps
  | r :: rs' => fold_left Alt rs' r
  end.
Definition lit (s : string) : re := seq (map (fun c => Cls (one c)) (str s)).
Definition opt (r : re) : re := Alt r Eps.                  (* [r?] *)
Definition star (p : cls) : re := Rep p 0 None.             (* [c*] *)
Definition plus (p : cls) : re := Rep p 1 None.             (* [c+] *)
Definition times (p : cls) (n : nat) : re := Rep p n (Some n).          (* [c{n}] *)
Definition between (p : cls) (lo hi : nat) : re := Rep p lo (Some hi). (* [c{lo,hi}] *)
Definition atleast (p : cls) (lo : nat) : re := Rep p lo None.          (* [c{lo,}] *)
Definition copt (p : cls) : re := Rep p 0 (Some 1).          (* [c?] *)
(** An alternation of literals, [(w1|w2|...)]. *)
Definition words (ws : list string) : re := alts (map lit ws).

(** The pattern under [re.IGNORECASE]. *)
Fixpoint nocase (r : re) : re :=
  match r with
  | Cls p => Cls (ci p)
  | Rep p lo hi => Rep (ci p) lo hi
  | Cat a b => Cat (nocase a) (nocase b)
  | Alt a b => Alt (nocase a) (nocase b)
  | Grp n a => Grp n (nocase a)
  | Ahead a => Ahead (nocase a)
  | Behind p => Behind (ci p)
  | other => other
  end.

(** A match: where it starts, where it ends, and its groups. *)
Record rmatch : Type := RM {
  m_start : nat;
  m_end : nat;
  m_caps : list (nat * (nat * nat))
}.

Definition try_at (r : re) (pr sf : list char) (i : nat) : option rmatch :=
  match run r (MS pr sf i []) Some with
  | Some st => Some (RM i (idx st) (caps st))
  | None => None
  end.

(** [re.match(r, t)] *)
Definition re_match (r : re) (t : text) : option rmatch := try_at r [] t 0.

Fixpoint search_from (r : re) (pr sf : list char) (i : nat) : option rmatch :=
  match try_at r pr sf i with
  | Some m => Some m
  | None =>
      match sf with
      | c :: sf' => search_from r (c :: pr) sf' (S i)
      | [] => None
      end
  end.

(** [re.search(r, t)]: the leftmost match. *)
Definition re_search (r : re) (t : text) : option rmatch := search_from r [] t 0.

Definition matches (r : re) (t : text) : bool :=
  match re_match r t with Some _ => true | None => false end.

Definition found (r : re) (t : text) : bool :=
  match re_search r t with Some _ => true | None => false end.

(** The non-overlapping matches from left to right.  [skip] counts the
    characters still covered by the match found last.  After an empty
    match the scan moves on by one character; every pattern the source
    iterates matches at least one character. *)
Fixpoint scan (r : re) (skip : nat) (pr sf : list char) (i : nat) : list rmatch :=
  match skip with
  | S n =>
      match sf with
      | c :: sf' => scan r n (c :: pr) sf' (S i)
      | [] => []
      end
  | 0 =>
      match try_at r pr sf i with
      | Some m =>
          m :: match sf with
               | c :: sf' => scan r (m_end m - i - 1) (c :: pr) sf' (S i)
               | [] => []
               end
      | None =>
          match sf with
          | c :: sf' => scan r 0 (c :: pr) sf' (S i)
          | [] => []
          end
      end
  end.

(** [re.finditer(r, t)] *)
Definition re_finditer (r : re) (t : text) : list rmatch := scan r 0 [] t 0.

(** The span of group [n] of a match, [None] when it took no part. *)
Fixpoint cap_span (n : nat) (cs : list (nat * (nat * nat))) : option (nat * nat) :=
  match cs with
  | (g, sp) :: cs' => if Nat.eqb g n then Some sp else cap_span n cs'
  | [] => None
  end.

(** [m.group(n)] within [t]; the empty text when the group took no part. *)
Definition group (t : text) (m : rmatch) (n : nat) : text :=
  match cap_span n (m_caps m) with
  | Some (a, b) => slice a b t
  | None => []
  end.

(** [m.group(0)] *)
Definition group0 (t : text) (m : rmatch) : text := slice (m_start m) (m_end m) t.

(** [re.sub(r, repl, t)], the replacement computed from each match: the
    text is scanned as by [scan], a match is replaced and the characters it
    covers are skipped, every other character is copied. *)
Fixpoint sub_scan (r : re) (repl : rmatch -> text) (skip : nat)
    (pr sf : list char) (i : nat) : text :=
  match skip with
  | S n =>
      match sf with
      | c :: sf' => sub_scan r repl n (c :: pr) sf' (S i)
      | [] => []
      end
  | 0 =>
      match try_at r pr sf i with
      | Some m =>
          repl m
          ++ match sf with
             | c :: sf' =>
                 (if Nat.eqb (m_end m) i then [c] else [])
                 ++ sub_scan r repl (m_end m - i - 1) (c :: pr) sf' (S i)
             | [] => []
             end
      | None =>
          match sf with
          | c :: sf' => c :: sub_scan r repl 0 (c :: pr) sf' (S i)
          | [] => []
          end
      end
  end.

Definition re_sub (r : re) (repl : text -> rmatch -> text) (t : text) : text :=
  sub_scan r (repl t) 0 [] t 0.

(** [re.split(r, t)] for a pattern with groups [1..ngroups]: the texts
    between the matches, each match's groups in between. *)
Fixpoint split_from (ngroups : nat) (t : text) (pos : nat)
    (ms : list rmatch) : list text :=
  match ms with
  | [] => [skipn pos t]
  | m :: ms' =>
      slice pos (m_start m) t
      :: map (group t m) (List.seq 1 ngroups)
      ++ split_from ngroups t (m_end m) ms'
  end.

Definition re_split (ngroups : nat) (r : re) (t : text) : list text :=
  split_from ngroups t 0 (re_finditer r t).

End Regex.

Import Regex.

(* ================================================================= *)
(** ** The normalizer *)

(** The pattern [(\w)-\s+(\w)] of the de-hyphenation. *)
Definition hyphen_break : re :=
  seq [Grp 1 (Cls is_word); Cls (one 45%N); plus is_space; Grp 2 (Cls is_word)].

(** The pattern [\s+]. *)
Definition spaces : re := plus is_space.

(** [normalize_pdf_text]: typographic quotes, dashes, the non-breaking
    space and the byte-order mark are mapped to ASCII, a hyphen followed by
    white space between two word characters is removed with the white
    space, runs of white space become one space, and the ends are
    trimmed. *)
Definition normalize_pdf_text (t : text) : text :=
  let t := replace_char 8217%N (str "'") t in
  let t := replace_char 8216%N (str "'") t in
  let t := replace_char 8220%N [34%N] t in
  let t := replace_char 8221%N [34%N] t in
  let t := replace_char 8211%N (str "-") t in
  let t := replace_char 8212%N (str "-") t in
  let t := replace_char 160%N (str " ") t in
  let t := replace_char 65279%N [] t in
  let t := re_sub hyphen_break (fun t m => group t m 1 ++ group t m 2) t in
  let t := re_sub spaces (fun _ _ => str " ") t in
  strip t.

(* ================================================================= *)
(** ** Shared pattern pieces *)

Definition dq : char := 34%N.            (* the double quote *)
Definition bullet : char := 8226%N.      (* U+2022 *)
Definition black_circle : char := 9679%N. (* U+25CF *)
Definition white_circle : char := 9675%N. (* U+25CB *)
Definition white_bullet : char := 9702%N. (* U+25E6 *)
Definition en_dash : char := 8211%N.     (* U+2013 *)
Definition ldquo : char := 8220%N.       (* U+201C *)
Definition rdquo : char := 8221%N.       (* U+201D *)

(** A class given by its ASCII members and further code points. *)
Definition chars (s : string) (more : list char) : cls :=
  fun c => mem c (str s) || mem c more.

Definition ws : re := star is_space.          (* [\s*] *)
Definition ws1 : re := plus is_space.         (* [\s+] *)
Definition digits : re := plus is_digit.      (* [\d+] *)
Definition year4 : re := times is_digit 4.    (* [\d{4}] *)
Definition cap_word : re := seq [Cls AZ; plus az].           (* [[A-Z][a-z]+] *)
(** [(?:\s+(?:and|&)\s+[A-Z][a-z]+)?] *)
Definition and_cap : re := opt (seq [ws1; words ["and"; "&"]; ws1; cap_word]).
(** [(?:\s+et\s+al\.?)?] *)
Definition et_al : re :=
  opt (seq [ws1; lit "et"; ws1; lit "al"; copt (of_set ".")]).
(** [\(\d{4}\)] *)
Definition paren_year : re := seq [lit "("; year4; lit ")"].
(** [^[\d\.\)\-•*]+\s*], the leading bullet or numeral. *)
Definition leading_bullet : re :=
  seq [Bol; plus (cor is_digit (chars ".)-*" [bullet])); ws].

(** [re.sub(r'^[\d\.\)\-•*]+\s*', '', t)] *)
Definition strip_bullet (t : text) : text :=
  re_sub leading_bullet (fun _ _ => []) t.

(* ================================================================= *)
(** ** Author shapes *)

Definition author_patterns : list re :=
  [ seq [Bol; Cls AZ; plus az];
    seq [Bol; Cls AZ; Cls (of_set "'"); copt AZ; plus az];
    seq [Bol; words ["van"; "von"; "de"; "del"; "la"; "le"; "du"; "dos"; "das"];
         ws1; Cls AZ];
    seq [Bol; lit "Mc"; Cls AZ; plus az];
    seq [Bol; lit "Mac"; Cls AZ; plus az];
    seq [Bol; Cls AZ; plus az; lit ","; ws; Cls AZ];
    seq [Bol; Cls AZ; plus az; ws1; words ["and"; "&"]; ws1; Cls AZ; plus az];
    seq [Bol; Cls AZ; plus az; ws1; lit "et"; ws1; lit "al"] ].

(** [looks_like_author] *)
Definition looks_like_author (t : text) : bool :=
  let t := strip t in
  match t with
  | [] => false
  | _ => existsb (fun p => matches p t) author_patterns
  end.

(** The pattern of [extract_author_year_pairs]:
    [([A-Z][a-z]+(?:\s+(?:and|&)\s+[A-Z][a-z]+)?(?:\s+et\s+al\.?)?)\s*[\(,]?\s*(\d{4})\)?] *)
Definition author_year : re :=
  seq [Grp 1 (seq [cap_word; and_cap; et_al]); ws; copt (of_set "(,"); ws;
       Grp 2 year4; copt (of_set ")")].

(** [extract_author_year_pairs]: start, author and year of each match. *)
Definition extract_author_year_pairs (t : text) : list (nat * text * text) :=
  map (fun m => (m_start m, group t m 1, group t m 2)) (re_finditer author_year t).

(* ================================================================= *)
(** ** Results of code that can raise *)

(** The exceptions the core can raise on a text: [IndexError], from an
    index outside a string or a list, and [ValueError], from [int] on a run
    of digits longer than the interpreter converts. *)
Inductive exn : Type := IndexError | ValueError.

Inductive result (A : Type) : Type :=
| Ok : A -> result A
| Raise : exn -> result A.

Arguments Ok {A} _.
Arguments Raise {A} _.

Definition bind {A B : Type} (x : result A) (f : A -> result B) : result B :=
  match x with
  | Ok a => f a
  | Raise e => Raise e
  end.

Notation "x <- e ;; k" := (bind e (fun x => k))
  (at level 61, e at next level, right associativity).

(** A [for] loop over a list that updates a state; an exception in a turn
    ends the loop. *)
Definition fold_each {A S : Type} (f : S -> A -> result S) : list A -> S -> result S :=
  fix go (l : list A) (s : S) : result S :=
    match l with
    | [] => Ok s
    | a :: l' => s' <- f s a ;; go l' s'
    end.

(** A [for] loop over a list that appends what each turn produces. *)
Definition for_each {A B : Type} (f : A -> result (list B)) : list A -> result (list B) :=
  fix go (l : list A) : result (list B) :=
    match l with
    | [] => Ok []
    | a :: l' => x <- f a ;; xs <- go l' ;; Ok (x ++ xs)
    end.

(** [t[j]] for [0 <= j]. *)
Definition char_at (t : text) (j : nat) : result char :=
  match nth_error t j with
  | Some c => Ok c
  | None => Raise IndexError
  end.

(* ================================================================= *)
(** ** The concatenation splitter *)

(** [t.split(c)] for a one-character separator. *)
Fixpoint split_on (c : char) (t : text) : list text :=
  match t with
  | [] => [[]]
  | x :: t' =>
      if N.eqb x c then [] :: split_on c t'
      else match split_on c t' with
           | p :: ps => (x :: p) :: ps
           | [] => [[x]]
           end
  end.

(** A segment is kept when it is longer than 25 characters. *)
Definition long_enough (t : text) : bool := 25 <? List.length t.

(** Strategy 1: the boundary
    "(\.\s*|\)\s*\.?\s*)([A-Z][a-z]+(?:\s+(?:and|&)\s+[A-Z][a-z]+)?(?:\s+et\s+al\.?)?\s*[\(,]\s*\d{4})",
    the end of a citation followed by a new author and year. *)
Definition split_pattern : re :=
  seq [Grp 1 (Alt (seq [lit "."; ws]) (seq [lit ")"; ws; copt (of_set "."); ws]));
       Grp 2 (seq [cap_word; and_cap; et_al; ws; Cls (of_set "(,"); ws; year4])].

(** One turn of the loop of strategy 1 over [enumerate(parts)]: the state
    is the index, [current] and [readings]. *)
Definition s1_step (acc : nat * text * list text) (part : text)
    : nat * text * list text :=
  let '(i, current, readings) := acc in
  if Nat.eqb (i mod 3) 2 then
    (S i, part,
     if long_enough (strip current) then readings ++ [strip current] else readings)
  else (S i, current ++ part, readings).

Definition strategy1 (t : text) : list text :=
  let parts := re_split 2 split_pattern t in
  if 1 <? List.length parts then
    let '(_, current, readings) := fold_left s1_step parts (0, [], []) in
    if long_enough (strip current) then readings ++ [strip current] else readings
  else [].

(** Strategy 2: numbered or bulleted items. *)
Definition item_marker : re :=
  Alt (seq [digits; Cls (of_set ".)"); ws])
      (seq [Cls (chars "-" [bullet; black_circle; white_circle]); ws]).

(** "(?:^|[.\s])(\d+[\.\)]\s*|[-•●○]\s*)([A-Z][a-z]+)" *)
Definition bullet_pattern : re :=
  seq [Alt Bol (Cls (cor (of_set ".") is_space)); Grp 1 item_marker; Grp 2 cap_word].

(** "(?:^|\s)(\d+[\.\)]\s*|[-•●○]\s*)(?=[A-Z][a-z]+)" *)
Definition bullet_split : re :=
  seq [Alt Bol (Cls is_space); Grp 1 item_marker; Ahead cap_word].

(** [^(\d+[\.\)]|[-•●○])$] *)
Definition marker_only : re :=
  seq [Bol;
       Grp 1 (Alt (seq [digits; Cls (of_set ".)")])
                  (Cls (chars "-" [bullet; black_circle; white_circle])));
       Eol].

Definition s2_step (acc : text * list text) (part : text) : text * list text :=
  let '(current, readings) := acc in
  let part := strip part in
  match part with
  | [] => (current, readings)
  | _ =>
      if matches marker_only part then
        ([], if long_enough current then readings ++ [current] else readings)
      else
        (match current with
         | [] => part
         | _ => current ++ str " " ++ part
         end, readings)
  end.

Definition strategy2 (t : text) : list text :=
  if found bullet_pattern t then
    let parts := re_split 1 bullet_split t in
    let '(current, readings) := fold_left s2_step parts ([], []) in
    if long_enough current then readings ++ [current] else readings
  else [].

(** Strategy 3: semicolons. *)
Definition append_last (extra : text) (rs : list text) : list text :=
  match rev rs with
  | last :: before => rev before ++ [last ++ extra]
  | [] => []
  end.

Definition s3_step (readings : list text) (part : text) : list text :=
  let part := strip part in
  if long_enough part then
    if looks_like_author part || found paren_year part then readings ++ [part]
    else match readings with
         | _ :: _ => append_last (str "; " ++ part) readings
         | [] => readings ++ [part]
         end
  else readings.

Definition strategy3 (t : text) : list text :=
  if mem 59%N t then fold_left s3_step (split_on 59%N t) [] else [].

(** Strategy 4: between author-year pairs.  [range_down hi stop] is
    [range(hi, stop, -1)] for [hi = start - 1]. *)
Definition range_down (hi stop : nat) : list nat := rev (List.seq (S stop) (hi - stop)).

(** [text[j] in '.;' and (j + 1 >= len(text) or text[j + 1] == ' ')] *)
Definition probe_punct (t : text) (j : nat) : result bool :=
  c <- char_at t j ;;
  if mem c (str ".;") then
    if List.length t <=? j + 1 then Ok true
    else d <- char_at t (j + 1) ;; Ok (N.eqb d 32%N)
  else Ok false.

(** [text[j] == ')' and j + 1 < len(text) and text[j + 1] == ' '] *)
Definition probe_paren (t : text) (j : nat) : result bool :=
  c <- char_at t j ;;
  if N.eqb c 41%N then
    if j + 1 <? List.length t then d <- char_at t (j + 1) ;; Ok (N.eqb d 32%N)
    else Ok false
  else Ok false.

(** The first [j] of the range at which the probe holds gives the split
    point [j + 1]. *)
Fixpoint first_hit (probe : nat -> result bool) (js : list nat) : result (option nat) :=
  match js with
  | [] => Ok None
  | j :: js' =>
      b <- probe j ;;
      if b then Ok (Some (j + 1)) else first_hit probe js'
  end.

Definition find_split (t : text) (start last_end : nat) : result (option nat) :=
  sp <- first_hit (probe_punct t) (range_down (start - 1) (Nat.max last_end (start - 20))) ;;
  match sp with
  | Some _ => Ok sp
  | None => first_hit (probe_paren t) (range_down (start - 1) (Nat.max last_end (start - 10)))
  end.

(** The loop of strategy 4 over the pairs after the first. *)
Fixpoint s4_loop (t : text) (starts : list nat) (last_end : nat)
    (readings : list text) : result (nat * list text) :=
  match starts with
  | [] => Ok (last_end, readings)
  | start :: rest =>
      sp <- find_split t start last_end ;;
      match sp with
      | Some p =>
          if last_end <? p then
            let reading := strip (slice last_end p t) in
            s4_loop t rest p
              (if long_enough reading then readings ++ [reading] else readings)
          else s4_loop t rest last_end readings
      | None => s4_loop t rest last_end readings
      end
  end.

Definition strategy4 (t : text) : result (list text) :=
  let pairs := extract_author_year_pairs t in
  if 1 <? List.length pairs then
    r <- s4_loop t (map (fun p => fst (fst p)) (tl pairs)) 0 [] ;;
    let '(last_end, readings) := r in
    let remaining := strip (skipn last_end t) in
    Ok (if long_enough remaining then readings ++ [remaining] else readings)
  else Ok [].

Definition several (l : list text) : bool := 1 <? List.length l.

(** [split_concatenated_readings]: the first strategy that yields more
    than one segment, else the normalised text alone. *)
Definition split_concatenated_readings (t : text) : result (list text) :=
  let t := normalize_pdf_text t in
  match t with
  | [] => Ok []
  | _ =>
      if List.length t <? 40 then Ok [t]
      else if several (strategy1 t) then Ok (strategy1 t)
      else if several (strategy2 t) then Ok (strategy2 t)
      else if several (strategy3 t) then Ok (strategy3 t)
      else
        r4 <- strategy4 t ;;
        if several r4 then Ok r4 else Ok [t]
  end.

(* ================================================================= *)
(** ** The semantic analyzer

    The NLP library is outside the repository: what it returns for a text
    is a parameter of the model.  A document holds its tokens, its named
    entities and its sentences (each a list of tokens).  The analyzer is
    [None] when the library is not available. *)

Record token : Type := Token {
  tok_text : text;
  tok_pos : string;     (* [pos_] *)
  tok_tag : string;     (* [tag_] *)
  tok_dep : string      (* [dep_] *)
}.

Record entity : Type := Entity {
  ent_text : text;
  ent_label : string;   (* [label_] *)
  ent_end_char : nat
}.

Record doc : Type := Doc {
  tokens : list token;
  ents : list entity;
  sents : list (list token)
}.

Definition analyzer := option (text -> doc).

Definition is_available (an : analyzer) : bool :=
  match an with Some _ => true | None => false end.

(** [needle in hay] for texts. *)
Fixpoint contains (needle hay : text) : bool :=
  startswith needle hay ||
  match hay with
  | _ :: hay' => contains needle hay'
  | [] => false
  end.

Definition ents_with (label : string) (d : doc) : list text :=
  map ent_text (filter (fun e => String.eqb (ent_label e) label) (ents d)).

Definition is_vb (tk : token) : bool :=
  String.eqb (tok_pos tk) "VERB" && String.eqb (tok_tag tk) "VB".

Definition publisher_words : list text :=
  [str "press"; str "publishing"; str "journal"; str "university"].

(** [_has_publication_pattern] *)
Definition has_publication_pattern (t : text) (d : doc) : bool :=
  existsb (fun e =>
             String.eqb (ent_label e) "PERSON" &&
             found (seq [Cls (of_set "(,"); ws; year4])
                   (slice (ent_end_char e) (ent_end_char e + 50) t))
          (ents d)
  || existsb (fun e =>
                String.eqb (ent_label e) "ORG" &&
                existsb (fun pub => contains pub (lower (ent_text e))) publisher_words)
             (ents d).

(** [_has_instruction_pattern] *)
Definition has_instruction_pattern (d : doc) : bool :=
  let has_you := existsb (fun tk => text_eqb (lower (tok_text tk)) (str "you")) (tokens d) in
  let has_modal := existsb (fun tk => String.eqb (tok_tag tk) "MD") (tokens d) in
  let imperative_count :=
    List.length (filter (fun sent => match sent with
                                     | first :: _ => is_vb first
                                     | [] => false
                                     end) (sents d)) in
  (has_you && has_modal) || (1 <=? imperative_count).

(** The result of [analyze] for an available analyzer. *)
Record analysis : Type := Analysis {
  persons : list text;
  organizations : list text;
  dates : list text;
  works_of_art : list text;
  sentence_count : nat;
  starts_with_verb : bool;
  publication_pattern : bool;
  instruction_pattern : bool
}.

Definition person_count (a : analysis) : nat := List.length (persons a).

(** [analyze] *)
Definition analyze (nlp : text -> doc) (t : text) : analysis :=
  let d := nlp t in
  Analysis (ents_with "PERSON" d) (ents_with "ORG" d) (ents_with "DATE" d)
           (ents_with "WORK_OF_ART" d)
           (List.length (sents d))
           (match sents d with
            | (first :: _) :: _ => is_vb first
            | _ => false
            end)
           (has_publication_pattern t d)
           (has_instruction_pattern d).

(** [is_complete_sentence] for an available analyzer. *)
Definition is_complete_sentence (nlp : text -> doc) (t : text) : bool :=
  let d := nlp t in
  existsb (fun tk => String.eqb (tok_dep tk) "nsubj" || String.eqb (tok_dep tk) "nsubjpass")
          (tokens d)
  && existsb (fun tk => String.eqb (tok_pos tk) "VERB") (tokens d).

(** A number in decimal. *)
Definition dec_text (n : nat) : text :=
  str (DecimalString.NilZero.string_of_uint (Nat.to_uint n)).

(** [sep.join(ts)] *)
Fixpoint join (sep : text) (ts : list text) : text :=
  match ts with
  | [] => []
  | [t] => t
  | t :: ts' => t ++ sep ++ join sep ts'
  end.

(** A publication year: "\d{4}$" at the start of the stripped date, or
    [\b(19|20)\d{2}\b] within it. *)
Definition looks_like_year (date : text) : bool :=
  matches (seq [year4; Eol]) (strip date)
  || found (seq [Wb; Grp 1 (words ["19"; "20"]); times is_digit 2; Wb]) date.

(** [get_semantic_score] for an available analyzer: the score and its
    reasons. *)
Definition get_semantic_score (nlp : text -> doc) (t : text) : Z * list text :=
  let a := analyze nlp t in
  let r1 :=
    if 0 <? person_count a then
      let bonus := Nat.min (person_count a * 2) 6 in
      (Z.of_nat bonus,
       [str "+" ++ dec_text bonus ++ str " Found " ++ dec_text (person_count a)
        ++ str " person name(s): " ++ join (str ", ") (firstn 3 (persons a))])
    else (0%Z, []) in
  let r2 :=
    match filter (fun org => existsb (fun pub => contains pub (lower org))
                               [str "press"; str "publishing"; str "university"; str "journal"])
                 (organizations a) with
    | org :: _ => (3%Z, [str "+3 Publisher/academic org: " ++ org])
    | [] => (0%Z, [])
    end in
  let r3 :=
    match filter looks_like_year (dates a) with
    | date :: _ => (2%Z, [str "+2 Publication year detected: " ++ date])
    | [] => (0%Z, [])
    end in
  let r4 :=
    match works_of_art a with
    | w :: _ => (3%Z, [str "+3 Title detected: " ++ firstn 40 w])
    | [] => (0%Z, [])
    end in
  let r5 := if publication_pattern a
            then (4%Z, [str "+4 Publication pattern (Author + Year)"]) else (0%Z, []) in
  let r6 := if instruction_pattern a
            then ((-4)%Z, [str "-4 Instruction pattern (you/modal verbs)"]) else (0%Z, []) in
  let r7 := if starts_with_verb a
            then ((-3)%Z, [str "-3 Starts with imperative verb"]) else (0%Z, []) in
  let all := [r1; r2; r3; r4; r5; r6; r7] in
  (fold_left Z.add (map fst all) 0%Z, flat_map snd all).

Inductive semantic_class : Type := SemReading | SemInstruction | SemUnknown.

(** [classify_text_type]: the label and the confidence, the confidence in
    hundredths (the source compares it with 0.5, 0.6 and 0.7 only). *)
Definition classify_text_type (an : analyzer) (t : text) : semantic_class * Z :=
  match an with
  | None => (SemUnknown, 0%Z)
  | Some nlp =>
      let score := fst (get_semantic_score nlp t) in
      if List.length (strip t) <? 20 then (SemUnknown, 90%Z)
      else if (6 <=? score)%Z then (SemReading, Z.min 95 (70 + (score - 6) * 5))
      else if (score <=? -4)%Z then (SemInstruction, Z.min 95 (70 + Z.abs (score + 4) * 5))
      else if (3 <=? score)%Z then (SemReading, 60%Z)
      else if (score <=? -2)%Z then (SemInstruction, 60%Z)
      else (SemUnknown, 30%Z)
  end.

(* ================================================================= *)
(** ** The scoring engine and the header detector *)

(** [\bw\b] for a literal. *)
Definition bword (w : string) : re := seq [Wb; lit w; Wb].
(** [\b(w1|w2|...)\b] *)
Definition bwords (ws : list string) : re := seq [Wb; Grp 1 (words ws); Wb].
(** [\ba\b.*\bb\b] *)
Definition then_later (a b : re) : re := seq [a; star dot; b].

Definition description_patterns : list re :=
  [ bword "this course"; bword "the course"; bword "this class"; bword "the class";
    bword "this seminar"; bword "students will"; bword "students learn";
    bword "students are"; bword "we will"; bword "we explore"; bword "we examine";
    bword "you will"; bword "you learn"; bword "introduces students";
    bword "designed to"; bword "purpose of this"; bword "goal of this";
    bword "aims to"; bword "seeks to"; bword "focuses on";
    then_later (bword "explores") (bword "through");
    then_later (bword "examines") (bword "through");
    then_later (bword "addresses") (seq [Wb; lit "question"; copt (of_set "s"); Wb]);
    seq [bword "what is"; star dot; lit "?"; ws; lit "what"; Wb];
    seq [bword "what are"; star dot; lit "?"; ws];
    seq [bword "how do"; star dot; lit "?"];
    seq [bword "why do"; star dot; lit "?"] ].

(** [is_course_description] *)
Definition is_course_description (t : text) : bool :=
  let text_lower := strip (lower t) in
  existsb (fun p => found p text_lower) description_patterns.

Definition day_names : list string :=
  ["monday"; "tuesday"; "wednesday"; "thursday"; "friday"; "saturday"; "sunday"].

Definition month_abbr3 : list string :=
  ["jan"; "feb"; "mar"; "apr"; "may"; "jun"; "jul"; "aug"; "sep"; "oct"; "nov"; "dec"].

(** [\d{1,2}:\d{2}] *)
Definition clock : re := seq [between is_digit 1 2; lit ":"; times is_digit 2].

(** [pp?\.?\s*\d+[-–]?\d*] *)
Definition page_numbers : re :=
  seq [lit "p"; copt (of_set "p"); copt (of_set "."); ws; digits;
       copt (chars "-" [en_dash]); star is_digit].

(** [^[A-Z][a-z]+(?:\s+(?:and|&)\s+[A-Z][a-z]+)?\s*[\(,]\s*\d{4}] *)
Definition author_year_start : re :=
  seq [Bol; cap_word; and_cap; ws; Cls (of_set "(,"); ws; year4].

Definition strong_starters : list re :=
  [ seq [Bol; Grp 1 (words ["read"; "write"; "submit"; "complete"; "prepare"; "review";
                            "discuss"; "bring"; "post"; "upload"; "email"; "send"]);
         Cls is_space];
    seq [Bol; Grp 1 (words ["please"; "note:"; "note that"; "you should"; "you will";
                            "you must"]); Wb];
    seq [Bol; Grp 1 (words ["students will"; "students should"; "students must"]); Wb];
    seq [Bol; Grp 1 (words ["be prepared"; "come prepared"; "make sure"; "don't forget";
                            "remember to"]); Wb];
    seq [Bol; Grp 1 (words ["assignment"; "homework"; "essay"; "paper due"; "exam"; "quiz";
                            "midterm"; "final"]); Wb];
    seq [Bol; Grp 1 (words ["no class"; "class canceled"; "class cancelled"]); Wb] ].

Definition medium_instruction_patterns : list re :=
  [ seq [Wb; lit "office"; ws; lit "hour"; copt (of_set "s"); Wb];
    seq [clock; ws; plus (chars "-to" [en_dash]); ws; clock];
    seq [Wb; Grp 1 (words day_names); copt (of_set "s"); ws1; Cls is_digit];
    seq [Wb; Grp 1 (words ["due"; "submit"; "by"; "before"]); ws;
         opt (Grp 2 (words [":"; "on"; "by"])); ws;
         Grp 3 (Alt (words month_abbr3) (seq [between is_digit 1 2; lit "/"]))];
    seq [Wb; digits; ws;
         Grp 1 (alts [lit "%"; lit "percent"; seq [lit "point"; copt (of_set "s")]]); Wb];
    bwords ["grade"; "grading"; "evaluation"; "attendance"; "participation"];
    bwords ["on canvas"; "on blackboard"; "on moodle"; "on courseworks"; "course reserve"];
    bwords ["in person"; "in-person"; "zoom"; "virtual"; "hybrid"];
    bwords ["film screening"; "movie:"; "watch:"; "view:"; "listen to"];
    bwords ["response paper"; "reflection"; "blog post"; "discussion post";
            "group project"; "presentation"] ].

Definition weak_instruction_patterns : list re :=
  [ bwords ["tba"; "tbd"; "to be announced"; "to be determined"];
    bwords ["see "; "refer to"; "check "; "visit "];
    bwords ["available on"; "available at"; "posted on"];
    bwords ["professor "; "prof."; "prof "; "dr."; "dr "; "instructor:"];
    bwords ["classroom"; "room "; "location:"; "class time"; "meeting time"];
    bwords ["this week"; "this class"; "today we"; "we will"; "we are"];
    bwords ["in class"; "for class"; "before class"; "after class"] ].

Definition negative_instruction_patterns : list (re * Z) :=
  [ (author_year_start, (-3)%Z);
    (seq [Wb; page_numbers], (-2)%Z);
    (seq [Wb; Grp 1 (words ["journal"; "quarterly"; "review"; "studies"; "proceedings"]);
          ws1; lit "of"; Wb], (-2)%Z);
    (bwords ["university press"; "oxford"; "cambridge"; "routledge"; "sage"; "springer"],
     (-2)%Z);
    (Alt (bwords ["isbn"; "doi"]) (lit "doi.org"), (-2)%Z) ].

(** The sum of the weights of the patterns found in [t]. *)
Definition weigh (flags : re -> re) (ps : list (re * Z)) (t : text) : Z :=
  fold_left (fun acc pw => if found (flags (fst pw)) t then (acc + snd pw)%Z else acc) ps 0%Z.

Definition each (w : Z) (ps : list re) : list (re * Z) := map (fun p => (p, w)) ps.

(** The semantic part of the instruction score. *)
Definition semantic_instruction_score (an : analyzer) (text_clean : text) : Z :=
  match an with
  | None => 0%Z
  | Some nlp =>
      let a := analyze nlp text_clean in
      ((if instruction_pattern a then 4 else 0)
       + (if starts_with_verb a then 3 else 0)
       + (if publication_pattern a then -3 else 0)
       + (if Nat.leb 2 (person_count a) then -2 else 0))%Z
  end.

(** [get_instruction_score]: the score; its list of reasons, which no
    caller reads, is left out. *)
Definition get_instruction_score (an : analyzer) (t : text) : Z :=
  let t := strip t in
  let text_clean := strip_bullet t in
  let text_lower := lower text_clean in
  (semantic_instruction_score an text_clean
   + (if is_course_description t then 4 else 0)
   + weigh id (each 3 strong_starters) text_lower
   + weigh id (each 2 medium_instruction_patterns) text_lower
   + weigh id (each 1 weak_instruction_patterns) text_lower
   + weigh id negative_instruction_patterns text_lower)%Z.

Definition month_names : list string :=
  ["january"; "february"; "march"; "april"; "may"; "june"; "july"; "august";
   "september"; "october"; "november"; "december"].

Definition month_abbr : list string :=
  ["jan"; "feb"; "mar"; "apr"; "may"; "jun"; "jul"; "aug"; "sep"; "sept"; "oct"; "nov"; "dec"].

Definition header_keywords : list string :=
  ["introduction"; "overview"; "conclusion"; "review"; "midterm"; "final";
   "exam"; "break"; "holiday"; "no class"; "thanksgiving"; "spring break";
   "readings"; "required readings"; "recommended readings"; "optional readings";
   "assignments"; "topics"; "schedule"; "theme"; "topic";
   "course policies"; "policies"; "grading"; "grade breakdown";
   "office hours"; "contact"; "instructor"; "professor"; "ta ";
   "teaching assistant"; "course objectives"; "learning objectives";
   "course description"; "description"; "prerequisites"; "materials";
   "required materials"; "textbooks"; "books"; "resources"].

Definition season : re := Grp 1 (words ["spring"; "fall"; "summer"; "winter"]).

(** [^week\s*\d+] *)
Definition week_start : re := seq [Bol; lit "week"; ws; digits].

(** The checks of [is_header], in the order of the source. *)
Definition header_course_code (t : text) : bool :=
  matches (seq [Bol; between AZ 2 5; ws; between is_digit 2 4;
                Cls (cor (of_set ":-") is_space)]) (strip t).

Definition header_term (text_lower : text) : bool :=
  found (seq [lit "["; season; ws1; year4; lit "]"]) text_lower
  || found (seq [lit "("; season; ws1; year4; lit ")"]) text_lower.

Definition header_week (text_clean : text) : bool := matches week_start text_clean.

Definition header_session (text_clean : text) : bool :=
  matches (seq [Bol; Grp 1 (words ["session"; "class"; "module"; "unit"; "part"; "section";
                                   "lecture"; "seminar"; "meeting"; "day"]); ws; digits])
          text_clean.

Definition header_date (text_clean : text) : bool :=
  matches (seq [Bol; Grp 1 (words (month_names ++ month_abbr)); copt (of_set "."); ws1;
                between is_digit 1 2]) text_clean
  || matches (seq [Bol; between is_digit 1 2; lit "/"; between is_digit 1 2;
                   opt (Grp 1 (seq [lit "/"; between is_digit 2 4])); Eol]) text_clean.

Definition header_day (text_clean : text) : bool :=
  matches (seq [Bol; Grp 1 (words day_names)]) text_clean.

Definition header_keyword (text_clean : text) : bool :=
  existsb (fun kw => text_eqb text_clean (str kw)
                     || startswith (str kw ++ str ":") text_clean
                     || startswith (str kw ++ str " -") text_clean)
          header_keywords.

Definition header_caps (t : text) : bool :=
  (List.length t <? 60) && isupper (replace_char 32%N [] t) && (3 <? List.length t).

Definition header_colon (t : text) : bool :=
  (List.length t <? 40) && endswith (str ":") t.

(** "^[IVX]+\.\s" *)
Definition header_roman (t : text) : bool :=
  matches (seq [Bol; plus (of_set "IVX"); lit "."; Cls is_space]) t.

(** [is_header] *)
Definition is_header (t : text) : bool :=
  let text_lower := strip (lower t) in
  let text_clean := strip_bullet text_lower in
  header_course_code t
  || header_term text_lower
  || header_week text_clean
  || header_session text_clean
  || header_date text_clean
  || header_day text_clean
  || header_keyword text_clean
  || header_caps t
  || header_colon t
  || header_roman t.

(** [is_instruction] *)
Definition is_instruction (an : analyzer) (t : text) : bool :=
  let t := strip t in
  if List.length t <? 15 then false
  else
    let score := get_instruction_score an t in
    if is_header t then false else (3 <=? score)%Z.

Definition quote_open : cls := chars "" [dq; ldquo].
Definition quote_close : cls := chars "" [dq; rdquo].
Definition any_quote : cls := chars "'" [dq; ldquo; rdquo].

Definition strong_reading_patterns : list (re * string) :=
  [ (author_year_start, "Author (Year)");
    (seq [Bol; cap_word; ws1; lit "et"; ws1; lit "al"; copt (of_set "."); ws;
          copt (of_set "(,"); ws; year4], "Author et al. (Year)");
    (seq [Bol; cap_word; lit ","; ws; Cls AZ; plus (cor az (of_set ".")); ws;
          Cls (of_set "(,"); ws; year4], "Last, First (Year)");
    (seq [Cls quote_open; atleast (cnot quote_close) 20; Cls quote_close], "Quoted title") ].

(** [(?:by)?] *)
Definition opt_by : re := opt (lit "by").

Definition medium_reading_patterns : list (re * string) :=
  [ (paren_year, "Year in parens");
    (seq [lit ","; ws; year4; Cls (cor (of_set ",.$") is_space)], "Year after comma");
    (page_numbers, "Page numbers");
    (seq [lit "vol"; copt (of_set "."); ws; digits], "Volume");
    (seq [lit "no"; copt (of_set "."); ws; digits], "Issue number");
    (seq [Wb; lit "ch"; opt (lit "apter"); copt (of_set "."); ws; digits], "Chapter");
    (seq [Cls any_quote; atleast dot 15; Cls any_quote], "Quoted text");
    (seq [Wb; Cls (of_set "Ee"); lit "d"; opt (Alt (lit "s") (lit "ited"));
          copt (of_set "."); ws; opt_by; ws; Cls AZ], "Editor");
    (seq [Wb; Cls (of_set "Tt"); lit "rans"; opt (lit "lated"); copt (of_set "."); ws;
          opt_by; ws; Cls AZ], "Translator");
    (seq [Cls (of_set "Uu"); lit "niversity"; ws1; Cls (of_set "Pp"); lit "ress"],
     "University Press");
    (seq [Cls (of_set "Jj"); lit "ournal"; ws1; lit "of"; ws1; Cls AZ], "Journal of...");
    (seq [Wb; words ["Quarterly"; "Review"; "Studies"; "Bulletin"; "Proceedings"]; ws1;
          opt (seq [lit "of"; ws1]); Cls AZ], "Academic journal");
    (seq [Wb; words ["Oxford"; "Cambridge"; "Routledge"; "Sage"; "Springer"; "Wiley";
                     "Penguin"; "Harvard"; "Yale"; "Princeton"]; Wb], "Major publisher");
    (alts [seq [Wb; words ["ISBN"; "DOI"]; Wb]; lit "doi.org";
           seq [lit "doi:"; ws; lit "10."]], "Identifier");
    (seq [lit "("; digits; lit "):"; ws; digits; copt (chars "-" [en_dash]);
          star is_digit], "Vol(issue): pages");
    (seq [Wb; lit "In:"; ws1; cap_word], "In: anthology");
    (Alt (seq [Wb; lit "ed."; ws1; lit "by"; ws1; Cls AZ])
         (seq [Wb; lit "edited"; ws1; lit "by"; ws1; Cls AZ]), "Edited by");
    (Alt (seq [lit "excerpt"; copt (of_set "s"); ws1; lit "from"])
         (seq [lit "selection"; copt (of_set "s"); ws1; lit "from"]), "Excerpt/selection") ].

Definition negative_reading_patterns : list (re * string * Z) :=
  [ (seq [Bol; Grp 1 (Alt (seq [lit "http"; copt (of_set "s"); lit "://"]) (lit "www."));
          plus (cnot is_space); Eol], "URL only", (-2)%Z);
    (seq [Bol; digits; ws;
          Grp 1 (alts [lit "%"; lit "percent"; seq [lit "point"; copt (of_set "s")]])],
     "Grading info", (-2)%Z);
    (seq [Bol; Grp 1 (words ["Monday"; "Tuesday"; "Wednesday"; "Thursday"; "Friday";
                             "Saturday"; "Sunday"]); Wb], "Day of week", (-2)%Z);
    (seq [Bol; between is_digit 1 2; Cls (of_set ":/"); times is_digit 2], "Time", (-2)%Z);
    (bword "this course", "Course description", (-3)%Z);
    (bword "the course", "Course description", (-3)%Z);
    (bword "this class", "Course description", (-3)%Z);
    (bword "students will", "Course description", (-3)%Z);
    (bword "students learn", "Course description", (-3)%Z);
    (bword "we will", "Course description", (-2)%Z);
    (bword "office hours", "Office hours", (-3)%Z);
    (seq [clock; ws; Cls (chars "-" [en_dash]); ws; clock], "Time range", (-2)%Z);
    (seq [bword "what is"; star dot; lit "?"], "Question", (-2)%Z);
    (seq [bword "how do"; star dot; lit "?"], "Question", (-2)%Z);
    (bword "in person", "Meeting format", (-2)%Z) ].

(** The score and the reasons of the patterns of a table found in [t],
    under [re.IGNORECASE]. *)
Definition tally (ps : list (re * text * Z)) (t : text) : Z * list text :=
  fold_left (fun acc p =>
               let '(pat, reason, w) := p in
               if found (nocase pat) t then ((fst acc + w)%Z, snd acc ++ [reason]) else acc)
            ps (0%Z, []).

(** The reason of a penalty, [f"({penalty}) {reason}"]. *)
Definition penalty_reason (w : Z) (reason : string) : text :=
  str "(-" ++ dec_text (Z.to_nat (- w)) ++ str ") " ++ str reason.

(** [any('[NLP]' in r and 'person' in r.lower() for r in reasons)] *)
Definition mentions_person (reasons : list text) : bool :=
  existsb (fun r => contains (str "[NLP]") r && contains (str "person") (lower r)) reasons.

(** [get_reading_score]: the score and its reasons. *)
Definition get_reading_score (an : analyzer) (t : text) : Z * list text :=
  let t := strip t in
  let text_clean := strip_bullet t in
  let '(s0, r0) :=
    match an with
    | Some nlp =>
        let '(sem_score, sem_reasons) := get_semantic_score nlp text_clean in
        (sem_score, map (fun r => str "[NLP] " ++ r) sem_reasons)
    | None => (0%Z, [])
    end in
  let '(s1, r1) :=
    tally (map (fun p => (fst p, str (snd p), 3%Z)) strong_reading_patterns) text_clean in
  let '(s2, r2) :=
    tally (map (fun p => (fst p, str (snd p), 1%Z)) medium_reading_patterns) text_clean in
  let '(s3, r3) :=
    if negb (mentions_person (r0 ++ r1 ++ r2)) && looks_like_author text_clean
    then (2%Z, [str "Starts with author name"]) else (0%Z, []) in
  let '(s4, r4) :=
    if 80 <? List.length text_clean then (1%Z, [str "Substantial length"]) else (0%Z, []) in
  let '(s5, r5) :=
    tally (map (fun p => let '(pat, reason, w) := p in (pat, penalty_reason w reason, w))
               negative_reading_patterns) text_clean in
  ((s0 + s1 + s2 + s3 + s4 + s5)%Z, r0 ++ r1 ++ r2 ++ r3 ++ r4 ++ r5).

(** [is_reading] *)
Definition is_reading (an : analyzer) (t : text) : bool :=
  let t := strip t in
  if List.length t <? 20 then false
  else if is_header t || is_instruction an t then false
  else (3 <=? fst (get_reading_score an t))%Z.

(** The characters that cannot be part of a URL, and those that cannot end one. *)
Definition url_stop : cls := cor is_space (chars "<>')]" [dq]).
Definition url_end_stop : cls := cor is_space (chars "<>')].,;:!?" [dq]).

(** [extract_url] *)
Definition extract_url (t : text) : option text :=
  match re_search (seq [lit "http"; copt (of_set "s"); lit "://"; plus (cnot url_stop);
                        Cls (cnot url_end_stop)]) t with
  | Some m => Some (group0 t m)
  | None =>
      match re_search (seq [lit "www."; plus (cnot url_stop); Cls (cnot url_end_stop)]) t with
      | Some m => Some (str "https://" ++ group0 t m)
      | None => None
      end
  end.

(** The number a run of decimal digits writes. *)
Definition int_of (ds : text) : Z :=
  fold_left (fun acc c => (acc * 10 + (Z.of_N c - 48))%Z) ds 0%Z.

(** [sys.int_info.default_max_str_digits] of CPython 3.11. *)
Definition max_str_digits : nat := 4300.

(** [int(digits)] on a run of decimal digits.  Integers are unbounded, but
    the interpreter converts at most [max_str_digits] digits, leading zeros
    counted, and raises [ValueError] on a longer run. *)
Definition py_int (ds : text) : result Z :=
  if max_str_digits <? List.length ds then Raise ValueError else Ok (int_of ds).

(** "^\s*week\s+(\d+)" under [re.IGNORECASE]. *)
Definition week_pattern : re := nocase (seq [Bol; ws; lit "week"; ws1; Grp 1 digits]).

(** [is_week_header]: the week number, [None] when the text is no week
    header; the conversion of the digits can raise. *)
Definition is_week_header (t : text) : result (option Z) :=
  match re_match week_pattern t with
  | Some m => week <- py_int (group t m 1) ;; Ok (Some week)
  | None => Ok None
  end.

(* ================================================================= *)
(** ** The boundary classifier *)

Definition incomplete_endings : list string :=
  [" in"; " in:"; " the"; " a"; " an"; " and"; " or"; " of"; " for"; " to";
   " by"; " from"; " with"; " on"; " at"; " as"; ","; ":"; ";";
   " vol"; " vol."; " pp"; " pp."; " ed"; " ed."; " eds"; " eds.";
   " trans"; " trans."; " chapter"; " ch"; " ch."; "&";
   " new"; " york"; " cambridge"; " oxford"; " london"; " chicago"].

(** [is_incomplete_line] *)
Definition is_incomplete_line (an : analyzer) (t : text) : bool :=
  let t := strip t in
  match t with
  | [] => false
  | _ =>
      (match an with
       | Some nlp =>
           negb (is_complete_sentence nlp t)
           && (looks_like_author t || found paren_year t || (30 <? List.length t))
       | None => false
       end)
      || existsb (fun e => endswith (str e) (lower t)) incomplete_endings
      || (endswith [dq] t || endswith (str "'") t || endswith [ldquo] t)
      || found (seq [Cls az; lit "-"; Eol]) t
      || (found (seq [Cls is_space; cap_word; Eol]) t && negb (endswith (str ".") t)
          && negb (found (seq [lit "."; ws; cap_word; Eol]) t))
      || (negb (found (seq [Cls (cor (of_set ".!?)]") is_digit); Eol]) t)
          && (looks_like_author t || found paren_year t
              || found (Cls (chars "" [dq; ldquo; rdquo])) t))
  end.

Definition journal_starts : list string :=
  ["Journal"; "Quarterly"; "Review"; "Studies"; "Research"; "Bulletin";
   "Proceedings"; "American"; "British"; "International"; "Annual";
   "European"; "Canadian"; "Australian"; "African"; "Asian"; "Latin";
   "Social"; "Cultural"; "Political"; "Economic"; "Historical";
   "Inquiry"; "Analysis"; "Perspectives"; "Theory"; "Practice";
   "Signs"; "Gender"; "Feminist"; "Women"; "Men"; "Sexuality"].

Definition publisher_starts : list string :=
  ["Oxford"; "Cambridge"; "Routledge"; "Sage"; "Springer"; "Wiley";
   "University"; "Press"; "Books"; "Publishing"; "Publishers";
   "Harper"; "Random"; "Penguin"; "Basic"; "Free"; "Duke"; "MIT";
   "Harvard"; "Yale"; "Princeton"; "Stanford"; "Chicago"; "California";
   "New York"; "London"; "Boston"; "Philadelphia"].

(** [t.split()]: the maximal runs of characters that are not white space;
    [cur] holds the run being read, last character first. *)
Fixpoint split_words (cur : text) (t : text) : list text :=
  match t with
  | [] => match cur with [] => [] | _ => [rev cur] end
  | c :: t' =>
      if is_space c then
        match cur with
        | [] => split_words [] t'
        | _ => rev cur :: split_words [] t'
        end
      else split_words (c :: cur) t'
  end.

Definition py_split (t : text) : list text := split_words [] t.

(** [name.split()[-1]], the last word of a name: [IndexError] when the name
    has no word, that is when it is empty or white space alone. *)
Definition last_word (name : text) : result text :=
  match rev (py_split name) with
  | w :: _ => Ok w
  | [] => Raise IndexError
  end.

(** The analyzer finds a person at the very start of the text:
    [text.startswith(first_person) or
     text.startswith(first_person.split()[-1])], the last word taken only
    when the text does not start with the whole name. *)
Definition starts_with_person (an : analyzer) (t : text) : result bool :=
  match an with
  | Some nlp =>
      match persons (analyze nlp t) with
      | first_person :: _ =>
          if startswith first_person t then Ok true
          else w <- last_word first_person ;; Ok (startswith w t)
      | [] => Ok false
      end
  | None => Ok false
  end.

Definition dash : cls := chars "-" [en_dash].

(** [is_continuation_line] *)
Definition is_continuation_line (an : analyzer) (t : text) : result bool :=
  let t := strip t in
  match t with
  | [] => Ok false
  | c0 :: _ =>
      person <- starts_with_person an t ;;
      if person then Ok false
      else Ok (
        is_lower_char c0
        || matches (nocase (seq [Bol;
                     Grp 1 (alts [seq [lit "Vol"; copt (of_set ".")]; lit "Volume";
                                  seq [lit "p"; copt (of_set "p"); copt (of_set ".")];
                                  lit "Issue"; seq [lit "No"; copt (of_set ".")];
                                  lit "Chapter"; seq [lit "Ch"; copt (of_set ".")]]);
                     ws; Cls is_digit])) t
        || matches (seq [Bol; digits; ws; Cls (chars "-:()" [en_dash])]) t
        || matches (seq [Bol; lit "("; digits; lit ")"]) t
        || existsb (fun j => startswith (str j) t) journal_starts
        || existsb (fun j => startswith (str j) t) publisher_starts
        || (startswith [dq] t || startswith (str "'") t || startswith [rdquo] t
            || startswith (str ")") t)
        || matches (nocase (seq [Bol; Grp 1 (words ["ed."; "eds."; "trans."; "translated"])])) t
        || matches (nocase (seq [Bol; Grp 1 (words ["and"; "or"; "in"; "of"; "for"; "the";
                                                     "a"; "an"]); Cls is_space])) t
        || ((List.length t <? 40)
            && (matches (seq [Bol; plus (cor (cor is_digit is_space) (chars "-:,()." [en_dash]));
                              Eol]) t
                || found (seq [Bol; digits; Cls dash; digits; copt (of_set "."); Eol]) t))
        || (negb (matches (seq [Bol; cap_word; plus (cor (of_set ",") is_space);
                                alts [Cls AZ; lit "and"; lit "("; year4]]) t)
            && matches (seq [Bol; cap_word]) t
            && negb (found (seq [Bol; cap_word; ws; Cls (of_set "(,"); ws; year4]) t)))
  end.

(** The last character of a text is one of [.!?)]], the right double
    quotation mark and the double quote. *)
Definition ends_terminal (t : text) : bool :=
  match rev t with
  | c :: _ => mem c (str ".!?)]" ++ [rdquo; dq])
  | [] => false
  end.

(** The analyzer's check of [should_merge_lines]: the next line starts
    with the last word of its first person name and has a year in its first
    60 characters.  The last word is taken whenever the name is not empty. *)
Definition person_and_year (an : analyzer) (next_text : text) : result bool :=
  match an with
  | Some nlp =>
      match persons (analyze nlp next_text) with
      | first_person :: _ =>
          match first_person with
          | [] => Ok false
          | _ => w <- last_word first_person ;;
                 Ok (startswith w next_text && found paren_year (firstn 60 next_text))
          end
      | [] => Ok false
      end
  | None => Ok false
  end.

(** The checks of [should_merge_lines] after the basic one. *)
Definition merge_by_shape (an : analyzer) (prev_text next_text : text) : bool :=
  if is_incomplete_line an prev_text
          && matches (nocase (seq [Bol; Grp 1 (alts [lit "Vol"; seq [lit "p"; copt (of_set "p")];
                                                     lit "Issue"; Cls is_digit])])) next_text
  then true
  else if (List.length next_text <? 50)
          && matches (nocase (seq [Bol; plus (cor (cor is_word is_space) (of_set ","));
                                   copt (of_set ","); ws;
                                   opt (Grp 1 (alts [seq [lit "Vol"; copt (of_set ".")];
                                                     seq [lit "p"; copt (of_set "p");
                                                          copt (of_set ".")];
                                                     lit "Issue"]));
                                   ws; Cls is_digit])) next_text
          && is_incomplete_line an prev_text
  then true
  else
    match an with
    | Some nlp =>
        (negb (is_complete_sentence nlp prev_text)
         && is_complete_sentence nlp (prev_text ++ str " " ++ next_text))
        || (match prev_text with
            | [] => false
            | _ => negb (ends_terminal prev_text)
            end
            && match next_text with
               | c :: _ => is_lower_char c
               | [] => false
               end)
    | None => false
    end.

(** [should_merge_lines] *)
Definition should_merge_lines (an : analyzer) (prev_text next_text : text) : result bool :=
  if matches (seq [Bol; cap_word; opt (seq [lit ","; ws; Cls AZ; copt (of_set ".")]); ws;
                   paren_year]) next_text
  then Ok false
  else if looks_like_author next_text && found paren_year (firstn 50 next_text)
  then Ok false
  else
    new_author <- person_and_year an next_text ;;
    if new_author then Ok false
    else if ends_terminal prev_text
            && matches (seq [Bol; cap_word; star dot; paren_year]) next_text
    then Ok false
    else
      basic <- (if is_incomplete_line an prev_text then is_continuation_line an next_text
                else Ok false) ;;
      if basic then Ok true else Ok (merge_by_shape an prev_text next_text).

(* ================================================================= *)
(** ** The fragment merger *)

(** A raw fragment, the dictionary [{'text', 'start', 'end'}]. *)
Record fragment : Type := Fragment {
  f_text : text;
  f_start : nat;
  f_end : nat
}.

(** A merged unit: the fragment's dictionary with its ['full_text']. *)
Record unit_ : Type := Unit {
  u_text : text;
  u_full_text : text;
  u_start : nat;
  u_end : nat
}.

(** [t[:80] + ('...' if len(t) > 80 else '')] *)
Definition display (t : text) : text :=
  firstn 80 t ++ (if 80 <? List.length t then str "..." else []).

(** [item.copy()] with ['full_text'] set to the stripped text. *)
Definition start_unit (item : fragment) (t : text) : unit_ :=
  Unit (f_text item) t (f_start item) (f_end item).

(** One turn of the loop of [merge_fragmented_lines]: the state is
    [merged] and [current]. *)
Definition merge_step (an : analyzer) (acc : list unit_ * option unit_) (item : fragment)
    : result (list unit_ * option unit_) :=
  let '(merged, current) := acc in
  let t := strip (f_text item) in
  match t with
  | [] => Ok acc
  | _ =>
      match current with
      | None => Ok (merged, Some (start_unit item t))
      | Some cur =>
          merge <- should_merge_lines an (u_full_text cur) t ;;
          if merge then
            let full := u_full_text cur ++ str " " ++ t in
            Ok (merged, Some (Unit (display full) full (u_start cur) (f_end item)))
          else Ok (merged ++ [cur], Some (start_unit item t))
      end
  end.

(** [merge_fragmented_lines] *)
Definition merge_fragmented_lines (an : analyzer) (lines : list fragment)
    : result (list unit_) :=
  acc <- fold_each (merge_step an) lines ([], None) ;;
  let '(merged, current) := acc in
  match current with
  | Some cur => Ok (merged ++ [cur])
  | None => Ok merged
  end.

(* ================================================================= *)
(** ** Split points *)

(** The look-behind of the list-item patterns: the character before is
    one of [.!?)]], a double or single quote, or white space. *)
Definition after_break : re := Behind (cor (chars ".!?)]'" [dq]) is_space).

Definition split_point_patterns : list re :=
  [ seq [after_break; ws; Grp 1 (between is_digit 1 2); Cls (of_set ".)"); ws1;
         Ahead (Cls AZ)];
    seq [after_break; ws; lit "("; Grp 1 (between is_digit 1 2); lit ")"; ws;
         Ahead (Cls AZ)];
    seq [after_break; ws; Grp 1 (Cls (cor az AZ)); Cls (of_set ".)"); ws1;
         Ahead (Cls AZ)];
    seq [after_break; ws; Grp 1 (Cls (chars "-*" [bullet; white_bullet])); ws1;
         Ahead (Cls AZ)];
    seq [Behind (of_set ".;!?"); ws1;
         Ahead (seq [cap_word; opt (seq [lit ","; ws; Cls AZ; copt (of_set ".")]); ws;
                     opt (seq [lit "et al"; copt (of_set ".")]); ws; lit "("; year4])] ].

(** [sorted(set(l))] *)
Fixpoint insert_uniq (x : nat) (l : list nat) : list nat :=
  match l with
  | [] => [x]
  | y :: l' =>
      if x <? y then x :: l
      else if x =? y then l
      else y :: insert_uniq x l'
  end.

Definition sorted_set (l : list nat) : list nat := fold_right insert_uniq [] l.

(** The filter of [find_split_points]: a point is kept when it is at
    least 30 after the point kept last; [last_pos] starts at -30. *)
Fixpoint gap_filter (last_pos : Z) (l : list nat) : list nat :=
  match l with
  | [] => []
  | pos :: l' =>
      if (30 <=? Z.of_nat pos - last_pos)%Z
      then pos :: gap_filter (Z.of_nat pos) l'
      else gap_filter last_pos l'
  end.

(** The candidate positions: the starts, beyond position 10, of the
    matches of each pattern. *)
Definition split_candidates (t : text) : list nat :=
  flat_map (fun p => filter (fun pos => 10 <? pos) (map m_start (re_finditer p t)))
           split_point_patterns.

(** [find_split_points] *)
Definition find_split_points (t : text) : list nat :=
  gap_filter (-30)%Z (sorted_set (split_candidates t)).

(* ================================================================= *)
(** ** The classification run *)

(** The sub-kind written into an uncertain item's ['classification']. *)
Inductive uncertain_kind : Type := MaybeReading | Unknown.

(** The dictionary [item] of [classify_single_text]. *)
Record item : Type := Item {
  i_text : text;
  i_full_text : text;
  i_start : nat;
  i_end : nat;
  i_week : Z;
  i_was_split : bool;
  i_score : Z;
  i_instr_score : Z;
  i_semantic_class : semantic_class;
  i_semantic_conf : Z;
  i_reasons : list text;
  i_has_url : bool;
  i_classification : option uncertain_kind;
  i_semantic_boosted : bool
}.

(** The state of one run: the lists of [stats] that the classification
    fills, and [current_week]. *)
Record stats : Type := Stats {
  headers : list item;
  readings : list item;
  instructions : list item;
  uncertain : list item;
  too_short : list item;
  urls : list item;
  split_readings : list item;
  current_week : Z
}.

Definition initial_stats : stats := Stats [] [] [] [] [] [] [] 0%Z.

Definition set_week (w : Z) (it : item) : item :=
  Item (i_text it) (i_full_text it) (i_start it) (i_end it) w (i_was_split it)
       (i_score it) (i_instr_score it) (i_semantic_class it) (i_semantic_conf it)
       (i_reasons it) (i_has_url it) (i_classification it) (i_semantic_boosted it).

Definition set_classification (k : uncertain_kind) (it : item) : item :=
  Item (i_text it) (i_full_text it) (i_start it) (i_end it) (i_week it) (i_was_split it)
       (i_score it) (i_instr_score it) (i_semantic_class it) (i_semantic_conf it)
       (i_reasons it) (i_has_url it) (Some k) (i_semantic_boosted it).

Definition set_boosted (it : item) : item :=
  Item (i_text it) (i_full_text it) (i_start it) (i_end it) (i_week it) (i_was_split it)
       (i_score it) (i_instr_score it) (i_semantic_class it) (i_semantic_conf it)
       (i_reasons it) (i_has_url it) (i_classification it) true.

(** [stats['urls'].append(item)] for an item with a URL.  The list holds
    the dictionary itself, so its entry shows what the classification
    assigns to the item afterwards: the entry is added here with the item
    as the branch leaves it. *)
Definition note_url (it : item) (st : stats) : stats :=
  if i_has_url it then
    Stats (headers st) (readings st) (instructions st) (uncertain st) (too_short st)
          (urls st ++ [it]) (split_readings st) (current_week st)
  else st.

Definition add_header (it : item) (w : Z) (st : stats) : stats :=
  Stats (headers st ++ [it]) (readings st) (instructions st) (uncertain st) (too_short st)
        (urls st) (split_readings st) w.

Definition add_reading (it : item) (st : stats) : stats :=
  Stats (headers st) (readings st ++ [it]) (instructions st) (uncertain st) (too_short st)
        (urls st) (if i_was_split it then split_readings st ++ [it] else split_readings st)
        (current_week st).

(** A reading promoted by the semantic class is not listed among the
    split readings. *)
Definition add_boosted_reading (it : item) (st : stats) : stats :=
  Stats (headers st) (readings st ++ [it]) (instructions st) (uncertain st) (too_short st)
        (urls st) (split_readings st) (current_week st).

Definition add_instruction (it : item) (st : stats) : stats :=
  Stats (headers st) (readings st) (instructions st ++ [it]) (uncertain st) (too_short st)
        (urls st) (split_readings st) (current_week st).

Definition add_uncertain (it : item) (st : stats) : stats :=
  Stats (headers st) (readings st) (instructions st) (uncertain st ++ [it]) (too_short st)
        (urls st) (split_readings st) (current_week st).

Definition add_too_short (it : item) (st : stats) : stats :=
  Stats (headers st) (readings st) (instructions st) (uncertain st) (too_short st ++ [it])
        (urls st) (split_readings st) (current_week st).

(** How a call ends: with the new state, with an exception, or, in the
    model only, without the fuel to go deeper. *)
Inductive outcome : Type :=
| Done : stats -> outcome
| Raised : exn -> outcome
| OutOfFuel : outcome.

(** The item as [classify_single_text] builds it before it classifies. *)
Definition new_item (an : analyzer) (t : text) (start end_ : nat) (is_split : bool)
    (st : stats) : item :=
  let '(score, reasons) := get_reading_score an t in
  let '(semantic_class, semantic_conf) := classify_text_type an t in
  Item (display t) t start end_ (current_week st) is_split score
       (get_instruction_score an t) semantic_class semantic_conf reasons
       (match extract_url t with Some _ => true | None => false end) None false.

(** The last branches, for a text that no strategy splits: the semantic
    class decides when its confidence reaches [read_bar] for a reading or
    [instr_bar] for an instruction (in hundredths). *)
Definition classify_unsplit (it : item) (read_bar instr_bar : Z) (kind : uncertain_kind)
    (st : stats) : stats :=
  match i_semantic_class it with
  | SemReading =>
      if (read_bar <=? i_semantic_conf it)%Z then
        let it := set_boosted (set_week (current_week st) it) in
        add_boosted_reading it (note_url it st)
      else let it := set_classification kind it in add_uncertain it (note_url it st)
  | SemInstruction =>
      if (instr_bar <=? i_semantic_conf it)%Z then add_instruction it (note_url it st)
      else let it := set_classification kind it in add_uncertain it (note_url it st)
  | SemUnknown =>
      let it := set_classification kind it in add_uncertain it (note_url it st)
  end.

(** [classify_single_text]; [fuel] bounds the depth of the recursion into
    split segments. *)
Fixpoint classify_single_text (fuel : nat) (an : analyzer) (t : text) (start end_ : nat)
    (is_split : bool) (st : stats) : outcome :=
  match fuel with
  | 0 => OutOfFuel
  | S fuel' =>
      let it := new_item an t start end_ is_split st in
      let segments (read_bar instr_bar : Z) (kind : uncertain_kind) :=
        match split_concatenated_readings t with
        | Raise e => Raised e
        | Ok split_texts =>
            if 1 <? List.length split_texts then
              fold_left (fun acc split_text =>
                           match acc with
                           | Done st' =>
                               classify_single_text fuel' an (strip split_text)
                                                    start end_ true st'
                           | other => other
                           end)
                        split_texts (Done (note_url it st))
            else Done (classify_unsplit it read_bar instr_bar kind st)
        end in
      if List.length t <? 20 then Done (add_too_short it (note_url it st))
      else if is_header t then
        match is_week_header t with
        | Ok (Some week) =>
            if (week =? 0)%Z then Done (add_header it (current_week st) (note_url it st))
            else let it := set_week week it in Done (add_header it week (note_url it st))
        | Ok None => Done (add_header it (current_week st) (note_url it st))
        | Raise e => Raised e
        end
      else if is_instruction an t then Done (add_instruction it (note_url it st))
      else if (3 <=? i_score it)%Z then
        let it := set_week (current_week st) it in
        Done (add_reading it (note_url it st))
      else if (1 <=? i_score it)%Z then segments 60%Z 60%Z MaybeReading
      else segments 70%Z 50%Z Unknown
  end.

(** "(?:^|[.;]\s+)([A-Z][a-z]+)" *)
Definition author_like : re :=
  seq [Alt Bol (seq [Cls (of_set ".;"); ws1]); Grp 1 cap_word].

(** [classify_line] *)
Definition classify_line (fuel : nat) (an : analyzer) (u : unit_) (st : stats) : outcome :=
  let t := u_full_text u in
  let whole := classify_single_text fuel an t (u_start u) (u_end u) false st in
  if 60 <? List.length t then
    let pairs := extract_author_year_pairs t in
    let author_like_count := List.length (re_finditer author_like t) in
    if (1 <? List.length pairs) || (2 <? author_like_count) then
      match split_concatenated_readings t with
      | Raise e => Raised e
      | Ok split_texts =>
          if 1 <? List.length split_texts then
            fold_left (fun acc split_text =>
                         match acc with
                         | Done st' =>
                             classify_single_text fuel an (strip split_text)
                                                  (u_start u) (u_end u) true st'
                         | other => other
                         end)
                      split_texts (Done st)
          else whole
      end
    else whole
  else whole.

(** The loop of [clean_syllabus] over the merged lines. *)
Definition classify_lines (fuel : nat) (an : analyzer) (us : list unit_) (st : stats)
    : outcome :=
  fold_left (fun acc u =>
               match acc with
               | Done st' => classify_line fuel an u st'
               | other => other
               end) us (Done st).

(** The classification of [clean_syllabus]: the raw lines are merged and
    each merged line is classified, from the initial state. *)
Definition classify_document (fuel : nat) (an : analyzer) (raw_lines : list fragment)
    : outcome :=
  match merge_fragmented_lines an raw_lines with
  | Ok merged_lines => classify_lines fuel an merged_lines initial_stats
  | Raise e => Raised e
  end.

(* ================================================================= *)
(** ** Queries and file names *)

(** [' '.join(t.split())] *)
Definition single_spaced (t : text) : text := join (str " ") (py_split t).

(** "pp\.?\s*\d+[-–]?\d*" *)
Definition pp_pages : re :=
  seq [lit "pp"; copt (of_set "."); ws; digits; copt (chars "-" [en_dash]); star is_digit].

(** "vol\.\s*\d+" under [re.I] *)
Definition vol_number : re := nocase (seq [lit "vol."; ws; digits]).

(** [re.sub(r, '', t)] *)
Definition remove (r : re) (t : text) : text := re_sub r (fun _ _ => []) t.

(** [clean_query] *)
Definition clean_query (t : text) : text :=
  let t := remove pp_pages t in
  let t := remove paren_year t in
  let t := remove vol_number t in
  firstn 150 (single_spaced t).

(** [safe_filename] *)
Definition safe_filename (t : text) : text :=
  let safe := filter (fun c => is_alnum c || mem c (str " -")) t in
  firstn 50 (single_spaced safe).

(** "[^\w\s]" *)
Definition punctuation : cls := cnot (cor is_word is_space).

(** [normalize_text] *)
Definition normalize_text (t : text) : text :=
  let t := lower t in
  let t := re_sub (Cls punctuation) (fun _ _ => str " ") t in
  single_spaced t.

(* ================================================================= *)
(** ** The configuration file *)

(** [c.upper()] for one character: the sharp s becomes two letters, the
    micro sign and the y with diaeresis leave Latin-1. *)
Definition upper_of (c : char) : text :=
  if N.eqb c 223 then str "SS"
  else if N.eqb c 181 then [924%N]
  else if N.eqb c 255 then [376%N]
  else [upper_char c].

(** [t.upper()] *)
Definition upper (t : text) : text := flat_map upper_of t.

(** [t.lstrip(chars)], [t.strip(chars)] for a set of characters. *)
Fixpoint lstrip_chars (cs : text) (t : text) : text :=
  match t with
  | c :: t' => if mem c cs then lstrip_chars cs t' else t
  | [] => []
  end.

Definition strip_chars (cs : text) (t : text) : text :=
  rev (lstrip_chars cs (rev (lstrip_chars cs t))).

(** [t.split(c, 1)] when [c] occurs in [t]: the text before the first [c]
    and the text after it. *)
Fixpoint partition_at (c : char) (t : text) : option (text * text) :=
  match t with
  | [] => None
  | x :: t' =>
      if N.eqb x c then Some ([], t')
      else match partition_at c t' with
           | Some (k, v) => Some (x :: k, v)
           | None => None
           end
  end.

(** One line of the file: the key and the value it sets, [None] for a
    line without an equals sign. *)
Definition config_entry (line : text) : option (text * text) :=
  match partition_at 61%N (strip line) with
  | Some (k, v) => Some (upper (strip k), strip_chars (str "'" ++ [dq]) (strip v))
  | None => None
  end.

(** The dictionary [config] as the list of its entries in the order of
    their first insertion; setting a key that is present replaces its
    value in place. *)
Fixpoint dict_set (k v : text) (d : list (text * text)) : list (text * text) :=
  match d with
  | [] => [(k, v)]
  | (k', v') :: d' => if text_eqb k' k then (k, v) :: d' else (k', v') :: dict_set k v d'
  end.

Fixpoint dict_get (k : text) (d : list (text * text)) : option text :=
  match d with
  | [] => None
  | (k', v) :: d' => if text_eqb k' k then Some v else dict_get k d'
  end.

(** [load_config] on the lines of an existing file. *)
Definition load_config (lines : list text) : list (text * text) :=
  fold_left (fun config line =>
               match config_entry line with
               | Some (k, v) => dict_set k v config
               | None => config
               end) lines [].

(* ================================================================= *)
(** ** The document

    The body of a document is a list of structural elements.  The code
    reads paragraphs (a list of paragraph elements, some of them text
    runs) and tables (rows of cells, each cell a list of structural
    elements again) and passes over every other element.  A key that the
    code reads with a default is absent or present; the end index, which
    the code reads without a check, is always there. *)

Record text_run : Type := TextRun {
  run_content : option text;   (* ['content'] *)
  run_link : option text       (* the URL of ['textStyle']['link'] *)
}.

Record para_elem : Type := ParaElem {
  pe_run : option text_run;    (* ['textRun'] *)
  pe_start : option nat;       (* ['startIndex'] *)
  pe_end : nat                 (* ['endIndex'] *)
}.

#[local] Set Warnings "-register-all".

Inductive element : Type :=
| Paragraph (elems : list para_elem)
| Table (rows : list (list (list element)))
| Other.

(** [pe['textRun'].get('content', '')] for an element with a text run. *)
Definition content (pe : para_elem) : option text :=
  match pe_run pe with
  | Some r => Some (match run_content r with Some c => c | None => [] end)
  | None => None
  end.

(** The line of one paragraph element in [collect_raw_lines]: the
    stripped content, normalised, unless it is empty or the element has
    no start. *)
Definition raw_line (pe : para_elem) : list fragment :=
  match content pe with
  | Some c =>
      match strip c, pe_start pe with
      | (_ :: _) as t, Some start => [Fragment (normalize_pdf_text t) start (pe_end pe)]
      | _, _ => []
      end
  | None => []
  end.

(** [collect_raw_lines] of [clean_syllabus], for one element and for a
    list of elements. *)
Fixpoint collect_raw_lines_in (el : element) : list fragment :=
  match el with
  | Paragraph pes => flat_map raw_line pes
  | Table rows =>
      flat_map (fun row => flat_map (fun cell => flat_map collect_raw_lines_in cell) row) rows
  | Other => []
  end.

Definition collect_raw_lines (els : list element) : list fragment :=
  flat_map collect_raw_lines_in els.

(** [clean_syllabus]: the raw lines of the body are collected, merged and
    classified. *)
Definition clean_syllabus (fuel : nat) (an : analyzer) (body : list element) : outcome :=
  classify_document fuel an (collect_raw_lines body).

(** A line of [get_doc_content]: text, start (if any) and end. *)
Definition doc_line (pe : para_elem) : list (text * option nat * nat) :=
  match content pe with
  | Some c =>
      match strip c with
      | (_ :: _) as t => [(t, pe_start pe, pe_end pe)]
      | [] => []
      end
  | None => []
  end.

(** [get_doc_content] *)
Fixpoint get_doc_content_in (el : element) : list (text * option nat * nat) :=
  match el with
  | Paragraph pes => flat_map doc_line pes
  | Table rows =>
      flat_map (fun row => flat_map (fun cell => flat_map get_doc_content_in cell) row) rows
  | Other => []
  end.

Definition get_doc_content (els : list element) : list (text * option nat * nat) :=
  flat_map get_doc_content_in els.

(* ================================================================= *)
(** ** Requests to the document service *)

Inductive style_type : Type :=
| WeekHeaderStyle | SectionHeaderStyle | ReadingStyle | InstructionStyle | UncertainStyle.

Inductive request : Type :=
| DeleteContentRange (start_index end_index : Z)
| InsertText (index : Z) (t : text)
| UpdateTextStyle (start_index end_index : nat) (style : style_type).

(** [range(0, n, step)] *)
Definition range_step (step n : nat) : list nat :=
  map (fun k => k * step) (List.seq 0 ((n + step - 1) / step)).

(** The batches [requests[i:i + size]] for [i] in
    [range(0, len(requests), size)]. *)
Definition batches {A : Type} (size : nat) (requests : list A) : list (list A) :=
  map (fun i => firstn size (skipn i requests)) (range_step size (List.length requests)).

(* ================================================================= *)
(** ** Merging fragmented lines in the document *)

(** A line of [collect_lines]: the normalised stripped text, the start and
    the end (the text itself is not read again). *)
Record doc_fragment : Type := DocFragment {
  df_text_stripped : text;
  df_start : nat;
  df_end : nat
}.

Definition fragment_line (pe : para_elem) : list doc_fragment :=
  match content pe, pe_start pe with
  | Some c, Some start => [DocFragment (normalize_pdf_text (strip c)) start (pe_end pe)]
  | _, _ => []
  end.

Fixpoint collect_lines_in (el : element) : list doc_fragment :=
  match el with
  | Paragraph pes => flat_map fragment_line pes
  | Table rows =>
      flat_map (fun row => flat_map (fun cell => flat_map collect_lines_in cell) row) rows
  | Other => []
  end.

Definition collect_lines (els : list element) : list doc_fragment :=
  flat_map collect_lines_in els.

(** The pairs [(raw_lines[i - 1], raw_lines[i])] for [i] from 1 up. *)
Fixpoint adjacent {A : Type} (l : list A) : list (A * A) :=
  match l with
  | a :: (b :: _) as l' => (a, b) :: adjacent l'
  | _ => []
  end.

(** "^(Vol|pp?|Issue|\d|[a-z])" under [re.I] *)
Definition continuation_start : re :=
  nocase (seq [Bol; Grp 1 (alts [lit "Vol"; seq [lit "p"; copt (of_set "p")]; lit "Issue";
                                 Cls is_digit; Cls az])]).

(** Whether the line break between two lines is to be removed;
    [is_continuation_line] is called, and can raise, only when the previous
    line is incomplete. *)
Definition merges_in_doc (an : analyzer) (previous current : doc_fragment) : result bool :=
  match df_text_stripped current, df_text_stripped previous with
  | _ :: _, _ :: _ =>
      basic <- (if is_incomplete_line an (df_text_stripped previous)
                then is_continuation_line an (df_text_stripped current)
                else Ok false) ;;
      Ok (basic
          || (is_incomplete_line an (df_text_stripped previous)
              && matches continuation_start (df_text_stripped current)))
  | _, _ => Ok false
  end.

(** The requests for one pair: the break between the end of the previous
    line and the start of the current one is deleted and a space is put
    in its place. *)
Definition merge_requests_for (an : analyzer) (pair : doc_fragment * doc_fragment)
    : result (list request) :=
  let '(previous, current) := pair in
  should_merge <- merges_in_doc an previous current ;;
  if should_merge then
    let break_start := (Z.of_nat (df_end previous) - 1)%Z in
    let break_end := Z.of_nat (df_start current) in
    if (break_start <? break_end)%Z && (0 <? break_start)%Z then
      Ok [DeleteContentRange break_start break_end; InsertText break_start (str " ")]
    else Ok []
  else Ok [].

(** The loop of [merge_fragmented_lines_in_doc], from the last pair of
    lines to the first: the requests of each pair. *)
Definition merge_plan (an : analyzer) (body : list element) : result (list (list request)) :=
  for_each (fun pair => rs <- merge_requests_for an pair ;; Ok [rs])
           (rev (adjacent (collect_lines body))).

(** The requests of [merge_fragmented_lines_in_doc]. *)
Definition merge_requests (an : analyzer) (body : list element) : result (list request) :=
  plan <- merge_plan an body ;; Ok (concat plan).

(** The count that [merge_fragmented_lines_in_doc] returns. *)
Definition merge_count (an : analyzer) (body : list element) : result nat :=
  plan <- merge_plan an body ;;
  Ok (List.length (filter (fun rs => match rs with [] => false | _ => true end) plan)).

(* ================================================================= *)
(** ** Splitting concatenated lines in the document *)

(** The state of the loop over the elements of one paragraph: the text so
    far, the first start and the last end. *)
Definition paragraph_step (acc : text * option nat * option nat) (pe : para_elem)
    : text * option nat * option nat :=
  let '(full_text, start_idx, end_idx) := acc in
  match content pe, pe_start pe with
  | Some c, Some s =>
      (full_text ++ c,
       match start_idx with Some _ => start_idx | None => Some s end,
       Some (pe_end pe))
  | _, _ => acc
  end.

(** The entry of one paragraph, if its text is not blank. *)
Definition paragraph_entry (pes : list para_elem) : list (text * nat) :=
  let '(full_text, start_idx, _) := fold_left paragraph_step pes ([], None, None) in
  match strip full_text, start_idx with
  | _ :: _, Some start => [(full_text, start)]
  | _, _ => []
  end.

Fixpoint collect_paragraphs_in (el : element) : list (text * nat) :=
  match el with
  | Paragraph pes => paragraph_entry pes
  | Table rows =>
      flat_map (fun row => flat_map (fun cell => flat_map collect_paragraphs_in cell) row) rows
  | Other => []
  end.

Definition collect_paragraphs (els : list element) : list (text * nat) :=
  flat_map collect_paragraphs_in els.

(** The line breaks of one paragraph, the last split point first. *)
Definition split_requests_for (para : text * nat) : list request :=
  let '(t, base_start) := para in
  map (fun local_pos => InsertText (Z.of_nat (base_start + local_pos)) [10%N])
      (rev (find_split_points t)).

(** The requests of [split_concatenated_lines_in_doc], from the last
    paragraph to the first. *)
Definition split_requests (body : list element) : list request :=
  flat_map split_requests_for (rev (collect_paragraphs body)).

(* ================================================================= *)
(** ** Styles *)

(** The style of a normalised text in [format_syllabus]; a week number 0
    counts as no week. *)
Definition style_of (an : analyzer) (text_norm : text) : result (option style_type) :=
  week <- is_week_header text_norm ;;
  if match week with
     | Some week => negb (week =? 0)%Z
     | None => false
     end
  then Ok (Some WeekHeaderStyle)
  else if is_header text_norm then Ok (Some SectionHeaderStyle)
  else if is_instruction an text_norm then Ok (Some InstructionStyle)
  else if is_reading an text_norm then Ok (Some ReadingStyle)
  else if (1 <=? fst (get_reading_score an text_norm))%Z then Ok (Some UncertainStyle)
  else Ok None.

Definition style_request (an : analyzer) (pe : para_elem) : result (list request) :=
  match content pe with
  | Some c =>
      match strip c, pe_start pe with
      | (_ :: _) as t, Some start =>
          style <- style_of an (normalize_pdf_text t) ;;
          match style with
          | Some style => Ok [UpdateTextStyle start (pe_end pe) style]
          | None => Ok []
          end
      | _, _ => Ok []
      end
  | None => Ok []
  end.

Fixpoint apply_styles_in (an : analyzer) (el : element) : result (list request) :=
  match el with
  | Paragraph pes => for_each (style_request an) pes
  | Table rows =>
      for_each (fun row => for_each (fun cell => for_each (apply_styles_in an) cell) row) rows
  | Other => Ok []
  end.

(** The requests of [format_syllabus]; an exception while the styles are
    collected leaves none. *)
Definition format_requests (an : analyzer) (body : list element) : result (list request) :=
  for_each (apply_styles_in an) body.

(* ================================================================= *)
(** ** Readings and weeks of the Drive folder *)

(** "/d/([a-zA-Z0-9_-]+)" *)
Definition drive_file_id : re :=
  seq [lit "/d/"; Grp 1 (plus (cor (cor (cor az AZ) (rng "0" "9")) (of_set "_-")))].

(** The dictionary [reading_to_week]: file id, week and text, in the order
    of first insertion; setting a file id that is present replaces its
    entry in place. *)
Fixpoint week_set (k : text) (v : Z * text) (d : list (text * (Z * text)))
    : list (text * (Z * text)) :=
  match d with
  | [] => [(k, v)]
  | (k', v') :: d' => if text_eqb k' k then (k, v) :: d' else (k', v') :: week_set k v d'
  end.

(** A reading under a week: it is recorded under the file id of its link
    when the link leads to the Drive. *)
Definition organize_reading (an : analyzer) (st : Z * list (text * (Z * text)))
    (r : text_run) (t : text) : Z * list (text * (Z * text)) :=
  let '(current_week, reading_to_week) := st in
  if is_reading an t && (0 <? current_week)%Z then
    match run_link r with
    | Some ((_ :: _) as link) =>
        if contains (str "drive.google.com") link then
          match re_search drive_file_id link with
          | Some m => (current_week, week_set (group link m 1) (current_week, t) reading_to_week)
          | None => st
          end
        else st
    | _ => st
    end
  else st.

(** One paragraph element in [process_elements] of
    [organize_drive_folder]: the state is the current week and the
    dictionary.  A week number 0 counts as no week. *)
Definition process_run (an : analyzer) (st : Z * list (text * (Z * text))) (pe : para_elem)
    : result (Z * list (text * (Z * text))) :=
  match pe_run pe with
  | None => Ok st
  | Some r =>
      match strip (match run_content r with Some c => c | None => [] end) with
      | [] => Ok st
      | (_ :: _) as t =>
          week <- is_week_header t ;;
          match week with
          | Some week =>
              if negb (week =? 0)%Z then Ok (week, snd st)
              else Ok (organize_reading an st r t)
          | None => Ok (organize_reading an st r t)
          end
      end
  end.

Fixpoint process_elements_in (an : analyzer) (st : Z * list (text * (Z * text)))
    (el : element) : result (Z * list (text * (Z * text))) :=
  match el with
  | Paragraph pes => fold_each (process_run an) pes st
  | Table rows =>
      fold_each (fun st row =>
                   fold_each (fun st cell => fold_each (process_elements_in an) cell st) row st)
                rows st
  | Other => Ok st
  end.

(** The dictionary [reading_to_week] of [organize_drive_folder]. *)
Definition reading_to_week (an : analyzer) (body : list element)
    : result (list (text * (Z * text))) :=
  st <- fold_each (process_elements_in an) body (0%Z, []) ;; Ok (snd st).

(* ================================================================= *)
(** ** Matching a reading to a file of the Drive folder

    The score of [match_pdf_to_reading] is a Python [float], a binary64
    number: the quotient of two lengths and the sum with the bonus are
    rounded as the processor rounds them, and so are they here. *)

From Stdlib Require PrimFloat Uint63.

(** A file of the folder: the keys ['name'] and ['link']. *)
Record pdf_file : Type := PdfFile {
  file_name : text;
  file_link : text
}.

Definition stop_words : list text :=
  map str ["the"; "a"; "an"; "and"; "or"; "of"; "in"; "on"; "for"; "to"; "with"; "by";
           "from"; "pp"; "vol"; "chapter"; "ed"; "eds"].

Definition in_words (w : text) (ws : list text) : bool := existsb (text_eqb w) ws.

(** [set(ws)]: every word once.  The code reads the size of a set and
    whether it is empty, never its order. *)
Fixpoint word_set (ws : list text) : list text :=
  match ws with
  | [] => []
  | w :: ws' => if in_words w ws' then word_set ws' else w :: word_set ws'
  end.

(** [set(norm.split()) - stop_words] *)
Definition keywords (norm : text) : list text :=
  filter (fun w => negb (in_words w stop_words)) (word_set (py_split norm)).

(** [t.replace(old, '')] for a text [old] that is not empty; [skip]
    counts the characters of an occurrence still to be dropped. *)
Fixpoint remove_sub (old : text) (skip : nat) (t : text) : text :=
  match t with
  | [] => []
  | c :: t' =>
      match skip with
      | S n => remove_sub old n t'
      | 0 =>
          if startswith old t then remove_sub old (List.length old - 1) t'
          else c :: remove_sub old 0 t'
      end
  end.

(** A length as a [float]. *)
Definition float_of_nat (n : nat) : PrimFloat.float :=
  PrimFloat.of_uint63 (Uint63.of_Z (Z.of_nat n)).

(** The literals [0.3] and [0.4]: the binary64 numbers nearest to three
    and to four tenths. *)
Definition bonus : PrimFloat.float := PrimFloat.div (float_of_nat 3) (float_of_nat 10).
Definition threshold : PrimFloat.float := PrimFloat.div (float_of_nat 4) (float_of_nat 10).

(** The words of a file name that count, and those of them that the
    reading has. *)
Definition pdf_words (pdf : pdf_file) : list text :=
  keywords (normalize_text (remove_sub (str ".PDF") 0
                              (remove_sub (str ".pdf") 0 (file_name pdf)))).

Definition common_words (reading_keywords : list text) (pdf : pdf_file) : list text :=
  filter (fun w => in_words w reading_keywords) (pdf_words pdf).

(** The score of one file, [None] when the loop passes over it. *)
Definition pdf_score (reading_norm : text) (reading_keywords : list text) (pdf : pdf_file)
    : option PrimFloat.float :=
  let pdf_norm := normalize_text (remove_sub (str ".PDF") 0
                                    (remove_sub (str ".pdf") 0 (file_name pdf))) in
  match pdf_words pdf, common_words reading_keywords pdf with
  | _ :: _, _ :: _ =>
      let score := PrimFloat.div (float_of_nat (List.length (common_words reading_keywords pdf)))
                                 (float_of_nat (List.length (pdf_words pdf))) in
      let pdf_first_word := match py_split pdf_norm with w :: _ => w | [] => [] end in
      Some (if (2 <? List.length pdf_first_word) && contains pdf_first_word reading_norm
            then PrimFloat.add score bonus else score)
  | _, _ => None
  end.

(** One turn of the loop: the best score and the best match so far. *)
Definition match_step (reading_norm : text) (reading_keywords : list text)
    (acc : PrimFloat.float * option pdf_file) (pdf : pdf_file)
    : PrimFloat.float * option pdf_file :=
  match pdf_score reading_norm reading_keywords pdf with
  | Some score =>
      if PrimFloat.ltb (fst acc) score && PrimFloat.leb threshold score
      then (score, Some pdf) else acc
  | None => acc
  end.

(** [match_pdf_to_reading] *)
Definition match_pdf_to_reading (reading_text : text) (pdfs : list pdf_file)
    : option pdf_file :=
  let reading_norm := normalize_text reading_text in
  snd (fold_left (match_step reading_norm (keywords reading_norm)) pdfs
                 (float_of_nat 0, None)).

(* ================================================================= *)
(** ** The configuration that [setup_resources] saves

    [setup_resources] of [setup_resources.py] writes the identifiers of
    the folder and of the document it created to [config.txt], one line
    each; these are the lines as reading the file gives them back. *)
Definition saved_config (folder_id doc_id : text) : list text :=
  [str "FOLDER_ID=" ++ folder_id ++ [10%N]; str "DOC_ID=" ++ doc_id ++ [10%N]].

(* ================================================================= *)
(** * Properties

    The vocabulary of the properties comes first: the predicates the
    statements use, the declarative reading of a pattern, and the sample
    inputs.  The lemmas and theorems follow. *)

(** Every character of the text is white space. *)
Fixpoint all_space (t : text) : bool :=
  match t with
  | c :: t' => is_space c && all_space t'
  | [] => true
  end.

(** The length of the longest prefix of [t] within the class [p]. *)
Fixpoint span (p : cls) (t : text) : nat :=
  match t with
  | c :: t' => if p c then S (span p t') else 0
  | [] => 0
  end.

(** [squeeze b t] writes one space for each run of white space of [t];
    [b] tells that the character before [t] was white space. *)
Fixpoint squeeze (b : bool) (t : text) : text :=
  match t with
  | [] => []
  | c :: t' =>
      if is_space c then (if b then squeeze true t' else 32%N :: squeeze true t')
      else c :: squeeze false t'
  end.

(** Texts in which white space is single spaces only. *)
Fixpoint tidy (b : bool) (t : text) : Prop :=
  match t with
  | [] => True
  | c :: t' =>
      if is_space c then b = false /\ c = 32%N /\ tidy true t'
      else tidy false t'
  end.

(** The characters the normalizer maps away. *)
Definition typographic : list char :=
  [8217; 8216; 8220; 8221; 8211; 8212; 160; 65279]%N.

(** A character the normalizer leaves as it is. *)
Definition plain (c : char) : Prop := ~ In c typographic.

(** The eight replacements of the normalizer, in the order of the source. *)
Definition ascii_maps (t : text) : text :=
  replace_char 65279%N []
   (replace_char 160%N (str " ")
     (replace_char 8212%N (str "-")
       (replace_char 8211%N (str "-")
         (replace_char 8221%N [34%N]
           (replace_char 8220%N [34%N]
             (replace_char 8216%N (str "'")
               (replace_char 8217%N (str "'") t))))))).

(** Closes a goal [plain c] for a character [c] of a replacement. *)
Ltac plain_char :=
  match goal with
  | H : In _ _ |- _ =>
      simpl in H; repeat (destruct H as [H|H]; [subst|]); try contradiction;
      unfold plain, typographic; simpl; intros H';
      repeat (destruct H' as [H'|H']; [discriminate H'|]); exact H'
  end.

(** The number [n] of repetitions respects the upper bound [hi]. *)
Definition within (hi : option nat) (n : nat) : Prop :=
  match hi with
  | Some h => n <= h
  | None => True
  end.

(** [Matches r pr s sf]: the pattern [r] matches the text [s] that stands
    between [pr] (the text before it, nearest character first) and [sf]. *)
Inductive Matches : re -> list char -> list char -> list char -> Prop :=
| M_Eps pr sf : Matches Eps pr [] sf
| M_Cls p c pr sf : p c = true -> Matches (Cls p) pr [c] sf
| M_Rep p lo hi s pr sf :
    Forall (fun c => p c = true) s -> lo <= List.length s -> within hi (List.length s) ->
    Matches (Rep p lo hi) pr s sf
| M_Cat a b s1 s2 pr sf :
    Matches a pr s1 (s2 ++ sf) -> Matches b (rev s1 ++ pr) s2 sf ->
    Matches (Cat a b) pr (s1 ++ s2) sf
| M_AltL a b s pr sf : Matches a pr s sf -> Matches (Alt a b) pr s sf
| M_AltR a b s pr sf : Matches b pr s sf -> Matches (Alt a b) pr s sf
| M_Grp n a s pr sf : Matches a pr s sf -> Matches (Grp n a) pr s sf
| M_Bol sf : Matches Bol [] [] sf
| M_Eol pr sf : at_eol (MS pr sf 0 []) = true -> Matches Eol pr [] sf
| M_Wb pr sf : at_wb (MS pr sf 0 []) = true -> Matches Wb pr [] sf
| M_Ahead a s pr sf : Matches a pr s sf -> Matches (Ahead a) pr [] (s ++ sf)
| M_Behind p c pr sf : p c = true -> Matches (Behind p) (c :: pr) [] sf.

(** [Captures r pr s sf i new]: the pattern [r] matches the text [s] that
    stands between [pr] and [sf], from the index [i] on, and records the
    spans [new] of its groups, the latest first. *)
Inductive Captures :
    re -> list char -> list char -> list char -> nat -> list (nat * (nat * nat)) -> Prop :=
| K_Eps pr sf i : Captures Eps pr [] sf i []
| K_Cls p c pr sf i : p c = true -> Captures (Cls p) pr [c] sf i []
| K_Rep p lo hi s pr sf i :
    Forall (fun c => p c = true) s -> lo <= List.length s -> within hi (List.length s) ->
    Captures (Rep p lo hi) pr s sf i []
| K_Cat a b s1 s2 pr sf i ca cb :
    Captures a pr s1 (s2 ++ sf) i ca ->
    Captures b (rev s1 ++ pr) s2 sf (i + List.length s1) cb ->
    Captures (Cat a b) pr (s1 ++ s2) sf i (cb ++ ca)
| K_AltL a b s pr sf i ca : Captures a pr s sf i ca -> Captures (Alt a b) pr s sf i ca
| K_AltR a b s pr sf i cb : Captures b pr s sf i cb -> Captures (Alt a b) pr s sf i cb
| K_Grp n a s pr sf i ca :
    Captures a pr s sf i ca ->
    Captures (Grp n a) pr s sf i ((n, (i, i + List.length s)) :: ca)
| K_Bol sf i : Captures Bol [] [] sf i []
| K_Eol pr sf i : at_eol (MS pr sf 0 []) = true -> Captures Eol pr [] sf i []
| K_Wb pr sf i : at_wb (MS pr sf 0 []) = true -> Captures Wb pr [] sf i []
| K_Ahead a s pr sf i ca : Captures a pr s sf i ca -> Captures (Ahead a) pr [] (s ++ sf) i []
| K_Behind p c pr sf i : p c = true -> Captures (Behind p) (c :: pr) [] sf i [].

(** Unfolds the character classes to comparisons of code points and
    closes the goal by arithmetic. *)
Ltac char_facts :=
  cbv [ci one is_space is_digit is_word is_alnum is_upper_char is_lower_char
       is_ascii_upper is_ascii_lower lower_char upper_char in_range] in *;
  repeat match goal with
         | H : context [if ?b then _ else _] |- _ => destruct b eqn:?
         | |- context [if ?b then _ else _] => destruct b eqn:?
         end;
  repeat rewrite ?orb_true_iff, ?orb_false_iff, ?andb_true_iff, ?andb_false_iff,
    ?N.leb_le, ?N.leb_gt, ?N.eqb_eq, ?N.eqb_neq in *;
  try lia.

(** Strictly increasing lists, and lists whose consecutive elements are at
    least [d] apart. *)
Fixpoint increasing (l : list nat) : Prop :=
  match l with
  | a :: (b :: _) as l' => a < b /\ increasing l'
  | _ => True
  end.

Fixpoint spaced (d : nat) (l : list nat) : Prop :=
  match l with
  | a :: (b :: _) as l' => a + d <= b /\ spaced d l'
  | _ => True
  end.

(** The ink of a text: the number of its characters that are not white
    space.  It is the measure by which the recursion of the classifier
    into split segments ends. *)
Definition ink (t : text) : nat :=
  List.length (filter (fun c => negb (is_space c)) t).

(** The ink of a list of texts. *)
Definition total_ink (ts : list text) : nat := list_sum (map ink ts).

(** Patterns without capturing groups, and patterns whose groups hold no
    group. *)
Fixpoint nogroups (r : re) : bool :=
  match r with
  | Grp _ _ => false
  | Cat a b | Alt a b => nogroups a && nogroups b
  | _ => true
  end.

Fixpoint flat (r : re) : bool :=
  match r with
  | Grp _ a => nogroups a
  | Cat a b | Alt a b => flat a && flat b
  | _ => true
  end.

(** The spans of the groups of a match (the latest first) lie side by
    side between [lo] and [hi]. *)
Fixpoint laid_out (new : list (nat * (nat * nat))) (lo hi : nat) : Prop :=
  match new with
  | [] => lo <= hi
  | (_, (a, b)) :: rest => a <= b /\ b <= hi /\ laid_out rest lo a
  end.

(** The matches of a scan follow one another from [pos] on. *)
Fixpoint placed (pos : nat) (ms : list rmatch) : Prop :=
  match ms with
  | [] => True
  | m :: ms' =>
      pos <= m_start m /\ laid_out (m_caps m) (m_start m) (m_end m) /\ placed (m_end m) ms'
  end.

(** The ink of the text of a group, if the group took part in the match. *)
Definition span_ink (t : text) (sp : option (nat * nat)) : nat :=
  match sp with
  | Some (a, b) => ink (slice a b t)
  | None => 0
  end.

(** A segment longer than 25 characters. *)
Definition long (t : text) : Prop := 25 < List.length t.

(** A segment the splitter returns: long, and with ink. *)
Definition solid (t : text) : Prop := long t /\ 1 <= ink t.

(** The analyzer reports, for some text, a first person name of white
    space alone: a name that is not empty and has no word. *)
Definition blank_name (an : analyzer) : Prop :=
  exists nlp t name others,
    an = Some nlp /\ persons (analyze nlp t) = name :: others
    /\ name <> [] /\ all_space name = true.

(** The fragments the merger keeps: those whose stripped text is not
    empty. *)
Definition blank (f : fragment) : bool :=
  match strip (f_text f) with [] => true | _ => false end.

(** The fragments that are not blank, in their order. *)
Definition kept (lines : list fragment) : list fragment :=
  filter (fun f => negb (blank f)) lines.

(** The text of a unit made of the fragments [g]: their stripped texts
    joined by single spaces. *)
Definition joined (g : list fragment) : text :=
  join (str " ") (map (fun f => strip (f_text f)) g).

(** A unit stands for the group [g] of consecutive fragments. *)
Definition unit_of (g : list fragment) (u : unit_) : Prop :=
  g <> [] /\ u_full_text u = joined g
  /\ u_start u = f_start (hd (Fragment [] 0 0) g)
  /\ u_end u = f_end (last g (Fragment [] 0 0)).

(** The invariant of the loop: the finished units stand for the groups
    [gs], the current unit for the group [g], and the groups are the kept
    fragments seen so far, in order. *)
Definition merge_inv (seen : list fragment) (acc : list unit_ * option unit_) : Prop :=
  exists gs g,
    concat gs ++ g = kept seen
    /\ Forall2 unit_of gs (fst acc)
    /\ match snd acc with
       | Some cur => unit_of g cur
       | None => g = [] /\ gs = []
       end.

Definition adds_too_short (it : item) (st st' : stats) : Prop :=
  too_short st' = too_short st ++ [it] /\ headers st' = headers st
  /\ readings st' = readings st /\ instructions st' = instructions st
  /\ uncertain st' = uncertain st /\ current_week st' = current_week st.

Definition adds_header (it : item) (st st' : stats) : Prop :=
  headers st' = headers st ++ [it] /\ too_short st' = too_short st
  /\ readings st' = readings st /\ instructions st' = instructions st
  /\ uncertain st' = uncertain st.

(** A week header with the signals of a reading. *)
Definition header_and_reading : text :=
  str "Week 5: Smith, J. (2020). Gender and Power. Oxford University Press.".

(** A week header whose number has 4301 digits, one more than [int]
    converts. *)
Definition long_week_header : text := str "Week " ++ repeat 49%N 4301.

(** At most one of three booleans holds. *)
Definition at_most_one (a b c : bool) : Prop :=
  (a = true -> b = false /\ c = false) /\ (b = true -> c = false).

(** A document in which a header "Week 0" follows a header "Week 3". *)
Definition week_zero_document : list fragment :=
  [ Fragment (str "Week 3: Gender and Power.") 0 26;
    Fragment (str "Week 0: Course Introduction.") 26 55;
    Fragment (str "Smith, J. (2020). Gender and Power. Oxford University Press. pp. 45-60.")
             55 127 ].

(** The weeks of the headers and of the readings of a run, and the final
    counter. *)
Definition weeks_of (o : outcome) : list Z * list Z * Z :=
  match o with
  | Done st => (map i_week (headers st), map i_week (readings st), current_week st)
  | _ => ([], [], 0%Z)
  end.

(** The classification of the segments of a split text, as
    [classify_single_text] and [classify_line] run it. *)
Definition classify_segments (fuel : nat) (an : analyzer) (start end_ : nat)
    (segs : list text) (init : outcome) : outcome :=
  fold_left (fun acc split_text =>
               match acc with
               | Done st' => classify_single_text fuel an (strip split_text) start end_ true st'
               | other => other
               end) segs init.

(** The longest merged line of a document, counted in its characters that
    are not white space. *)
Definition longest_line (an : analyzer) (raw_lines : list fragment) : nat :=
  match merge_fragmented_lines an raw_lines with
  | Ok merged_lines => list_max (map (fun u => ink (u_full_text u)) merged_lines)
  | Raise _ => 0
  end.

(** The fuel that suffices for a document: more than the ink of each of
    its merged lines. *)
Definition enough_fuel (an : analyzer) (raw_lines : list fragment) : nat :=
  S (longest_line an raw_lines).

(** A classification that settles: it returns, or it raises [ValueError]
    on a text with more than [max_str_digits] characters that are not
    white space, [bound] being the most that its texts have; it does not
    run out of fuel. *)
Definition settles (bound : nat) (o : outcome) : Prop :=
  match o with
  | Done _ => True
  | Raised e => e = ValueError /\ max_str_digits < bound
  | OutOfFuel => False
  end.

(** An analyzer that finds nothing in the empty text. *)
Definition quiet_on_empty (an : analyzer) : Prop :=
  match an with
  | Some nlp => nlp [] = Doc [] [] []
  | None => True
  end.

(** The item is added to the uncertain items and to no other list of
    classified items. *)
Definition adds_uncertain (it : item) (st st' : stats) : Prop :=
  uncertain st' = uncertain st ++ [it] /\ headers st' = headers st
  /\ readings st' = readings st /\ instructions st' = instructions st
  /\ too_short st' = too_short st /\ current_week st' = current_week st.

(** How the classification of a text of white space ends: as too short
    when it has fewer than 20 characters, else as uncertain of kind
    unknown. *)
Definition degrades (t : text) (it : item) (st st' : stats) : Prop :=
  i_full_text it = t
  /\ (List.length t < 20 -> adds_too_short it st st')
  /\ (20 <= List.length t ->
      adds_uncertain it st st' /\ i_classification it = Some Unknown).

(** An analyzer that reports one person in every text, under a name of
    one space. *)
Definition blank_person_analyzer : analyzer :=
  Some (fun _ => Doc [] [Entity (str " ") "PERSON" 0] []).

(** Two lines of a title that a line break cut. *)
Definition cut_title : list fragment :=
  [Fragment (str "Gender and") 1 11; Fragment (str "power in the") 11 24].

(** A document of one line, a week header whose number has 4301 digits. *)
Definition long_week_document : list fragment := [Fragment long_week_header 1 4307].

(** A line of 24 spaces. *)
Definition blank_line : text := repeat 32%N 24.

(** A document with empty fragments around one reading. *)
Definition malformed_document : list fragment :=
  [ Fragment (str "") 0 0;
    Fragment (str "   ") 0 3;
    Fragment (str "Smith, J. (2020). Gender and Power. Oxford University Press.") 3 63;
    Fragment (str "") 63 63 ].

(** [feasible A r]: the pattern [r] can match within a text over the
    alphabet [A] (a necessary condition, decided on the pattern alone). *)
Fixpoint feasible (A : list char) (r : re) : bool :=
  match r with
  | Eps => true
  | Cls p => existsb p A
  | Rep p lo hi => Nat.eqb lo 0 || existsb p A
  | Cat a b => feasible A a && feasible A b
  | Alt a b => feasible A a || feasible A b
  | Grp _ a => feasible A a
  | Ahead a => feasible A a
  | Behind p => existsb p A
  | _ => true
  end.

(** A text over an alphabet. *)
Definition over (A : list char) (t : text) : Prop := Forall (fun c => In c A) t.

(** The characters of a Roman-numeral header, and their lowercase. *)
Definition roman_chars : list char := str "IVX.".
Definition roman_lower : list char := str "ivx.".

(** An analyzer for which every text is one imperative sentence. *)
Definition imperative_token : token := Token (str "Read") "VERB" "VB" "ROOT".

Definition always_imperative : analyzer :=
  Some (fun _ => Doc [imperative_token] [] [[imperative_token]]).

(** Sixty [I], a period and a trailing space: a Roman-numeral header whose
    stripped text is no header. *)
Definition roman_line : text := repeat 73%N 60 ++ str ". ".

(** A header that also looks like a reading. *)
Definition plain_header : text := str "Week 5: Smith, J. (2020). Gender and Power.".








(** The match [m] of the pattern [r] in the text [t]: the text before it,
    the text it covers and the text after it, with its groups. *)
Definition match_in (r : re) (t : text) (m : rmatch) : Prop :=
  exists a s c,
    t = a ++ s ++ c
    /\ m_start m = List.length a
    /\ m_end m = List.length a + List.length s
    /\ Captures r (rev a) s c (List.length a) (m_caps m).





(** A word: a text that is not empty and holds no white space. *)
Definition word (w : text) : Prop := w <> [] /\ Forall (fun c => is_space c = false) w.

(** The characters a file name keeps. *)
Definition filename_char (c : char) : bool := is_alnum c || mem c (str " -").

(** The characters of a normalised name: word characters that are not
    uppercase, and the space. *)
Definition normal_char (c : char) : Prop :=
  c = 32%N \/ (is_word c = true /\ is_upper_char c = false).

(** Induction on the elements of a document: a table holds the property
    when every element of every cell does. *)
Fixpoint element_induction (P : element -> Prop)
    (Hp : forall pes, P (Paragraph pes))
    (Ht : forall rows, Forall (Forall (Forall P)) rows -> P (Table rows))
    (Ho : P Other) (el : element) {struct el} : P el :=
  match el with
  | Paragraph pes => Hp pes
  | Table rows =>
      Ht rows
        ((fix rows_ok (rows : list (list (list element))) : Forall (Forall (Forall P)) rows :=
            match rows with
            | [] => Forall_nil _
            | row :: rows' =>
                Forall_cons row
                  ((fix row_ok (row : list (list element)) : Forall (Forall P) row :=
                      match row with
                      | [] => Forall_nil _
                      | cell :: row' =>
                          Forall_cons cell
                            ((fix cell_ok (cell : list element) : Forall P cell :=
                                match cell with
                                | [] => Forall_nil _
                                | e :: cell' =>
                                    Forall_cons e (element_induction P Hp Ht Ho e)
                                                (cell_ok cell')
                                end) cell)
                            (row_ok row')
                      end) row)
                  (rows_ok rows')
            end) rows)
  | Other => Ho
  end.

(** The request that styles a collected line; the week number of the
    line can raise. *)
Definition style_line (an : analyzer) (f : fragment) : result (list request) :=
  style <- style_of an (f_text f) ;;
  match style with
  | Some style => Ok [UpdateTextStyle (f_start f) (f_end f) style]
  | None => Ok []
  end.

(** The raw line of a line of [get_doc_content]. *)
Definition raw_of_line (l : text * option nat * nat) : list fragment :=
  match l with
  | (t, Some start, end_) => [Fragment (normalize_pdf_text t) start end_]
  | (_, None, _) => []
  end.

(** The first check of [should_merge_lines]: the next line opens with a
    citation: an author and a year in parentheses, with or without an
    initial between them. *)
Definition opens_citation (t : text) : bool :=
  matches (seq [Bol; cap_word; opt (seq [lit ","; ws; Cls AZ; copt (of_set ".")]); ws;
                paren_year]) t.

(** A unit stands for the group [g] of lines, none of which opens with a
    citation but the first. *)
Definition unit_of_lines (g : list fragment) (u : unit_) : Prop :=
  g <> []
  /\ u_full_text u = join (str " ") (map f_text g)
  /\ u_start u = f_start (hd (Fragment [] 0 0) g)
  /\ u_end u = f_end (last g (Fragment [] 0 0)).

(** Within a group every fragment but the first was accepted by
    [should_merge_lines] against the text of the unit so far; [t] is that
    text before the fragments [g]. *)
Fixpoint accepted (an : analyzer) (t : text) (g : list fragment) : Prop :=
  match g with
  | [] => True
  | f :: g' =>
      should_merge_lines an t (strip (f_text f)) = Ok true
      /\ accepted an (t ++ str " " ++ strip (f_text f)) g'
  end.

Definition glued (an : analyzer) (g : list fragment) : Prop :=
  match g with
  | [] => True
  | f :: g' => accepted an (strip (f_text f)) g'
  end.

(** The invariant of the merger with the decisions it took. *)
Definition merge_decisions (an : analyzer) (seen : list fragment)
    (acc : list unit_ * option unit_) : Prop :=
  exists gs g,
    concat gs ++ g = kept seen
    /\ Forall2 unit_of gs (fst acc)
    /\ Forall (glued an) gs
    /\ glued an g
    /\ match snd acc with
       | Some cur => unit_of g cur
       | None => g = [] /\ gs = []
       end.

(** The two requests that remove one line break: the range from
    [break_start] to [break_end] is deleted and a space is inserted at
    [break_start]. *)
Definition merge_pair (b : Z * Z) : list request :=
  [DeleteContentRange (fst b) (snd b); InsertText (fst b) (str " ")].

(** A list of requests made of whole pairs, each for a break that starts
    after index 0 and is not empty. *)
Definition paired (rs : list request) : Prop :=
  exists breaks : list (Z * Z),
    rs = flat_map merge_pair breaks
    /\ Forall (fun b => (0 < fst b < snd b)%Z) breaks.

(** [R] holds between every element of the list and every element after
    it. *)
Fixpoint pairwise {A : Type} (R : A -> A -> Prop) (l : list A) : Prop :=
  match l with
  | [] => True
  | a :: l' => Forall (R a) l' /\ pairwise R l'
  end.

(** The lines of a document in the order of their indexes: a line ends
    after it starts, and the next line starts no earlier than it ends. *)
Fixpoint in_document_order (l : list doc_fragment) : Prop :=
  match l with
  | [] => True
  | a :: l' =>
      df_start a < df_end a
      /\ match l' with
         | b :: _ => df_end a <= df_start b
         | [] => True
         end
      /\ in_document_order l'
  end.

(** The paragraphs of a document in the order of their indexes: a
    paragraph starts no earlier than the one before it ends. *)
Fixpoint paragraphs_in_order (l : list (text * nat)) : Prop :=
  match l with
  | [] => True
  | a :: l' =>
      match l' with
      | b :: _ => snd a + List.length (fst a) <= snd b
      | [] => True
      end
      /\ paragraphs_in_order l'
  end.

(** A paragraph element with a text run and both indexes. *)
Definition text_run_at (s : string) (a b : nat) : para_elem :=
  ParaElem (Some (TextRun (Some (str s)) None)) (Some a) b.

(** A document with two citations broken over two lines each, the second
    in a table. *)
Definition fragmented_document : list element :=
  [Paragraph [text_run_at "Smith, J. (2020). The theory of" 1 33];
   Paragraph [text_run_at "everything in the world, pp. 10-20." 33 69];
   Table [[[Paragraph [text_run_at "Jones, A. (2019). A study of the" 70 103];
            Paragraph [text_run_at "modern world and its" 103 124]]]]].

(** A document whose first paragraph holds three citations. *)
Definition concatenated_document : list element :=
  [Paragraph [text_run_at "Smith, J. (2020). The theory of everything. Jones, A. (2019). A study of the modern world. Brown, B. (2018). Another long title here." 1 140];
   Paragraph [text_run_at "Week 1: Introduction" 140 161]].

(** The ranges that a list of requests deletes, and the indexes at which
    it inserts, in the order of the requests. *)
Definition deleted_ranges (rs : list request) : list (Z * Z) :=
  flat_map (fun r => match r with
                     | DeleteContentRange s e => [(s, e)]
                     | _ => []
                     end) rs.

Definition inserted_at (rs : list request) : list Z :=
  flat_map (fun r => match r with
                     | InsertText i _ => [i]
                     | _ => []
                     end) rs.

(** What the classification guarantees of an item on each list of
    [stats]; [t] is the text that was classified. *)
Definition filed_too_short (it : item) : Prop :=
  List.length (i_full_text it) < 20.

Definition filed_header (it : item) : Prop :=
  20 <= List.length (i_full_text it) /\ is_header (i_full_text it) = true.

Definition filed_instruction (an : analyzer) (it : item) : Prop :=
  let t := i_full_text it in
  20 <= List.length t
  /\ is_header t = false
  /\ (is_instruction an t = true
      \/ fst (classify_text_type an t) = SemInstruction
         /\ (50 <= snd (classify_text_type an t))%Z
         /\ (fst (get_reading_score an t) < 3)%Z).

Definition filed_reading (an : analyzer) (it : item) : Prop :=
  let t := i_full_text it in
  20 <= List.length t
  /\ is_header t = false
  /\ is_instruction an t = false
  /\ ((3 <= fst (get_reading_score an t))%Z /\ i_semantic_boosted it = false
      \/ fst (classify_text_type an t) = SemReading
         /\ (60 <= snd (classify_text_type an t))%Z
         /\ i_semantic_boosted it = true).

Definition filed_uncertain (an : analyzer) (it : item) : Prop :=
  let t := i_full_text it in
  20 <= List.length t
  /\ is_header t = false
  /\ is_instruction an t = false
  /\ (fst (get_reading_score an t) < 3)%Z
  /\ i_classification it
     = Some (if (1 <=? fst (get_reading_score an t))%Z then MaybeReading else Unknown).

Definition filed_url (it : item) : Prop :=
  exists url, extract_url (i_full_text it) = Some url.

(** The lists of [stats] hold what their names say. *)
Definition sorted_out (an : analyzer) (st : stats) : Prop :=
  Forall filed_too_short (too_short st)
  /\ Forall filed_header (headers st)
  /\ Forall (filed_instruction an) (instructions st)
  /\ Forall (filed_reading an) (readings st)
  /\ Forall (filed_uncertain an) (uncertain st)
  /\ Forall filed_url (urls st)
  /\ Forall (fun it => i_was_split it = true /\ In it (readings st)) (split_readings st).

(** The same of the result of a call, if it has one. *)
Definition sorts_out (an : analyzer) (o : outcome) : Prop :=
  match o with
  | Done st => sorted_out an st
  | _ => True
  end.

(** The items of the five lists into which the classification sorts. *)
Definition all_items (st : stats) : list item :=
  headers st ++ readings st ++ instructions st ++ uncertain st ++ too_short st.

(** An item of [st] stands for the text between [start] and [end_]. *)
Definition covers (st : stats) (start end_ : nat) : Prop :=
  exists it, In it (all_items st) /\ i_start it = start /\ i_end it = end_.

(** From [st] to the result of a call, if it has one, no item is lost and
    one for the text between [start] and [end_] is there. *)
Definition files (start end_ : nat) (st : stats) (o : outcome) : Prop :=
  match o with
  | Done st' => (forall it, In it (all_items st) -> In it (all_items st')) /\ covers st' start end_
  | _ => True
  end.

(** The same without the new item. *)
Definition keeps (st : stats) (o : outcome) : Prop :=
  match o with
  | Done st' => forall it, In it (all_items st) -> In it (all_items st')
  | _ => True
  end.

(** The quote characters that [load_config] takes off a value. *)
Definition config_quotes : text := str "'" ++ [dq].

(** A text that starts with a character that is neither white space nor
    in [cs], and one that also ends with such a character. *)
Definition starts_bare (cs : text) (t : text) : bool :=
  match t with
  | c :: _ => negb (is_space c) && negb (mem c cs)
  | [] => false
  end.

Definition clean_ends (cs : text) (t : text) : bool :=
  starts_bare cs t && starts_bare cs (rev t).

(** The text does not go on with a character of the class [p]. *)
Definition stops (p : cls) (t : text) : Prop :=
  match t with
  | c :: _ => p c = false
  | [] => True
  end.

(** The text does not go on with a digit: it is empty, or starts with a
    character that is no digit, one of those up to U+00FF, which the
    table of digits covers. *)
Definition no_more_digits (t : text) : bool :=
  match t with
  | c :: _ => negb (is_digit c) && (c <=? 255)%N
  | [] => true
  end.

(** What the loop of [match_pdf_to_reading] keeps of its best match: it
    is one of the files seen, and the best score is its score and reaches
    the threshold. *)
Definition best_so_far (reading_norm : text) (seen : list pdf_file)
    (acc : PrimFloat.float * option pdf_file) : Prop :=
  match snd acc with
  | Some pdf =>
      In pdf seen
      /\ pdf_score reading_norm (keywords reading_norm) pdf = Some (fst acc)
      /\ PrimFloat.leb threshold (fst acc) = true
  | None => True
  end.

(** Two files of a folder. *)
Definition folder_files : list pdf_file :=
  [PdfFile (str "Jones - a study of the modern world.pdf") (str "link-1");
   PdfFile (str "Smith - The theory of everything.pdf") (str "link-2")].

(** The current unit of the merger as a list. *)
Definition pending (current : option unit_) : list unit_ :=
  match current with
  | Some cur => [cur]
  | None => []
  end.

(** Two citations, each complete, around a blank line. *)
Definition complete_lines : list fragment :=
  [Fragment (str "Smith, J. (2020). The theory of everything. Oxford.") 1 52;
   Fragment (str "   ") 52 56;
   Fragment (str "Jones, A. (2019). A study of the modern world. 12-40.") 56 110].

(** The characters of an identifier of the Drive: letters, digits, the
    underscore and the hyphen, the class of [drive_file_id]. *)
Definition id_char : cls := cor (cor (cor az AZ) (rng "0" "9")) (of_set "_-").

(** The week [w] is announced in [st]: it is 0, the week before any
    header, or the number of a week header on the list of headers. *)
Definition announced (st : stats) (w : Z) : Prop :=
  w = 0%Z
  \/ exists h, In h (headers st) /\ is_week_header (i_full_text h) = Ok (Some w).

(** The current week and the week of every item are announced. *)
Definition weeks_announced (st : stats) : Prop :=
  announced st (current_week st)
  /\ Forall (fun it => announced st (i_week it)) (all_items st).

Definition keeps_weeks (o : outcome) : Prop :=
  match o with
  | Done st => weeks_announced st
  | _ => True
  end.

(** A week header and a reading under it. *)
Definition weekly_document : list element :=
  [Paragraph [text_run_at "Week 3: Theories of everything" 1 31];
   Paragraph [text_run_at "Smith, J. (2020). The theory of everything. Oxford University Press." 31 99]].

(** The start of the link to a file of the Drive. *)
Definition drive_file_link : text := str "https://drive.google.com/file/d/".

(* ================================================================= *)
(** ** Lemmas and theorems *)

(** *** Stripping *)

Lemma lstrip_app a b :
  lstrip (a ++ b) = if all_space a then lstrip b else lstrip a ++ b.
Proof.
  induction a as [|c a IH]; simpl; [reflexivity|].
  destruct (is_space c); simpl; [exact IH|reflexivity].
Qed.

Lemma lstrip_all_space t : all_space t = true -> lstrip t = [].
Proof.
  induction t as [|c t IH]; simpl; [reflexivity|].
  destruct (is_space c); simpl; [exact IH|discriminate].
Qed.

Lemma lstrip_nil_all_space t : lstrip t = [] -> all_space t = true.
Proof.
  induction t as [|c t IH]; simpl; [reflexivity|].
  destruct (is_space c); simpl; [exact IH|discriminate].
Qed.

Lemma all_space_rev t : all_space (rev t) = all_space t.
Proof.
  induction t as [|c t IH]; simpl; [reflexivity|].
  assert (H : forall a b, all_space (a ++ b) = all_space a && all_space b).
  { induction a as [|x a IHa]; simpl; intros; [reflexivity|]. rewrite IHa, andb_assoc. reflexivity. }
  rewrite H, IH. simpl. rewrite andb_true_r, andb_comm. reflexivity.
Qed.

(** [rstrip] by recursion from the left. *)
Lemma rstrip_cons c t :
  rstrip (c :: t) =
  match rstrip t with
  | [] => if is_space c then [] else [c]
  | r => c :: r
  end.
Proof.
  unfold rstrip. simpl. rewrite lstrip_app.
  destruct (all_space (rev t)) eqn:E.
  - rewrite (lstrip_all_space _ E). simpl. destruct (is_space c); reflexivity.
  - rewrite rev_app_distr. simpl.
    destruct (rev (lstrip (rev t))) eqn:E2; [|reflexivity].
    assert (lstrip (rev t) = []).
    { rewrite <- (rev_involutive (lstrip (rev t))), E2. reflexivity. }
    apply lstrip_nil_all_space in H. congruence.
Qed.

Lemma lstrip_head t : match lstrip t with c :: _ => is_space c = false | [] => True end.
Proof.
  induction t as [|c t IH]; simpl; [exact I|].
  destruct (is_space c) eqn:E; [exact IH|exact E].
Qed.

Lemma lstrip_fixed c t : is_space c = false -> lstrip (c :: t) = c :: t.
Proof. intros H. simpl. rewrite H. reflexivity. Qed.

Lemma rstrip_rstrip t : rstrip (rstrip t) = rstrip t.
Proof.
  induction t as [|c t IH]; [reflexivity|].
  rewrite rstrip_cons. destruct (rstrip t) as [|d r] eqn:E.
  - destruct (is_space c) eqn:Ec; [reflexivity|].
    rewrite rstrip_cons. change (rstrip []) with (@nil char). rewrite Ec. reflexivity.
  - rewrite rstrip_cons, IH. reflexivity.
Qed.

Lemma rstrip_keeps_head c t : is_space c = false ->
  exists r, rstrip (c :: t) = c :: r.
Proof.
  intros H. rewrite rstrip_cons. destruct (rstrip t); rewrite ?H; eauto.
Qed.

Lemma strip_strip t : strip (strip t) = strip t.
Proof.
  unfold strip. pose proof (lstrip_head t) as Hh.
  destruct (lstrip t) as [|c t'] eqn:E; [reflexivity|].
  destruct (rstrip_keeps_head c t' Hh) as [r Hr]. rewrite Hr.
  rewrite lstrip_fixed by exact Hh. rewrite <- Hr. apply rstrip_rstrip.
Qed.

Lemma Forall_lstrip (P : char -> Prop) t : Forall P t -> Forall P (lstrip t).
Proof.
  induction 1 as [|c t Hc Ht IH]; simpl; [constructor|].
  destruct (is_space c); [exact IH|constructor; assumption].
Qed.

Lemma Forall_strip (P : char -> Prop) t : Forall P t -> Forall P (strip t).
Proof.
  intros H. unfold strip, rstrip. apply Forall_rev. apply Forall_lstrip.
  apply Forall_rev. apply Forall_lstrip. exact H.
Qed.

(** *** Replacing a character *)

Lemma replace_char_absent a b t :
  Forall (fun c => c <> a) t -> replace_char a b t = t.
Proof.
  induction 1 as [|c t Hc Ht IH]; simpl; [reflexivity|].
  destruct (N.eqb_spec c a); [contradiction|]. simpl. fold (replace_char a b t).
  rewrite IH. reflexivity.
Qed.

Lemma replace_char_Forall (P : char -> Prop) a b t :
  Forall P b -> Forall (fun c => c <> a -> P c) t -> Forall P (replace_char a b t).
Proof.
  intros Hb. induction 1 as [|c t Hc Ht IH]; simpl; [constructor|].
  apply Forall_app. split; [|exact IH].
  destruct (N.eqb_spec c a); [exact Hb|]. constructor; [auto|constructor].
Qed.

(** *** Substitution *)

Lemma Forall_firstn (P : char -> Prop) : forall n t, Forall P t -> Forall P (firstn n t).
Proof.
  induction n as [|n IH]; intros t H; simpl; [constructor|].
  destruct H; constructor; auto.
Qed.

Lemma Forall_skipn (P : char -> Prop) : forall n t, Forall P t -> Forall P (skipn n t).
Proof.
  induction n as [|n IH]; intros t H; simpl; [exact H|].
  destruct H; [constructor|auto].
Qed.

Lemma Forall_slice (P : char -> Prop) a b t : Forall P t -> Forall P (slice a b t).
Proof. intros H. unfold slice. apply Forall_firstn, Forall_skipn, H. Qed.

Lemma sub_scan_Forall (P : char -> Prop) r repl :
  (forall m, Forall P (repl m)) ->
  forall sf skip pr i, Forall P sf -> Forall P (sub_scan r repl skip pr sf i).
Proof.
  intros Hrepl. induction sf as [|c sf IH]; intros skip pr i H.
  - destruct skip; simpl; [|constructor].
    destruct (try_at r pr [] i); [|constructor].
    rewrite app_nil_r. apply Hrepl.
  - inversion H; subst. destruct skip; simpl.
    + destruct (try_at r pr (c :: sf) i).
      * apply Forall_app. split; [apply Hrepl|].
        apply Forall_app. split; [|apply IH; assumption].
        destruct (m_end r0 =? i); constructor; [assumption|constructor].
      * constructor; [assumption|apply IH; assumption].
    + apply IH. assumption.
Qed.

Lemma sub_scan_no_match r repl : forall sf pr i,
  search_from r pr sf i = None -> sub_scan r repl 0 pr sf i = sf.
Proof.
  induction sf as [|c sf IH]; intros pr i H; simpl in *.
  - destruct (try_at r pr [] i); [discriminate|reflexivity].
  - destruct (try_at r pr (c :: sf) i); [discriminate|].
    rewrite IH by exact H. reflexivity.
Qed.

(** *** Greedy repetition with nothing after it *)

Lemma rep_run_all p : forall sf lo pr i cs,
  match rep_run p lo None pr sf i cs Some with
  | Some st => lo <= span p sf /\ idx st = i + span p sf /\ caps st = cs
  | None => span p sf < lo
  end.
Proof.
  induction sf as [|c sf IH]; intros lo pr i cs; simpl.
  - destruct lo; simpl; [split; [lia|split; [lia|reflexivity]]|lia].
  - destruct (p c) eqn:Hc; simpl.
    + specialize (IH (pred lo) (c :: pr) (S i) cs).
      destruct (rep_run p (pred lo) None (c :: pr) sf (S i) cs Some).
      * destruct IH as (H1 & H2 & H3). split; [lia|split; [lia|exact H3]].
      * destruct lo; simpl in *; [lia|lia].
    + destruct lo; simpl; [split; [lia|split; [lia|reflexivity]]|lia].
Qed.

Lemma try_at_spaces pr sf i :
  try_at spaces pr sf i =
  if 1 <=? span is_space sf then Some (RM i (i + span is_space sf) []) else None.
Proof.
  unfold try_at, spaces, plus. cbn [run pre suf idx caps].
  pose proof (rep_run_all is_space sf 1 pr i []) as H.
  destruct (rep_run is_space 1 None pr sf i [] Some) as [st|].
  - destruct H as (H1 & H2 & H3). rewrite H2, H3.
    destruct (Nat.leb_spec 1 (span is_space sf)); [reflexivity|lia].
  - destruct (Nat.leb_spec 1 (span is_space sf)); [lia|reflexivity].
Qed.

(** *** Collapsing white space *)

Lemma squeeze_span0 t : span is_space t = 0 -> squeeze true t = squeeze false t.
Proof. destruct t as [|c t]; simpl; [reflexivity|]. destruct (is_space c); [discriminate|reflexivity]. Qed.

Lemma sub_scan_spaces : forall sf skip pr i,
  skip <= span is_space sf -> (0 < skip -> skip = span is_space sf) ->
  sub_scan spaces (fun _ => str " ") skip pr sf i = squeeze (0 <? skip) sf.
Proof.
  induction sf as [|c sf IH]; intros skip pr i Hle Heq.
  - simpl in Hle. assert (skip = 0) by lia. subst. cbn [sub_scan].
    rewrite try_at_spaces. reflexivity.
  - destruct skip as [|n].
    + cbn [sub_scan]. rewrite try_at_spaces. cbn [span].
      destruct (is_space c) eqn:Hc.
      * cbn [Nat.leb m_end]. simpl squeeze. rewrite Hc.
        replace (i + S (span is_space sf) =? i) with false
          by (symmetry; apply Nat.eqb_neq; lia).
        replace (i + S (span is_space sf) - i - 1) with (span is_space sf) by lia.
        rewrite IH by (try lia).
        destruct (span is_space sf) eqn:E.
        -- simpl. rewrite (squeeze_span0 sf E). reflexivity.
        -- reflexivity.
      * cbn [Nat.leb]. simpl squeeze. rewrite Hc. rewrite IH by (simpl; lia).
        reflexivity.
    + cbn [sub_scan]. cbn [span] in Hle, Heq.
      destruct (is_space c) eqn:Hc; [|lia].
      assert (Hn : n = span is_space sf) by (specialize (Heq ltac:(lia)); lia).
      rewrite IH by lia. simpl. rewrite Hc.
      destruct n; [|reflexivity]. simpl. symmetry. apply squeeze_span0. lia.
Qed.

Lemma re_sub_spaces t : re_sub spaces (fun _ _ => str " ") t = squeeze false t.
Proof. unfold re_sub. rewrite sub_scan_spaces; [reflexivity|lia|lia]. Qed.

Lemma squeeze_tidy : forall t b, tidy b (squeeze b t).
Proof.
  induction t as [|c t IH]; intros b; simpl; [exact I|].
  destruct (is_space c) eqn:Hc.
  - destruct b; [apply IH|]. simpl. change (is_space 32%N) with true.
    cbv beta iota. repeat split. apply IH.
  - simpl. rewrite Hc. apply IH.
Qed.

Lemma tidy_squeeze : forall t b, tidy b t -> squeeze b t = t.
Proof.
  induction t as [|c t IH]; intros b H; simpl in *; [reflexivity|].
  destruct (is_space c).
  - destruct H as (-> & -> & H). rewrite IH by exact H. reflexivity.
  - rewrite IH by exact H. reflexivity.
Qed.

Lemma tidy_weaken t : tidy true t -> tidy false t.
Proof. destruct t as [|c t]; simpl; [auto|]. destruct (is_space c); [intros (H & _); discriminate|auto]. Qed.

Lemma tidy_lstrip : forall t b, tidy b t -> tidy false (lstrip t).
Proof.
  induction t as [|c t IH]; intros b H; simpl in *; [exact I|].
  destruct (is_space c) eqn:Hc.
  - destruct H as (_ & _ & H). eapply IH. exact H.
  - simpl. rewrite Hc. exact H.
Qed.

Lemma tidy_rstrip : forall t b, tidy b t -> tidy b (rstrip t).
Proof.
  induction t as [|c t IH]; intros b H; [exact I|].
  rewrite rstrip_cons. simpl in H.
  destruct (is_space c) eqn:Hc.
  - destruct H as (Hb & Hc32 & H). apply IH in H.
    destruct (rstrip t) as [|d r]; [exact I|].
    simpl. simpl in H. rewrite Hc. auto.
  - apply IH in H. destruct (rstrip t) as [|d r]; simpl; rewrite Hc; [exact I|exact H].
Qed.

Lemma tidy_strip t : tidy false t -> tidy false (strip t).
Proof. intros H. unfold strip. apply tidy_rstrip. eapply tidy_lstrip. exact H. Qed.

(** *** The normalizer *)

Lemma normalize_unfold t :
  normalize_pdf_text t =
  strip (re_sub spaces (fun _ _ => str " ")
           (re_sub hyphen_break (fun t m => group t m 1 ++ group t m 2) (ascii_maps t))).
Proof. reflexivity. Qed.

Lemma replace_char_In a b t c :
  In c (replace_char a b t) -> In c b \/ (In c t /\ c <> a).
Proof.
  unfold replace_char. rewrite in_flat_map. intros (x & Hx & Hc).
  destruct (N.eqb_spec x a) as [->|Hne]; [left; exact Hc|].
  destruct Hc as [<-|[]]. right. split; assumption.
Qed.

Lemma ascii_maps_plain t : Forall plain (ascii_maps t).
Proof.
  apply Forall_forall. intros c Hin. unfold ascii_maps in Hin.
  apply replace_char_In in Hin. destruct Hin as [Hin|[Hin N8]]; [plain_char|].
  apply replace_char_In in Hin. destruct Hin as [Hin|[Hin N7]]; [plain_char|].
  apply replace_char_In in Hin. destruct Hin as [Hin|[Hin N6]]; [plain_char|].
  apply replace_char_In in Hin. destruct Hin as [Hin|[Hin N5]]; [plain_char|].
  apply replace_char_In in Hin. destruct Hin as [Hin|[Hin N4]]; [plain_char|].
  apply replace_char_In in Hin. destruct Hin as [Hin|[Hin N3]]; [plain_char|].
  apply replace_char_In in Hin. destruct Hin as [Hin|[Hin N2]]; [plain_char|].
  apply replace_char_In in Hin. destruct Hin as [Hin|[Hin N1]]; [plain_char|].
  unfold plain, typographic. simpl. intros H.
  repeat (destruct H as [H|H]; [congruence|]). exact H.
Qed.

Lemma ascii_maps_fixed t : Forall plain t -> ascii_maps t = t.
Proof.
  intros H. unfold ascii_maps.
  assert (Hne : forall a, In a typographic -> Forall (fun c => c <> a) t).
  { intros a Ha. eapply Forall_impl; [|exact H]. intros c Hc ->. exact (Hc Ha). }
  rewrite (replace_char_absent 8217%N _ t) by (apply Hne; simpl; tauto).
  rewrite (replace_char_absent 8216%N _ t) by (apply Hne; simpl; tauto).
  rewrite (replace_char_absent 8220%N _ t) by (apply Hne; simpl; tauto).
  rewrite (replace_char_absent 8221%N _ t) by (apply Hne; simpl; tauto).
  rewrite (replace_char_absent 8211%N _ t) by (apply Hne; simpl; tauto).
  rewrite (replace_char_absent 8212%N _ t) by (apply Hne; simpl; tauto).
  rewrite (replace_char_absent 160%N _ t) by (apply Hne; simpl; tauto).
  apply replace_char_absent. apply Hne. simpl. tauto.
Qed.

Lemma normalize_plain t : Forall plain (normalize_pdf_text t).
Proof.
  rewrite normalize_unfold. apply Forall_strip.
  unfold re_sub. apply sub_scan_Forall.
  - intros _. repeat constructor; unfold plain, typographic; simpl; intros H;
      repeat (destruct H as [H|H]; [discriminate H|]); exact H.
  - apply sub_scan_Forall.
    + intros m. apply Forall_app. split; unfold group;
        destruct (cap_span _ _) as [[a b]|]; try constructor;
        apply Forall_slice; apply ascii_maps_plain.
    + apply ascii_maps_plain.
Qed.

Lemma normalize_tidy t : tidy false (normalize_pdf_text t).
Proof. rewrite normalize_unfold, re_sub_spaces. apply tidy_strip. apply squeeze_tidy. Qed.

Lemma normalize_stripped t : strip (normalize_pdf_text t) = normalize_pdf_text t.
Proof. rewrite normalize_unfold. apply strip_strip. Qed.

(** Normalizing a second time changes nothing, for every text whose
    normalized text holds no hyphenated break (a word character, a hyphen,
    white space, a word character): the break that one pass of the
    de-hyphenation leaves is all that stands against idempotence. *)
Lemma normalize_idempotent_without_hyphen_break : forall x,
  found hyphen_break (normalize_pdf_text x) = false ->
  normalize_pdf_text (normalize_pdf_text x) = normalize_pdf_text x.
Proof.
  intros x Hno.
  assert (Hs : re_search hyphen_break (normalize_pdf_text x) = None).
  { unfold found in Hno. destruct (re_search hyphen_break (normalize_pdf_text x));
      [discriminate|reflexivity]. }
  rewrite (normalize_unfold (normalize_pdf_text x)).
  rewrite ascii_maps_fixed by apply normalize_plain.
  unfold re_sub at 2. rewrite sub_scan_no_match by exact Hs.
  rewrite re_sub_spaces, tidy_squeeze by apply normalize_tidy.
  apply normalize_stripped.
Qed.

(** The theorem on a text with runs of spaces and one hyphenated break. *)
Lemma normalize_idempotent_on_example :
  found hyphen_break (normalize_pdf_text (str "  Gender   and power-  relations  ")) = false
  /\ normalize_pdf_text (normalize_pdf_text (str "  Gender   and power-  relations  "))
     = normalize_pdf_text (str "  Gender   and power-  relations  ").
Proof.
  split; [vm_compute; reflexivity|].
  apply (normalize_idempotent_without_hyphen_break (str "  Gender   and power-  relations  ")).
  vm_compute. reflexivity.
Qed.

(** C1.  The normalizer is not idempotent on [a- b- c].  The step that
    the source comments as fixing the hyphenation at line breaks replaces
    the matches of its pattern that do not overlap: the second word
    character of the first break is the first of the second break, so one
    pass joins the first break only and leaves a hyphenated break in its
    result, which a second pass joins. *)
Theorem normalize_not_idempotent :
  normalize_pdf_text (str "a- b- c") = str "ab- c"
  /\ found hyphen_break (normalize_pdf_text (str "a- b- c")) = true
  /\ normalize_pdf_text (normalize_pdf_text (str "a- b- c")) = str "abc"
  /\ normalize_pdf_text (normalize_pdf_text (str "a- b- c"))
     <> normalize_pdf_text (str "a- b- c").
Proof.
  split; [vm_compute; reflexivity|]. split; [vm_compute; reflexivity|].
  split; [vm_compute; reflexivity|]. vm_compute. discriminate.
Qed.

(** *** What the matcher accepts *)

Lemma rep_run_sound p : forall sf lo hi pr i cs k res,
  rep_run p lo hi pr sf i cs k = Some res ->
  exists s sf',
    sf = s ++ sf' /\ Forall (fun c => p c = true) s /\ lo <= List.length s
    /\ within hi (List.length s)
    /\ k (MS (rev s ++ pr) sf' (i + List.length s) cs) = Some res.
Proof.
  assert (Hstop : forall sf lo (hi : option nat) pr i cs (k : mstate -> option mstate) res,
    (if Nat.eqb lo 0 then k (MS pr sf i cs) else None) = Some res ->
    exists s sf',
      sf = s ++ sf' /\ Forall (fun c => p c = true) s /\ lo <= List.length s
      /\ within hi (List.length s)
      /\ k (MS (rev s ++ pr) sf' (i + List.length s) cs) = Some res).
  { intros sf lo hi pr i cs k res H. destruct lo; [|discriminate]. simpl in H.
    exists [], sf. simpl. rewrite Nat.add_0_r.
    repeat split; auto. destruct hi; simpl; lia. }
  induction sf as [|c sf IH]; intros lo hi pr i cs k res H; simpl in H.
  - apply Hstop. exact H.
  - destruct (p c && may_take hi) eqn:E; [|apply Hstop; exact H].
    apply andb_true_iff in E. destruct E as [Hc Hm].
    destruct (rep_run p (pred lo) (dec hi) (c :: pr) sf (S i) cs k) eqn:E2;
      [|apply Hstop; exact H].
    inversion H; subst. apply IH in E2.
    destruct E2 as (s & sf' & -> & Hs & Hlo & Hhi & Hk).
    exists (c :: s), sf'. simpl. rewrite <- app_assoc. simpl.
    replace (i + S (List.length s)) with (S i + List.length s) by lia.
    repeat split; auto.
    + lia.
    + destruct hi as [[|h]|]; simpl in *; try discriminate; lia.
Qed.

Lemma run_sound : forall r pr sf i cs k res,
  run r (MS pr sf i cs) k = Some res ->
  exists s sf' cs',
    sf = s ++ sf' /\ Matches r pr s sf'
    /\ k (MS (rev s ++ pr) sf' (i + List.length s) cs') = Some res.
Proof.
  induction r as [|p|p lo hi|a IHa b IHb|a IHa b IHb|n a IHa| | | |a IHa|p];
    intros pr sf i cs k res H; cbn [run pre suf idx caps] in H.
  - exists [], sf, cs. simpl. rewrite Nat.add_0_r. repeat split; [constructor|exact H].
  - destruct sf as [|c sf]; [discriminate|]. destruct (p c) eqn:Hc; [|discriminate].
    exists [c], sf, cs. simpl. replace (i + 1) with (S i) by lia.
    repeat split; [constructor; exact Hc|exact H].
  - apply rep_run_sound in H. destruct H as (s & sf' & -> & Hs & Hlo & Hhi & Hk).
    exists s, sf', cs. repeat split; [constructor; assumption|exact Hk].
  - apply IHa in H. destruct H as (s1 & sf1 & cs1 & -> & Ha & H).
    apply IHb in H. destruct H as (s2 & sf2 & cs2 & -> & Hb & H).
    exists (s1 ++ s2), sf2, cs2. rewrite <- app_assoc. split; [reflexivity|].
    split; [constructor; assumption|].
    rewrite rev_app_distr, <- app_assoc, length_app, Nat.add_assoc. exact H.
  - destruct (run a (MS pr sf i cs) k) eqn:E.
    + inversion H; subst. apply IHa in E. destruct E as (s & sf' & cs' & -> & Ha & Hk).
      exists s, sf', cs'. repeat split; [apply M_AltL; exact Ha|exact Hk].
    + apply IHb in H. destruct H as (s & sf' & cs' & -> & Hb & Hk).
      exists s, sf', cs'. repeat split; [apply M_AltR; exact Hb|exact Hk].
  - apply IHa in H. destruct H as (s & sf' & cs' & -> & Ha & Hk).
    cbn [pre suf idx caps] in Hk.
    eexists s, sf', _. repeat split; [constructor; exact Ha|exact Hk].
  - destruct pr; [|discriminate]. cbn in H.
    exists [], sf, cs. simpl. rewrite Nat.add_0_r. repeat split; [constructor|exact H].
  - destruct (at_eol (MS pr sf i cs)) eqn:E; [|discriminate].
    exists [], sf, cs. simpl. rewrite Nat.add_0_r. repeat split; [constructor; exact E|exact H].
  - destruct (at_wb (MS pr sf i cs)) eqn:E; [|discriminate].
    exists [], sf, cs. simpl. rewrite Nat.add_0_r. repeat split; [constructor; exact E|exact H].
  - destruct (run a (MS pr sf i cs) Some) eqn:E; [|discriminate].
    apply IHa in E. destruct E as (s & sf' & cs' & -> & Ha & _).
    exists [], (s ++ sf'), cs. simpl. rewrite Nat.add_0_r.
    repeat split; [constructor; exact Ha|exact H].
  - destruct pr as [|c pr]; [discriminate|]. destruct (p c) eqn:Hc; [|discriminate].
    exists [], sf, cs. simpl. rewrite Nat.add_0_r.
    repeat split; [constructor; exact Hc|exact H].
Qed.

Lemma rep_run_complete p : forall s lo hi pr sf' i cs k,
  Forall (fun c => p c = true) s -> lo <= List.length s -> within hi (List.length s) ->
  k (MS (rev s ++ pr) sf' (i + List.length s) cs) <> None ->
  rep_run p lo hi pr (s ++ sf') i cs k <> None.
Proof.
  induction s as [|c s IH]; intros lo hi pr sf' i cs k Hs Hlo Hhi Hk.
  - simpl in *. rewrite Nat.add_0_r in Hk. assert (lo = 0) by lia. subst lo.
    destruct sf' as [|c sf']; simpl; [exact Hk|].
    destruct (p c && may_take hi); [|exact Hk].
    destruct (rep_run p 0 (dec hi) (c :: pr) sf' (S i) cs k); [discriminate|exact Hk].
  - inversion Hs; subst. simpl.
    assert (Hm : may_take hi = true).
    { destruct hi as [[|h]|]; simpl in *; try reflexivity; lia. }
    rewrite H1, Hm. simpl.
    specialize (IH (pred lo) (dec hi) (c :: pr) sf' (S i) cs k H2).
    destruct (rep_run p (pred lo) (dec hi) (c :: pr) (s ++ sf') (S i) cs k);
      [discriminate|].
    exfalso. apply IH; try reflexivity.
    + simpl in Hlo. lia.
    + destruct hi as [h|]; simpl in *; lia.
    + simpl in Hk. rewrite <- app_assoc in Hk. simpl in Hk.
      replace (S i + List.length s) with (i + S (List.length s)) by lia. exact Hk.
Qed.

Lemma run_complete : forall r pr s sf',
  Matches r pr s sf' ->
  forall i cs k,
    (forall cs', k (MS (rev s ++ pr) sf' (i + List.length s) cs') <> None) ->
    run r (MS pr (s ++ sf') i cs) k <> None.
Proof.
  induction 1 as [pr sf|p c pr sf Hc|p lo hi s pr sf Hs Hlo Hhi
                 |a b s1 s2 pr sf Ha IHa Hb IHb|a b s pr sf Ha IHa|a b s pr sf Hb IHb
                 |n a s pr sf Ha IHa|sf|pr sf He|pr sf Hw|a s pr sf Ha IHa|p c pr sf Hc];
    intros i cs k Hk; cbn [run pre suf idx caps].
  - specialize (Hk cs). simpl in Hk. rewrite Nat.add_0_r in Hk. exact Hk.
  - simpl. rewrite Hc. specialize (Hk cs). simpl in Hk.
    replace (i + 1) with (S i) in Hk by lia. exact Hk.
  - apply rep_run_complete; auto.
  - rewrite <- app_assoc. apply IHa. intros cs1. apply IHb. intros cs2.
    specialize (Hk cs2).
    rewrite rev_app_distr, <- app_assoc, length_app, Nat.add_assoc in Hk. exact Hk.
  - specialize (IHa i cs k Hk). destruct (run a (MS pr (s ++ sf) i cs) k); [discriminate|].
    contradiction.
  - destruct (run a (MS pr (s ++ sf) i cs) k); [discriminate|]. apply IHb. exact Hk.
  - apply IHa. intros cs'. cbn [pre suf idx caps]. apply Hk.
  - simpl. specialize (Hk cs). simpl in Hk. rewrite Nat.add_0_r in Hk. exact Hk.
  - simpl app. replace (at_eol (MS pr sf i cs)) with true by (symmetry; exact He).
    specialize (Hk cs). simpl in Hk. rewrite Nat.add_0_r in Hk. exact Hk.
  - simpl app. replace (at_wb (MS pr sf i cs)) with true by (symmetry; exact Hw).
    specialize (Hk cs). simpl in Hk. rewrite Nat.add_0_r in Hk. exact Hk.
  - simpl app. specialize (IHa i cs Some).
    destruct (run a (MS pr (s ++ sf) i cs) Some).
    + specialize (Hk cs). simpl in Hk. rewrite Nat.add_0_r in Hk. exact Hk.
    + exfalso. apply IHa; [intros; discriminate|reflexivity].
  - simpl. rewrite Hc. specialize (Hk cs). simpl in Hk. rewrite Nat.add_0_r in Hk. exact Hk.
Qed.

Lemma matches_sound r t : matches r t = true ->
  exists s sf, t = s ++ sf /\ Matches r [] s sf.
Proof.
  unfold matches, re_match, try_at. destruct (run r (MS [] t 0 []) Some) eqn:E; [|discriminate].
  intros _. apply run_sound in E. destruct E as (s & sf & cs & -> & H & _). eauto.
Qed.

Lemma matches_complete r s sf : Matches r [] s sf -> matches r (s ++ sf) = true.
Proof.
  intros H. unfold matches, re_match, try_at.
  pose proof (run_complete r [] s sf H 0 [] Some) as Hr.
  destruct (run r (MS [] (s ++ sf) 0 []) Some); [reflexivity|].
  exfalso. apply Hr; [intros; discriminate|reflexivity].
Qed.

(** Inversion of [Matches], one lemma per constructor of the pattern. *)
Lemma Matches_Cat_inv a b pr s sf :
  Matches (Cat a b) pr s sf ->
  exists s1 s2, s = s1 ++ s2 /\ Matches a pr s1 (s2 ++ sf) /\ Matches b (rev s1 ++ pr) s2 sf.
Proof. intros H. inversion H; subst. eauto. Qed.

Lemma Matches_Cls_inv p pr s sf :
  Matches (Cls p) pr s sf -> exists c, s = [c] /\ p c = true.
Proof. intros H. inversion H; subst. eauto. Qed.

Lemma Matches_Rep_inv p lo hi pr s sf :
  Matches (Rep p lo hi) pr s sf ->
  Forall (fun c => p c = true) s /\ lo <= List.length s /\ within hi (List.length s).
Proof. intros H. inversion H; subst. auto. Qed.

Lemma Matches_Eps_inv pr s sf : Matches Eps pr s sf -> s = [].
Proof. intros H. inversion H; subst. reflexivity. Qed.

Lemma Matches_Grp_inv n a pr s sf : Matches (Grp n a) pr s sf -> Matches a pr s sf.
Proof. intros H. inversion H; subst. assumption. Qed.

Lemma Matches_Bol_inv pr s sf : Matches Bol pr s sf -> s = [] /\ pr = [].
Proof. intros H. inversion H; subst. auto. Qed.


Lemma Matches_Cat_intro a b pr s s1 s2 sf :
  s = s1 ++ s2 -> Matches a pr s1 (s2 ++ sf) -> Matches b (rev s1 ++ pr) s2 sf ->
  Matches (Cat a b) pr s sf.
Proof. intros -> Ha Hb. constructor; assumption. Qed.

(** *** The groups of a match *)

(** What the matcher accepts, with the groups it records. *)
Lemma run_captures : forall r pr sf i cs k res,
  run r (MS pr sf i cs) k = Some res ->
  exists s sf' new,
    sf = s ++ sf' /\ Captures r pr s sf' i new
    /\ k (MS (rev s ++ pr) sf' (i + List.length s) (new ++ cs)) = Some res.
Proof.
  induction r as [|p|p lo hi|a IHa b IHb|a IHa b IHb|n a IHa| | | |a IHa|p];
    intros pr sf i cs k res H; cbn [run pre suf idx caps] in H.
  - exists [], sf, []. simpl. rewrite Nat.add_0_r. repeat split; [constructor|exact H].
  - destruct sf as [|c sf]; [discriminate|]. destruct (p c) eqn:Hc; [|discriminate].
    exists [c], sf, []. simpl. replace (i + 1) with (S i) by lia.
    repeat split; [constructor; exact Hc|exact H].
  - apply rep_run_sound in H. destruct H as (s & sf' & -> & Hs & Hlo & Hhi & Hk).
    exists s, sf', []. repeat split; [constructor; assumption|exact Hk].
  - apply IHa in H. destruct H as (s1 & sf1 & ca & -> & Ha & H).
    apply IHb in H. destruct H as (s2 & sf2 & cb & -> & Hb & H).
    exists (s1 ++ s2), sf2, (cb ++ ca). rewrite <- !app_assoc. split; [reflexivity|].
    split; [constructor; assumption|].
    rewrite rev_app_distr, <- app_assoc, length_app, Nat.add_assoc. exact H.
  - destruct (run a (MS pr sf i cs) k) eqn:E.
    + inversion H; subst. apply IHa in E. destruct E as (s & sf' & ca & -> & Ha & Hk).
      exists s, sf', ca. repeat split; [apply K_AltL; exact Ha|exact Hk].
    + apply IHb in H. destruct H as (s & sf' & cb & -> & Hb & Hk).
      exists s, sf', cb. repeat split; [apply K_AltR; exact Hb|exact Hk].
  - apply IHa in H. destruct H as (s & sf' & ca & -> & Ha & Hk).
    cbn [pre suf idx caps] in Hk.
    exists s, sf', ((n, (i, i + List.length s)) :: ca).
    repeat split; [constructor; exact Ha|exact Hk].
  - destruct pr; [|discriminate]. cbn in H.
    exists [], sf, []. simpl. rewrite Nat.add_0_r. repeat split; [constructor|exact H].
  - destruct (at_eol (MS pr sf i cs)) eqn:E; [|discriminate].
    exists [], sf, []. simpl. rewrite Nat.add_0_r. repeat split; [constructor; exact E|exact H].
  - destruct (at_wb (MS pr sf i cs)) eqn:E; [|discriminate].
    exists [], sf, []. simpl. rewrite Nat.add_0_r. repeat split; [constructor; exact E|exact H].
  - destruct (run a (MS pr sf i cs) Some) eqn:E; [|discriminate].
    apply IHa in E. destruct E as (s & sf' & ca & -> & Ha & _).
    exists [], (s ++ sf'), []. simpl. rewrite Nat.add_0_r.
    repeat split; [econstructor; exact Ha|exact H].
  - destruct pr as [|c pr]; [discriminate|]. destruct (p c) eqn:Hc; [|discriminate].
    exists [], sf, []. simpl. rewrite Nat.add_0_r.
    repeat split; [constructor; exact Hc|exact H].
Qed.

(** A match found at an index: the text it covers and its groups. *)
Lemma try_at_captures r pr sf i m :
  try_at r pr sf i = Some m ->
  exists s sf',
    sf = s ++ sf' /\ Captures r pr s sf' i (m_caps m)
    /\ m_start m = i /\ m_end m = i + List.length s.
Proof.
  unfold try_at. destruct (run r (MS pr sf i []) Some) as [st|] eqn:E; [|discriminate].
  intros H. inversion H; subst. clear H. apply run_captures in E.
  destruct E as (s & sf' & new & -> & Hc & Hk). inversion Hk; subst. clear Hk.
  exists s, sf'. cbn [idx caps m_caps m_start m_end]. rewrite app_nil_r. auto.
Qed.


(** *** Reading a match back from its pattern *)

Lemma Captures_Cat_inv a b pr s sf i new :
  Captures (Cat a b) pr s sf i new ->
  exists s1 s2 ca cb,
    s = s1 ++ s2 /\ new = cb ++ ca
    /\ Captures a pr s1 (s2 ++ sf) i ca
    /\ Captures b (rev s1 ++ pr) s2 sf (i + List.length s1) cb.
Proof. intros H. inversion H; subst. eauto 10. Qed.

Lemma Captures_Grp_inv n a pr s sf i new :
  Captures (Grp n a) pr s sf i new ->
  exists ca, new = (n, (i, i + List.length s)) :: ca /\ Captures a pr s sf i ca.
Proof. intros H. inversion H; subst. eauto. Qed.

Lemma Captures_Eps_inv pr s sf i new : Captures Eps pr s sf i new -> s = [] /\ new = [].
Proof. intros H. inversion H; subst. auto. Qed.

Lemma Captures_Cls_inv p pr s sf i new :
  Captures (Cls p) pr s sf i new -> exists c, s = [c] /\ p c = true /\ new = [].
Proof. intros H. inversion H; subst. eauto. Qed.

Lemma Captures_Rep_inv p lo hi pr s sf i new :
  Captures (Rep p lo hi) pr s sf i new ->
  Forall (fun c => p c = true) s /\ lo <= List.length s /\ within hi (List.length s)
  /\ new = [].
Proof. intros H. inversion H; subst. auto. Qed.

Lemma Captures_Bol_inv pr s sf i new :
  Captures Bol pr s sf i new -> s = [] /\ pr = [] /\ new = [].
Proof. intros H. inversion H; subst. auto. Qed.



Lemma slice_app_mid (a b c : text) :
  slice (List.length a) (List.length a + List.length b) (a ++ b ++ c) = b.
Proof.
  unfold slice. replace (List.length a + List.length b - List.length a) with (List.length b) by lia.
  rewrite skipn_app, skipn_all, Nat.sub_diag. cbn [skipn app].
  rewrite firstn_app, firstn_all, Nat.sub_diag. cbn [firstn]. apply app_nil_r.
Qed.

(** *** Character classes under IGNORECASE *)

Lemma ci_space c : ci is_space c = true -> is_space c = true /\ lower_char c = c.
Proof. intros H. split; [apply not_false_is_true; intros F|]; char_facts. Qed.

Lemma ci_digit c : ci is_digit c = true -> is_digit c = true /\ lower_char c = c.
Proof. intros H. split; [apply not_false_is_true; intros F|]; char_facts. Qed.

Lemma ci_letter x c :
  is_ascii_lower x = true -> ci (one x) c = true -> lower_char c = x.
Proof. intros Hx H. char_facts. Qed.

Lemma digit_not_space c : is_digit c = true -> is_space c = false.
Proof. intros H. apply not_true_is_false. intros F. char_facts. Qed.

Lemma lower_spaces s :
  Forall (fun c => ci is_space c = true) s -> lower s = s /\ all_space s = true.
Proof.
  induction 1 as [|c s Hc Hs [IH1 IH2]]; simpl; [split; reflexivity|].
  apply ci_space in Hc. destruct Hc as [H1 H2]. rewrite H1, H2, IH1, IH2. split; reflexivity.
Qed.

(** *** A pattern anchored at the start matches nowhere else *)

Lemma search_bol_later r : forall sf c pr i,
  search_from (Cat Bol r) (c :: pr) sf i = None.
Proof.
  induction sf as [|d sf IH]; intros c pr i; simpl; [reflexivity|]. apply IH.
Qed.

Lemma rstrip_app_nonspace : forall a c r,
  is_space c = false -> rstrip (a ++ c :: r) = a ++ rstrip (c :: r).
Proof.
  induction a as [|x a IH]; intros c r Hc; [reflexivity|].
  simpl. rewrite rstrip_cons, IH by exact Hc.
  destruct (rstrip_keeps_head c r Hc) as [r' ->].
  destruct (a ++ c :: r') eqn:E; [destruct a; discriminate|reflexivity].
Qed.

Lemma week_pattern_shape :
  week_pattern =
  Cat Bol (Cat (Rep (ci is_space) 0 None)
    (Cat (Cat (Cls (ci (one 119%N))) (Cat (Cls (ci (one 101%N)))
           (Cat (Cls (ci (one 101%N))) (Cat (Cls (ci (one 107%N))) Eps))))
      (Cat (Rep (ci is_space) 1 None) (Cat (Grp 1 (Rep (ci is_digit) 1 None)) Eps)))).
Proof. reflexivity. Qed.

(** The texts that the pattern of [is_week_header] matches, and the
    digits its group holds. *)
Lemma week_header_shape t m :
  re_match week_pattern t = Some m ->
  exists w0 wk w1 d ds rest,
    t = w0 ++ wk ++ w1 ++ d :: ds ++ rest
    /\ Forall (fun c => ci is_space c = true) w0
    /\ lower wk = str "week"
    /\ Forall (fun c => ci is_space c = true) w1
    /\ ci is_digit d = true
    /\ Forall (fun c => ci is_digit c = true) ds
    /\ group t m 1 = d :: ds.
Proof.
  unfold re_match. intros E. apply try_at_captures in E.
  destruct E as (s & sf & -> & H & _ & _).
  unfold group. revert H. generalize (m_caps m). clear m. intros new H.
  rewrite week_pattern_shape in H.
  apply Captures_Cat_inv in H. destruct H as (b0 & s1 & n0 & n1 & -> & -> & Hb & H).
  apply Captures_Bol_inv in Hb. destruct Hb as (-> & _ & ->).
  apply Captures_Cat_inv in H. destruct H as (w0 & s2 & n2 & n3 & -> & -> & Hw0 & H).
  apply Captures_Rep_inv in Hw0. destruct Hw0 as (Hw0 & _ & _ & ->).
  apply Captures_Cat_inv in H. destruct H as (wk & s3 & n4 & n5 & -> & -> & Hwk & H).
  apply Captures_Cat_inv in Hwk. destruct Hwk as (k1 & r1 & a1 & b1 & -> & -> & Hk1 & Hwk).
  apply Captures_Cat_inv in Hwk. destruct Hwk as (k2 & r2 & a2 & b2 & -> & -> & Hk2 & Hwk).
  apply Captures_Cat_inv in Hwk. destruct Hwk as (k3 & r3 & a3 & b3 & -> & -> & Hk3 & Hwk).
  apply Captures_Cat_inv in Hwk. destruct Hwk as (k4 & r4 & a4 & b4 & -> & -> & Hk4 & Hwk).
  apply Captures_Eps_inv in Hwk. destruct Hwk as [-> ->].
  apply Captures_Cls_inv in Hk1. destruct Hk1 as (c1 & -> & Hc1 & ->).
  apply Captures_Cls_inv in Hk2. destruct Hk2 as (c2 & -> & Hc2 & ->).
  apply Captures_Cls_inv in Hk3. destruct Hk3 as (c3 & -> & Hc3 & ->).
  apply Captures_Cls_inv in Hk4. destruct Hk4 as (c4 & -> & Hc4 & ->).
  apply Captures_Cat_inv in H. destruct H as (w1 & s4 & n6 & n7 & -> & -> & Hw1 & H).
  apply Captures_Rep_inv in Hw1. destruct Hw1 as (Hw1 & _ & _ & ->).
  apply Captures_Cat_inv in H. destruct H as (ds & s5 & n8 & n9 & -> & -> & Hds & H).
  apply Captures_Eps_inv in H. destruct H as [-> ->].
  apply Captures_Grp_inv in Hds. destruct Hds as (n10 & -> & Hds).
  apply Captures_Rep_inv in Hds. destruct Hds as (Hds & Hlen & _ & ->).
  destruct ds as [|d ds]; [simpl in Hlen; lia|]. inversion Hds; subst.
  apply ci_letter in Hc1; [|reflexivity]. apply ci_letter in Hc2; [|reflexivity].
  apply ci_letter in Hc3; [|reflexivity]. apply ci_letter in Hc4; [|reflexivity].
  exists w0, [c1; c2; c3; c4], w1, d, ds, sf.
  split; [repeat (simpl; rewrite <- ?app_assoc, ?app_nil_r); reflexivity|].
  split; [assumption|].
  split; [unfold lower; simpl map; rewrite Hc1, Hc2, Hc3, Hc4; reflexivity|].
  split; [assumption|]. split; [assumption|]. split; [assumption|].
  cbn [app cap_span Nat.eqb].
  match goal with
  | |- slice ?a ?b ?t = _ =>
      replace b with (List.length (w0 ++ [c1; c2; c3; c4] ++ w1) + List.length (d :: ds))
        by (rewrite !length_app; cbn [List.length app]; lia);
      replace a with (List.length (w0 ++ [c1; c2; c3; c4] ++ w1))
        by (rewrite !length_app; cbn [List.length app]; lia);
      replace t with ((w0 ++ [c1; c2; c3; c4] ++ w1) ++ (d :: ds) ++ sf)
        by (repeat (cbn [app]; rewrite <- ?app_assoc, ?app_nil_r); reflexivity)
  end.
  apply slice_app_mid.
Qed.

(** *** Week headers are headers *)

Lemma lower_app a b : lower (a ++ b) = lower a ++ lower b.
Proof. apply map_app. Qed.

Lemma run_week_start_complete w1 d rest :
  Forall (fun c => is_space c = true) w1 -> is_digit d = true ->
  matches week_start (str "week" ++ w1 ++ d :: rest) = true.
Proof.
  intros Hw Hd.
  replace (str "week" ++ w1 ++ d :: rest) with ((str "week" ++ w1 ++ [d]) ++ rest)
    by (repeat (simpl; rewrite <- ?app_assoc); reflexivity).
  apply matches_complete. unfold week_start, seq, lit. simpl.
  apply (Matches_Cat_intro Bol _ [] _ [] (str "week" ++ w1 ++ [d]) rest eq_refl);
    [constructor|].
  apply (Matches_Cat_intro _ _ [] _ (str "week") (w1 ++ [d]) rest eq_refl).
  - apply (Matches_Cat_intro _ _ [] _ [119%N] [101%N; 101%N; 107%N] _ eq_refl);
      [constructor; reflexivity|].
    apply (Matches_Cat_intro _ _ _ _ [101%N] [101%N; 107%N] _ eq_refl);
      [constructor; reflexivity|].
    apply (Matches_Cat_intro _ _ _ _ [101%N] [107%N] _ eq_refl);
      [constructor; reflexivity|].
    apply (Matches_Cat_intro _ _ _ _ [107%N] [] _ eq_refl);
      [constructor; reflexivity|constructor].
  - apply (Matches_Cat_intro _ _ _ _ w1 [d] rest eq_refl).
    + constructor; [exact Hw|lia|exact I].
    + apply (Matches_Cat_intro _ _ _ _ [d] [] rest eq_refl); [|constructor].
      constructor; [repeat constructor; exact Hd|simpl; lia|exact I].
Qed.

Lemma strip_bullet_word c t :
  (cor is_digit (chars ".)-*" [bullet])) c = false -> strip_bullet (c :: t) = c :: t.
Proof.
  intros Hc. unfold strip_bullet, re_sub. apply sub_scan_no_match.
  cbn [search_from]. unfold try_at, leading_bullet, seq, plus. simpl.
  rewrite Hc. simpl. apply search_bol_later.
Qed.

(** A text that the pattern of [is_week_header] matches is a header,
    whatever becomes of the conversion of its digits. *)
Lemma week_match_is_header : forall t m,
  re_match week_pattern t = Some m -> is_header t = true.
Proof.
  intros t m H. apply week_header_shape in H.
  destruct H as (w0 & wk & w1 & d & ds & rest & -> & Hw0 & Hwk & Hw1 & Hd & _ & _).
  apply lower_spaces in Hw0. destruct Hw0 as [Hl0 Hs0].
  assert (Hw1' : Forall (fun c => is_space c = true) w1).
  { eapply Forall_impl; [|exact Hw1]. intros c Hc. apply ci_space in Hc. tauto. }
  apply lower_spaces in Hw1. destruct Hw1 as [Hl1 _].
  apply ci_digit in Hd. destruct Hd as [Hd Hld].
  assert (Hclean :
    strip_bullet (strip (lower (w0 ++ wk ++ w1 ++ d :: ds ++ rest)))
    = str "week" ++ w1 ++ rstrip (d :: lower (ds ++ rest))).
  { rewrite !lower_app, Hl0, Hwk, Hl1. simpl lower. rewrite Hld.
    unfold strip. rewrite lstrip_app, Hs0. change (lstrip (str "week" ++ ?x)) with (str "week" ++ x).
    rewrite <- lower_app.
    replace (str "week" ++ w1 ++ d :: lower (ds ++ rest))
      with ((str "week" ++ w1) ++ d :: lower (ds ++ rest))
      by (rewrite <- app_assoc; reflexivity).
    rewrite rstrip_app_nonspace by (apply digit_not_space; exact Hd).
    rewrite <- app_assoc. apply strip_bullet_word. reflexivity. }
  unfold is_header. rewrite Hclean.
  destruct (rstrip_keeps_head d (lower (ds ++ rest)) (digit_not_space d Hd)) as [r ->].
  unfold header_week. rewrite run_week_start_complete by assumption.
  rewrite !orb_true_r. reflexivity.
Qed.

(** C10.  For every text for which [is_week_header] returns a week
    number, [is_header] holds. *)
Theorem week_header_is_header : forall t w,
  is_week_header t = Ok (Some w) -> is_header t = true.
Proof.
  intros t w H. unfold is_week_header in H.
  destruct (re_match week_pattern t) as [m|] eqn:E; [|discriminate].
  exact (week_match_is_header t m E).
Qed.

(** The theorem on a week header. *)
Lemma week_header_is_header_example :
  is_week_header (str "  WEEK 12: Gender and power") = Ok (Some 12%Z)
  /\ is_header (str "  WEEK 12: Gender and power") = true.
Proof.
  split; [vm_compute; reflexivity|].
  apply (week_header_is_header (str "  WEEK 12: Gender and power") 12%Z).
  vm_compute. reflexivity.
Defined.

Lemma try_at_start r pr sf i m : try_at r pr sf i = Some m -> m_start m = i.
Proof.
  unfold try_at. destruct (run r _ _); intros H; inversion H; reflexivity.
Qed.

Lemma scan_start_range r : forall sf skip pr i m,
  In m (scan r skip pr sf i) -> i <= m_start m <= i + List.length sf.
Proof.
  induction sf as [|c sf IH]; intros skip pr i m Hin.
  - destruct skip; simpl in Hin; [|contradiction].
    destruct (try_at r pr [] i) eqn:E; simpl in Hin; [|contradiction].
    destruct Hin as [<-|[]]. apply try_at_start in E. simpl. lia.
  - destruct skip; simpl in Hin.
    + destruct (try_at r pr (c :: sf) i) eqn:E.
      * destruct Hin as [<-|Hin].
        -- apply try_at_start in E. simpl. lia.
        -- apply IH in Hin. simpl. lia.
      * apply IH in Hin. simpl. lia.
    + apply IH in Hin. simpl. lia.
Qed.

Lemma finditer_start_le r t m : In m (re_finditer r t) -> m_start m <= List.length t.
Proof. intros H. apply scan_start_range in H. lia. Qed.

Lemma split_candidates_range t p :
  In p (split_candidates t) -> 10 < p <= List.length t.
Proof.
  unfold split_candidates. rewrite in_flat_map. intros (r & _ & Hin).
  apply filter_In in Hin. destruct Hin as [Hin Hgt].
  apply in_map_iff in Hin. destruct Hin as (m & <- & Hm).
  apply Nat.ltb_lt in Hgt. split; [exact Hgt|]. eapply finditer_start_le; eauto.
Qed.

Lemma insert_uniq_In x y l : In x (insert_uniq y l) -> x = y \/ In x l.
Proof.
  induction l as [|z l IH]; simpl.
  - intros [<-|[]]; auto.
  - destruct (y <? z).
    + intros [<-|H]; auto.
    + destruct (y =? z).
      * auto.
      * intros [<-|H]; auto. destruct (IH H); auto.
Qed.

Lemma sorted_set_In x l : In x (sorted_set l) -> In x l.
Proof.
  induction l as [|y l IH]; simpl; [auto|].
  intros H. apply insert_uniq_In in H. destruct H as [->|H]; auto.
Qed.

Lemma gap_filter_In x : forall l last, In x (gap_filter last l) -> In x l.
Proof.
  induction l as [|y l IH]; simpl; intros last H; [auto|].
  destruct (30 <=? Z.of_nat y - last)%Z.
  - destruct H as [<-|H]; eauto.
  - eauto.
Qed.

Lemma gap_filter_spaced : forall l last,
  spaced 30 (gap_filter last l)
  /\ Forall (fun p => (last + 30 <= Z.of_nat p)%Z) (gap_filter last l).
Proof.
  induction l as [|y l IH]; intros last; simpl; [split; [exact I|constructor]|].
  destruct (Z.leb_spec 30 (Z.of_nat y - last)) as [Hge|Hlt].
  - destruct (IH (Z.of_nat y)) as [Hs Hf]. split.
    + simpl. destruct (gap_filter (Z.of_nat y) l) as [|b rest] eqn:E; [exact I|].
      split; [|exact Hs]. inversion Hf; subst. lia.
    + constructor; [lia|]. eapply Forall_impl; [|exact Hf]. simpl. intros; lia.
  - apply IH.
Qed.

Lemma spaced_increasing d l : 0 < d -> spaced d l -> increasing l.
Proof.
  intros Hd. induction l as [|a [|b l] IH]; simpl; auto.
  intros [H1 H2]. split; [lia|]. apply IH. exact H2.
Qed.

Lemma increasing_lower_bound : forall l a, increasing (a :: l) -> Forall (fun x => a < x) l.
Proof.
  induction l as [|b l IH]; intros a H; [constructor|].
  destruct H as [Hab H]. constructor; [exact Hab|].
  eapply Forall_impl; [|apply IH; exact H]. simpl. intros; lia.
Qed.

Lemma increasing_NoDup l : increasing l -> NoDup l.
Proof.
  induction l as [|a l IH]; intros H; [constructor|].
  constructor.
  - intros Hin. apply increasing_lower_bound in H.
    rewrite Forall_forall in H. specialize (H _ Hin). lia.
  - apply IH. destruct l; [exact I|]. apply H.
Qed.

(** C7.  For every text the offsets [find_split_points] returns are
    strictly increasing and without duplicates, each has more than 10
    characters of the text before it and lies within the text, and two
    consecutive offsets differ by at least 30. *)
Theorem find_split_points_postcondition : forall t,
  increasing (find_split_points t)
  /\ NoDup (find_split_points t)
  /\ Forall (fun p => 10 < p <= List.length t) (find_split_points t)
  /\ spaced 30 (find_split_points t).
Proof.
  intros t. unfold find_split_points.
  destruct (gap_filter_spaced (sorted_set (split_candidates t)) (-30)%Z) as [Hs _].
  assert (Hi : increasing (gap_filter (-30)%Z (sorted_set (split_candidates t)))).
  { eapply spaced_increasing; [|exact Hs]. lia. }
  repeat split; auto.
  - apply increasing_NoDup. exact Hi.
  - apply Forall_forall. intros p Hp.
    apply split_candidates_range. apply sorted_set_In. eapply gap_filter_In. exact Hp.
Qed.

(** *** Ink *)

Lemma ink_app a b : ink (a ++ b) = ink a + ink b.
Proof. unfold ink. rewrite filter_app, length_app. reflexivity. Qed.

Lemma ink_cons c t : ink (c :: t) = (if is_space c then 0 else 1) + ink t.
Proof. unfold ink. simpl. destruct (is_space c); reflexivity. Qed.

Lemma ink_rev t : ink (rev t) = ink t.
Proof.
  induction t as [|c t IH]; [reflexivity|].
  simpl rev. rewrite ink_app, IH, (ink_cons c t), (ink_cons c []). unfold ink at 2. simpl. lia.
Qed.

Lemma ink_lstrip t : ink (lstrip t) = ink t.
Proof.
  induction t as [|c t IH]; [reflexivity|]. simpl lstrip.
  destruct (is_space c) eqn:E; [|reflexivity]. rewrite IH, ink_cons, E. reflexivity.
Qed.

Lemma ink_strip t : ink (strip t) = ink t.
Proof. unfold strip, rstrip. rewrite ink_rev, ink_lstrip, ink_rev, ink_lstrip. reflexivity. Qed.

Lemma ink_firstn_skipn n t : ink t = ink (firstn n t) + ink (skipn n t).
Proof. rewrite <- ink_app, firstn_skipn. reflexivity. Qed.

Lemma ink_skipn_le n t : ink (skipn n t) <= ink t.
Proof. rewrite (ink_firstn_skipn n t). lia. Qed.

Lemma ink_firstn_le n t : ink (firstn n t) <= ink t.
Proof. rewrite (ink_firstn_skipn n t). lia. Qed.

Lemma skipn_skipn_add {A} : forall a b (l : list A), skipn a (skipn b l) = skipn (b + a) l.
Proof.
  intros a b. revert a. induction b as [|b IH]; intros a l; [reflexivity|].
  destruct l as [|x l]; simpl; [destruct a; reflexivity|]. apply IH.
Qed.

Lemma firstn_add_split {A} : forall a b (l : list A),
  firstn (a + b) l = firstn a l ++ firstn b (skipn a l).
Proof.
  induction a as [|a IH]; intros b l; [reflexivity|].
  destruct l as [|x l]; simpl; [destruct b; reflexivity|]. rewrite IH. reflexivity.
Qed.

(** [t[lo:hi] = t[lo:a] + t[a:hi]] for [lo <= a <= hi]. *)
Lemma slice_split lo a hi (t : text) :
  lo <= a -> a <= hi -> slice lo hi t = slice lo a t ++ slice a hi t.
Proof.
  intros H1 H2. unfold slice.
  replace (hi - lo) with ((a - lo) + (hi - a)) by lia.
  rewrite firstn_add_split, skipn_skipn_add.
  replace (lo + (a - lo)) with a by lia. reflexivity.
Qed.

Lemma skipn_slice lo hi (t : text) :
  lo <= hi -> skipn lo t = slice lo hi t ++ skipn hi t.
Proof.
  intros H. unfold slice.
  rewrite <- (firstn_skipn (hi - lo) (skipn lo t)) at 1.
  rewrite skipn_skipn_add. replace (lo + (hi - lo)) with hi by lia. reflexivity.
Qed.

Lemma ink_slice_le a b lo hi t :
  lo <= a -> a <= b -> b <= hi -> ink (slice a b t) <= ink (slice lo hi t).
Proof.
  intros H1 H2 H3.
  rewrite (slice_split lo a hi t), (slice_split a b hi t) by lia.
  rewrite !ink_app. lia.
Qed.

Lemma total_ink_app a b : total_ink (a ++ b) = total_ink a + total_ink b.
Proof. unfold total_ink. rewrite map_app, list_sum_app. reflexivity. Qed.

Lemma total_ink_cons t ts : total_ink (t :: ts) = ink t + total_ink ts.
Proof. reflexivity. Qed.

Lemma total_ink_In t ts : In t ts -> ink t <= total_ink ts.
Proof.
  induction ts as [|x ts IH]; intros H; [contradiction|].
  rewrite total_ink_cons. destruct H as [->|H]; [lia|]. apply IH in H. lia.
Qed.

(** *** The groups of a match *)

Lemma laid_out_le new : forall lo hi, laid_out new lo hi -> lo <= hi.
Proof.
  induction new as [|[n [a b]] rest IH]; intros lo hi H; simpl in H; [exact H|].
  destruct H as (H1 & H2 & H3). apply IH in H3. lia.
Qed.

Lemma laid_out_weaken new lo hi hi' : hi <= hi' -> laid_out new lo hi -> laid_out new lo hi'.
Proof.
  destruct new as [|[n [a b]] rest]; simpl; intros H1 H2; [lia|].
  destruct H2 as (H2 & H3 & H4). repeat split; [exact H2|lia|exact H4].
Qed.

Lemma laid_out_app new_b : forall new_a lo mid hi,
  laid_out new_a lo mid -> laid_out new_b mid hi -> laid_out (new_b ++ new_a) lo hi.
Proof.
  induction new_b as [|[n [a b]] rest IH]; intros new_a lo mid hi Ha Hb; simpl in *.
  - eapply laid_out_weaken; eauto.
  - destruct Hb as (H1 & H2 & H3). repeat split; [exact H1|exact H2|]. eapply IH; eauto.
Qed.

Lemma rep_run_caps p : forall sf lo hi pr i cs k res,
  rep_run p lo hi pr sf i cs k = Some res ->
  exists st', k st' = Some res /\ caps st' = cs /\ i <= idx st'.
Proof.
  intros sf lo hi pr i cs k res H. apply rep_run_sound in H.
  destruct H as (s & sf' & _ & _ & _ & _ & H).
  eexists. split; [exact H|]. simpl. split; [reflexivity|lia].
Qed.

Lemma run_caps : forall r pr sf i cs k res,
  run r (MS pr sf i cs) k = Some res ->
  exists st' new,
    k st' = Some res /\ caps st' = new ++ cs /\ i <= idx st'
    /\ (nogroups r = true -> new = [])
    /\ (flat r = true -> laid_out new i (idx st')).
Proof.
  induction r as [|p|p lo hi|a IHa b IHb|a IHa b IHb|n a IHa| | | |a IHa|p];
    intros pr sf i cs k res H; cbn [run pre suf idx caps] in H.
  - exists (MS pr sf i cs), []. simpl. repeat split; auto.
  - destruct sf as [|c sf]; [discriminate|]. destruct (p c); [|discriminate].
    eexists _, []. split; [exact H|]. simpl. repeat split; auto.
  - apply rep_run_caps in H. destruct H as (st' & Hk & Hc & Hi).
    exists st', []. simpl. repeat split; auto.
  - apply IHa in H. destruct H as ([pr1 sf1 i1 cs1] & new_a & H & Hc1 & Hi1 & Hn1 & Hf1).
    apply IHb in H. destruct H as (st2 & new_b & H & Hc2 & Hi2 & Hn2 & Hf2).
    simpl in *. exists st2, (new_b ++ new_a). split; [exact H|].
    split; [rewrite Hc2, Hc1, app_assoc; reflexivity|]. split; [lia|]. split.
    + intros Hn. apply andb_true_iff in Hn. destruct Hn as [Ha Hb].
      rewrite (Hn1 Ha), (Hn2 Hb). reflexivity.
    + intros Hf. apply andb_true_iff in Hf. destruct Hf as [Ha Hb].
      eapply laid_out_app; eauto.
  - destruct (run a (MS pr sf i cs) k) eqn:E.
    + inversion H; subst. apply IHa in E.
      destruct E as (st' & new & Hk & Hc & Hi & Hn & Hf).
      exists st', new. simpl. repeat split; auto.
      * intros X. apply andb_true_iff in X. tauto.
      * intros X. apply andb_true_iff in X. tauto.
    + apply IHb in H. destruct H as (st' & new & Hk & Hc & Hi & Hn & Hf).
      exists st', new. simpl. repeat split; auto.
      * intros X. apply andb_true_iff in X. tauto.
      * intros X. apply andb_true_iff in X. tauto.
  - apply IHa in H. destruct H as (st1 & new_a & H & Hc & Hi & Hn & Hf).
    eexists _, ((n, (i, idx st1)) :: new_a). split; [exact H|]. simpl.
    split; [rewrite Hc; reflexivity|]. split; [exact Hi|]. split; [discriminate|].
    intros Hng. rewrite (Hn Hng). simpl. lia.
  - destruct (at_bol (MS pr sf i cs)); [|discriminate].
    exists (MS pr sf i cs), []. simpl. repeat split; auto.
  - destruct (at_eol (MS pr sf i cs)); [|discriminate].
    exists (MS pr sf i cs), []. simpl. repeat split; auto.
  - destruct (at_wb (MS pr sf i cs)); [|discriminate].
    exists (MS pr sf i cs), []. simpl. repeat split; auto.
  - destruct (run a (MS pr sf i cs) Some); [|discriminate].
    exists (MS pr sf i cs), []. simpl. repeat split; auto.
  - destruct pr as [|c pr]; [discriminate|]. destruct (p c); [|discriminate].
    exists (MS (c :: pr) sf i cs), []. simpl. repeat split; auto.
Qed.

Lemma try_at_laid_out r pr sf i m :
  flat r = true -> try_at r pr sf i = Some m ->
  m_start m = i /\ laid_out (m_caps m) i (m_end m).
Proof.
  intros Hf. unfold try_at. destruct (run r (MS pr sf i []) Some) as [st|] eqn:E; [|discriminate].
  intros H. inversion H; subst. simpl. split; [reflexivity|].
  apply run_caps in E. destruct E as (st' & new & Hk & Hc & Hi & _ & Hl).
  inversion Hk; subst. rewrite Hc, app_nil_r. apply Hl. exact Hf.
Qed.

(** *** The matches of a scan *)

Lemma placed_weaken ms pos pos' : pos' <= pos -> placed pos ms -> placed pos' ms.
Proof.
  destruct ms as [|m ms]; simpl; [auto|]. intros H (H1 & H2 & H3). repeat split; auto. lia.
Qed.

Lemma scan_placed r : flat r = true -> forall sf skip pr i,
  placed (i + skip) (scan r skip pr sf i).
Proof.
  intros Hf. induction sf as [|c sf IH]; intros skip pr i.
  - destruct skip; simpl; [|exact I].
    destruct (try_at r pr [] i) eqn:E; simpl; [|exact I].
    apply try_at_laid_out in E; [|exact Hf]. destruct E as [E1 E2].
    rewrite E1. repeat split; [lia|exact E2].
  - destruct skip as [|n]; cbn [scan].
    + destruct (try_at r pr (c :: sf) i) eqn:E.
      * apply try_at_laid_out in E; [|exact Hf]. destruct E as [E1 E2].
        simpl. rewrite E1. split; [lia|]. split; [exact E2|].
        apply laid_out_le in E2.
        eapply placed_weaken; [|apply IH]. lia.
      * eapply placed_weaken; [|apply IH]. lia.
    + eapply placed_weaken; [|apply IH]. lia.
Qed.

(** *** The ink of the groups of a match *)

Lemma group_ink t m n : ink (group t m n) = span_ink t (cap_span n (m_caps m)).
Proof. unfold group, span_ink. destruct (cap_span n (m_caps m)) as [[a b]|]; reflexivity. Qed.

Lemma list_sum_cons x l : list_sum (x :: l) = x + list_sum l.
Proof. reflexivity. Qed.

Lemma cap_span_cons k n sp rest :
  cap_span k ((n, sp) :: rest) = if Nat.eqb n k then Some sp else cap_span k rest.
Proof. reflexivity. Qed.

Lemma groups_ink_laid_out t : forall new ks lo hi,
  NoDup ks -> laid_out new lo hi ->
  list_sum (map (fun k => span_ink t (cap_span k new)) ks) <= ink (slice lo hi t).
Proof.
  induction new as [|[n [a b]] rest IH]; intros ks lo hi Hnd Hl.
  - simpl. induction ks as [|k ks IHk]; simpl; [lia|].
    inversion Hnd; subst. apply IHk. assumption.
  - simpl in Hl. destruct Hl as (H1 & H2 & H3).
    pose proof (laid_out_le _ _ _ H3) as Hlo.
    assert (Hsum : forall ks, NoDup ks ->
      list_sum (map (fun k => span_ink t (cap_span k ((n, (a, b)) :: rest))) ks)
      <= ink (slice a b t)
         + list_sum (map (fun k => span_ink t (cap_span k rest))
                         (filter (fun k => negb (Nat.eqb n k)) ks))).
    { clear. induction ks as [|k ks IHk]; intros Hnd; [simpl; lia|].
      inversion Hnd; subst. specialize (IHk H2).
      cbn [map list_sum filter]. rewrite cap_span_cons.
      destruct (Nat.eqb_spec n k) as [->|Hne]; cbn [negb span_ink].
      - assert (Hz : list_sum (map (fun k0 => span_ink t (cap_span k0 ((k, (a, b)) :: rest))) ks)
                 = list_sum (map (fun k0 => span_ink t (cap_span k0 rest)) ks)).
        { f_equal. apply map_ext_in. intros k0 Hin. rewrite cap_span_cons.
          destruct (Nat.eqb_spec k k0) as [->|]; [contradiction|reflexivity]. }
        rewrite list_sum_cons, Hz.
        assert (Hfl : filter (fun k0 => negb (Nat.eqb k k0)) ks = ks).
        { apply forallb_filter_id. apply forallb_forall. intros k0 Hin.
          destruct (Nat.eqb_spec k k0) as [->|]; [contradiction|reflexivity]. }
        rewrite Hfl. lia.
      - cbn [map]. rewrite !list_sum_cons. lia. }
    specialize (Hsum ks Hnd).
    assert (Hrest : list_sum (map (fun k => span_ink t (cap_span k rest))
                                  (filter (fun k => negb (Nat.eqb n k)) ks))
                    <= ink (slice lo a t)).
    { apply IH; [apply NoDup_filter; exact Hnd|exact H3]. }
    rewrite (slice_split lo a hi t), (slice_split a b hi t) by lia.
    rewrite !ink_app. lia.
Qed.

Lemma groups_ink t m ngroups :
  laid_out (m_caps m) (m_start m) (m_end m) ->
  total_ink (map (group t m) (List.seq 1 ngroups))
  <= ink (slice (m_start m) (m_end m) t).
Proof.
  intros H. unfold total_ink. rewrite map_map.
  rewrite (map_ext _ (fun k => span_ink t (cap_span k (m_caps m)))) by (intros; apply group_ink).
  apply groups_ink_laid_out; [apply seq_NoDup|exact H].
Qed.

(** [re.split] keeps no more ink than the text had. *)
Lemma split_from_ink ngroups t : forall ms pos,
  placed pos ms -> total_ink (split_from ngroups t pos ms) <= ink (skipn pos t).
Proof.
  induction ms as [|m ms IH]; intros pos H; simpl.
  - unfold total_ink. simpl. lia.
  - destruct H as (H1 & H2 & H3). rewrite total_ink_cons, total_ink_app.
    pose proof (groups_ink t m ngroups H2) as Hg.
    specialize (IH _ H3). pose proof (laid_out_le _ _ _ H2) as Hle.
    rewrite (skipn_slice pos (m_start m) t), (skipn_slice (m_start m) (m_end m) t) by lia.
    rewrite !ink_app. lia.
Qed.

Lemma re_split_ink ngroups r t :
  flat r = true -> total_ink (re_split ngroups r t) <= ink t.
Proof.
  intros Hf. unfold re_split, re_finditer.
  pose proof (split_from_ink ngroups t (scan r 0 [] t 0) 0) as H.
  simpl skipn in H. apply H. apply (scan_placed r Hf t 0 [] 0).
Qed.

(** *** The normalizer adds no ink *)

Lemma ink_single c : ink [c] = if is_space c then 0 else 1.
Proof. unfold ink. simpl. destruct (is_space c); reflexivity. Qed.

Lemma replace_char_ink a b t :
  ink b <= (if is_space a then 0 else 1) -> ink (replace_char a b t) <= ink t.
Proof.
  intros Hb. induction t as [|c t IH]; [apply Nat.le_refl|].
  change (replace_char a b (c :: t))
    with ((if N.eqb c a then b else [c]) ++ replace_char a b t).
  rewrite ink_app, ink_cons.
  destruct (N.eqb_spec c a) as [->|Hne].
  - destruct (is_space a); lia.
  - rewrite ink_single. lia.
Qed.

Lemma ascii_maps_ink t : ink (ascii_maps t) <= ink t.
Proof.
  unfold ascii_maps.
  repeat (etransitivity; [apply replace_char_ink; vm_compute; lia|]).
  apply Nat.le_refl.
Qed.

Lemma squeeze_ink : forall t b, ink (squeeze b t) = ink t.
Proof.
  induction t as [|c t IH]; intros b; [reflexivity|]. simpl squeeze.
  rewrite (ink_cons c t). destruct (is_space c) eqn:E.
  - destruct b; [apply IH|]. rewrite ink_cons, IH. reflexivity.
  - rewrite ink_cons, E, IH. reflexivity.
Qed.

Lemma skipn_rev_app {A} (pr sf : list A) : skipn (List.length pr) (rev pr ++ sf) = sf.
Proof.
  rewrite <- length_rev. induction (rev pr) as [|x l IH]; [reflexivity|]. simpl. exact IH.
Qed.

(** A substitution whose replacements hold no more ink than the matches
    they replace adds no ink. *)
Lemma sub_scan_ink r repl t :
  (forall pr sf i m,
     t = rev pr ++ sf -> i = List.length pr -> try_at r pr sf i = Some m ->
     ink (repl m) <= ink (firstn (m_end m - i) sf)) ->
  forall sf skip pr i,
    t = rev pr ++ sf -> i = List.length pr ->
    ink (sub_scan r repl skip pr sf i) <= ink (skipn skip sf).
Proof.
  intros Hrepl. induction sf as [|c sf IH]; intros skip pr i Ht Hi.
  - destruct skip; cbn [sub_scan]; [|destruct skip; simpl; lia].
    destruct (try_at r pr [] i) eqn:E; [|simpl; lia].
    rewrite app_nil_r. specialize (Hrepl pr [] i r0 Ht Hi E).
    rewrite firstn_nil in Hrepl. simpl. exact Hrepl.
  - assert (Ht' : t = rev (c :: pr) ++ sf) by (simpl; rewrite <- app_assoc; exact Ht).
    assert (Hi' : S i = List.length (c :: pr)) by (simpl; lia).
    destruct skip as [|n]; cbn [sub_scan].
    + destruct (try_at r pr (c :: sf) i) eqn:E.
      * specialize (Hrepl pr (c :: sf) i r0 Ht Hi E).
        specialize (IH (m_end r0 - i - 1) (c :: pr) (S i) Ht' Hi').
        rewrite !ink_app. simpl skipn.
        destruct (Nat.eqb_spec (m_end r0) i) as [He|He].
        -- rewrite He, Nat.sub_diag in *. simpl firstn in Hrepl. simpl skipn in IH.
           change (ink []) with 0 in Hrepl. rewrite ink_single, (ink_cons c sf). lia.
        -- change (ink []) with 0. destruct (m_end r0 - i) as [|d] eqn:Hd.
           ++ simpl firstn in Hrepl. simpl skipn in IH. change (ink []) with 0 in Hrepl.
              rewrite (ink_cons c sf). lia.
           ++ replace (S d - 1) with d in * by lia. simpl firstn in Hrepl.
              rewrite ink_cons in Hrepl. rewrite (ink_cons c sf).
              rewrite (ink_firstn_skipn d sf). lia.
      * specialize (IH 0 (c :: pr) (S i) Ht' Hi'). simpl skipn in *.
        rewrite !ink_cons. lia.
    + simpl skipn. apply IH; assumption.
Qed.

Lemma hyphen_break_flat : flat hyphen_break = true.
Proof. reflexivity. Qed.

Lemma normalize_ink t : ink (normalize_pdf_text t) <= ink t.
Proof.
  rewrite normalize_unfold, ink_strip, re_sub_spaces, squeeze_ink.
  etransitivity; [|apply ascii_maps_ink].
  unfold re_sub.
  pose proof (sub_scan_ink hyphen_break
                (fun m => group (ascii_maps t) m 1 ++ group (ascii_maps t) m 2)
                (ascii_maps t)) as H.
  specialize (H ltac:(
    intros pr sf i m Ht Hi E;
    apply (try_at_laid_out _ _ _ _ _ hyphen_break_flat) in E; destruct E as [E1 E2];
    pose proof (groups_ink (ascii_maps t) m 2 ltac:(rewrite E1; exact E2)) as Hg;
    unfold total_ink in Hg; simpl in Hg; rewrite ink_app;
    unfold slice in Hg; rewrite E1, Hi in Hg; rewrite Ht in Hg at 3;
    rewrite skipn_rev_app in Hg; subst i; lia)).
  specialize (H (ascii_maps t) 0 [] 0 eq_refl eq_refl). simpl skipn in H. exact H.
Qed.

(** *** The segments of each strategy *)

Lemma long_enough_long t : long_enough t = true -> long t.
Proof. unfold long_enough, long. apply Nat.ltb_lt. Qed.

Lemma ink_zero_all_space t : ink t = 0 -> all_space t = true.
Proof.
  induction t as [|c t IH]; [reflexivity|]. rewrite ink_cons. simpl.
  destruct (is_space c); [simpl; exact IH|lia].
Qed.

Lemma strip_inked t : strip t <> [] -> 1 <= ink t.
Proof.
  intros H. destruct (ink t) eqn:E; [|lia]. exfalso. apply H.
  apply ink_zero_all_space in E. unfold strip. rewrite (lstrip_all_space t E). reflexivity.
Qed.

Lemma long_strip_solid t : long_enough (strip t) = true -> solid (strip t).
Proof.
  intros H. apply long_enough_long in H. split; [exact H|].
  rewrite ink_strip. apply strip_inked. intros E. rewrite E in H. unfold long in H. simpl in H. lia.
Qed.

Lemma Forall_snoc_if (b : bool) (P : text -> Prop) l x :
  Forall P l -> (b = true -> P x) -> Forall P (if b then l ++ [x] else l).
Proof.
  intros Hl Hx. destruct b; [|exact Hl].
  apply Forall_app. split; [exact Hl|]. constructor; [auto|constructor].
Qed.

Lemma total_ink_snoc_if (b : bool) l x :
  total_ink (if b then l ++ [x] else l) <= total_ink l + ink x.
Proof.
  destruct b; [|lia]. rewrite total_ink_app. unfold total_ink at 2. simpl. lia.
Qed.

(** Strategy 1. *)
Lemma s1_loop_ink : forall parts i cur rs,
  Forall solid rs ->
  Forall solid (snd (fold_left s1_step parts (i, cur, rs)))
  /\ total_ink (snd (fold_left s1_step parts (i, cur, rs)))
     + ink (snd (fst (fold_left s1_step parts (i, cur, rs))))
     <= total_ink rs + ink cur + total_ink parts.
Proof.
  induction parts as [|p parts IH]; intros i cur rs H; cbn [fold_left].
  - simpl. split; [exact H|unfold total_ink at 3; simpl; lia].
  - rewrite total_ink_cons.
    assert (Hstep : s1_step (i, cur, rs) p =
      if Nat.eqb (i mod 3) 2 then
        (S i, p, if long_enough (strip cur) then rs ++ [strip cur] else rs)
      else (S i, cur ++ p, rs)) by reflexivity.
    rewrite Hstep. clear Hstep.
    destruct (Nat.eqb (i mod 3) 2).
    + pose proof (total_ink_snoc_if (long_enough (strip cur)) rs (strip cur)) as Hi.
      rewrite ink_strip in Hi.
      destruct (IH (S i) p (if long_enough (strip cur) then rs ++ [strip cur] else rs))
        as [H1 H2].
      { apply Forall_snoc_if; [exact H|apply long_strip_solid]. }
      split; [exact H1|]. eapply Nat.le_trans; [exact H2|unfold text in *; lia].
    + destruct (IH (S i) (cur ++ p) rs H) as [H1 H2]. rewrite ink_app in H2.
      split; [exact H1|]. eapply Nat.le_trans; [exact H2|unfold text in *; lia].
Qed.

Lemma split_pattern_flat : flat split_pattern = true.
Proof. reflexivity. Qed.

Lemma strategy1_solid t :
  Forall solid (strategy1 t) /\ total_ink (strategy1 t) <= ink t.
Proof.
  unfold strategy1. destruct (1 <? _); [|split; [constructor|unfold total_ink; simpl; lia]].
  pose proof (s1_loop_ink (re_split 2 split_pattern t) 0 [] [] (Forall_nil _)) as [H1 H2].
  pose proof (re_split_ink 2 split_pattern t split_pattern_flat) as H3.
  destruct (fold_left s1_step _ _) as [[i current] readings]. simpl in H1, H2.
  change (total_ink []) with 0 in H2. change (ink []) with 0 in H2.
  split.
  - apply Forall_snoc_if; [exact H1|apply long_strip_solid].
  - pose proof (total_ink_snoc_if (long_enough (strip current)) readings (strip current)) as H4.
    rewrite ink_strip in H4. lia.
Qed.

(** Strategy 2. *)
Lemma s2_loop_ink : forall parts cur rs,
  Forall solid rs -> (cur = [] \/ 1 <= ink cur) ->
  Forall solid (snd (fold_left s2_step parts (cur, rs)))
  /\ (fst (fold_left s2_step parts (cur, rs)) = []
      \/ 1 <= ink (fst (fold_left s2_step parts (cur, rs))))
  /\ total_ink (snd (fold_left s2_step parts (cur, rs)))
     + ink (fst (fold_left s2_step parts (cur, rs)))
     <= total_ink rs + ink cur + total_ink parts.
Proof.
  induction parts as [|p parts IH]; intros cur rs H Hc; cbn [fold_left].
  - simpl. repeat split; [exact H|exact Hc|unfold total_ink at 3; simpl; lia].
  - rewrite total_ink_cons.
    assert (Hstep : s2_step (cur, rs) p =
      match strip p with
      | [] => (cur, rs)
      | _ =>
          if matches marker_only (strip p) then
            ([], if long_enough cur then rs ++ [cur] else rs)
          else
            (match cur with
             | [] => strip p
             | _ => cur ++ str " " ++ strip p
             end, rs)
      end) by reflexivity.
    rewrite Hstep. clear Hstep.
    assert (Hsolid : long_enough cur = true -> solid cur).
    { intros Hl. apply long_enough_long in Hl. split; [exact Hl|].
      destruct Hc as [->|Hc]; [unfold long in Hl; simpl in Hl; lia|exact Hc]. }
    destruct (strip p) as [|c s] eqn:Es.
    + destruct (IH cur rs H Hc) as (H1 & H2 & H3). repeat split; [exact H1|exact H2|eapply Nat.le_trans; [exact H3|unfold text in *; lia]].
    + assert (Hp : 1 <= ink p) by (apply strip_inked; rewrite Es; discriminate).
      assert (Hs : ink (c :: s) = ink p) by (rewrite <- Es; apply ink_strip).
      destruct (matches marker_only (c :: s)).
      * pose proof (total_ink_snoc_if (long_enough cur) rs cur) as Hi.
        destruct (IH [] (if long_enough cur then rs ++ [cur] else rs)) as (H1 & H2 & H3).
        { apply Forall_snoc_if; [exact H|exact Hsolid]. }
        { left. reflexivity. }
        change (ink []) with 0 in H3. repeat split; [exact H1|exact H2|eapply Nat.le_trans; [exact H3|unfold text in *; lia]].
      * destruct cur as [|c0 cur].
        -- destruct (IH (c :: s) rs H) as (H1 & H2 & H3); [right; lia|].
           change (ink []) with 0. repeat split; [exact H1|exact H2|eapply Nat.le_trans; [exact H3|unfold text in *; lia]].
        -- destruct (IH ((c0 :: cur) ++ str " " ++ c :: s) rs H) as (H1 & H2 & H3).
           { right. rewrite !ink_app. lia. }
           rewrite !ink_app in H3. change (ink (str " ")) with 0 in H3.
           repeat split; [exact H1|exact H2|eapply Nat.le_trans; [exact H3|unfold text in *; lia]].
Qed.

Lemma bullet_split_flat : flat bullet_split = true.
Proof. reflexivity. Qed.

Lemma strategy2_solid t :
  Forall solid (strategy2 t) /\ total_ink (strategy2 t) <= ink t.
Proof.
  unfold strategy2. destruct (found _ _); [|split; [constructor|unfold total_ink; simpl; lia]].
  pose proof (s2_loop_ink (re_split 1 bullet_split t) [] [] (Forall_nil _) (or_introl eq_refl))
    as (H1 & H2 & H3).
  pose proof (re_split_ink 1 bullet_split t bullet_split_flat) as H4.
  destruct (fold_left s2_step _ _) as [current readings]. simpl in H1, H2, H3.
  change (total_ink []) with 0 in H3. change (ink []) with 0 in H3.
  split.
  - apply Forall_snoc_if; [exact H1|]. intros Hl. apply long_enough_long in Hl.
    split; [exact Hl|]. destruct H2 as [->|H2]; [unfold long in Hl; simpl in Hl; lia|exact H2].
  - pose proof (total_ink_snoc_if (long_enough current) readings current). lia.
Qed.

(** Strategy 3. *)
Lemma split_on_ink c : is_space c = false -> forall t,
  total_ink (split_on c t) + List.length (split_on c t) = ink t + 1.
Proof.
  intros Hc. induction t as [|x t IH]; [reflexivity|]. simpl split_on.
  destruct (N.eqb_spec x c) as [->|Hne].
  - rewrite total_ink_cons, ink_cons, Hc. simpl List.length. change (ink []) with 0. lia.
  - destruct (split_on c t) as [|p ps] eqn:E.
    + simpl in IH. lia.
    + rewrite total_ink_cons in *. simpl List.length in *. rewrite !ink_cons. lia.
Qed.

Lemma append_last_solid extra rs : Forall solid rs -> Forall solid (append_last extra rs).
Proof.
  intros H. unfold append_last. destruct (rev rs) as [|l before] eqn:E; [constructor|].
  assert (Hr : Forall solid (rev rs)) by (apply Forall_rev; exact H).
  rewrite E in Hr. inversion Hr as [|? ? [Hl Hi] Hb]; subst.
  apply Forall_app. split; [apply Forall_rev; assumption|].
  constructor; [|constructor]. split.
  - unfold long in *. rewrite length_app. lia.
  - rewrite ink_app. lia.
Qed.

Lemma append_last_ink extra rs :
  total_ink (append_last extra rs) <= total_ink rs + ink extra.
Proof.
  unfold append_last. destruct (rev rs) as [|l before] eqn:E.
  - unfold total_ink at 1. simpl. lia.
  - assert (Hrs : rs = rev before ++ [l]).
    { rewrite <- (rev_involutive rs), E. reflexivity. }
    rewrite Hrs, !total_ink_app. unfold total_ink at 2 4. simpl. rewrite ink_app. lia.
Qed.

Lemma s3_step_ink rs p :
  Forall solid rs ->
  Forall solid (s3_step rs p)
  /\ total_ink (s3_step rs p) <= total_ink rs + ink p + (match rs with [] => 0 | _ => 1 end).
Proof.
  intros H. unfold s3_step.
  destruct (long_enough (strip p)) eqn:E; [|split; [exact H|lia]].
  pose proof (long_strip_solid p E) as Hs.
  destruct (looks_like_author (strip p) || found paren_year (strip p)).
  - split; [apply Forall_app; split; [exact H|constructor; [exact Hs|constructor]]|].
    rewrite total_ink_app. unfold total_ink at 2. simpl. rewrite ink_strip. lia.
  - destruct rs as [|r rs].
    + split; [constructor; [exact Hs|constructor]|].
      unfold total_ink. simpl. rewrite ink_strip. lia.
    + split; [apply append_last_solid; exact H|].
      etransitivity; [apply append_last_ink|].
      rewrite ink_app, ink_strip. change (ink (str "; ")) with 1. lia.
Qed.

Lemma s3_loop_ink : forall parts rs,
  Forall solid rs ->
  Forall solid (fold_left s3_step parts rs)
  /\ total_ink (fold_left s3_step parts rs)
     <= total_ink rs + total_ink parts + List.length parts.
Proof.
  induction parts as [|p parts IH]; intros rs H; simpl fold_left.
  - split; [exact H|unfold total_ink at 3; simpl; lia].
  - destruct (s3_step_ink rs p H) as [H1 H2].
    destruct (IH _ H1) as [H3 H4]. split; [exact H3|].
    rewrite total_ink_cons. simpl List.length. destruct rs; lia.
Qed.

Lemma strategy3_solid t :
  Forall solid (strategy3 t) /\ total_ink (strategy3 t) <= ink t.
Proof.
  unfold strategy3. destruct (mem _ _); [|split; [constructor|unfold total_ink; simpl; lia]].
  pose proof (split_on_ink 59%N eq_refl t) as Hs.
  destruct (split_on 59%N t) as [|p parts]; [simpl in Hs; lia|].
  simpl fold_left.
  destruct (s3_step_ink [] p (Forall_nil _)) as [H1 H2].
  destruct (s3_loop_ink parts _ H1) as [H3 H4]. split; [exact H3|].
  rewrite total_ink_cons in Hs. simpl List.length in Hs.
  change (total_ink []) with 0 in H2. lia.
Qed.

(** *** Strategy 4 reads the text within its bounds *)

Lemma char_at_ok t j : j < List.length t -> exists c, char_at t j = Ok c.
Proof.
  intros H. unfold char_at. destruct (nth_error t j) eqn:E; [eauto|].
  apply nth_error_None in E. lia.
Qed.

Lemma probe_punct_ok t j : j < List.length t -> exists b, probe_punct t j = Ok b.
Proof.
  intros H. unfold probe_punct. destruct (char_at_ok t j H) as [c ->]. cbn [bind].
  destruct (mem c (str ".;")); [|eauto].
  destruct (Nat.leb_spec (List.length t) (j + 1)); [eauto|].
  destruct (char_at_ok t (j + 1)) as [d ->]; [lia|]. simpl. eauto.
Qed.

Lemma probe_paren_ok t j : j < List.length t -> exists b, probe_paren t j = Ok b.
Proof.
  intros H. unfold probe_paren. destruct (char_at_ok t j H) as [c ->]. cbn [bind].
  destruct (N.eqb c 41); [|eauto].
  destruct (Nat.ltb_spec (j + 1) (List.length t)); [|eauto].
  destruct (char_at_ok t (j + 1)) as [d ->]; [lia|]. simpl. eauto.
Qed.

Lemma first_hit_ok probe js :
  Forall (fun j => exists b, probe j = Ok b) js -> exists r, first_hit probe js = Ok r.
Proof.
  induction 1 as [|j js [b Hb] Hjs IH]; simpl; [eauto|].
  rewrite Hb. simpl. destruct b; eauto.
Qed.

Lemma range_down_bound hi stop j : In j (range_down hi stop) -> stop < j <= hi.
Proof.
  unfold range_down. rewrite <- in_rev, in_seq. lia.
Qed.

Lemma find_split_ok t start last_end :
  start <= List.length t -> exists r, find_split t start last_end = Ok r.
Proof.
  intros H. unfold find_split.
  assert (Hr : forall stop, Forall (fun j => j < List.length t) (range_down (start - 1) stop)).
  { intros stop. apply Forall_forall. intros j Hj. apply range_down_bound in Hj. lia. }
  destruct (first_hit_ok (probe_punct t) (range_down (start - 1) (Nat.max last_end (start - 20))))
    as [sp ->].
  { eapply Forall_impl; [|apply Hr]. apply probe_punct_ok. }
  simpl. destruct sp; [eauto|].
  apply first_hit_ok. eapply Forall_impl; [|apply Hr]. apply probe_paren_ok.
Qed.

Lemma s4_loop_ok t : forall starts last_end readings,
  Forall (fun s => s <= List.length t) starts ->
  Forall solid readings ->
  total_ink readings + ink (skipn last_end t) <= ink t ->
  exists e rs, s4_loop t starts last_end readings = Ok (e, rs)
               /\ Forall solid rs
               /\ total_ink rs + ink (skipn e t) <= ink t.
Proof.
  induction starts as [|s starts IH]; intros last_end readings Hs Hl Hi; simpl.
  - eauto.
  - inversion Hs; subst.
    destruct (find_split_ok t s last_end) as [sp ->]; [assumption|]. simpl.
    destruct sp as [p|]; [|apply IH; assumption].
    destruct (Nat.ltb_spec last_end p) as [Hlt|Hge]; [|apply IH; assumption].
    apply IH; [assumption| |].
    + apply Forall_snoc_if; [exact Hl|apply long_strip_solid].
    + pose proof (total_ink_snoc_if (long_enough (strip (slice last_end p t))) readings
                    (strip (slice last_end p t))) as Hle.
      rewrite ink_strip in Hle.
      rewrite (skipn_slice last_end p t) in Hi by lia. rewrite ink_app in Hi.
      eapply Nat.le_trans; [apply Nat.add_le_mono_r; exact Hle|]. unfold text in *. lia.
Qed.

Lemma pair_starts_bound t :
  Forall (fun s => s <= List.length t)
         (map (fun p => fst (fst p)) (tl (extract_author_year_pairs t))).
Proof.
  apply Forall_forall. intros s Hs. apply in_map_iff in Hs.
  destruct Hs as ([[s' a] y] & <- & Hin). simpl.
  assert (Hin' : In (s', a, y) (extract_author_year_pairs t)).
  { destruct (extract_author_year_pairs t); [contradiction|right; exact Hin]. }
  unfold extract_author_year_pairs in Hin'. apply in_map_iff in Hin'.
  destruct Hin' as (m & Hm & Hin'). inversion Hm; subst.
  eapply finditer_start_le. exact Hin'.
Qed.

Lemma strategy4_solid t :
  exists rs, strategy4 t = Ok rs /\ Forall solid rs /\ total_ink rs <= ink t.
Proof.
  unfold strategy4.
  destruct (1 <? _).
  2:{ exists []. repeat split; [constructor|unfold total_ink; simpl; lia]. }
  destruct (s4_loop_ok t _ 0 [] (pair_starts_bound t) (Forall_nil _)) as (e & rs & -> & Hl & Hi).
  { change (total_ink []) with 0. simpl skipn. lia. }
  simpl. eexists. split; [reflexivity|]. split.
  - apply Forall_snoc_if; [exact Hl|apply long_strip_solid].
  - pose proof (total_ink_snoc_if (long_enough (strip (skipn e t))) rs (strip (skipn e t))) as Hle.
    rewrite ink_strip in Hle. eapply Nat.le_trans; [exact Hle|]. unfold text in *. lia.
Qed.

(** *** The result of the splitter *)

Lemma several_spec l : several l = true -> 1 < List.length l.
Proof. unfold several. apply Nat.ltb_lt. Qed.

(** The splitter returns, without raising, [[]] for a text that
    normalises to nothing, the normalised text alone, or several solid
    segments that together hold no more ink than the normalised text. *)
Lemma split_result t :
  exists segs,
    split_concatenated_readings t = Ok segs
    /\ ((normalize_pdf_text t = [] /\ segs = [])
        \/ (normalize_pdf_text t <> [] /\ segs = [normalize_pdf_text t])
        \/ (1 < List.length segs /\ Forall solid segs
            /\ total_ink segs <= ink (normalize_pdf_text t))).
Proof.
  unfold split_concatenated_readings.
  destruct (normalize_pdf_text t) as [|c n] eqn:En.
  - exists []. split; [reflexivity|]. left. split; reflexivity.
  - destruct (List.length (c :: n) <? 40).
    { eexists. split; [reflexivity|]. right. left. split; [discriminate|reflexivity]. }
    destruct (several (strategy1 (c :: n))) eqn:E1.
    { eexists. split; [reflexivity|]. right. right.
      destruct (strategy1_solid (c :: n)) as [H1 H2].
      repeat split; [apply several_spec; exact E1|exact H1|exact H2]. }
    destruct (several (strategy2 (c :: n))) eqn:E2.
    { eexists. split; [reflexivity|]. right. right.
      destruct (strategy2_solid (c :: n)) as [H1 H2].
      repeat split; [apply several_spec; exact E2|exact H1|exact H2]. }
    destruct (several (strategy3 (c :: n))) eqn:E3.
    { eexists. split; [reflexivity|]. right. right.
      destruct (strategy3_solid (c :: n)) as [H1 H2].
      repeat split; [apply several_spec; exact E3|exact H1|exact H2]. }
    destruct (strategy4_solid (c :: n)) as (rs & -> & Hl & Hi). simpl.
    destruct (several rs) eqn:E4.
    + eexists. split; [reflexivity|]. right. right.
      repeat split; [apply several_spec; exact E4|exact Hl|exact Hi].
    + eexists. split; [reflexivity|]. right. left. split; [discriminate|reflexivity].
Qed.

(** Each of several solid segments holds less ink than all together. *)
Lemma solid_segments_smaller segs n :
  1 < List.length segs -> Forall solid segs -> total_ink segs <= n ->
  forall seg, In seg segs -> ink seg < n.
Proof.
  intros Hlen Hs Hi seg Hin.
  destruct segs as [|a [|b rest]]; simpl in Hlen; try lia.
  inversion Hs as [|? ? [_ Ha] Hs']; subst. inversion Hs' as [|? ? [_ Hb] _]; subst.
  rewrite total_ink_cons in Hi.
  destruct Hin as [<-|Hin].
  - rewrite total_ink_cons in Hi. lia.
  - apply total_ink_In in Hin. lia.
Qed.

(** *** Loops that an exception ends *)

Lemma fold_each_invariant {A S : Type} (f : S -> A -> result S)
    (I : list A -> S -> Prop) (Q : exn -> Prop) :
  (forall seen s a, I seen s ->
     match f s a with Ok s' => I (seen ++ [a]) s' | Raise e => Q e end) ->
  forall l seen s, I seen s ->
    match fold_each f l s with Ok s' => I (seen ++ l) s' | Raise e => Q e end.
Proof.
  intros Hstep. induction l as [|a l IH]; intros seen s H; cbn [fold_each].
  - rewrite app_nil_r. exact H.
  - specialize (Hstep seen s a H). destruct (f s a) as [s'|e]; cbn [bind]; [|exact Hstep].
    replace (seen ++ a :: l) with ((seen ++ [a]) ++ l) by (rewrite <- app_assoc; reflexivity).
    apply IH. exact Hstep.
Qed.

Lemma for_each_app {A B : Type} (f : A -> result (list B)) : forall l1 l2,
  for_each f (l1 ++ l2) = (x <- for_each f l1 ;; y <- for_each f l2 ;; Ok (x ++ y)).
Proof.
  induction l1 as [|a l1 IH]; intros l2; cbn [app for_each bind].
  - destruct (for_each f l2); reflexivity.
  - destruct (f a) as [x|e]; cbn [bind]; [|reflexivity]. rewrite IH.
    destruct (for_each f l1) as [xs|e]; cbn [bind]; [|reflexivity].
    destruct (for_each f l2) as [ys|e]; cbn [bind]; [|reflexivity].
    rewrite app_assoc. reflexivity.
Qed.

(** *** The exception of the merger *)

Lemma split_words_nil : forall t cur,
  split_words cur t = [] -> cur = [] /\ all_space t = true.
Proof.
  induction t as [|c t IH]; intros cur H; cbn [split_words] in H.
  - destruct cur; [auto|discriminate].
  - cbn [all_space]. destruct (is_space c).
    + destruct cur; [|discriminate]. apply IH in H. tauto.
    + apply IH in H. destruct H as [H _]. discriminate.
Qed.

Lemma last_word_raises name e :
  last_word name = Raise e -> e = IndexError /\ all_space name = true.
Proof.
  unfold last_word. destruct (rev (py_split name)) as [|w ws] eqn:E; [|discriminate].
  intros H. inversion H; subst. split; [reflexivity|].
  apply (f_equal (@rev text)) in E. rewrite rev_involutive in E. cbn [rev] in E.
  apply split_words_nil in E. tauto.
Qed.

Lemma starts_with_person_raises an t e :
  starts_with_person an t = Raise e -> e = IndexError /\ blank_name an.
Proof.
  unfold starts_with_person. destruct an as [nlp|]; [|discriminate].
  destruct (persons (analyze nlp t)) as [|name others] eqn:E; [discriminate|].
  destruct (startswith name t) eqn:Es; [discriminate|].
  destruct (last_word name) as [w|e'] eqn:El; cbn [bind]; [discriminate|].
  intros H. inversion H; subst. apply last_word_raises in El. destruct El as [-> Hsp].
  split; [reflexivity|]. exists nlp, t, name, others. repeat split; auto.
  intros ->. destruct t; discriminate.
Qed.

Lemma person_and_year_raises an t e :
  person_and_year an t = Raise e -> e = IndexError /\ blank_name an.
Proof.
  unfold person_and_year. destruct an as [nlp|]; [|discriminate].
  destruct (persons (analyze nlp t)) as [|name others] eqn:E; [discriminate|].
  destruct name as [|c name]; [discriminate|].
  destruct (last_word (c :: name)) as [w|e'] eqn:El; cbn [bind]; [discriminate|].
  intros H. inversion H; subst. apply last_word_raises in El. destruct El as [-> Hsp].
  split; [reflexivity|]. exists nlp, t, (c :: name), others. repeat split; auto. discriminate.
Qed.

Lemma is_continuation_line_raises an t e :
  is_continuation_line an t = Raise e -> e = IndexError /\ blank_name an.
Proof.
  unfold is_continuation_line. destruct (strip t) as [|c0 t'] eqn:E; [discriminate|].
  destruct (starts_with_person an (c0 :: t')) as [b|e'] eqn:Ep; cbn [bind].
  - destruct b; discriminate.
  - intros H. inversion H; subst. eapply starts_with_person_raises. exact Ep.
Qed.

Lemma should_merge_lines_raises an prev next e :
  should_merge_lines an prev next = Raise e -> e = IndexError /\ blank_name an.
Proof.
  unfold should_merge_lines.
  destruct (matches _ next); [discriminate|].
  destruct (looks_like_author next && _); [discriminate|].
  destruct (person_and_year an next) as [b|e'] eqn:Ep; cbn [bind].
  - destruct b; [discriminate|]. destruct (ends_terminal prev && _); [discriminate|].
    destruct (is_incomplete_line an prev).
    + destruct (is_continuation_line an next) as [b|e'] eqn:Ec; cbn [bind].
      * destruct b; discriminate.
      * intros H. inversion H; subst. eapply is_continuation_line_raises. exact Ec.
    + cbn [bind]. discriminate.
  - intros H. inversion H; subst. eapply person_and_year_raises. exact Ep.
Qed.

Lemma merge_step_raises an acc item e :
  merge_step an acc item = Raise e -> e = IndexError /\ blank_name an.
Proof.
  unfold merge_step. destruct acc as [merged current].
  destruct (strip (f_text item)) as [|c t']; [discriminate|].
  destruct current as [cur|]; [|discriminate].
  destruct (should_merge_lines an (u_full_text cur) (c :: t')) as [b|e'] eqn:Em; cbn [bind].
  - destruct b; discriminate.
  - intros H. inversion H; subst. eapply should_merge_lines_raises. exact Em.
Qed.

(** Without the analyzer nothing raises in the merger. *)
Lemma no_blank_name_without_analyzer : ~ blank_name None.
Proof. intros (nlp & t & name & others & H & _). discriminate. Qed.

Lemma join_cons sep a ts : ts <> [] -> join sep (a :: ts) = a ++ sep ++ join sep ts.
Proof. destruct ts; [contradiction|reflexivity]. Qed.

Lemma join_snoc sep ts t : ts <> [] -> join sep (ts ++ [t]) = join sep ts ++ sep ++ t.
Proof.
  induction ts as [|a ts IH]; intros H; [contradiction|].
  destruct ts as [|b ts].
  - reflexivity.
  - change ((a :: b :: ts) ++ [t]) with (a :: ((b :: ts) ++ [t])).
    rewrite join_cons by (simpl; discriminate).
    rewrite IH by discriminate.
    rewrite (@join_cons sep a (b :: ts)) by discriminate.
    rewrite <- !app_assoc. reflexivity.
Qed.

Lemma joined_snoc g f : g <> [] ->
  joined (g ++ [f]) = joined g ++ str " " ++ strip (f_text f).
Proof.
  intros H. unfold joined. rewrite map_app. simpl. apply join_snoc.
  destruct g; [contradiction|discriminate].
Qed.

Lemma unit_of_start item : blank item = false ->
  unit_of [item] (start_unit item (strip (f_text item))).
Proof.
  intros _. unfold unit_of, joined. simpl. repeat split. discriminate.
Qed.

Lemma unit_of_extend g cur item :
  unit_of g cur ->
  unit_of (g ++ [item])
    (Unit (display (u_full_text cur ++ str " " ++ strip (f_text item)))
          (u_full_text cur ++ str " " ++ strip (f_text item))
          (u_start cur) (f_end item)).
Proof.
  intros (Hne & Hfull & Hs & He). unfold unit_of. cbn [u_full_text u_start u_end].
  repeat split.
  - destruct g; discriminate.
  - rewrite joined_snoc by exact Hne. rewrite Hfull. reflexivity.
  - rewrite Hs. destruct g; [contradiction|reflexivity].
  - rewrite last_last. reflexivity.
Qed.

Lemma Forall2_snoc {A B} (R : A -> B -> Prop) l l' a b :
  Forall2 R l l' -> R a b -> Forall2 R (l ++ [a]) (l' ++ [b]).
Proof. intros H1 H2. apply Forall2_app; auto. Qed.

Lemma kept_snoc seen item :
  kept (seen ++ [item]) = kept seen ++ (if blank item then [] else [item]).
Proof. unfold kept. rewrite filter_app. simpl. destruct (blank item); reflexivity. Qed.

Lemma merge_step_inv an seen acc item :
  merge_inv seen acc ->
  match merge_step an acc item with
  | Ok acc' => merge_inv (seen ++ [item]) acc'
  | Raise e => e = IndexError /\ blank_name an
  end.
Proof.
  intros (gs & g & Hcat & Hgs & Hcur).
  destruct (merge_step an acc item) as [acc'|e] eqn:Estep;
    [|eapply merge_step_raises; exact Estep].
  destruct acc as [merged current].
  unfold merge_step in Estep. unfold merge_inv. rewrite kept_snoc. unfold blank.
  destruct (strip (f_text item)) as [|c t'] eqn:Hst.
  - inversion Estep; subst. exists gs, g. rewrite app_nil_r. auto.
  - assert (Hb : blank item = false) by (unfold blank; rewrite Hst; reflexivity).
    simpl in Hgs, Hcur. destruct current as [cur|]; [|inversion Estep; subst].
    + destruct (should_merge_lines an (u_full_text cur) (c :: t')) as [merge|e];
        cbn [bind] in Estep; [|discriminate].
      destruct merge; inversion Estep; subst.
      * exists gs, (g ++ [item]). split; [|split].
        -- rewrite <- Hcat. rewrite !app_assoc. reflexivity.
        -- exact Hgs.
        -- cbn [snd]. rewrite <- Hst. apply unit_of_extend. exact Hcur.
      * exists (gs ++ [g]), [item]. split; [|split].
        -- rewrite concat_app. simpl. rewrite app_nil_r, <- Hcat. reflexivity.
        -- cbn [fst]. apply Forall2_snoc; assumption.
        -- cbn [snd]. rewrite <- Hst. apply unit_of_start. exact Hb.
    + destruct Hcur as [-> ->]. exists [], [item]. split; [|split].
      * simpl in *. rewrite <- Hcat. reflexivity.
      * exact Hgs.
      * cbn [snd]. rewrite <- Hst. apply unit_of_start. exact Hb.
Qed.

Lemma merge_loop_inv an : forall lines seen acc,
  merge_inv seen acc ->
  match fold_each (merge_step an) lines acc with
  | Ok acc' => merge_inv (seen ++ lines) acc'
  | Raise e => e = IndexError /\ blank_name an
  end.
Proof.
  apply (fold_each_invariant (merge_step an) merge_inv
           (fun e => e = IndexError /\ blank_name an)).
  intros seen acc item. apply merge_step_inv.
Qed.

(** The merger raises only [IndexError], and only for an analyzer that
    reports a first person name of white space alone. *)
Lemma merge_raises an lines e :
  merge_fragmented_lines an lines = Raise e -> e = IndexError /\ blank_name an.
Proof.
  unfold merge_fragmented_lines.
  assert (H0 : merge_inv [] ([], None)).
  { exists [], []. simpl. repeat split; constructor. }
  apply (merge_loop_inv an lines) in H0.
  destruct (fold_each (merge_step an) lines ([], None)) as [[merged current]|e'];
    cbn [bind].
  - destruct current; discriminate.
  - intros H. inversion H; subst. exact H0.
Qed.

(** So it returns for every other analyzer, and without the analyzer. *)
Lemma merge_returns an lines :
  ~ blank_name an -> exists units, merge_fragmented_lines an lines = Ok units.
Proof.
  intros Hb. destruct (merge_fragmented_lines an lines) as [units|e] eqn:E; [eauto|].
  apply merge_raises in E. tauto.
Qed.

(** C2 (as amended).  The merger drops nothing but white space around a
    fragment: the fragments whose stripped text is not empty are cut, in
    their order, into consecutive groups that are not empty, one group for
    each merged unit in turn; the full text of a unit is the stripped texts
    of its group joined by single spaces, its start is that of the first
    fragment of the group and its end that of the last.  The merger
    returns these units for every analyzer but one that reports a first
    person name of white space alone, where it raises [IndexError]. *)
Theorem merge_completeness : forall an lines,
  match merge_fragmented_lines an lines with
  | Ok units =>
      exists groups, concat groups = kept lines /\ Forall2 unit_of groups units
  | Raise e => e = IndexError /\ blank_name an
  end.
Proof.
  intros an lines.
  assert (H0 : merge_inv [] ([], None)).
  { exists [], []. simpl. repeat split; constructor. }
  apply (merge_loop_inv an lines) in H0. simpl in H0.
  unfold merge_fragmented_lines.
  destruct (fold_each (merge_step an) lines ([], None)) as [[merged current]|e];
    cbn [bind]; [|exact H0].
  destruct H0 as (gs & g & Hcat & Hgs & Hcur). simpl in Hgs, Hcur.
  destruct current as [cur|].
  - exists (gs ++ [g]). split.
    + rewrite concat_app. simpl. rewrite app_nil_r. exact Hcat.
    + apply Forall2_snoc; assumption.
  - destruct Hcur as [-> ->]. exists []. split; [exact Hcat|exact Hgs].
Qed.

(** The white space around a fragment is dropped, and a fragment of white
    space is skipped: the texts of the units do not add up to the texts of
    the fragments. *)
Lemma merge_strips_fragments :
  exists units,
    merge_fragmented_lines None [Fragment (str " a ") 0 3; Fragment (str "  ") 3 5] = Ok units
    /\ map u_full_text units = [str "a"]
    /\ text_eqb (concat (map u_full_text units))
                (concat (map f_text [Fragment (str " a ") 0 3; Fragment (str "  ") 3 5]))
       = false.
Proof. eexists. split; [vm_compute; reflexivity|]. split; vm_compute; reflexivity. Qed.

(** What a call that classifies one item leaves behind: the item is added
    to one list of [stats], the other lists of classified items stay as
    they are. *)

Lemma note_url_lists it st :
  headers (note_url it st) = headers st /\ readings (note_url it st) = readings st
  /\ instructions (note_url it st) = instructions st
  /\ uncertain (note_url it st) = uncertain st
  /\ too_short (note_url it st) = too_short st
  /\ split_readings (note_url it st) = split_readings st
  /\ current_week (note_url it st) = current_week st.
Proof. unfold note_url. destruct (i_has_url it); simpl; repeat split. Qed.

Lemma new_item_full_text an t s e b st : i_full_text (new_item an t s e b st) = t.
Proof.
  unfold new_item. destruct (get_reading_score an t), (classify_text_type an t). reflexivity.
Qed.

(** C5.  A text of fewer than 20 characters is classified as too short,
    whatever the analyzer, the header check and the scores say: the call
    returns, and the item of the text is added to the list of the too
    short items and to no other list of classified items. *)
Theorem too_short_rule : forall fuel an t start end_ is_split st,
  List.length t < 20 ->
  exists it st',
    classify_single_text (S fuel) an t start end_ is_split st = Done st'
    /\ i_full_text it = t
    /\ adds_too_short it st st'.
Proof.
  intros fuel an t start end_ is_split st Hlen.
  apply Nat.ltb_lt in Hlen.
  exists (new_item an t start end_ is_split st).
  eexists. split; [|split].
  - cbn [classify_single_text]. rewrite Hlen. reflexivity.
  - apply new_item_full_text.
  - unfold adds_too_short. simpl.
    destruct (note_url_lists (new_item an t start end_ is_split st) st)
      as (H1 & H2 & H3 & H4 & H5 & H6 & H7).
    rewrite H1, H2, H3, H4, H5, H7. repeat split.
Qed.

(** The text [Short txt] of the specification. *)
Lemma too_short_rule_short_txt :
  List.length (str "Short txt") < 20
  /\ exists it st',
       classify_single_text 1 None (str "Short txt") 0 9 false initial_stats = Done st'
       /\ i_full_text it = str "Short txt"
       /\ adds_too_short it initial_stats st'.
Proof.
  split; [vm_compute; lia|].
  apply (too_short_rule 0 None (str "Short txt") 0 9 false initial_stats).
  vm_compute. lia.
Defined.

Lemma add_header_adds it w st : adds_header it st (add_header it w (note_url it st)).
Proof.
  destruct (note_url_lists it st) as (H1 & H2 & H3 & H4 & H5 & H6 & H7).
  unfold adds_header. simpl. rewrite H1, H2, H3, H4, H5. repeat split.
Qed.

(** The header branch: a text of at least 20 characters for which
    [is_header] holds is classified as a header, whatever its instruction
    score and its reading score are, when [is_week_header] returns for it;
    the item of the text is then added to the headers and to no other list
    of classified items.  When [is_week_header] raises, so does the call. *)
Lemma header_branch : forall fuel an t start end_ is_split st,
  20 <= List.length t ->
  is_header t = true ->
  match is_week_header t with
  | Ok _ =>
      exists it st',
        classify_single_text (S fuel) an t start end_ is_split st = Done st'
        /\ i_full_text it = t
        /\ adds_header it st st'
  | Raise e => classify_single_text (S fuel) an t start end_ is_split st = Raised e
  end.
Proof.
  intros fuel an t start end_ is_split st Hlen Hh.
  assert (Hl : (List.length t <? 20) = false) by (apply Nat.ltb_ge; exact Hlen).
  cbn [classify_single_text]. rewrite Hl, Hh.
  set (it := new_item an t start end_ is_split st).
  assert (Hit : i_full_text it = t) by apply new_item_full_text.
  destruct (is_week_header t) as [[w|]|e]; [destruct (w =? 0)%Z| |reflexivity].
  - exists it. eexists. split; [reflexivity|]. split; [exact Hit|]. apply add_header_adds.
  - exists (set_week w it). eexists. split; [reflexivity|].
    split; [exact Hit|]. apply add_header_adds.
  - exists it. eexists. split; [reflexivity|]. split; [exact Hit|]. apply add_header_adds.
Qed.

(** A week header that scores as a reading is a header. *)
Lemma header_priority_over_reading :
  (3 <= fst (get_reading_score None header_and_reading))%Z
  /\ exists it st',
       classify_single_text 1 None header_and_reading 0 68 false initial_stats = Done st'
       /\ i_full_text it = header_and_reading
       /\ adds_header it initial_stats st'.
Proof.
  split; [vm_compute; discriminate|].
  apply (header_branch 0 None header_and_reading 0 68 false initial_stats).
  - vm_compute. lia.
  - vm_compute. reflexivity.
Qed.

Lemma long_week_header_raises :
  20 <= List.length long_week_header
  /\ is_header long_week_header = true
  /\ is_week_header long_week_header = Raise ValueError.
Proof.
  split; [vm_compute; lia|]. split.
  - assert (H : exists m, re_match week_pattern long_week_header = Some m)
      by (eexists; vm_compute; reflexivity).
    destruct H as [m H]. exact (week_match_is_header _ m H).
  - vm_compute. reflexivity.
Qed.

(** C6.  The header branch raises on a week header whose number has more
    digits than [int] converts: the text has 20 characters or more and
    [is_header] holds of it, yet the call classifies nothing and raises
    [ValueError], whatever the analyzer and the state. *)
Theorem header_priority_raises_on_long_week_number :
  20 <= List.length long_week_header
  /\ is_header long_week_header = true
  /\ forall fuel an start end_ is_split st,
       classify_single_text (S fuel) an long_week_header start end_ is_split st
       = Raised ValueError.
Proof.
  destruct long_week_header_raises as (Hlen & Hh & Hw).
  split; [exact Hlen|]. split; [exact Hh|].
  intros fuel an start end_ is_split st.
  pose proof (header_branch fuel an long_week_header start end_ is_split st Hlen Hh) as H.
  rewrite Hw in H. exact H.
Qed.

Lemma is_instruction_strip an t : is_instruction an (strip t) = is_instruction an t.
Proof. unfold is_instruction. rewrite strip_strip. reflexivity. Qed.

Lemma header_blocks_instruction an t :
  is_header (strip t) = true -> is_instruction an t = false.
Proof.
  intros H. unfold is_instruction. destruct (_ <? 15); [reflexivity|].
  rewrite H. reflexivity.
Qed.

Lemma header_or_instruction_blocks_reading an t :
  is_header (strip t) = true \/ is_instruction an t = true -> is_reading an t = false.
Proof.
  intros H. unfold is_reading. destruct (_ <? 20); [reflexivity|].
  rewrite is_instruction_strip.
  destruct H as [-> | ->]; rewrite ?orb_true_r; reflexivity.
Qed.

(** C4 (the divergence of the code).  The three lines of
    [week_zero_document] are merged into three units; [is_week_header]
    returns 3 for the first and 0 for the second; yet the header of week 0
    and the reading after it are tagged with week 3, and the counter ends
    at 3: a week number 0 is not taken. *)
Lemma week_zero_header_is_ignored :
  (units <- merge_fragmented_lines None week_zero_document ;; Ok (map u_full_text units))
    = Ok (map f_text week_zero_document)
  /\ map is_week_header (map f_text week_zero_document)
     = [Ok (Some 3%Z); Ok (Some 0%Z); Ok None]
  /\ weeks_of (classify_document 1 None week_zero_document) = ([3%Z; 3%Z], [3%Z], 3%Z).
Proof. repeat split; vm_compute; reflexivity. Qed.

(** *** The week number converts *)

Lemma ink_digits ds : Forall (fun c => ci is_digit c = true) ds -> ink ds = List.length ds.
Proof.
  induction 1 as [|d ds Hd Hds IH]; [reflexivity|].
  rewrite ink_cons, IH. apply ci_digit in Hd. destruct Hd as [Hd _].
  rewrite (digit_not_space d Hd). reflexivity.
Qed.

(** [is_week_header] raises only [ValueError], and only on a text with
    more than [max_str_digits] digits. *)
Lemma is_week_header_raises t e :
  is_week_header t = Raise e -> e = ValueError /\ max_str_digits < ink t.
Proof.
  unfold is_week_header. destruct (re_match week_pattern t) as [m|] eqn:E; [|discriminate].
  apply week_header_shape in E.
  destruct E as (w0 & wk & w1 & d & ds & rest & -> & _ & _ & _ & Hd & Hds & ->).
  unfold py_int. destruct (Nat.ltb_spec max_str_digits (List.length (d :: ds))) as [Hlen|_];
    cbn [bind]; [|discriminate].
  intros H. inversion H; subst. split; [reflexivity|].
  rewrite <- (ink_digits (d :: ds)) in Hlen by (constructor; assumption).
  rewrite !ink_app.
  change (d :: ds ++ rest) with ((d :: ds) ++ rest). rewrite ink_app. lia.
Qed.

Lemma is_week_header_returns t :
  ink t <= max_str_digits -> exists w, is_week_header t = Ok w.
Proof.
  intros H. destruct (is_week_header t) as [w|e] eqn:E; [eauto|].
  apply is_week_header_raises in E. lia.
Qed.

(** *** The classification settles *)

Lemma settles_weaken a b o : a <= b -> settles a o -> settles b o.
Proof. destruct o as [st|e|]; simpl; [auto| |auto]. intros H [H1 H2]. split; [exact H1|lia]. Qed.

Lemma classify_segments_stuck fuel an start end_ segs o :
  (forall st, o <> Done st) -> classify_segments fuel an start end_ segs o = o.
Proof.
  intros H. unfold classify_segments. induction segs as [|seg segs IH]; [reflexivity|].
  cbn [fold_left]. destruct o as [st|e|]; [destruct (H st); reflexivity|exact IH|exact IH].
Qed.

Lemma classify_segments_settles fuel an start end_ bound :
  (forall t s e b st, ink t < fuel ->
     settles (ink t) (classify_single_text fuel an t s e b st)) ->
  forall segs st, (forall seg, In seg segs -> ink seg < fuel /\ ink seg <= bound) ->
  settles bound (classify_segments fuel an start end_ segs (Done st)).
Proof.
  intros IH. induction segs as [|seg segs IHs]; intros st H; [exact I|].
  change (classify_segments fuel an start end_ (seg :: segs) (Done st))
    with (classify_segments fuel an start end_ segs
            (classify_single_text fuel an (strip seg) start end_ true st)).
  destruct (H seg (or_introl eq_refl)) as [Hf Hb].
  pose proof (IH (strip seg) start end_ true st) as Hseg. rewrite ink_strip in Hseg.
  specialize (Hseg Hf).
  destruct (classify_single_text fuel an (strip seg) start end_ true st) as [st1|e|] eqn:E.
  - apply IHs. intros s Hs. apply H. right. exact Hs.
  - rewrite classify_segments_stuck by discriminate.
    eapply settles_weaken; [exact Hb|exact Hseg].
  - destruct Hseg.
Qed.

Lemma split_segments_settles fuel an start end_ t :
  (forall t s e b st, ink t < fuel ->
     settles (ink t) (classify_single_text fuel an t s e b st)) ->
  ink t <= fuel ->
  forall st (other : outcome), settles (ink t) other ->
  settles (ink t)
    match split_concatenated_readings t with
    | Raise e => Raised e
    | Ok split_texts =>
        if 1 <? List.length split_texts then
          classify_segments fuel an start end_ split_texts (Done st)
        else other
    end.
Proof.
  intros IH Hink st other Hother.
  destruct (split_result t) as (segs & -> & Hshape).
  destruct (Nat.ltb_spec 1 (List.length segs)) as [Hlen|_]; [|exact Hother].
  apply classify_segments_settles; [exact IH|].
  destruct Hshape as [[_ ->]|[[_ ->]|(_ & Hsolid & Htotal)]]; [simpl in Hlen; lia..|].
  intros seg Hin. pose proof (normalize_ink t) as Hn.
  assert (Ht : total_ink segs <= ink t) by lia.
  pose proof (solid_segments_smaller segs (ink t) Hlen Hsolid Ht seg Hin). lia.
Qed.

Lemma classify_single_text_settles : forall fuel an t start end_ is_split st,
  ink t < fuel ->
  settles (ink t) (classify_single_text fuel an t start end_ is_split st).
Proof.
  induction fuel as [|fuel IH]; intros an t start end_ is_split st Hink; [lia|].
  cbn [classify_single_text].
  destruct (List.length t <? 20); [exact I|].
  destruct (is_header t).
  { destruct (is_week_header t) as [[week|]|e] eqn:E; [destruct (week =? 0)%Z| |];
      try exact I.
    apply is_week_header_raises in E. exact E. }
  destruct (is_instruction an t); [exact I|].
  destruct (3 <=? _)%Z; [exact I|].
  destruct (1 <=? _)%Z;
    apply (split_segments_settles fuel an start end_ t (IH an)); try exact I; lia.
Qed.

Lemma classify_line_settles fuel an u st :
  ink (u_full_text u) < fuel ->
  settles (ink (u_full_text u)) (classify_line fuel an u st).
Proof.
  intros Hink. unfold classify_line.
  pose proof (classify_single_text_settles fuel an (u_full_text u) (u_start u) (u_end u)
                false st Hink) as Hwhole.
  destruct (60 <? _); [|exact Hwhole].
  destruct (_ || _); [|exact Hwhole].
  apply (split_segments_settles fuel an (u_start u) (u_end u) (u_full_text u));
    [|lia|exact Hwhole].
  intros. apply classify_single_text_settles. assumption.
Qed.

Lemma classify_lines_stuck fuel an us o :
  (forall st, o <> Done st) ->
  fold_left (fun acc u => match acc with
                          | Done st' => classify_line fuel an u st'
                          | other => other
                          end) us o = o.
Proof.
  intros H. induction us as [|u us IH]; [reflexivity|].
  cbn [fold_left]. destruct o as [st|e|]; [destruct (H st); reflexivity|exact IH|exact IH].
Qed.

Lemma classify_lines_settles fuel an bound : forall us st,
  (forall u, In u us -> ink (u_full_text u) < fuel /\ ink (u_full_text u) <= bound) ->
  settles bound (classify_lines fuel an us st).
Proof.
  unfold classify_lines.
  induction us as [|u us IH]; intros st H; cbn [fold_left]; [exact I|].
  destruct (H u (or_introl eq_refl)) as [Hf Hb].
  pose proof (classify_line_settles fuel an u st Hf) as Hu.
  destruct (classify_line fuel an u st) as [st1|e|] eqn:E.
  - apply IH. intros v Hv. apply H. right. exact Hv.
  - rewrite classify_lines_stuck by discriminate.
    eapply settles_weaken; [exact Hb|exact Hu].
  - destruct Hu.
Qed.

Lemma list_max_In n l : In n l -> n <= list_max l.
Proof.
  induction l as [|x l IH]; intros H; [contradiction|]. simpl.
  destruct H as [->|H]; [lia|]. apply IH in H. lia.
Qed.

(** With enough fuel the classification of a document returns, unless the
    merger raises [IndexError], for the blank name of an analyzer, or a
    week number raises [ValueError], in a line of more than
    [max_str_digits] characters that are not white space. *)
Lemma classify_document_outcome an raw_lines fuel :
  enough_fuel an raw_lines <= fuel ->
  match classify_document fuel an raw_lines with
  | Done _ => True
  | Raised IndexError => blank_name an
  | Raised ValueError => max_str_digits < longest_line an raw_lines
  | OutOfFuel => False
  end.
Proof.
  intros H. unfold classify_document, enough_fuel, longest_line in *.
  destruct (merge_fragmented_lines an raw_lines) as [merged|e] eqn:Hm.
  - assert (Hs : settles (list_max (map (fun u => ink (u_full_text u)) merged))
                   (classify_lines fuel an merged initial_stats)).
    { apply classify_lines_settles. intros u Hu.
      pose proof (list_max_In (ink (u_full_text u))
                    (map (fun u => ink (u_full_text u)) merged)
                    (in_map (fun u => ink (u_full_text u)) _ _ Hu)). lia. }
    destruct (classify_lines fuel an merged initial_stats) as [st|e|]; [exact I| |exact Hs].
    destruct Hs as [-> Hs]. exact Hs.
  - apply merge_raises in Hm. destruct Hm as [-> Hm]. exact Hm.
Qed.

Lemma classify_document_total an raw_lines fuel :
  ~ blank_name an ->
  longest_line an raw_lines <= max_str_digits ->
  enough_fuel an raw_lines <= fuel ->
  exists st', classify_document fuel an raw_lines = Done st'.
Proof.
  intros Hb Hl H. pose proof (classify_document_outcome an raw_lines fuel H) as Ho.
  destruct (classify_document fuel an raw_lines) as [st|[|]|]; [eauto|tauto|lia|destruct Ho].
Qed.

(** *** Texts of white space *)

Lemma all_space_Forall t : all_space t = true <-> Forall (fun c => is_space c = true) t.
Proof.
  induction t as [|c t IH]; simpl; [split; [constructor|reflexivity]|].
  rewrite andb_true_iff, IH. split.
  - intros [H1 H2]. constructor; assumption.
  - intros H. inversion H; subst. split; assumption.
Qed.

Lemma all_space_ink t : all_space t = true -> ink t = 0.
Proof.
  induction t as [|c t IH]; [reflexivity|]. simpl all_space. rewrite andb_true_iff.
  intros [Hc Ht]. rewrite ink_cons, Hc, (IH Ht). reflexivity.
Qed.

Lemma all_space_strip t : all_space t = true -> strip t = [].
Proof. intros H. unfold strip. rewrite (lstrip_all_space t H). reflexivity. Qed.

Lemma normalize_all_space t : all_space t = true -> normalize_pdf_text t = [].
Proof.
  intros H. rewrite <- normalize_stripped. apply all_space_strip, ink_zero_all_space.
  pose proof (normalize_ink t) as Hn. rewrite (all_space_ink t H) in Hn. lia.
Qed.

Lemma split_all_space t : all_space t = true -> split_concatenated_readings t = Ok [].
Proof.
  intros H. unfold split_concatenated_readings. rewrite (normalize_all_space t H). reflexivity.
Qed.

Lemma space_not_upper c : is_space c = true -> is_upper_char c = false.
Proof. intros H. apply not_true_is_false. intros F. char_facts. Qed.

Lemma space_lower c : is_space c = true -> lower_char c = c.
Proof. intros H. unfold lower_char. rewrite (space_not_upper c H). reflexivity. Qed.

Lemma all_space_lower t : all_space t = true -> lower t = t.
Proof.
  induction t as [|c t IH]; [reflexivity|]. simpl all_space. rewrite andb_true_iff.
  intros [Hc Ht]. simpl. rewrite (space_lower c Hc). f_equal. apply IH, Ht.
Qed.

Lemma no_upper_in_spaces t :
  Forall (fun c => is_space c = true) t -> existsb is_upper_char t = false.
Proof.
  induction 1 as [|c t Hc Ht IH]; [reflexivity|]. simpl.
  rewrite (space_not_upper c Hc). exact IH.
Qed.

Lemma header_caps_all_space t : all_space t = true -> header_caps t = false.
Proof.
  intros H. unfold header_caps, isupper.
  rewrite (no_upper_in_spaces (replace_char 32%N [] t)).
  - rewrite andb_false_r, andb_false_r. reflexivity.
  - apply replace_char_Forall; [constructor|].
    apply all_space_Forall in H. eapply Forall_impl; [|exact H]. auto.
Qed.

Lemma header_colon_all_space t : all_space t = true -> header_colon t = false.
Proof.
  intros H. unfold header_colon, endswith. rewrite <- all_space_rev in H.
  destruct (rev t) as [|c r]; [apply andb_false_r|].
  simpl in H. apply andb_true_iff in H. destruct H as [Hc _].
  assert (Hn : N.eqb 58 c = false).
  { destruct (N.eqb_spec 58 c) as [<-|_]; [discriminate Hc|reflexivity]. }
  change (startswith (rev (str ":")) (c :: r)) with (N.eqb 58 c && startswith [] r).
  rewrite Hn. apply andb_false_r.
Qed.

Lemma plus_fails p c sf pr i cs k :
  p c = false -> rep_run p 1 None pr (c :: sf) i cs k = None.
Proof. intros H. simpl. rewrite H. reflexivity. Qed.

Lemma header_roman_all_space t : all_space t = true -> header_roman t = false.
Proof.
  intros H. unfold header_roman. destruct t as [|c t]; [reflexivity|].
  simpl in H. apply andb_true_iff in H. destruct H as [Hc _].
  unfold matches, re_match, try_at.
  change (run (seq [Bol; plus (of_set "IVX"); lit "."; Cls is_space]) (MS [] (c :: t) 0 []) Some)
    with (rep_run (of_set "IVX") 1 None [] (c :: t) 0 []
            (fun st' => run (seq [lit "."; Cls is_space]) st' Some)).
  rewrite plus_fails; [reflexivity|].
  apply not_true_is_false. intros F.
  assert (Hc3 : c = 73%N \/ c = 86%N \/ c = 88%N).
  { change (of_set "IVX" c)
      with (N.eqb c 73 || (N.eqb c 86 || (N.eqb c 88 || false))) in F.
    rewrite !orb_true_iff, !N.eqb_eq in F.
    destruct F as [F|[F|[F|F]]]; [auto|auto|auto|discriminate F]. }
  destruct Hc3 as [ -> | [ -> | -> ] ]; discriminate Hc.
Qed.

Lemma is_header_all_space t : all_space t = true -> is_header t = false.
Proof.
  intros H. unfold is_header.
  rewrite (header_caps_all_space t H), (header_colon_all_space t H),
    (header_roman_all_space t H).
  unfold header_course_code. rewrite (all_space_lower t H), (all_space_strip t H).
  vm_compute. reflexivity.
Qed.

Lemma is_instruction_all_space an t : all_space t = true -> is_instruction an t = false.
Proof. intros H. unfold is_instruction. rewrite (all_space_strip t H). reflexivity. Qed.

Lemma reading_score_all_space an t :
  quiet_on_empty an -> all_space t = true -> fst (get_reading_score an t) = 0%Z.
Proof.
  intros Hq H. unfold get_reading_score. rewrite (all_space_strip t H).
  destruct an as [nlp|].
  - unfold get_semantic_score, analyze.
    change (strip_bullet []) with (@nil char). simpl in Hq. rewrite Hq.
    vm_compute. reflexivity.
  - vm_compute. reflexivity.
Qed.

Lemma semantic_class_all_space an t :
  all_space t = true -> fst (classify_text_type an t) = SemUnknown.
Proof.
  intros H. unfold classify_text_type. destruct an; [|reflexivity].
  rewrite (all_space_strip t H). reflexivity.
Qed.

(** *** The merger skips the fragments without text *)

Lemma fold_each_app {A S : Type} (f : S -> A -> result S) : forall l1 l2 s,
  fold_each f (l1 ++ l2) s = (s' <- fold_each f l1 s ;; fold_each f l2 s').
Proof.
  induction l1 as [|a l1 IH]; intros l2 s; cbn [app fold_each bind]; [reflexivity|].
  destruct (f s a) as [s'|e]; cbn [bind]; [apply IH|reflexivity].
Qed.

Lemma merge_skips_blank an a e b :
  blank e = true ->
  merge_fragmented_lines an (a ++ e :: b) = merge_fragmented_lines an (a ++ b).
Proof.
  intros H. unfold merge_fragmented_lines. rewrite !fold_each_app.
  destruct (fold_each (merge_step an) a ([], None)) as [acc|e']; cbn [bind]; [|reflexivity].
  cbn [fold_each].
  assert (Hstep : merge_step an acc e = Ok acc).
  { destruct acc as [merged current]. unfold merge_step. unfold blank in H.
    destruct (strip (f_text e)); [reflexivity|discriminate H]. }
  rewrite Hstep. reflexivity.
Qed.

(** *** The classification of a text of white space *)

Lemma set_classification_full_text k it :
  i_full_text (set_classification k it) = i_full_text it.
Proof. reflexivity. Qed.

Lemma classify_all_space fuel an t start end_ is_split st :
  quiet_on_empty an -> all_space t = true ->
  exists it st',
    classify_single_text (S fuel) an t start end_ is_split st = Done st'
    /\ degrades t it st st'.
Proof.
  intros Hq H. cbn [classify_single_text].
  set (it := new_item an t start end_ is_split st).
  assert (Hscore : i_score it = 0%Z).
  { unfold it, new_item. pose proof (reading_score_all_space an t Hq H) as Hs.
    destruct (get_reading_score an t), (classify_text_type an t). exact Hs. }
  assert (Hclass : i_semantic_class it = SemUnknown).
  { unfold it, new_item. pose proof (semantic_class_all_space an t H) as Hs.
    destruct (get_reading_score an t), (classify_text_type an t). exact Hs. }
  destruct (Nat.ltb_spec (List.length t) 20) as [Hlen|Hlen].
  - exists it. eexists. split; [reflexivity|]. unfold degrades.
    split; [apply new_item_full_text|]. split; [|lia]. intros _.
    unfold adds_too_short. simpl.
    destruct (note_url_lists it st) as (H1 & H2 & H3 & H4 & H5 & H6 & H7).
    rewrite H1, H2, H3, H4, H5, H7. repeat split.
  - rewrite (is_header_all_space t H), (is_instruction_all_space an t H), Hscore.
    rewrite (split_all_space t H). cbn [Z.leb Z.compare List.length Nat.ltb Nat.leb].
    unfold classify_unsplit. rewrite Hclass.
    exists (set_classification Unknown it). eexists. split; [reflexivity|]. unfold degrades.
    split; [rewrite set_classification_full_text; apply new_item_full_text|].
    split; [lia|]. intros _. split; [|reflexivity].
    unfold adds_uncertain. simpl.
    destruct (note_url_lists (set_classification Unknown it) st)
      as (H1 & H2 & H3 & H4 & H5 & H6 & H7).
    rewrite H1, H2, H3, H4, H5, H7. repeat split.
Qed.

(** The splitter returns for every text. *)
Lemma split_returns t : exists segs, split_concatenated_readings t = Ok segs.
Proof. destruct (split_result t) as (segs & Hs & _). exists segs. exact Hs. Qed.

(** C8.  The core raises on two inputs.  On a week header whose number has
    more digits than [int] converts, [is_week_header] raises [ValueError],
    and with it the classification of the text and of a document that
    holds it, however much fuel there is.  For an analyzer that reports a
    person under a name of white space, the last word of the name does not
    exist: [is_continuation_line] and [should_merge_lines] raise
    [IndexError], and with them the merger and the classification of a
    document of two lines. *)
Theorem core_raises_on_malformed_input :
  is_week_header long_week_header = Raise ValueError
  /\ (forall fuel an start end_ is_split st,
        classify_single_text (S fuel) an long_week_header start end_ is_split st
        = Raised ValueError)
  /\ classify_document (enough_fuel None long_week_document) None long_week_document
     = Raised ValueError
  /\ is_continuation_line blank_person_analyzer (str "power in the") = Raise IndexError
  /\ should_merge_lines blank_person_analyzer (str "Gender and") (str "power in the")
     = Raise IndexError
  /\ merge_fragmented_lines blank_person_analyzer cut_title = Raise IndexError
  /\ (forall fuel, classify_document fuel blank_person_analyzer cut_title
                   = Raised IndexError).
Proof.
  destruct long_week_header_raises as (Hlen & Hh & Hw).
  split; [exact Hw|]. split.
  { intros fuel an start end_ is_split st.
    pose proof (header_branch fuel an long_week_header start end_ is_split st Hlen Hh) as H.
    rewrite Hw in H. exact H. }
  split; [vm_compute; reflexivity|].
  split; [vm_compute; reflexivity|].
  split; [vm_compute; reflexivity|].
  assert (Hm : merge_fragmented_lines blank_person_analyzer cut_title = Raise IndexError)
    by (vm_compute; reflexivity).
  split; [exact Hm|].
  intros fuel. unfold classify_document. rewrite Hm. reflexivity.
Qed.

(** Empty fragments, the empty text and a line of 24 spaces do not make
    the core raise. *)
Lemma malformed_document_is_classified :
  (exists st', classify_document (enough_fuel None malformed_document) None malformed_document
               = Done st')
  /\ (exists it st',
        classify_single_text 1 None (str "") 0 0 false initial_stats = Done st'
        /\ degrades (str "") it initial_stats st')
  /\ (exists it st',
        classify_single_text 1 None blank_line 0 24 false initial_stats = Done st'
        /\ degrades blank_line it initial_stats st').
Proof.
  split; [|split].
  - apply classify_document_total;
      [exact no_blank_name_without_analyzer|vm_compute; lia|apply Nat.le_refl].
  - apply classify_all_space; [exact I|reflexivity].
  - apply classify_all_space; [exact I|reflexivity].
Qed.

(** *** Patterns that need a character the text does not have *)

Lemma over_exists (A : list char) (p : char -> bool) c : In c A -> p c = true -> existsb p A = true.
Proof. intros Hin Hp. apply existsb_exists. exists c. split; assumption. Qed.

Lemma Matches_feasible A r pr s sf :
  Matches r pr s sf -> over A pr -> over A s -> over A sf -> feasible A r = true.
Proof.
  unfold over. induction 1 as
    [pr sf|p c pr sf Hc|p lo hi s pr sf Hs Hlo Hhi|a b s1 s2 pr sf Ha IHa Hb IHb
    |a b s pr sf Ha IHa|a b s pr sf Hb IHb|n a s pr sf Ha IHa|sf|pr sf He|pr sf Hw
    |a s pr sf Ha IHa|p c pr sf Hc]; intros Hpr Hs' Hsf; simpl.
  - reflexivity.
  - inversion Hs'; subst. eapply over_exists; eassumption.
  - destruct lo as [|lo]; [reflexivity|]. simpl.
    destruct s as [|c s]; [simpl in Hlo; lia|].
    inversion Hs; subst. inversion Hs'; subst. eapply over_exists; eassumption.
  - apply Forall_app in Hs'. destruct Hs' as [H1 H2].
    rewrite IHa, IHb; auto.
    + apply Forall_app. split; [apply Forall_rev; exact H1|exact Hpr].
    + apply Forall_app. split; assumption.
  - rewrite IHa; auto.
  - rewrite IHb; auto. apply orb_true_r.
  - auto.
  - reflexivity.
  - reflexivity.
  - reflexivity.
  - apply Forall_app in Hsf. destruct Hsf as [H1 H2]. auto.
  - inversion Hpr; subst. eapply over_exists; eassumption.
Qed.

Lemma try_at_feasible A r pr sf i m :
  try_at r pr sf i = Some m -> over A pr -> over A sf -> feasible A r = true.
Proof.
  unfold try_at. intros H Hpr Hsf.
  destruct (run r (MS pr sf i []) Some) as [st|] eqn:E; [|discriminate].
  apply run_sound in E. destruct E as (s & sf' & cs' & -> & Hm & _).
  apply Forall_app in Hsf. destruct Hsf as [H1 H2].
  eapply Matches_feasible; eassumption.
Qed.

Lemma search_from_feasible A r : forall sf pr i m,
  search_from r pr sf i = Some m -> over A pr -> over A sf -> feasible A r = true.
Proof.
  induction sf as [|c sf IH]; intros pr i m H Hpr Hsf; simpl in H.
  - destruct (try_at r pr [] i) eqn:E; [|discriminate].
    eapply try_at_feasible; eassumption.
  - destruct (try_at r pr (c :: sf) i) eqn:E.
    + eapply try_at_feasible; eassumption.
    + inversion Hsf; subst. eapply IH; [exact H| |assumption].
      constructor; assumption.
Qed.

Lemma infeasible_not_found A r t : feasible A r = false -> over A t -> found r t = false.
Proof.
  intros Hf Ht. unfold found, re_search.
  destruct (search_from r [] t 0) eqn:E; [|reflexivity].
  apply (search_from_feasible A) in E; [congruence|constructor|exact Ht].
Qed.

Lemma infeasible_no_match A r t : feasible A r = false -> over A t -> matches r t = false.
Proof.
  intros Hf Ht. unfold matches, re_match.
  destruct (try_at r [] t 0) eqn:E; [|reflexivity].
  apply (try_at_feasible A) in E; [congruence|constructor|exact Ht].
Qed.

Lemma weigh_infeasible A flags ps t :
  forallb (fun pw => negb (feasible A (flags (fst pw)))) ps = true ->
  over A t -> weigh flags ps t = 0%Z.
Proof.
  intros H Ht. unfold weigh. generalize 0%Z as acc.
  induction ps as [|pw ps IH]; intros acc; [reflexivity|].
  simpl in H. apply andb_true_iff in H. destruct H as [H1 H2].
  apply negb_true_iff in H1. cbn [fold_left].
  rewrite (infeasible_not_found A _ t H1 Ht). apply IH. exact H2.
Qed.

Lemma tally_infeasible A ps t :
  forallb (fun p => negb (feasible A (nocase (fst (fst p))))) ps = true ->
  over A t -> tally ps t = (0%Z, []).
Proof.
  intros H Ht. unfold tally. generalize (0%Z, @nil text) as acc.
  induction ps as [|[[pat reason] w] ps IH]; intros acc; [reflexivity|].
  simpl in H. apply andb_true_iff in H. destruct H as [H1 H2].
  apply negb_true_iff in H1. cbn [fold_left].
  rewrite (infeasible_not_found A _ t H1 Ht). apply IH. exact H2.
Qed.

Lemma existsb_infeasible A (f : re -> text -> bool) ps t :
  (forall r, feasible A r = false -> f r t = false) ->
  forallb (fun p => negb (feasible A p)) ps = true ->
  existsb (fun p => f p t) ps = false.
Proof.
  intros Hf. induction ps as [|p ps IH]; intros H; [reflexivity|].
  simpl in H. apply andb_true_iff in H. destruct H as [H1 H2].
  apply negb_true_iff in H1. simpl. rewrite (Hf p H1), (IH H2). reflexivity.
Qed.

(** *** The scores of a text of Roman numerals *)

Lemma over_strip A t : over A t -> over A (strip t).
Proof. apply Forall_strip. Qed.

Lemma over_strip_bullet A t : over A t -> over A (strip_bullet t).
Proof.
  intros H. unfold strip_bullet, re_sub. apply sub_scan_Forall; [|exact H].
  intros _. constructor.
Qed.

Lemma roman_lower_over t : over roman_chars t -> over roman_lower (lower t).
Proof.
  unfold over. induction 1 as [|c t Hc Ht IH]; simpl; constructor; [|exact IH].
  simpl in Hc. destruct Hc as [<-|[<-|[<-|[<-|[]]]]]; vm_compute; tauto.
Qed.

Lemma roman_instruction_score t :
  over roman_chars t -> get_instruction_score None t = 0%Z.
Proof.
  intros H. unfold get_instruction_score, semantic_instruction_score.
  assert (Hl : over roman_lower (lower (strip_bullet (strip t)))).
  { apply roman_lower_over, over_strip_bullet, over_strip, H. }
  rewrite !(weigh_infeasible roman_lower) by (exact Hl || reflexivity).
  unfold is_course_description.
  rewrite (existsb_infeasible roman_lower found description_patterns).
  - reflexivity.
  - intros r Hr. apply (infeasible_not_found roman_lower); [exact Hr|].
    apply over_strip, roman_lower_over, over_strip, H.
  - reflexivity.
Qed.

Lemma roman_not_author t : over roman_chars t -> looks_like_author t = false.
Proof.
  intros H. unfold looks_like_author. apply over_strip in H.
  destruct (strip t) as [|c s] eqn:E; [reflexivity|].
  apply (existsb_infeasible roman_chars matches author_patterns); [|reflexivity].
  intros r Hr. apply (infeasible_no_match roman_chars); assumption.
Qed.

Lemma roman_reading_score t :
  over roman_chars t -> (fst (get_reading_score None t) <= 1)%Z.
Proof.
  intros H. unfold get_reading_score.
  assert (Hc : over roman_chars (strip_bullet (strip t))).
  { apply over_strip_bullet, over_strip, H. }
  rewrite !(tally_infeasible roman_chars) by (exact Hc || reflexivity).
  rewrite (roman_not_author _ Hc), andb_false_r.
  destruct (80 <? _); simpl; lia.
Qed.

Lemma roman_not_instruction t :
  over roman_chars (strip t) -> is_instruction None t = false.
Proof.
  intros H. unfold is_instruction. rewrite (roman_instruction_score _ H).
  destruct (_ <? 15); [reflexivity|]. destruct (is_header (strip t)); reflexivity.
Qed.

Lemma roman_not_reading t :
  over roman_chars (strip t) -> is_reading None t = false.
Proof.
  intros H. unfold is_reading.
  destruct (_ <? 20); [reflexivity|].
  destruct (is_header (strip t) || is_instruction None (strip t)); [reflexivity|].
  pose proof (roman_reading_score _ H) as Hs.
  destruct (Z.leb_spec 3 (fst (get_reading_score None (strip t)))); [lia|reflexivity].
Qed.

(** *** Stripping and the header checks *)

Lemma space_not_lower c : is_space c = true -> is_lower_char c = false.
Proof. intros H. apply not_true_is_false. intros F. char_facts. Qed.

Lemma lower_char_space c : is_space (lower_char c) = is_space c.
Proof.
  unfold lower_char. destruct (is_upper_char c) eqn:E; [|reflexivity].
  assert (H1 : is_space c = false).
  { apply not_true_is_false. intros F. apply space_not_upper in F. congruence. }
  rewrite H1. apply not_true_is_false. intros F. char_facts.
Qed.

Lemma lower_lstrip t : lower (lstrip t) = lstrip (lower t).
Proof.
  induction t as [|c t IH]; [reflexivity|]. simpl. rewrite lower_char_space.
  destruct (is_space c); [exact IH|reflexivity].
Qed.

Lemma lower_strip t : lower (strip t) = strip (lower t).
Proof.
  unfold strip, rstrip, lower. rewrite map_rev. fold (lower (lstrip (rev (lstrip t)))).
  rewrite lower_lstrip. unfold lower at 1. rewrite map_rev.
  fold (lower (lstrip t)). rewrite lower_lstrip. reflexivity.
Qed.

Lemma length_lstrip_le t : List.length (lstrip t) <= List.length t.
Proof. induction t as [|c t IH]; simpl; [lia|]. destruct (is_space c); simpl; lia. Qed.

Lemma length_strip_le t : List.length (strip t) <= List.length t.
Proof.
  unfold strip, rstrip. rewrite length_rev.
  etransitivity; [apply length_lstrip_le|]. rewrite length_rev. apply length_lstrip_le.
Qed.

Lemma In_lstrip c t : In c t -> is_space c = false -> In c (lstrip t).
Proof.
  induction t as [|x t IH]; intros Hin Hc; [contradiction|]. simpl.
  destruct (is_space x) eqn:E.
  - destruct Hin as [->|Hin]; [congruence|]. apply IH; assumption.
  - exact Hin.
Qed.

Lemma In_strip c t : In c t -> is_space c = false -> In c (strip t).
Proof.
  intros Hin Hc. unfold strip, rstrip. apply -> in_rev.
  apply In_lstrip; [|exact Hc]. apply -> in_rev. apply In_lstrip; assumption.
Qed.

Lemma strip_In c t : In c (strip t) -> In c t.
Proof.
  intros H.
  assert (Hf : Forall (fun x => In x t) (strip t)).
  { apply Forall_strip, Forall_forall. auto. }
  rewrite Forall_forall in Hf. exact (Hf c H).
Qed.

Lemma replace_char_keeps a b t c : In c t -> c <> a -> In c (replace_char a b t).
Proof.
  intros Hin Hne. unfold replace_char. apply in_flat_map. exists c. split; [exact Hin|].
  destruct (N.eqb_spec c a); [contradiction|left; reflexivity].
Qed.

Lemma isupper_iff x :
  isupper x = true <->
  (forall c, In c x -> is_lower_char c = false) /\ (exists c, In c x /\ is_upper_char c = true).
Proof.
  unfold isupper. rewrite andb_true_iff, forallb_forall, existsb_exists. split.
  - intros [H1 H2]. split; [|exact H2]. intros c Hc. apply negb_true_iff. auto.
  - intros [H1 H2]. split; [|exact H2]. intros c Hc. apply negb_true_iff. auto.
Qed.

Lemma isupper_strip t :
  isupper (replace_char 32%N [] t) = true -> isupper (replace_char 32%N [] (strip t)) = true.
Proof.
  rewrite !isupper_iff. intros [H1 (c & Hc & Hu)]. split.
  - intros d Hd. apply replace_char_In in Hd. destruct Hd as [[]|[Hd Hne]].
    apply H1. apply replace_char_keeps; [apply strip_In; exact Hd|exact Hne].
  - exists c. split; [|exact Hu].
    apply replace_char_In in Hc. destruct Hc as [[]|[Hc Hne]].
    apply replace_char_keeps; [|exact Hne]. apply In_strip; [exact Hc|].
    apply not_true_is_false. intros F. apply space_not_upper in F. congruence.
Qed.

Lemma header_caps_strip t :
  header_caps t = true -> header_caps (strip t) = false -> List.length (strip t) <= 3.
Proof.
  unfold header_caps. rewrite !andb_true_iff. intros [[H1 H2] H3] H.
  apply Nat.ltb_lt in H1. apply isupper_strip in H2. rewrite H2 in H.
  pose proof (length_strip_le t) as Hle.
  destruct (Nat.ltb_spec (List.length (strip t)) 60) as [_|Hge]; [|lia].
  simpl in H. apply Nat.ltb_ge in H. exact H.
Qed.

Lemma header_colon_strip t : header_colon t = true -> header_colon (strip t) = true.
Proof.
  unfold header_colon, endswith. rewrite !andb_true_iff. intros [H1 H2].
  apply Nat.ltb_lt in H1. pose proof (length_strip_le t) as Hle. split; [apply Nat.ltb_lt; lia|].
  destruct (rev t) as [|c r] eqn:E; [discriminate H2|].
  change (startswith (rev (str ":")) (c :: r)) with (N.eqb 58 c && startswith [] r) in H2.
  apply andb_true_iff in H2. destruct H2 as [Hc _]. apply N.eqb_eq in Hc. subst c.
  assert (Ht : t = rev r ++ [58%N]).
  { rewrite <- (rev_involutive t), E. reflexivity. }
  unfold strip, rstrip. rewrite rev_involutive. rewrite Ht, lstrip_app.
  destruct (all_space (rev r)).
  - reflexivity.
  - rewrite rev_app_distr. reflexivity.
Qed.

(** The shape of a text that the Roman-numeral check accepts. *)
Lemma header_roman_shape t :
  header_roman t = true ->
  exists c R w rest,
    t = c :: R ++ 46%N :: w :: rest
    /\ Forall (fun x => of_set "IVX" x = true) (c :: R) /\ is_space w = true.
Proof.
  unfold header_roman. intros H. apply matches_sound in H.
  destruct H as (s & sf & -> & H).
  change (seq [Bol; plus (of_set "IVX"); lit "."; Cls is_space])
    with (Cat Bol (Cat (Rep (of_set "IVX") 1 None)
            (Cat (Cat (Cls (one 46%N)) Eps) (Cat (Cls is_space) Eps)))) in H.
  apply Matches_Cat_inv in H. destruct H as (b0 & s1 & -> & Hb & H).
  apply Matches_Bol_inv in Hb. destruct Hb as [-> _].
  apply Matches_Cat_inv in H. destruct H as (R & s2 & -> & HR & H).
  apply Matches_Rep_inv in HR. destruct HR as (HR & Hlen & _).
  apply Matches_Cat_inv in H. destruct H as (d & s3 & -> & Hd & H).
  apply Matches_Cat_inv in Hd. destruct Hd as (d1 & d2 & -> & Hd1 & Hd2).
  apply Matches_Eps_inv in Hd2. subst d2.
  apply Matches_Cls_inv in Hd1. destruct Hd1 as (dc & -> & Hdc).
  apply N.eqb_eq in Hdc. subst dc.
  apply Matches_Cat_inv in H. destruct H as (w1 & w2 & -> & Hw1 & Hw2).
  apply Matches_Eps_inv in Hw2. subst w2.
  apply Matches_Cls_inv in Hw1. destruct Hw1 as (w & -> & Hw).
  destruct R as [|c R]; [simpl in Hlen; lia|].
  exists c, R, w, sf. split; [|split; assumption].
  repeat (simpl; rewrite <- ?app_assoc, ?app_nil_r). reflexivity.
Qed.

Lemma header_roman_intro c R w rest :
  Forall (fun x => of_set "IVX" x = true) (c :: R) -> is_space w = true ->
  header_roman (c :: R ++ 46%N :: w :: rest) = true.
Proof.
  intros HR Hw. unfold header_roman.
  replace (c :: R ++ 46%N :: w :: rest) with (((c :: R) ++ [46%N; w]) ++ rest)
    by (repeat (simpl; rewrite <- ?app_assoc); reflexivity).
  apply matches_complete.
  change (seq [Bol; plus (of_set "IVX"); lit "."; Cls is_space])
    with (Cat Bol (Cat (Rep (of_set "IVX") 1 None)
            (Cat (Cat (Cls (one 46%N)) Eps) (Cat (Cls is_space) Eps)))).
  apply (Matches_Cat_intro Bol _ [] _ [] ((c :: R) ++ [46%N; w]) rest eq_refl);
    [constructor|].
  apply (Matches_Cat_intro _ _ _ _ (c :: R) [46%N; w] rest eq_refl).
  - constructor; [exact HR|simpl; lia|exact I].
  - apply (Matches_Cat_intro _ _ _ _ [46%N] [w] rest eq_refl).
    + apply (Matches_Cat_intro _ _ _ _ [46%N] [] _ eq_refl); [|constructor].
      constructor. reflexivity.
    + apply (Matches_Cat_intro _ _ _ _ [w] [] rest eq_refl); [|constructor].
      constructor. exact Hw.
Qed.

Lemma roman_not_space x : of_set "IVX" x = true -> is_space x = false.
Proof.
  intros H.
  change (of_set "IVX" x) with (N.eqb x 73 || (N.eqb x 86 || (N.eqb x 88 || false))) in H.
  rewrite !orb_true_iff, !N.eqb_eq in H.
  destruct H as [ -> | [ -> | [ -> | H ] ] ]; [reflexivity..|discriminate H].
Qed.

Lemma roman_in_chars x : of_set "IVX" x = true -> In x roman_chars.
Proof.
  intros H.
  change (of_set "IVX" x) with (N.eqb x 73 || (N.eqb x 86 || (N.eqb x 88 || false))) in H.
  rewrite !orb_true_iff, !N.eqb_eq in H.
  destruct H as [ -> | [ -> | [ -> | H ] ] ]; [simpl; tauto..|discriminate H].
Qed.

Lemma rstrip_all_space t : all_space t = true -> rstrip t = [].
Proof.
  intros H. unfold rstrip. rewrite lstrip_all_space; [reflexivity|].
  rewrite all_space_rev. exact H.
Qed.

Lemma rstrip_nil_all_space t : rstrip t = [] -> all_space t = true.
Proof.
  unfold rstrip. intros H. rewrite <- all_space_rev. apply lstrip_nil_all_space.
  rewrite <- (rev_involutive (lstrip (rev t))), H. reflexivity.
Qed.

Lemma header_roman_strip t :
  header_roman t = true ->
  header_roman (strip t) = true \/ over roman_chars (strip t).
Proof.
  intros H. apply header_roman_shape in H.
  destruct H as (c & R & w & rest & -> & HR & Hw).
  assert (Hc : is_space c = false) by (inversion HR; subst; apply roman_not_space; assumption).
  unfold strip. rewrite (lstrip_fixed c _ Hc).
  change (c :: R ++ 46%N :: w :: rest) with ((c :: R) ++ 46%N :: w :: rest).
  rewrite rstrip_app_nonspace by reflexivity.
  rewrite rstrip_cons.
  pose proof (rstrip_cons w rest) as Hwr. unfold char in Hwr. rewrite Hwr. clear Hwr.
  destruct (rstrip rest) as [|x r] eqn:E.
  - rewrite Hw. right. unfold over.
    change (Forall (fun x => In x roman_chars) ((c :: R) ++ [46%N])).
    apply Forall_app. split.
    + eapply Forall_impl; [|exact HR]. intros a. apply roman_in_chars.
    + constructor; [simpl; tauto|constructor].
  - left. apply (header_roman_intro c R w (x :: r) HR Hw).
Qed.

(** A text that is a header while its stripped text is none has at most
    three characters within its white space, or is made of Roman numerals
    and a period. *)
Lemma header_strip_gap t :
  is_header t = true -> is_header (strip t) = false ->
  List.length (strip t) <= 3 \/ over roman_chars (strip t).
Proof.
  unfold is_header, header_course_code.
  rewrite lower_strip, !strip_strip.
  intros H1 H2. rewrite !orb_false_iff in H2.
  destruct H2 as [[[[[[[[[C1 C2] C3] C4] C5] C6] C7] Hcaps] Hcolon] Hroman].
  rewrite C1, C2, C3, C4, C5, C6, C7 in H1. simpl in H1.
  rewrite !orb_true_iff in H1. destruct H1 as [[H|H]|H].
  - left. apply header_caps_strip; assumption.
  - apply header_colon_strip in H. congruence.
  - apply header_roman_strip in H. destruct H as [H|H]; [congruence|right; exact H].
Qed.

Lemma header_blocks_without_analyzer t :
  is_header t = true -> is_instruction None t = false /\ is_reading None t = false.
Proof.
  intros H. destruct (is_header (strip t)) eqn:E.
  - split; [apply header_blocks_instruction; exact E|].
    apply header_or_instruction_blocks_reading. left. exact E.
  - destruct (header_strip_gap t H E) as [Hlen|Hr].
    + split.
      * unfold is_instruction.
        destruct (Nat.ltb_spec (List.length (strip t)) 15); [reflexivity|lia].
      * unfold is_reading.
        destruct (Nat.ltb_spec (List.length (strip t)) 20); [reflexivity|lia].
    + split; [apply roman_not_instruction|apply roman_not_reading]; exact Hr.
Qed.

(** C9 (as amended).  The header check that [is_instruction] and
    [is_reading] run is the one of the stripped text: when the stripped text
    is a header the text is neither an instruction nor a reading, and an
    instruction is no reading.  So at most one of [is_header],
    [is_instruction] and [is_reading] holds for a text that has no white
    space around it; and when the analyzer is not available, for every
    text. *)
Theorem label_predicates_exclusive : forall an t,
  (is_header (strip t) = true -> is_instruction an t = false /\ is_reading an t = false)
  /\ (is_instruction an t = true -> is_reading an t = false)
  /\ (strip t = t ->
      at_most_one (is_header t) (is_instruction an t) (is_reading an t))
  /\ at_most_one (is_header t) (is_instruction None t) (is_reading None t).
Proof.
  intros an t. split; [|split; [|split]].
  - intros H. split.
    + apply header_blocks_instruction. exact H.
    + apply header_or_instruction_blocks_reading. left. exact H.
  - intros H. apply header_or_instruction_blocks_reading. right. exact H.
  - intros Hs. unfold at_most_one. split.
    + intros H. rewrite <- Hs in H. split.
      * apply header_blocks_instruction. exact H.
      * apply header_or_instruction_blocks_reading. left. exact H.
    + intros H. apply header_or_instruction_blocks_reading. right. exact H.
  - unfold at_most_one. split.
    + apply header_blocks_without_analyzer.
    + intros H. apply header_or_instruction_blocks_reading. right. exact H.
Qed.

(** With this analyzer the Roman-numeral line is a header and an
    instruction. *)
Lemma header_and_instruction_overlap :
  is_header roman_line = true
  /\ is_header (strip roman_line) = false
  /\ is_instruction always_imperative roman_line = true.
Proof. repeat split; vm_compute; reflexivity. Qed.

(** A header without white space around it. *)
Lemma label_predicates_exclusive_example :
  strip plain_header = plain_header
  /\ at_most_one (is_header plain_header) (is_instruction None plain_header)
                 (is_reading None plain_header).
Proof.
  split; [vm_compute; reflexivity|].
  destruct (label_predicates_exclusive None plain_header) as (_ & _ & H & _).
  apply H. vm_compute. reflexivity.
Defined.

(** *** The matches of a scan, with their groups *)





Lemma slice_app_left (a b c : text) : slice 0 (List.length a) (a ++ b) = a.
Proof.
  unfold slice. rewrite Nat.sub_0_r. cbn [skipn].
  rewrite firstn_app, firstn_all, Nat.sub_diag. cbn [firstn]. apply app_nil_r.
Qed.

(** The text that a match covers. *)
Lemma match_in_slice r t m :
  match_in r t m ->
  exists a s c, t = a ++ s ++ c /\ m_start m = List.length a
                /\ m_end m = List.length a + List.length s
                /\ slice (m_start m) (m_end m) t = s.
Proof.
  intros (a & s & c & -> & Hs & He & _). exists a, s, c.
  repeat split; try assumption. rewrite Hs, He. apply slice_app_mid.
Qed.

(** *** Pieces *)








(** *** Strategy 1 *)






(** *** Strategy 4 *)




(** *** Strategy 3 *)















(** *** Strategy 2 *)












(** *** The segments of the splitter *)




(** *** Splitting at white space and joining *)

Lemma split_words_words : forall t cur,
  Forall (fun c => is_space c = false) cur ->
  Forall word (split_words cur t).
Proof.
  induction t as [|c t IH]; intros cur Hcur; simpl.
  - destruct cur as [|x cur]; [constructor|].
    constructor; [|constructor]. split.
    + intros E. apply (f_equal (@List.length char)) in E. rewrite length_rev in E. discriminate E.
    + apply Forall_rev. exact Hcur.
  - destruct (is_space c) eqn:Ec.
    + destruct cur as [|x cur]; [apply IH; constructor|].
      constructor; [|apply IH; constructor]. split.
      * intros E. apply (f_equal (@List.length char)) in E. rewrite length_rev in E. discriminate E.
      * apply Forall_rev. exact Hcur.
    + apply IH. constructor; assumption.
Qed.

Lemma py_split_words t : Forall word (py_split t).
Proof. apply split_words_words. constructor. Qed.

Lemma split_words_chars (P : char -> Prop) : forall t cur,
  Forall P t -> Forall P cur -> Forall (Forall P) (split_words cur t).
Proof.
  induction t as [|c t IH]; intros cur Ht Hcur; simpl.
  - destruct cur; [constructor|]. constructor; [apply Forall_rev; exact Hcur|constructor].
  - inversion Ht; subst. destruct (is_space c).
    + destruct cur; [apply IH; [assumption|constructor]|].
      constructor; [apply Forall_rev; exact Hcur|apply IH; [assumption|constructor]].
    + apply IH; [assumption|constructor; assumption].
Qed.

Lemma join_chars (P : char -> Prop) sep ws :
  Forall P sep -> Forall (Forall P) ws -> Forall P (join sep ws).
Proof.
  intros Hsep. induction 1 as [|w ws Hw Hws IH]; [constructor|].
  destruct ws as [|w' ws]; [exact Hw|].
  change (join sep (w :: w' :: ws)) with (w ++ sep ++ join sep (w' :: ws)).
  apply Forall_app. split; [exact Hw|]. apply Forall_app. split; [exact Hsep|exact IH].
Qed.

Lemma single_spaced_chars (P : char -> Prop) t :
  P 32%N -> Forall P t -> Forall P (single_spaced t).
Proof.
  intros Hs Ht. unfold single_spaced. apply join_chars.
  - constructor; [exact Hs|constructor].
  - apply split_words_chars; [exact Ht|constructor].
Qed.

Lemma tidy_word_app w : word w -> forall b rest, tidy false rest -> tidy b (w ++ rest).
Proof.
  intros [Hne Hw]. induction Hw as [|c w Hc Hw IH]; [contradiction|].
  intros b rest Hrest. simpl. rewrite Hc.
  destruct w as [|d w]; [exact Hrest|]. apply IH; [discriminate|exact Hrest].
Qed.

Lemma tidy_join ws : Forall word ws -> forall b, tidy b (join (str " ") ws).
Proof.
  induction 1 as [|w ws Hw Hws IH]; intros b; [exact I|].
  destruct ws as [|w' ws].
  - simpl. rewrite <- (app_nil_r w). apply tidy_word_app; [exact Hw|exact I].
  - change (join (str " ") (w :: w' :: ws)) with (w ++ 32%N :: join (str " ") (w' :: ws)).
    apply tidy_word_app; [exact Hw|].
    simpl. repeat split. apply IH.
Qed.

Lemma single_spaced_tidy t : tidy true (single_spaced t).
Proof. apply tidy_join, py_split_words. Qed.

Lemma tidy_firstn : forall n t b, tidy b t -> tidy b (firstn n t).
Proof.
  induction n as [|n IH]; intros t b H; [exact I|].
  destruct t as [|c t]; [exact I|]. simpl in *.
  destruct (is_space c).
  - destruct H as (H1 & H2 & H3). repeat split; auto.
  - apply IH. exact H.
Qed.

(** Splitting what was joined gives the words back. *)
Lemma split_words_word_app w : word w -> forall cur rest,
  split_words cur (w ++ rest) = split_words (rev w ++ cur) rest.
Proof.
  intros [_ Hw]. induction Hw as [|c w Hc Hw IH]; intros cur rest; [reflexivity|].
  simpl. rewrite Hc, IH. rewrite <- app_assoc. reflexivity.
Qed.

Lemma py_split_join ws : Forall word ws -> py_split (join (str " ") ws) = ws.
Proof.
  unfold py_split. induction 1 as [|w ws Hw Hws IH]; [reflexivity|].
  assert (Hne : rev w ++ [] <> []).
  { destruct Hw as [Hne _]. rewrite app_nil_r. intros E.
    apply (f_equal (@List.length char)) in E. rewrite length_rev in E.
    destruct w; [contradiction|discriminate E]. }
  destruct ws as [|w' ws].
  - simpl join. rewrite <- (app_nil_r w) at 1. rewrite (split_words_word_app w Hw).
    simpl. destruct (rev w ++ []) eqn:E; [contradiction|].
    rewrite <- E, app_nil_r, rev_involutive. reflexivity.
  - change (join (str " ") (w :: w' :: ws)) with (w ++ 32%N :: join (str " ") (w' :: ws)).
    rewrite (split_words_word_app w Hw). simpl.
    destruct (rev w ++ []) eqn:E; [contradiction|].
    rewrite <- E, app_nil_r, rev_involutive. f_equal. exact IH.
Qed.

Lemma single_spaced_idempotent t : single_spaced (single_spaced t) = single_spaced t.
Proof.
  unfold single_spaced at 1. unfold single_spaced at 1.
  rewrite py_split_join by apply py_split_words. reflexivity.
Qed.

(** *** Substituting the characters of a class *)

Lemma try_at_cls p pr c sf i :
  try_at (Cls p) pr (c :: sf) i = if p c then Some (RM i (S i) []) else None.
Proof. unfold try_at. simpl. destruct (p c); reflexivity. Qed.

Lemma sub_scan_cls p repl : forall sf pr i,
  sub_scan (Cls p) (fun _ => repl) 0 pr sf i
  = flat_map (fun c => if p c then repl else [c]) sf.
Proof.
  induction sf as [|c sf IH]; intros pr i; [reflexivity|].
  cbn [sub_scan flat_map]. rewrite try_at_cls. destruct (p c).
  - cbn [m_end]. replace (S i =? i) with false by (symmetry; apply Nat.eqb_neq; lia).
    replace (S i - i - 1) with 0 by lia. rewrite IH. reflexivity.
  - rewrite IH. reflexivity.
Qed.

(** *** File names *)

(** X1.  A safe file name has at most 50 characters, each of them a
    letter, a digit, a space or a hyphen; its words are separated by single
    spaces and it does not begin with one. *)
Theorem safe_filename_safe : forall t,
  List.length (safe_filename t) <= 50
  /\ Forall (fun c => filename_char c = true) (safe_filename t)
  /\ tidy true (safe_filename t).
Proof.
  intros t. unfold safe_filename. split; [apply firstn_le_length|]. split.
  - apply Forall_firstn. apply single_spaced_chars; [reflexivity|].
    apply Forall_forall. intros c Hc. apply filter_In in Hc. apply Hc.
  - apply tidy_firstn, single_spaced_tidy.
Qed.

(** X2.  A cleaned query has at most 150 characters; its words are
    separated by single spaces and it does not begin with one. *)
Theorem clean_query_bounded : forall t,
  List.length (clean_query t) <= 150 /\ tidy true (clean_query t).
Proof.
  intros t. unfold clean_query. split; [apply firstn_le_length|].
  apply tidy_firstn, single_spaced_tidy.
Qed.

(** *** Normalised names *)

Lemma lower_not_upper c : is_upper_char (lower_char c) = false.
Proof.
  unfold lower_char. destruct (is_upper_char c) eqn:E; [|exact E].
  apply not_true_is_false. intros F. char_facts.
Qed.

Lemma normalize_text_unfold t :
  normalize_text t
  = single_spaced (flat_map (fun c => if punctuation c then str " " else [c]) (lower t)).
Proof. unfold normalize_text, re_sub. rewrite sub_scan_cls. reflexivity. Qed.

Lemma words_normal (P : char -> Prop) ws :
  Forall word ws -> Forall (Forall P) ws ->
  Forall (Forall (fun c => P c /\ is_space c = false)) ws.
Proof.
  intros Hw Hp. induction Hw as [|w ws [_ Hw] Hws IH]; [constructor|].
  inversion Hp; subst. constructor; [|apply IH; assumption].
  apply Forall_forall. intros c Hc. rewrite Forall_forall in *. auto.
Qed.

Lemma normalize_text_chars t : Forall normal_char (normalize_text t).
Proof.
  rewrite normalize_text_unfold. unfold single_spaced.
  set (u := flat_map _ (lower t)).
  assert (Hu : Forall (fun c => (is_word c || is_space c = true) /\ is_upper_char c = false) u).
  { unfold u. apply Forall_forall. intros c Hc. apply in_flat_map in Hc.
    destruct Hc as (x & Hx & Hc). unfold lower in Hx. apply in_map_iff in Hx.
    destruct Hx as (y & <- & _).
    unfold punctuation, cnot, cor in Hc.
    destruct (is_word (lower_char y) || is_space (lower_char y)) eqn:E; simpl in Hc.
    - destruct Hc as [<-|[]]. split; [exact E|apply lower_not_upper].
    - destruct Hc as [<-|[]]. split; reflexivity. }
  pose proof (words_normal _ (py_split u) (py_split_words u)
                (split_words_chars _ u [] Hu (Forall_nil _))) as Hw.
  apply join_chars.
  - constructor; [left; reflexivity|constructor].
  - eapply Forall_impl; [|exact Hw]. intros w Hcs.
    eapply Forall_impl; [|exact Hcs]. intros c [[H1 H2] H3]. right.
    rewrite H3, orb_false_r in H1. split; assumption.
Qed.

Lemma normal_lower t : Forall normal_char t -> lower t = t.
Proof.
  induction 1 as [|c t Hc Ht IH]; [reflexivity|]. simpl. rewrite IH. f_equal.
  unfold lower_char. destruct Hc as [->|[_ Hu]]; [reflexivity|]. rewrite Hu. reflexivity.
Qed.

Lemma normal_no_punctuation t :
  Forall normal_char t -> flat_map (fun c => if punctuation c then str " " else [c]) t = t.
Proof.
  induction 1 as [|c t Hc Ht IH]; [reflexivity|]. simpl. rewrite IH.
  replace (punctuation c) with false; [reflexivity|].
  unfold punctuation, cnot, cor. destruct Hc as [->|[Hw _]]; [reflexivity|].
  rewrite Hw. reflexivity.
Qed.

(** X3.  Normalising a name a second time changes nothing.  A normalised
    name is in lower case, lowering it again changes nothing; it is made
    of word characters and single spaces, and does not begin with a
    space. *)
Theorem normalize_text_idempotent : forall t,
  normalize_text (normalize_text t) = normalize_text t
  /\ lower (normalize_text t) = normalize_text t
  /\ Forall (fun c => c = 32%N \/ is_word c = true) (normalize_text t)
  /\ tidy true (normalize_text t).
Proof.
  intros t. pose proof (normalize_text_chars t) as Hc.
  split; [|split; [exact (normal_lower _ Hc)|split]].
  - rewrite (normalize_text_unfold (normalize_text t)).
    rewrite (normal_lower _ Hc), (normal_no_punctuation _ Hc).
    rewrite normalize_text_unfold. apply single_spaced_idempotent.
  - eapply Forall_impl; [|exact Hc]. intros c [H|[H _]]; [left; exact H|right; exact H].
  - rewrite normalize_text_unfold. apply single_spaced_tidy.
Qed.

(** *** The passes over a document read the same lines *)

Lemma flat_map_ext_Forall {A B} (f g : A -> list B) l :
  Forall (fun x => f x = g x) l -> flat_map f l = flat_map g l.
Proof. induction 1 as [|x l Hx Hl IH]; simpl; [reflexivity|]. rewrite Hx, IH. reflexivity. Qed.

Lemma flat_map_flat_map {A B C} (f : A -> list B) (g : B -> list C) l :
  flat_map g (flat_map f l) = flat_map (fun x => flat_map g (f x)) l.
Proof.
  induction l as [|x l IH]; simpl; [reflexivity|]. rewrite flat_map_app, IH. reflexivity.
Qed.

(** Two passes that agree on every paragraph element agree on every
    document, when the second is the first followed by [g]. *)
Lemma passes_agree {B C} (f : para_elem -> list B) (g : B -> list C)
    (h : para_elem -> list C)
    (pass1 : element -> list B) (pass2 : element -> list C) :
  (forall pe, h pe = flat_map g (f pe)) ->
  (forall pes, pass1 (Paragraph pes) = flat_map f pes) ->
  (forall pes, pass2 (Paragraph pes) = flat_map h pes) ->
  (forall rows, pass1 (Table rows)
     = flat_map (fun row => flat_map (fun cell => flat_map pass1 cell) row) rows) ->
  (forall rows, pass2 (Table rows)
     = flat_map (fun row => flat_map (fun cell => flat_map pass2 cell) row) rows) ->
  pass1 Other = [] -> pass2 Other = [] ->
  forall el, pass2 el = flat_map g (pass1 el).
Proof.
  intros Hh H1p H2p H1t H2t H1o H2o.
  apply element_induction.
  - intros pes. rewrite H1p, H2p, flat_map_flat_map.
    apply flat_map_ext_Forall, Forall_forall. intros pe _. apply Hh.
  - intros rows IH. rewrite H1t, H2t, flat_map_flat_map.
    apply flat_map_ext_Forall. eapply Forall_impl; [|exact IH].
    intros row Hrow. cbv beta. rewrite flat_map_flat_map.
    apply flat_map_ext_Forall. eapply Forall_impl; [|exact Hrow].
    intros cell Hcell. cbv beta. rewrite flat_map_flat_map.
    apply flat_map_ext_Forall. exact Hcell.
  - rewrite H1o, H2o. reflexivity.
Qed.

Lemma for_each_ext_Forall {A B} (f g : A -> result (list B)) l :
  Forall (fun x => f x = g x) l -> for_each f l = for_each g l.
Proof.
  induction 1 as [|x l Hx Hl IH]; cbn [for_each]; [reflexivity|]. rewrite Hx, IH. reflexivity.
Qed.

Lemma for_each_flat_map {A B C} (f : A -> list B) (g : B -> result (list C)) l :
  for_each g (flat_map f l) = for_each (fun x => for_each g (f x)) l.
Proof.
  induction l as [|x l IH]; cbn [flat_map for_each]; [reflexivity|].
  rewrite for_each_app, IH. reflexivity.
Qed.

(** The same for a second pass that can raise: it raises where [g] raises
    on a line of the first. *)
Lemma passes_agree_each {B C} (f : para_elem -> list B) (g : B -> result (list C))
    (h : para_elem -> result (list C))
    (pass1 : element -> list B) (pass2 : element -> result (list C)) :
  (forall pe, h pe = for_each g (f pe)) ->
  (forall pes, pass1 (Paragraph pes) = flat_map f pes) ->
  (forall pes, pass2 (Paragraph pes) = for_each h pes) ->
  (forall rows, pass1 (Table rows)
     = flat_map (fun row => flat_map (fun cell => flat_map pass1 cell) row) rows) ->
  (forall rows, pass2 (Table rows)
     = for_each (fun row => for_each (fun cell => for_each pass2 cell) row) rows) ->
  pass1 Other = [] -> pass2 Other = Ok [] ->
  forall el, pass2 el = for_each g (pass1 el).
Proof.
  intros Hh H1p H2p H1t H2t H1o H2o.
  apply element_induction.
  - intros pes. rewrite H1p, H2p, for_each_flat_map.
    apply for_each_ext_Forall, Forall_forall. intros pe _. apply Hh.
  - intros rows IH. rewrite H1t, H2t, for_each_flat_map.
    apply for_each_ext_Forall. eapply Forall_impl; [|exact IH].
    intros row Hrow. cbv beta. rewrite for_each_flat_map.
    apply for_each_ext_Forall. eapply Forall_impl; [|exact Hrow].
    intros cell Hcell. cbv beta. rewrite for_each_flat_map.
    apply for_each_ext_Forall. exact Hcell.
  - rewrite H1o, H2o. reflexivity.
Qed.

Lemma style_request_line an pe : style_request an pe = for_each (style_line an) (raw_line pe).
Proof.
  unfold style_request, raw_line, style_line. destruct (content pe) as [c|]; [|reflexivity].
  destruct (strip c) as [|x s]; [reflexivity|].
  destruct (pe_start pe) as [start|]; [|reflexivity].
  cbn [for_each f_text f_start f_end].
  destruct (style_of an _) as [[style|]|e]; reflexivity.
Qed.

Lemma raw_line_doc_line pe : raw_line pe = flat_map raw_of_line (doc_line pe).
Proof.
  unfold raw_line, doc_line, raw_of_line. destruct (content pe) as [c|]; [|reflexivity].
  destruct (strip c) as [|x s]; [reflexivity|].
  destruct (pe_start pe) as [start|]; reflexivity.
Qed.

(** X4.  [format_syllabus] styles the lines that [clean_syllabus] collects, and
    no other: each request covers one collected line, from its start to its
    end, with the style of its normalised text, in the order of the
    document.  It raises, and leaves no request, exactly when the week
    number of one of these lines raises. *)
Theorem format_styles_collected_lines : forall an body,
  format_requests an body = for_each (style_line an) (collect_raw_lines body).
Proof.
  intros an body. unfold format_requests, collect_raw_lines.
  rewrite for_each_flat_map. apply for_each_ext_Forall, Forall_forall. intros el _.
  revert el.
  apply (passes_agree_each raw_line (style_line an) (style_request an)
           collect_raw_lines_in (apply_styles_in an)); try reflexivity.
  apply style_request_line.
Qed.

Lemma raw_lines_of_element el :
  collect_raw_lines_in el = flat_map raw_of_line (get_doc_content_in el).
Proof.
  revert el.
  apply (passes_agree doc_line raw_of_line raw_line
           get_doc_content_in collect_raw_lines_in); try reflexivity.
  apply raw_line_doc_line.
Qed.

(** X5.  The raw lines of [clean_syllabus] are the lines of [get_doc_content]
    that have a start, with their text normalised, in the same order. *)
Theorem raw_lines_of_doc_content : forall body,
  collect_raw_lines body = flat_map raw_of_line (get_doc_content body).
Proof.
  intros body. unfold get_doc_content, collect_raw_lines.
  rewrite flat_map_flat_map. apply flat_map_ext_Forall, Forall_forall. intros el _.
  apply raw_lines_of_element.
Qed.

(** *** The decisions of the merger *)

Lemma app_assoc4 {A} (t a s F : list A) : (t ++ a ++ s) ++ F = t ++ a ++ s ++ F.
Proof. rewrite <- !app_assoc. reflexivity. Qed.

Lemma accepted_snoc an : forall g t f,
  accepted an t g ->
  should_merge_lines an (t ++ fold_right (fun x acc => str " " ++ strip (f_text x) ++ acc) [] g)
                     (strip (f_text f)) = Ok true ->
  accepted an t (g ++ [f]).
Proof.
  induction g as [|x g IH]; intros t f Hg Hf.
  - cbn [fold_right] in Hf. rewrite app_nil_r in Hf. split; [exact Hf|exact I].
  - cbn [fold_right] in Hf. destruct Hg as [Hx Hg].
    change ((x :: g) ++ [f]) with (x :: (g ++ [f])). split; [exact Hx|].
    apply IH; [exact Hg|]. rewrite app_assoc4. exact Hf.
Qed.

Lemma joined_fold : forall g f,
  joined (f :: g)
  = strip (f_text f) ++ fold_right (fun x acc => str " " ++ strip (f_text x) ++ acc) [] g.
Proof.
  induction g as [|x g IH]; intros f.
  - unfold joined. simpl. rewrite app_nil_r. reflexivity.
  - unfold joined in *. cbn [map]. cbn [map] in IH.
    change (join (str " ") (strip (f_text f) :: strip (f_text x) :: map (fun f0 => strip (f_text f0)) g))
      with (strip (f_text f) ++ str " " ++ join (str " ") (strip (f_text x) :: map (fun f0 => strip (f_text f0)) g)).
    rewrite (IH x). reflexivity.
Qed.

Lemma glued_snoc an g cur f :
  unit_of g cur -> glued an g ->
  should_merge_lines an (u_full_text cur) (strip (f_text f)) = Ok true ->
  glued an (g ++ [f]).
Proof.
  intros (Hne & Hfull & _) Hg Hf. destruct g as [|x g]; [contradiction|].
  simpl in *. apply accepted_snoc; [exact Hg|].
  rewrite <- joined_fold, <- Hfull. exact Hf.
Qed.

Lemma merge_step_decisions an seen acc item :
  merge_decisions an seen acc ->
  match merge_step an acc item with
  | Ok acc' => merge_decisions an (seen ++ [item]) acc'
  | Raise e => e = IndexError /\ blank_name an
  end.
Proof.
  intros (gs & g & Hcat & Hgs & Hgl & Hg & Hcur).
  destruct (merge_step an acc item) as [acc'|e] eqn:Estep;
    [|eapply merge_step_raises; exact Estep].
  destruct acc as [merged current].
  unfold merge_step in Estep. unfold merge_decisions. rewrite kept_snoc. unfold blank.
  destruct (strip (f_text item)) as [|c t'] eqn:Hst.
  - inversion Estep; subst. exists gs, g. rewrite app_nil_r. auto.
  - assert (Hb : blank item = false) by (unfold blank; rewrite Hst; reflexivity).
    simpl in Hgs, Hcur. destruct current as [cur|]; [|inversion Estep; subst].
    + destruct (should_merge_lines an (u_full_text cur) (c :: t')) as [merge|e] eqn:Hm;
        cbn [bind] in Estep; [|discriminate].
      destruct merge; inversion Estep; subst.
      * exists gs, (g ++ [item]). split; [|split; [|split; [|split]]].
        -- rewrite <- Hcat. rewrite !app_assoc. reflexivity.
        -- exact Hgs.
        -- exact Hgl.
        -- apply (glued_snoc an g cur item Hcur Hg). rewrite Hst. exact Hm.
        -- cbn [snd]. rewrite <- Hst. apply unit_of_extend. exact Hcur.
      * exists (gs ++ [g]), [item]. split; [|split; [|split; [|split]]].
        -- rewrite concat_app. simpl. rewrite app_nil_r, <- Hcat. reflexivity.
        -- cbn [fst]. apply Forall2_snoc; assumption.
        -- apply Forall_app. split; [exact Hgl|constructor; [exact Hg|constructor]].
        -- exact I.
        -- cbn [snd]. rewrite <- Hst. apply unit_of_start. exact Hb.
    + destruct Hcur as [-> ->]. exists [], [item]. split; [|split; [|split; [|split]]].
      * simpl in *. rewrite <- Hcat. reflexivity.
      * exact Hgs.
      * constructor.
      * exact I.
      * cbn [snd]. rewrite <- Hst. apply unit_of_start. exact Hb.
Qed.

Lemma merge_loop_decisions an : forall lines seen acc,
  merge_decisions an seen acc ->
  match fold_each (merge_step an) lines acc with
  | Ok acc' => merge_decisions an (seen ++ lines) acc'
  | Raise e => e = IndexError /\ blank_name an
  end.
Proof.
  apply (fold_each_invariant (merge_step an) (merge_decisions an)
           (fun e => e = IndexError /\ blank_name an)).
  intros seen acc item. apply merge_step_decisions.
Qed.

Lemma merge_decided an lines :
  match merge_fragmented_lines an lines with
  | Ok units =>
      exists groups,
        concat groups = kept lines
        /\ Forall2 unit_of groups units
        /\ Forall (glued an) groups
  | Raise e => e = IndexError /\ blank_name an
  end.
Proof.
  assert (H0 : merge_decisions an [] ([], None)).
  { exists [], []. simpl. repeat split; constructor. }
  apply (merge_loop_decisions an lines) in H0. simpl in H0.
  unfold merge_fragmented_lines.
  destruct (fold_each (merge_step an) lines ([], None)) as [[merged current]|e];
    cbn [bind]; [|exact H0].
  destruct H0 as (gs & g & Hcat & Hgs & Hgl & Hg & Hcur). simpl in Hgs, Hcur.
  destruct current as [cur|].
  - exists (gs ++ [g]). split; [|split].
    + rewrite concat_app. simpl. rewrite app_nil_r. exact Hcat.
    + apply Forall2_snoc; assumption.
    + apply Forall_app. split; [exact Hgl|constructor; [exact Hg|constructor]].
  - destruct Hcur as [-> ->]. exists []. split; [exact Hcat|]. split; [exact Hgs|constructor].
Qed.

Lemma citation_refused an prev next :
  opens_citation next = true -> should_merge_lines an prev next = Ok false.
Proof.
  intros H. unfold should_merge_lines. unfold opens_citation in H. rewrite H. reflexivity.
Qed.

Lemma accepted_no_citation an : forall g t,
  accepted an t g -> Forall (fun f => opens_citation (strip (f_text f)) = false) g.
Proof.
  induction g as [|f g IH]; intros t H; [constructor|].
  destruct H as [Hf Hg]. constructor; [|eapply IH; exact Hg].
  destruct (opens_citation (strip (f_text f))) eqn:E; [|reflexivity].
  rewrite (citation_refused an t _ E) in Hf. discriminate Hf.
Qed.

(** X6.  A line that opens with a citation, an author and a year in
    parentheses with or without an initial between them, is never merged
    into the line before it: in the partition of the kept fragments into
    the groups of the merged units, such a fragment is the first of its
    group.  The merger returns these units unless it raises [IndexError],
    which it does only for an analyzer that reports a first person name of
    white space alone. *)
Theorem citation_starts_a_unit : forall an lines,
  match merge_fragmented_lines an lines with
  | Ok units =>
      exists groups,
        concat groups = kept lines
        /\ Forall2 unit_of groups units
        /\ Forall (fun g => Forall (fun f => opens_citation (strip (f_text f)) = false)
                                   (tl g))
                  groups
  | Raise e => e = IndexError /\ blank_name an
  end.
Proof.
  intros an lines. pose proof (merge_decided an lines) as Hd.
  destruct (merge_fragmented_lines an lines) as [units|e]; [|exact Hd].
  destruct Hd as (groups & H1 & H2 & H3).
  exists groups. split; [exact H1|]. split; [exact H2|].
  eapply Forall_impl; [|exact H3]. intros g Hg.
  destruct g as [|f g]; [constructor|]. simpl in *. eapply accepted_no_citation. exact Hg.
Qed.

(** *** The merger on the lines of a document *)

Lemma collected_stripped body :
  Forall (fun f => strip (f_text f) = f_text f) (collect_raw_lines body).
Proof.
  apply Forall_forall. intros f Hf. unfold collect_raw_lines in Hf.
  apply in_flat_map in Hf. destruct Hf as (el & _ & Hf).
  rewrite raw_lines_of_element in Hf.
  apply in_flat_map in Hf. destruct Hf as ([[t s] e] & _ & Hf).
  destruct s as [s|]; [|contradiction]. destruct Hf as [<-|[]]. simpl.
  apply normalize_stripped.
Qed.

Lemma In_concat_kept (groups : list (list fragment)) lines g f :
  concat groups = kept lines -> In g groups -> In f g -> In f lines.
Proof.
  intros Hc Hg Hf.
  assert (Hin : In f (kept lines)).
  { rewrite <- Hc. apply in_concat. exists g. split; assumption. }
  unfold kept in Hin. apply filter_In in Hin. apply Hin.
Qed.

(** X7.  On the lines that [clean_syllabus] collects, the merger drops no
    character: the lines whose text is not empty are cut, in their order,
    into groups, one for each merged unit in turn, and the full text of a
    unit is the texts of its lines, as collected, joined by single
    spaces.  The merger returns these units unless it raises
    [IndexError], which it does only for an analyzer that reports a first
    person name of white space alone. *)
Theorem merge_keeps_collected_text : forall an body,
  match merge_fragmented_lines an (collect_raw_lines body) with
  | Ok units =>
      exists groups,
        concat groups
          = filter (fun f => match f_text f with [] => false | _ => true end)
                   (collect_raw_lines body)
        /\ Forall2 unit_of_lines groups units
  | Raise e => e = IndexError /\ blank_name an
  end.
Proof.
  intros an body. pose proof (collected_stripped body) as Hs.
  pose proof (merge_decided an (collect_raw_lines body)) as Hd.
  destruct (merge_fragmented_lines an (collect_raw_lines body)) as [units|e]; [|exact Hd].
  destruct Hd as (groups & H1 & H2 & _).
  exists groups. split.
  - rewrite H1. unfold kept. apply filter_ext_in. intros f Hf.
    rewrite Forall_forall in Hs. unfold blank. rewrite (Hs f Hf).
    destruct (f_text f); reflexivity.
  - assert (Hg : Forall (fun g => Forall (fun f => strip (f_text f) = f_text f) g) groups).
    { apply Forall_forall. intros g Hg. apply Forall_forall. intros f Hf.
      rewrite Forall_forall in Hs. apply Hs. eapply In_concat_kept; eassumption. }
    clear H1. induction H2 as [|g u gs us Hgu Hrest IH]; [constructor|].
    inversion Hg; subst. constructor; [|apply IH; assumption].
    destruct Hgu as (Hne & Hfull & Hst & He). repeat split; auto.
    rewrite Hfull. unfold joined. f_equal.
    apply map_ext_in. intros f Hf. rewrite Forall_forall in H1. apply H1. exact Hf.
Qed.

(** *** Batches *)

Lemma range_step_count size n :
  0 < size -> 0 < n -> (n + size - 1) / size = S ((n - size + size - 1) / size).
Proof.
  intros Hs Hn. destruct (Nat.le_gt_cases size n) as [Hle|Hlt].
  - replace (n + size - 1) with ((n - size + size - 1) + 1 * size) by lia.
    rewrite Nat.div_add by lia. lia.
  - replace (n - size + size - 1) with (size - 1) by lia.
    rewrite (Nat.div_small (size - 1)) by lia.
    symmetry. apply (Nat.div_unique _ _ 1 (n - 1)); lia.
Qed.

Lemma batches_nil {A} size : 0 < size -> batches size (@nil A) = [].
Proof.
  intros Hs. unfold batches, range_step. simpl List.length.
  replace (0 + size - 1) with (size - 1) by lia.
  rewrite Nat.div_small by lia. reflexivity.
Qed.

Lemma batches_step {A} size (l : list A) :
  0 < size -> l <> [] ->
  batches size l = firstn size l :: batches size (skipn size l).
Proof.
  intros Hs Hl. unfold batches, range_step.
  assert (Hn : 0 < List.length l) by (destruct l; [congruence|simpl; lia]).
  rewrite (range_step_count size (List.length l) Hs Hn).
  rewrite length_skipn.
  cbn [List.seq map]. rewrite Nat.mul_0_l. cbn [skipn]. f_equal.
  rewrite <- seq_shift, !map_map. apply map_ext. intros k.
  rewrite skipn_skipn. f_equal. f_equal. lia.
Qed.

Lemma batches_ind {A} (P : list A -> list (list A) -> Prop) size :
  0 < size ->
  P [] [] ->
  (forall l, l <> [] -> P (skipn size l) (batches size (skipn size l)) ->
             P l (firstn size l :: batches size (skipn size l))) ->
  forall l, P l (batches size l).
Proof.
  intros Hs Hnil Hstep l.
  remember (List.length l) as n eqn:Hn. revert l Hn.
  induction n as [n IH] using lt_wf_ind. intros l Hn.
  destruct l as [|a l'].
  - rewrite batches_nil by exact Hs. exact Hnil.
  - rewrite batches_step by (exact Hs || discriminate).
    apply Hstep; [discriminate|].
    apply (IH (List.length (skipn size (a :: l')))); [|reflexivity].
    rewrite length_skipn. subst n. cbn [List.length]. lia.
Qed.

(** X8.  The batches in which the requests are sent, [size] at a time
    with [size] positive, are the requests themselves: concatenated they
    give the list back, in its order, no batch is empty and none is longer
    than [size]. *)
Theorem batches_lose_nothing : forall (size : nat) (requests : list request),
  0 < size ->
  concat (batches size requests) = requests
  /\ Forall (fun batch => 0 < List.length batch <= size) (batches size requests).
Proof.
  intros size requests Hs.
  apply (batches_ind (fun l bs => concat bs = l
                                  /\ Forall (fun b => 0 < List.length b <= size) bs) size Hs).
  - split; [reflexivity|constructor].
  - intros l Hl [IHc IHf]. split.
    + cbn [concat]. rewrite IHc. apply firstn_skipn.
    + constructor; [|exact IHf]. rewrite length_firstn.
      destruct l; [congruence|]. simpl List.length. lia.
Qed.

Lemma batches_lose_nothing_example :
  concat (batches 2 [InsertText 5 (str " "); InsertText 3 (str " "); InsertText 1 (str " ")])
  = [InsertText 5 (str " "); InsertText 3 (str " "); InsertText 1 (str " ")]
  /\ Forall (fun batch => 0 < List.length batch <= 2)
            (batches 2 [InsertText 5 (str " "); InsertText 3 (str " "); InsertText 1 (str " ")]).
Proof.
  apply (batches_lose_nothing 2
           [InsertText 5 (str " "); InsertText 3 (str " "); InsertText 1 (str " ")]).
  lia.
Defined.

(** *** The requests that merge lines *)

Lemma merges_in_doc_raises an previous current e :
  merges_in_doc an previous current = Raise e -> e = IndexError /\ blank_name an.
Proof.
  unfold merges_in_doc.
  destruct (df_text_stripped current); [discriminate|].
  destruct (df_text_stripped previous); [discriminate|].
  destruct (is_incomplete_line an _); cbn [bind]; [|discriminate].
  destruct (is_continuation_line an _) as [b|e'] eqn:E; cbn [bind]; [discriminate|].
  intros H. inversion H; subst. eapply is_continuation_line_raises. exact E.
Qed.

Lemma merge_requests_for_pair an pair :
  match merge_requests_for an pair with
  | Ok rs => rs = [] \/ exists b, rs = merge_pair b /\ (0 < fst b < snd b)%Z
  | Raise e => e = IndexError /\ blank_name an
  end.
Proof.
  unfold merge_requests_for. destruct pair as [previous current].
  destruct (merges_in_doc an previous current) as [should_merge|e] eqn:Em; cbn [bind];
    [|eapply merges_in_doc_raises; exact Em].
  destruct should_merge; [|left; reflexivity].
  destruct ((_ <? _)%Z && _) eqn:E; [|left; reflexivity].
  right. apply andb_true_iff in E. destruct E as [E1 E2].
  apply Z.ltb_lt in E1. apply Z.ltb_lt in E2.
  exists ((Z.of_nat (df_end previous) - 1)%Z, Z.of_nat (df_start current)).
  split; [reflexivity|]. cbn [fst snd]. lia.
Qed.

Lemma merge_requests_paired an : forall pairs,
  match for_each (fun pair => rs <- merge_requests_for an pair ;; Ok [rs]) pairs with
  | Ok plan =>
      exists breaks,
        concat plan = flat_map merge_pair breaks
        /\ Forall (fun b => (0 < fst b < snd b)%Z) breaks
        /\ List.length (filter (fun rs => match rs with [] => false | _ => true end) plan)
           = List.length breaks
  | Raise e => e = IndexError /\ blank_name an
  end.
Proof.
  induction pairs as [|p pairs IH]; cbn [for_each].
  - exists []. repeat split. constructor.
  - pose proof (merge_requests_for_pair an p) as Hp.
    destruct (merge_requests_for an p) as [rs|e]; cbn [bind]; [|exact Hp].
    destruct (for_each _ pairs) as [plan|e]; cbn [bind]; [|exact IH].
    destruct IH as (breaks & IH1 & IH2 & IH3). cbn [app concat filter].
    destruct Hp as [->|(b & -> & Hb)].
    + exists breaks. repeat split; assumption.
    + exists (b :: breaks). cbn [flat_map]. rewrite IH1. repeat split.
      * constructor; assumption.
      * unfold merge_pair at 1. cbn [List.length]. rewrite IH3. reflexivity.
Qed.

Lemma flat_map_pair_firstn k : forall breaks,
  firstn (2 * k) (flat_map merge_pair breaks) = flat_map merge_pair (firstn k breaks).
Proof.
  induction k as [|k IH]; intros breaks; [reflexivity|].
  destruct breaks as [|b breaks]; [reflexivity|].
  replace (2 * S k) with (S (S (2 * k))) by lia.
  cbn [flat_map firstn merge_pair app]. rewrite IH. reflexivity.
Qed.

Lemma flat_map_pair_skipn k : forall breaks,
  skipn (2 * k) (flat_map merge_pair breaks) = flat_map merge_pair (skipn k breaks).
Proof.
  induction k as [|k IH]; intros breaks; [reflexivity|].
  destruct breaks as [|b breaks]; [reflexivity|].
  replace (2 * S k) with (S (S (2 * k))) by lia.
  cbn [flat_map skipn merge_pair app]. rewrite IH. reflexivity.
Qed.

Lemma Forall_take {A} (P : A -> Prop) n : forall l, Forall P l -> Forall P (firstn n l).
Proof.
  induction n as [|n IH]; intros l H; [constructor|].
  destruct H; [constructor|]. simpl. constructor; auto.
Qed.

Lemma Forall_drop {A} (P : A -> Prop) n : forall l, Forall P l -> Forall P (skipn n l).
Proof.
  induction n as [|n IH]; intros l H; [exact H|].
  destruct H; [constructor|]. simpl. auto.
Qed.

Lemma batches_paired k : 0 < k -> forall rs, paired rs -> Forall paired (batches (2 * k) rs).
Proof.
  intros Hk rs.
  apply (batches_ind (fun l bs => paired l -> Forall paired bs) (2 * k)); [lia| |].
  - intros _. constructor.
  - intros l _ IH (breaks & -> & Hb). constructor.
    + exists (firstn k breaks). split; [apply flat_map_pair_firstn|].
      apply Forall_take. exact Hb.
    + apply IH. exists (skipn k breaks). split; [apply flat_map_pair_skipn|].
      apply Forall_drop. exact Hb.
Qed.

(** X9.  The requests that merge the lines of a document come in pairs, a
    deletion of a break and the insertion of a space where the break
    started; every break starts after index 0 and is not empty, the count
    returned is the number of pairs, and the batches of 20 in which the
    requests are sent never separate a deletion from its insertion.  The
    requests are built unless [is_continuation_line] raises [IndexError],
    which it does only for an analyzer that reports a first person name of
    white space alone. *)
Theorem merge_requests_in_pairs : forall an body,
  match merge_requests an body with
  | Ok requests =>
      exists breaks : list (Z * Z),
        requests = flat_map merge_pair breaks
        /\ Forall (fun b => (0 < fst b < snd b)%Z) breaks
        /\ merge_count an body = Ok (List.length breaks)
        /\ Forall paired (batches 20 requests)
  | Raise e => e = IndexError /\ blank_name an
  end.
Proof.
  intros an body. unfold merge_requests, merge_count, merge_plan.
  pose proof (merge_requests_paired an (rev (adjacent (collect_lines body)))) as H.
  destruct (for_each _ (rev (adjacent (collect_lines body)))) as [plan|e]; cbn [bind];
    [|exact H].
  destruct H as (breaks & H1 & H2 & H3).
  exists breaks. split; [exact H1|]. split; [exact H2|]. split; [rewrite H3; reflexivity|].
  apply (batches_paired 10); [lia|]. exists breaks. split; assumption.
Qed.

(** *** Requests run from the end of the document backwards *)

Lemma pairwise_app {A} (R : A -> A -> Prop) : forall l1 l2,
  pairwise R l1 -> pairwise R l2 ->
  (forall x y, In x l1 -> In y l2 -> R x y) ->
  pairwise R (l1 ++ l2).
Proof.
  induction l1 as [|a l1 IH]; intros l2 H1 H2 H; [exact H2|].
  destruct H1 as [Ha H1]. cbn [app pairwise]. split.
  - apply Forall_app. split; [exact Ha|].
    apply Forall_forall. intros y Hy. apply H; [left; reflexivity|exact Hy].
  - apply IH; [exact H1|exact H2|]. intros x y Hx Hy. apply H; [right; exact Hx|exact Hy].
Qed.

Lemma pairwise_rev {A} (R : A -> A -> Prop) : forall l,
  pairwise R l -> pairwise (fun x y => R y x) (rev l).
Proof.
  induction l as [|a l IH]; intros H; [exact I|].
  destruct H as [Ha H]. cbn [rev]. apply pairwise_app.
  - apply IH. exact H.
  - split; [constructor|exact I].
  - intros x y Hx [<-|[]]. apply in_rev in Hx.
    rewrite Forall_forall in Ha. apply Ha. exact Hx.
Qed.

Lemma pairwise_flat_map {A B} (R : A -> A -> Prop) (S : B -> B -> Prop) (g : A -> list B) :
  (forall x, pairwise S (g x)) ->
  (forall x y u v, R x y -> In u (g x) -> In v (g y) -> S u v) ->
  forall l, pairwise R l -> pairwise S (flat_map g l).
Proof.
  intros Hg HR. induction l as [|a l IH]; intros H; [exact I|].
  destruct H as [Ha H]. cbn [flat_map]. apply pairwise_app.
  - apply Hg.
  - apply IH. exact H.
  - intros u v Hu Hv. apply in_flat_map in Hv. destruct Hv as (y & Hy & Hv).
    rewrite Forall_forall in Ha. exact (HR a y u v (Ha y Hy) Hu Hv).
Qed.

Lemma adjacent_In {A} : forall (l : list A) x y, In (x, y) (adjacent l) -> In x l /\ In y l.
Proof.
  induction l as [|a [|b l] IH]; intros x y H; [destruct H|destruct H|].
  change (adjacent (a :: b :: l)) with ((a, b) :: adjacent (b :: l)) in H.
  destruct H as [H|H].
  - inversion H; subst. split; [left; reflexivity|right; left; reflexivity].
  - destruct (IH x y H) as [Hx Hy]. split; right; assumption.
Qed.

Lemma in_order_after : forall l a n,
  in_document_order (a :: l) -> n <= df_start a ->
  Forall (fun x => n < df_end x) (a :: l).
Proof.
  induction l as [|b l IH]; intros a n (Ha & Hab & Hl) Hn.
  - constructor; [lia|constructor].
  - constructor; [lia|]. apply IH; [exact Hl|lia].
Qed.

Lemma adjacent_in_order : forall l,
  in_document_order l ->
  pairwise (fun p q => df_start (snd p) < df_end (fst q)) (adjacent l).
Proof.
  induction l as [|a [|b l] IH]; intros H; [exact I|exact I|].
  change (adjacent (a :: b :: l)) with ((a, b) :: adjacent (b :: l)).
  destruct H as (Ha & Hab & Hl). split; [|apply IH; exact Hl].
  apply Forall_forall. intros [x y] Hin. cbn [fst snd].
  apply adjacent_In in Hin. destruct Hin as [Hx _].
  pose proof (in_order_after l b (df_start b) Hl (Nat.le_refl _)) as Hf.
  rewrite Forall_forall in Hf. exact (Hf x Hx).
Qed.

Lemma deleted_range_of an p rs u :
  merge_requests_for an p = Ok rs ->
  In u (deleted_ranges rs) ->
  u = ((Z.of_nat (df_end (fst p)) - 1)%Z, Z.of_nat (df_start (snd p))).
Proof.
  unfold merge_requests_for. destruct p as [previous current].
  destruct (merges_in_doc an previous current) as [[|]|e]; cbn [bind];
    [|intros H; inversion H; subst; intros []|discriminate].
  destruct ((_ <? _)%Z && _); intros H; inversion H; subst; [|intros []].
  cbn. intros [<-|[]]. reflexivity.
Qed.

Lemma deleted_ranges_single an p rs :
  merge_requests_for an p = Ok rs ->
  pairwise (fun earlier later : Z * Z => (snd later <= fst earlier)%Z) (deleted_ranges rs).
Proof.
  unfold merge_requests_for. destruct p as [previous current].
  destruct (merges_in_doc an previous current) as [[|]|e]; cbn [bind];
    [|intros H; inversion H; subst; exact I|discriminate].
  destruct ((_ <? _)%Z && _); intros H; inversion H; subst; [|exact I].
  cbn. split; [constructor|exact I].
Qed.

(** A plan that was built holds, for each pair in turn, the requests of
    the pair. *)
Lemma merge_plan_pairs an : forall pairs plan,
  for_each (fun pair => rs <- merge_requests_for an pair ;; Ok [rs]) pairs = Ok plan ->
  Forall2 (fun pair rs => merge_requests_for an pair = Ok rs) pairs plan.
Proof.
  induction pairs as [|p pairs IH]; intros plan H; cbn [for_each] in H.
  - inversion H; subst. constructor.
  - destruct (merge_requests_for an p) as [rs|e] eqn:Ep; cbn [bind] in H; [|discriminate].
    destruct (for_each _ pairs) as [plan'|e]; cbn [bind] in H; [|discriminate].
    inversion H; subst. cbn [app]. constructor; [exact Ep|]. apply IH. reflexivity.
Qed.

Lemma Forall2_In_right {A B} (R : A -> B -> Prop) l l' b :
  Forall2 R l l' -> In b l' -> exists a, In a l /\ R a b.
Proof.
  induction 1 as [|x y l l' Hxy Hrest IH]; intros Hb; [destruct Hb|].
  destruct Hb as [<-|Hb]; [exists x; split; [left; reflexivity|exact Hxy]|].
  destruct (IH Hb) as (a & Ha & Hab). exists a. split; [right; exact Ha|exact Hab].
Qed.

Lemma pairwise_plan {A} (R : A -> A -> Prop) (S : Z * Z -> Z * Z -> Prop)
    (made : A -> list request -> Prop) :
  (forall p rs, made p rs -> pairwise S (deleted_ranges rs)) ->
  (forall p q rp rq u v, R p q -> made p rp -> made q rq ->
     In u (deleted_ranges rp) -> In v (deleted_ranges rq) -> S u v) ->
  forall pairs plan, Forall2 made pairs plan -> pairwise R pairs ->
  pairwise S (deleted_ranges (concat plan)).
Proof.
  intros Hone Htwo. induction 1 as [|p rs pairs plan Hp Hrest IH]; intros Hpw; [exact I|].
  destruct Hpw as [Hhead Htail]. cbn [concat]. unfold deleted_ranges in *.
  rewrite flat_map_app. apply pairwise_app; [apply (Hone p rs Hp)|apply IH; exact Htail|].
  intros u v Hu Hv. apply in_flat_map in Hv. destruct Hv as (r & Hr & Hv).
  apply in_concat in Hr. destruct Hr as (rq & Hrq & Hr).
  destruct (Forall2_In_right _ _ _ _ Hrest Hrq) as (q & Hq & Hmade).
  rewrite Forall_forall in Hhead.
  apply (Htwo p q rs rq u v (Hhead q Hq) Hp Hmade Hu).
  apply in_flat_map. exists r. split; assumption.
Qed.

(** X10.  When the lines of a document are in the order of their indexes,
    the line breaks that [merge_fragmented_lines_in_doc] deletes are
    listed from the end of the document backwards and do not overlap:
    every range ends at or before the start of each range deleted before
    it, so no request moves the text that a later request refers to.  The
    requests are built unless [is_continuation_line] raises [IndexError],
    which it does only for an analyzer that reports a first person name of
    white space alone. *)
Theorem merge_requests_run_backwards : forall an body,
  in_document_order (collect_lines body) ->
  match merge_requests an body with
  | Ok requests =>
      pairwise (fun earlier later => (snd later <= fst earlier)%Z) (deleted_ranges requests)
  | Raise e => e = IndexError /\ blank_name an
  end.
Proof.
  intros an body Hord. unfold merge_requests, merge_plan.
  pose proof (merge_requests_paired an (rev (adjacent (collect_lines body)))) as Hr.
  destruct (for_each _ (rev (adjacent (collect_lines body)))) as [plan|e] eqn:E; cbn [bind];
    [clear Hr|exact Hr].
  apply merge_plan_pairs in E.
  apply (pairwise_plan (fun p q => df_start (snd q) < df_end (fst p)) _
           (fun pair rs => merge_requests_for an pair = Ok rs)
           (deleted_ranges_single an)) with (pairs := rev (adjacent (collect_lines body))).
  - intros p q rp rq u v Hpq Hp Hq Hu Hv.
    apply (deleted_range_of an p rp) in Hu; [|exact Hp].
    apply (deleted_range_of an q rq) in Hv; [|exact Hq].
    subst u v. cbn [fst snd]. lia.
  - exact E.
  - apply (pairwise_rev (fun p q => df_start (snd p) < df_end (fst q))).
    apply adjacent_in_order. exact Hord.
Qed.

Lemma merge_requests_run_backwards_example :
  in_document_order (collect_lines fragmented_document)
  /\ exists requests,
       merge_requests None fragmented_document = Ok requests
       /\ pairwise (fun earlier later => (snd later <= fst earlier)%Z)
                   (deleted_ranges requests).
Proof.
  assert (H : in_document_order (collect_lines fragmented_document))
    by (vm_compute; repeat split; lia).
  split; [exact H|].
  pose proof (merge_requests_run_backwards None fragmented_document H) as T.
  destruct (merge_requests None fragmented_document) as [requests|e] eqn:E.
  - exists requests. split; [reflexivity|exact T].
  - exfalso. vm_compute in E. discriminate E.
Defined.

(** *** The line breaks that split a paragraph *)

Lemma find_split_points_increasing t : increasing (find_split_points t).
Proof.
  unfold find_split_points.
  destruct (gap_filter_spaced (sorted_set (split_candidates t)) (-30)%Z) as [Hs _].
  eapply spaced_increasing; [|exact Hs]. lia.
Qed.

Lemma find_split_points_range t p : In p (find_split_points t) -> 10 < p <= List.length t.
Proof.
  unfold find_split_points. intros Hp.
  apply split_candidates_range. apply sorted_set_In. eapply gap_filter_In. exact Hp.
Qed.

Lemma increasing_pairwise : forall l, increasing l -> pairwise lt l.
Proof.
  induction l as [|a l IH]; intros H; [exact I|].
  split; [apply increasing_lower_bound; exact H|].
  apply IH. destruct l; [exact I|]. apply H.
Qed.

Lemma pairwise_map {A B} (R : A -> A -> Prop) (S : B -> B -> Prop) (f : A -> B) :
  (forall x y, R x y -> S (f x) (f y)) ->
  forall l, pairwise R l -> pairwise S (map f l).
Proof.
  intros H. induction l as [|a l IH]; intros Hl; [exact I|].
  destruct Hl as [Ha Hl]. cbn [map]. split; [|apply IH; exact Hl].
  apply Forall_map. eapply Forall_impl; [|exact Ha]. intros y. apply H.
Qed.

Lemma paragraphs_after : forall l a n,
  paragraphs_in_order (a :: l) -> n <= snd a ->
  Forall (fun x => n <= snd x) (a :: l).
Proof.
  induction l as [|b l IH]; intros a n (Hab & Hl) Hn.
  - constructor; [lia|constructor].
  - constructor; [lia|]. apply IH; [exact Hl|lia].
Qed.

Lemma paragraphs_pairwise : forall l,
  paragraphs_in_order l ->
  pairwise (fun p q => snd p + List.length (fst p) <= snd q) l.
Proof.
  induction l as [|a l IH]; intros H; [exact I|].
  destruct H as (Hab & Hl). split; [|apply IH; exact Hl].
  destruct l as [|b l]; [constructor|].
  apply (paragraphs_after l b _ Hl Hab).
Qed.

Lemma inserted_at_split para :
  inserted_at (split_requests_for para)
  = map (fun local_pos => Z.of_nat (snd para + local_pos)) (rev (find_split_points (fst para))).
Proof.
  unfold split_requests_for, inserted_at. destruct para as [t base]. cbn [fst snd].
  induction (rev (find_split_points t)) as [|p l IH]; [reflexivity|].
  cbn [map flat_map app]. rewrite IH. reflexivity.
Qed.

(** X11.  When the paragraphs of a document are in the order of their
    indexes, the line breaks that [split_concatenated_lines_in_doc]
    inserts are listed at strictly decreasing indexes: every insertion
    lies before all the insertions requested before it, so none of them
    moves the place of a later one. *)
Theorem split_requests_run_backwards : forall body,
  paragraphs_in_order (collect_paragraphs body) ->
  pairwise (fun earlier later => (later < earlier)%Z) (inserted_at (split_requests body)).
Proof.
  intros body Hord. unfold split_requests, inserted_at.
  rewrite flat_map_flat_map.
  apply (pairwise_flat_map (fun p q : text * nat => snd q + List.length (fst q) <= snd p)
           _ (fun para => inserted_at (split_requests_for para))).
  - intros para. rewrite inserted_at_split.
    apply (pairwise_map (fun x y => y < x)); [intros x y Hxy; lia|].
    apply (pairwise_rev lt). apply increasing_pairwise. apply find_split_points_increasing.
  - intros p q u v Hpq Hu Hv. rewrite inserted_at_split in Hu, Hv.
    apply in_map_iff in Hu. destruct Hu as (x & <- & Hx).
    apply in_map_iff in Hv. destruct Hv as (y & <- & Hy).
    apply in_rev in Hx. apply in_rev in Hy.
    apply find_split_points_range in Hx. apply find_split_points_range in Hy. lia.
  - apply (pairwise_rev (fun p q : text * nat => snd p + List.length (fst p) <= snd q)).
    apply paragraphs_pairwise. exact Hord.
Qed.

Lemma split_requests_run_backwards_example :
  paragraphs_in_order (collect_paragraphs concatenated_document)
  /\ pairwise (fun earlier later => (later < earlier)%Z)
              (inserted_at (split_requests concatenated_document)).
Proof.
  assert (H : paragraphs_in_order (collect_paragraphs concatenated_document))
    by (vm_compute; repeat split; lia).
  split; [exact H|]. apply (split_requests_run_backwards concatenated_document H).
Defined.

(** *** The readings of the Drive folder *)

Lemma fold_left_invariant {A B} (I : A -> Prop) (f : A -> B -> A) : forall l,
  Forall (fun x => forall st, I st -> I (f st x)) l ->
  forall st, I st -> I (fold_left f l st).
Proof.
  induction 1 as [|x l Hx Hl IH]; intros st Hst; [exact Hst|].
  cbn [fold_left]. apply IH. apply Hx. exact Hst.
Qed.

Lemma fold_each_keeps {A S} (I : S -> Prop) (Q : exn -> Prop) (f : S -> A -> result S) :
  forall l,
  Forall (fun x => forall st, I st ->
            match f st x with Ok st' => I st' | Raise e => Q e end) l ->
  forall st, I st -> match fold_each f l st with Ok st' => I st' | Raise e => Q e end.
Proof.
  induction 1 as [|x l Hx Hl IH]; intros st Hst; [exact Hst|].
  cbn [fold_each]. specialize (Hx st Hst).
  destruct (f st x) as [st'|e]; cbn [bind]; [apply IH; exact Hx|exact Hx].
Qed.

(** What every paragraph element keeps, the pass over a document keeps;
    the pass raises what a paragraph element raises. *)
Lemma process_elements_invariant an (I : Z * list (text * (Z * text)) -> Prop)
    (Q : exn -> Prop) :
  (forall st pe, I st ->
     match process_run an st pe with Ok st' => I st' | Raise e => Q e end) ->
  forall body st, I st ->
    match fold_each (process_elements_in an) body st with
    | Ok st' => I st'
    | Raise e => Q e
    end.
Proof.
  intros Hrun.
  assert (Hel : forall el st, I st ->
            match process_elements_in an st el with Ok st' => I st' | Raise e => Q e end).
  { induction el as [pes|rows IH|] using element_induction; intros st Hst.
    - cbn [process_elements_in]. apply fold_each_keeps; [|exact Hst].
      apply Forall_forall. intros pe _ st' Hst'. apply Hrun. exact Hst'.
    - cbn [process_elements_in]. apply fold_each_keeps; [|exact Hst].
      eapply Forall_impl; [|exact IH]. intros row Hrow st1 Hst1.
      apply fold_each_keeps; [|exact Hst1].
      eapply Forall_impl; [|exact Hrow]. intros cell Hcell st2 Hst2.
      apply fold_each_keeps; [|exact Hst2]. exact Hcell.
    - exact Hst. }
  intros body st Hst. apply fold_each_keeps; [|exact Hst].
  apply Forall_forall. intros el _ st' Hst'. apply Hel. exact Hst'.
Qed.

Lemma text_eqb_eq : forall a b, text_eqb a b = true <-> a = b.
Proof.
  induction a as [|x a IH]; intros [|y b]; simpl; split; intros H;
    try reflexivity; try discriminate.
  - apply andb_true_iff in H. destruct H as [Hxy Hab].
    apply N.eqb_eq in Hxy. apply IH in Hab. subst. reflexivity.
  - inversion H; subst. apply andb_true_iff. split; [apply N.eqb_refl|].
    apply IH. reflexivity.
Qed.

Lemma week_set_keys k v : forall d,
  In k (map fst d) /\ map fst (week_set k v d) = map fst d
  \/ ~ In k (map fst d) /\ map fst (week_set k v d) = map fst d ++ [k].
Proof.
  induction d as [|[k' v'] d IH]; [right; split; [intros []|reflexivity]|].
  cbn [week_set]. destruct (text_eqb k' k) eqn:E.
  - apply text_eqb_eq in E. subst k'. left. split; [left; reflexivity|reflexivity].
  - assert (Hne : k' <> k).
    { intros ->. assert (Ht : text_eqb k k = true) by (apply text_eqb_eq; reflexivity).
      congruence. }
    destruct IH as [[Hin Heq]|[Hnin Heq]].
    + left. split; [right; exact Hin|]. cbn [map fst]. rewrite Heq. reflexivity.
    + right. split.
      * intros [H|H]; [exact (Hne H)|exact (Hnin H)].
      * cbn [map fst app]. rewrite Heq. reflexivity.
Qed.

Lemma week_set_NoDup k v d : NoDup (map fst d) -> NoDup (map fst (week_set k v d)).
Proof.
  intros H. destruct (week_set_keys k v d) as [[_ ->]|[Hnin ->]]; [exact H|].
  apply NoDup_app; [exact H|constructor; [intros []|constructor]|].
  intros x Hx [<-|[]]. exact (Hnin Hx).
Qed.

Lemma week_set_Forall (P : text * (Z * text) -> Prop) k v : forall d,
  P (k, v) -> Forall P d -> Forall P (week_set k v d).
Proof.
  induction d as [|[k' v'] d IH]; intros Hk Hd.
  - constructor; [exact Hk|constructor].
  - cbn [week_set]. inversion Hd; subst. destruct (text_eqb k' k).
    + constructor; assumption.
    + constructor; [assumption|]. apply IH; assumption.
Qed.

(** X12.  In the table of readings that [organize_drive_folder] builds
    from a document, no file is listed twice, every entry stands under a
    week number above 0, and its text is one that [is_reading] accepts:
    a reading before the first week header is not recorded.  The table is
    built unless the week number of a text run raises, and [ValueError] is
    all that is raised. *)
Theorem reading_to_week_entries : forall an body,
  match reading_to_week an body with
  | Ok table =>
      NoDup (map fst table)
      /\ Forall (fun entry => (0 < fst (snd entry))%Z
                              /\ is_reading an (snd (snd entry)) = true)
                table
  | Raise e => e = ValueError
  end.
Proof.
  intros an body. unfold reading_to_week.
  set (ok := fun entry : text * (Z * text) =>
               (0 < fst (snd entry))%Z /\ is_reading an (snd (snd entry)) = true).
  set (Q := fun e : exn => e = ValueError).
  pose proof (process_elements_invariant an
                (fun st => NoDup (map fst (snd st)) /\ Forall ok (snd st)) Q) as H.
  cbv beta in H.
  assert (Hfold : match fold_each (process_elements_in an) body (0%Z, []) with
                  | Ok st' => NoDup (map fst (snd st')) /\ Forall ok (snd st')
                  | Raise e => Q e
                  end).
  { apply H; [|split; constructor].
    intros [week d] pe [Hn Hf].
    assert (Horg : forall r t,
              NoDup (map fst (snd (organize_reading an (week, d) r t)))
              /\ Forall ok (snd (organize_reading an (week, d) r t))).
    { intros r t. unfold organize_reading.
      destruct (is_reading an t && (0 <? week)%Z) eqn:E; [|split; assumption].
      apply andb_true_iff in E. destruct E as [Hr Hw]. apply Z.ltb_lt in Hw.
      destruct (run_link r) as [[|c link]|]; [split; assumption| |split; assumption].
      destruct (contains _ _); [|split; assumption].
      destruct (re_search _ _) as [m|]; [|split; assumption].
      cbn [snd]. split; [apply week_set_NoDup; exact Hn|].
      apply week_set_Forall; [|exact Hf]. split; [exact Hw|exact Hr]. }
    unfold process_run. destruct (pe_run pe) as [r|]; [|split; assumption].
    destruct (strip _) as [|c t] eqn:Et; [split; assumption|].
    destruct (is_week_header (c :: t)) as [[w|]|e] eqn:Ew; cbn [bind]; [|apply Horg|].
    - destruct (negb (w =? 0)%Z); [split; assumption|apply Horg].
    - pose proof (is_week_header_raises _ _ Ew) as [-> _]. reflexivity. }
  destruct (fold_each (process_elements_in an) body (0%Z, [])) as [st|e]; cbn [bind];
    exact Hfold.
Qed.

(** *** The lists of the classification hold what their names say *)

Lemma new_item_fields an t start end_ is_split st :
  let it := new_item an t start end_ is_split st in
  i_full_text it = t
  /\ i_score it = fst (get_reading_score an t)
  /\ i_semantic_class it = fst (classify_text_type an t)
  /\ i_semantic_conf it = snd (classify_text_type an t)
  /\ i_has_url it = match extract_url t with Some _ => true | None => false end
  /\ i_classification it = None
  /\ i_semantic_boosted it = false
  /\ i_was_split it = is_split.
Proof.
  unfold new_item. destruct (get_reading_score an t), (classify_text_type an t).
  cbn. repeat split.
Qed.

Lemma Forall_snoc {A} (P : A -> Prop) l x : Forall P l -> P x -> Forall P (l ++ [x]).
Proof. intros Hl Hx. apply Forall_app. split; [exact Hl|constructor; [exact Hx|constructor]]. Qed.

Lemma split_readings_grow (rs l : list item) x :
  Forall (fun it => i_was_split it = true /\ In it rs) l ->
  Forall (fun it => i_was_split it = true /\ In it (rs ++ [x])) l.
Proof.
  apply Forall_impl. intros it [H1 H2]. split; [exact H1|].
  apply in_or_app. left. exact H2.
Qed.

Lemma note_url_sorted an it st :
  sorted_out an st -> (i_has_url it = true -> filed_url it) -> sorted_out an (note_url it st).
Proof.
  intros (H1 & H2 & H3 & H4 & H5 & H6 & H7) Hu. unfold note_url.
  destruct (i_has_url it); [|repeat split; assumption].
  repeat split; cbn; try assumption. apply Forall_snoc; [exact H6|]. apply Hu. reflexivity.
Qed.

Lemma add_too_short_sorted an it st :
  sorted_out an st -> filed_too_short it -> sorted_out an (add_too_short it st).
Proof.
  intros (H1 & H2 & H3 & H4 & H5 & H6 & H7) Hi.
  repeat split; cbn; try assumption. apply Forall_snoc; assumption.
Qed.

Lemma add_header_sorted an it w st :
  sorted_out an st -> filed_header it -> sorted_out an (add_header it w st).
Proof.
  intros (H1 & H2 & H3 & H4 & H5 & H6 & H7) Hi.
  repeat split; cbn; try assumption. apply Forall_snoc; assumption.
Qed.

Lemma add_instruction_sorted an it st :
  sorted_out an st -> filed_instruction an it -> sorted_out an (add_instruction it st).
Proof.
  intros (H1 & H2 & H3 & H4 & H5 & H6 & H7) Hi.
  repeat split; cbn; try assumption. apply Forall_snoc; assumption.
Qed.

Lemma add_uncertain_sorted an it st :
  sorted_out an st -> filed_uncertain an it -> sorted_out an (add_uncertain it st).
Proof.
  intros (H1 & H2 & H3 & H4 & H5 & H6 & H7) Hi.
  repeat split; cbn; try assumption. apply Forall_snoc; assumption.
Qed.

Lemma add_boosted_reading_sorted an it st :
  sorted_out an st -> filed_reading an it -> sorted_out an (add_boosted_reading it st).
Proof.
  intros (H1 & H2 & H3 & H4 & H5 & H6 & H7) Hi.
  repeat split; cbn; try assumption.
  - apply Forall_snoc; assumption.
  - apply split_readings_grow. exact H7.
Qed.

Lemma add_reading_sorted an it st :
  sorted_out an st -> filed_reading an it -> sorted_out an (add_reading it st).
Proof.
  intros (H1 & H2 & H3 & H4 & H5 & H6 & H7) Hi.
  repeat split; cbn; try assumption.
  - apply Forall_snoc; assumption.
  - destruct (i_was_split it) eqn:E.
    + apply Forall_snoc; [apply split_readings_grow; exact H7|].
      split; [exact E|]. apply in_or_app. right. left. reflexivity.
    + apply split_readings_grow. exact H7.
Qed.

Lemma classify_unsplit_sorted an t start end_ is_split st0 read_bar instr_bar kind st :
  let it := new_item an t start end_ is_split st0 in
  sorted_out an st ->
  20 <= List.length t -> is_header t = false -> is_instruction an t = false ->
  (fst (get_reading_score an t) < 3)%Z ->
  (60 <= read_bar)%Z -> (50 <= instr_bar)%Z ->
  kind = (if (1 <=? fst (get_reading_score an t))%Z then MaybeReading else Unknown) ->
  sorted_out an (classify_unsplit it read_bar instr_bar kind st).
Proof.
  intros it Hst Hlen Hh Hi Hs Hr Hb Hk.
  destruct (new_item_fields an t start end_ is_split st0)
    as (Ft & Fs & Fc & Fn & Fu & Fk & Fb & Fw). fold it in Ft, Fs, Fc, Fn, Fu, Fk, Fb, Fw.
  assert (Hurl : forall it', i_full_text it' = i_full_text it -> i_has_url it' = i_has_url it ->
                             i_has_url it' = true -> filed_url it').
  { intros it' E1 E2 E3. unfold filed_url. rewrite E1, Ft. rewrite E2, Fu in E3.
    destruct (extract_url t) as [u|]; [eauto|discriminate]. }
  assert (Hunc : sorted_out an (add_uncertain (set_classification kind it)
                                  (note_url (set_classification kind it) st))).
  { apply add_uncertain_sorted.
    - apply note_url_sorted; [exact Hst|]. apply Hurl; reflexivity.
    - unfold filed_uncertain. cbn [set_classification i_full_text i_classification].
      rewrite Ft. repeat split; try assumption. rewrite Hk. reflexivity. }
  unfold classify_unsplit. destruct (i_semantic_class it) eqn:Ec.
  - destruct (read_bar <=? i_semantic_conf it)%Z eqn:E; [|exact Hunc].
    apply Z.leb_le in E. apply add_boosted_reading_sorted.
    + apply note_url_sorted; [exact Hst|]. apply Hurl; reflexivity.
    + unfold filed_reading.
      cbn [set_boosted set_week i_full_text i_semantic_boosted]. rewrite Ft.
      repeat split; try assumption. right.
      rewrite <- Fn. split; [symmetry; exact Fc|split; [lia|reflexivity]].
  - destruct (instr_bar <=? i_semantic_conf it)%Z eqn:E; [|exact Hunc].
    apply Z.leb_le in E. apply add_instruction_sorted.
    + apply note_url_sorted; [exact Hst|]. apply Hurl; reflexivity.
    + unfold filed_instruction. rewrite Ft. repeat split; try assumption. right.
      rewrite <- Fn. split; [symmetry; exact Fc|split; [lia|exact Hs]].
  - exact Hunc.
Qed.

Lemma fold_outcome_sorted an (f : stats -> text -> outcome) :
  (forall st x, sorted_out an st -> sorts_out an (f st x)) ->
  forall l init, sorts_out an init ->
  sorts_out an (fold_left (fun acc x => match acc with
                                        | Done st' => f st' x
                                        | other => other
                                        end) l init).
Proof.
  intros Hf. induction l as [|x l IH]; intros init Hinit; [exact Hinit|].
  cbn [fold_left]. apply IH. destruct init; [apply Hf; exact Hinit|exact I|exact I].
Qed.

Lemma classify_single_text_sorted : forall fuel an t start end_ is_split st,
  sorted_out an st ->
  sorts_out an (classify_single_text fuel an t start end_ is_split st).
Proof.
  induction fuel as [|fuel IH]; intros an t start end_ is_split st Hst; [exact I|].
  cbn [classify_single_text].
  set (it := new_item an t start end_ is_split st).
  destruct (new_item_fields an t start end_ is_split st)
    as (Ft & Fs & Fc & Fn & Fu & Fk & Fb & Fw). fold it in Ft, Fs, Fc, Fn, Fu, Fk, Fb, Fw.
  assert (Hurl : forall it', i_full_text it' = i_full_text it -> i_has_url it' = i_has_url it ->
                             i_has_url it' = true -> filed_url it').
  { intros it' E1 E2 E3. unfold filed_url. rewrite E1, Ft. rewrite E2, Fu in E3.
    destruct (extract_url t) as [u|]; [eauto|discriminate]. }
  assert (Hnote : forall it', i_full_text it' = i_full_text it -> i_has_url it' = i_has_url it ->
                              sorted_out an (note_url it' st)).
  { intros it' E1 E2. apply note_url_sorted; [exact Hst|]. apply Hurl; assumption. }
  destruct (Nat.ltb_spec (List.length t) 20) as [Hshort|Hlen].
  { apply add_too_short_sorted; [apply Hnote; reflexivity|].
    unfold filed_too_short. rewrite Ft. exact Hshort. }
  destruct (is_header t) eqn:Hh.
  { assert (Hfh : forall it', i_full_text it' = i_full_text it -> filed_header it').
    { intros it' E. unfold filed_header. rewrite E, Ft. split; assumption. }
    destruct (is_week_header t) as [[week|]|e]; [destruct (week =? 0)%Z| |exact I];
      cbn [sorts_out]; apply add_header_sorted;
      try (apply Hnote; reflexivity); apply Hfh; reflexivity. }
  destruct (is_instruction an t) eqn:Hi.
  { apply add_instruction_sorted; [apply Hnote; reflexivity|].
    unfold filed_instruction. rewrite Ft. repeat split; try assumption. left. exact Hi. }
  rewrite Fs.
  destruct (Z.leb_spec 3 (fst (get_reading_score an t))) as [Hs3|Hs3].
  { apply add_reading_sorted; [apply Hnote; reflexivity|].
    unfold filed_reading. cbn [set_week i_full_text i_semantic_boosted]. rewrite Ft.
    repeat split; try assumption. left. split; assumption. }
  assert (Hseg : forall read_bar instr_bar kind,
            (60 <= read_bar)%Z -> (50 <= instr_bar)%Z ->
            kind = (if (1 <=? fst (get_reading_score an t))%Z then MaybeReading else Unknown) ->
            sorts_out an
              match split_concatenated_readings t with
              | Raise e => Raised e
              | Ok split_texts =>
                  if 1 <? List.length split_texts then
                    fold_left (fun acc split_text =>
                                 match acc with
                                 | Done st' =>
                                     classify_single_text fuel an (strip split_text)
                                                          start end_ true st'
                                 | other => other
                                 end)
                              split_texts (Done (note_url it st))
                  else Done (classify_unsplit it read_bar instr_bar kind st)
              end).
  { intros read_bar instr_bar kind Hr Hb Hk.
    destruct (split_concatenated_readings t) as [split_texts|]; [|exact I].
    destruct (1 <? List.length split_texts).
    - apply (fold_outcome_sorted an
               (fun st' split_text =>
                  classify_single_text fuel an (strip split_text) start end_ true st')).
      + intros st' x Hst'. apply IH. exact Hst'.
      + apply Hnote; reflexivity.
    - apply (classify_unsplit_sorted an t start end_ is_split st); assumption. }
  destruct (1 <=? fst (get_reading_score an t))%Z eqn:E1;
    apply Hseg; try lia; rewrite ?E1; reflexivity.
Qed.

Lemma classify_line_sorted fuel an u st :
  sorted_out an st -> sorts_out an (classify_line fuel an u st).
Proof.
  intros Hst. unfold classify_line.
  pose proof (classify_single_text_sorted fuel an (u_full_text u) (u_start u) (u_end u)
                false st Hst) as Hwhole.
  destruct (60 <? _); [|exact Hwhole].
  destruct (_ || _); [|exact Hwhole].
  destruct (split_concatenated_readings _) as [split_texts|]; [|exact I].
  destruct (1 <? List.length split_texts); [|exact Hwhole].
  apply (fold_outcome_sorted an
           (fun st' split_text =>
              classify_single_text fuel an (strip split_text) (u_start u) (u_end u) true st')).
  - intros st' x Hst'. apply classify_single_text_sorted. exact Hst'.
  - exact Hst.
Qed.

Lemma classify_lines_sorted fuel an : forall us st,
  sorted_out an st -> sorts_out an (classify_lines fuel an us st).
Proof.
  intros us st Hst. unfold classify_lines.
  assert (H : forall l init, sorts_out an init ->
            sorts_out an (fold_left (fun acc u => match acc with
                                                  | Done st' => classify_line fuel an u st'
                                                  | other => other
                                                  end) l init)).
  { induction l as [|x l IH]; intros init Hinit; [exact Hinit|].
    cbn [fold_left]. apply IH.
    destruct init; [apply classify_line_sorted; exact Hinit|exact I|exact I]. }
  apply H. exact Hst.
Qed.

Lemma initial_stats_sorted an : sorted_out an initial_stats.
Proof. repeat split; constructor. Qed.

(** X13.  With fuel enough for the document, [clean_syllabus] does not
    run out of fuel: it returns, or it raises [IndexError], which it does
    only for an analyzer that reports a first person name of white space
    alone, or it raises [ValueError], which it does only when a merged
    line has more than [max_str_digits] characters that are not white
    space, as a week number that [int] does not convert needs.  When it
    returns, the lists of its result hold what their names say: an item is
    too short when its text has fewer than 20 characters; every other item
    has at least 20, a header is a text that [is_header] accepts, no
    instruction, reading or uncertain item is a header, no reading or
    uncertain item is an instruction by [is_instruction], a reading scores
    3 or more unless the semantic class promoted it, an uncertain item
    scores less than 3, every item listed for its URL has one, and every
    split reading is a reading. *)
Theorem clean_syllabus_sorts_out : forall an body fuel,
  enough_fuel an (collect_raw_lines body) <= fuel ->
  match clean_syllabus fuel an body with
  | Done st => sorted_out an st
  | Raised IndexError => blank_name an
  | Raised ValueError => max_str_digits < longest_line an (collect_raw_lines body)
  | OutOfFuel => False
  end.
Proof.
  intros an body fuel Hfuel. unfold clean_syllabus.
  pose proof (classify_document_outcome an (collect_raw_lines body) fuel Hfuel) as Ho.
  destruct (classify_document fuel an (collect_raw_lines body)) as [st|e|] eqn:Hst;
    [|exact Ho|exact Ho].
  unfold classify_document in Hst.
  destruct (merge_fragmented_lines an (collect_raw_lines body)) as [merged|e];
    [|discriminate].
  pose proof (classify_lines_sorted fuel an merged initial_stats
                (initial_stats_sorted an)) as H.
  rewrite Hst in H. exact H.
Qed.

Lemma clean_syllabus_sorts_out_example :
  enough_fuel None (collect_raw_lines fragmented_document) <= 200
  /\ exists st, clean_syllabus 200 None fragmented_document = Done st /\ sorted_out None st.
Proof.
  assert (H : enough_fuel None (collect_raw_lines fragmented_document) <= 200)
    by (apply Nat.leb_le; vm_compute; reflexivity).
  split; [exact H|].
  pose proof (clean_syllabus_sorts_out None fragmented_document 200 H) as T.
  destruct (clean_syllabus 200 None fragmented_document) as [st|e|] eqn:E.
  - exists st. split; [reflexivity|exact T].
  - exfalso. vm_compute in E. discriminate E.
  - destruct T.
Defined.

(** *** No line is dropped *)

Lemma note_url_items it st : all_items (note_url it st) = all_items st.
Proof. unfold note_url. destruct (i_has_url it); reflexivity. Qed.

Lemma add_header_items it w st x :
  In x (all_items (add_header it w st)) <-> x = it \/ In x (all_items st).
Proof. unfold all_items. cbn. rewrite !in_app_iff. cbn. intuition congruence. Qed.

Lemma add_reading_items it st x :
  In x (all_items (add_reading it st)) <-> x = it \/ In x (all_items st).
Proof. unfold all_items. cbn. rewrite !in_app_iff. cbn. intuition congruence. Qed.

Lemma add_boosted_reading_items it st x :
  In x (all_items (add_boosted_reading it st)) <-> x = it \/ In x (all_items st).
Proof. unfold all_items. cbn. rewrite !in_app_iff. cbn. intuition congruence. Qed.

Lemma add_instruction_items it st x :
  In x (all_items (add_instruction it st)) <-> x = it \/ In x (all_items st).
Proof. unfold all_items. cbn. rewrite !in_app_iff. cbn. intuition congruence. Qed.

Lemma add_uncertain_items it st x :
  In x (all_items (add_uncertain it st)) <-> x = it \/ In x (all_items st).
Proof. unfold all_items. cbn. rewrite !in_app_iff. cbn. intuition congruence. Qed.

Lemma add_too_short_items it st x :
  In x (all_items (add_too_short it st)) <-> x = it \/ In x (all_items st).
Proof. unfold all_items. cbn. rewrite !in_app_iff. cbn. intuition congruence. Qed.

Lemma new_item_span an t start end_ is_split st :
  i_start (new_item an t start end_ is_split st) = start
  /\ i_end (new_item an t start end_ is_split st) = end_.
Proof.
  unfold new_item. destruct (get_reading_score an t), (classify_text_type an t).
  split; reflexivity.
Qed.

Lemma filed_by (add : item -> stats -> stats) :
  (forall it st x, In x (all_items (add it st)) <-> x = it \/ In x (all_items st)) ->
  forall it it0 st start end_,
    i_start it = start -> i_end it = end_ ->
    files start end_ st (Done (add it (note_url it0 st))).
Proof.
  intros Hadd it it0 st start end_ Hs He. split.
  - intros x Hx. apply Hadd. right. rewrite note_url_items. exact Hx.
  - exists it. split; [apply Hadd; left; reflexivity|split; assumption].
Qed.

Lemma files_step start end_ st st1 o :
  keeps st (Done st1) -> files start end_ st1 o -> files start end_ st o.
Proof.
  intros Hk Ho. destruct o as [st2| |]; [|exact I|exact I].
  destruct Ho as [Hk2 Hc]. split; [|exact Hc]. intros x Hx. apply Hk2, Hk, Hx.
Qed.

Lemma files_keeps start end_ st o : files start end_ st o -> keeps st o.
Proof. destruct o; [intros [H _]; exact H|exact (fun _ => I)|exact (fun _ => I)]. Qed.

Lemma fold_files {X} start end_ st (f : stats -> X -> outcome) :
  (forall st' x, files start end_ st' (f st' x)) ->
  forall l init, l <> [] -> keeps st init ->
  files start end_ st (fold_left (fun acc x => match acc with
                                               | Done st' => f st' x
                                               | other => other
                                               end) l init).
Proof.
  intros Hf.
  assert (Hrest : forall l o, files start end_ st o ->
            files start end_ st (fold_left (fun acc x => match acc with
                                                         | Done st' => f st' x
                                                         | other => other
                                                         end) l o)).
  { induction l as [|x l IH]; intros o Ho; [exact Ho|].
    cbn [fold_left]. apply IH. destruct o as [st1| |]; [|exact I|exact I].
    apply (files_step start end_ st st1); [apply (files_keeps start end_); exact Ho|apply Hf]. }
  intros [|x l] init Hne Hinit; [congruence|].
  cbn [fold_left]. apply Hrest. destruct init as [st1| |]; [|exact I|exact I].
  apply (files_step start end_ st st1); [exact Hinit|apply Hf].
Qed.

Lemma several_nonempty {X} (l : list X) : (1 <? List.length l) = true -> l <> [].
Proof. intros H ->. discriminate. Qed.

Lemma classify_single_text_files : forall fuel an t start end_ is_split st,
  files start end_ st (classify_single_text fuel an t start end_ is_split st).
Proof.
  induction fuel as [|fuel IH]; intros an t start end_ is_split st; [exact I|].
  cbn [classify_single_text].
  set (it := new_item an t start end_ is_split st).
  destruct (new_item_span an t start end_ is_split st) as [Hs He]. fold it in Hs, He.
  destruct (List.length t <? 20).
  { apply (filed_by add_too_short); [apply add_too_short_items|exact Hs|exact He]. }
  destruct (is_header t).
  { destruct (is_week_header t) as [[week|]|e]; [destruct (week =? 0)%Z| |exact I];
      apply (filed_by (fun it st => add_header it _ st));
      try (intros; apply add_header_items); assumption. }
  destruct (is_instruction an t).
  { apply (filed_by add_instruction); [apply add_instruction_items|exact Hs|exact He]. }
  assert (Hun : forall read_bar instr_bar kind,
            files start end_ st (Done (classify_unsplit it read_bar instr_bar kind st))).
  { intros read_bar instr_bar kind. unfold classify_unsplit.
    destruct (i_semantic_class it).
    - destruct (_ <=? _)%Z.
      + apply (filed_by add_boosted_reading); [apply add_boosted_reading_items|exact Hs|exact He].
      + apply (filed_by add_uncertain); [apply add_uncertain_items|exact Hs|exact He].
    - destruct (_ <=? _)%Z.
      + apply (filed_by add_instruction); [apply add_instruction_items|exact Hs|exact He].
      + apply (filed_by add_uncertain); [apply add_uncertain_items|exact Hs|exact He].
    - apply (filed_by add_uncertain); [apply add_uncertain_items|exact Hs|exact He]. }
  destruct (3 <=? i_score it)%Z.
  { apply (filed_by add_reading); [apply add_reading_items|exact Hs|exact He]. }
  assert (Hseg : forall read_bar instr_bar kind,
            files start end_ st
              match split_concatenated_readings t with
              | Raise e => Raised e
              | Ok split_texts =>
                  if 1 <? List.length split_texts then
                    fold_left (fun acc split_text =>
                                 match acc with
                                 | Done st' =>
                                     classify_single_text fuel an (strip split_text)
                                                          start end_ true st'
                                 | other => other
                                 end)
                              split_texts (Done (note_url it st))
                  else Done (classify_unsplit it read_bar instr_bar kind st)
              end).
  { intros read_bar instr_bar kind.
    destruct (split_concatenated_readings t) as [split_texts|]; [|exact I].
    destruct (1 <? List.length split_texts) eqn:E; [|apply Hun].
    apply (fold_files start end_ st
             (fun st' split_text =>
                classify_single_text fuel an (strip split_text) start end_ true st')).
    - intros st' x. apply IH.
    - apply several_nonempty. exact E.
    - intros x Hx. rewrite note_url_items. exact Hx. }
  destruct (1 <=? i_score it)%Z; apply Hseg.
Qed.

Lemma classify_line_files fuel an u st :
  files (u_start u) (u_end u) st (classify_line fuel an u st).
Proof.
  unfold classify_line.
  pose proof (classify_single_text_files fuel an (u_full_text u) (u_start u) (u_end u)
                false st) as Hwhole.
  destruct (60 <? _); [|exact Hwhole].
  destruct (_ || _); [|exact Hwhole].
  destruct (split_concatenated_readings _) as [split_texts|]; [|exact I].
  destruct (1 <? List.length split_texts) eqn:E; [|exact Hwhole].
  apply (fold_files (u_start u) (u_end u) st
           (fun st' split_text =>
              classify_single_text fuel an (strip split_text) (u_start u) (u_end u) true st')).
  - intros st' x. apply classify_single_text_files.
  - apply several_nonempty. exact E.
  - intros x Hx. exact Hx.
Qed.

(** After the lines [us], every one of them has an item, and the items of
    [st] are still there. *)
Lemma classify_lines_files fuel an : forall us st,
  match classify_lines fuel an us st with
  | Done st' =>
      (forall it, In it (all_items st) -> In it (all_items st'))
      /\ Forall (fun u => covers st' (u_start u) (u_end u)) us
  | _ => True
  end.
Proof.
  unfold classify_lines.
  induction us as [|u us IH]; intros st.
  - cbn [fold_left]. split; [auto|constructor].
  - cbn [fold_left]. pose proof (classify_line_files fuel an u st) as Hu.
    destruct (classify_line fuel an u st) as [st1|e|].
    + specialize (IH st1). destruct Hu as [Hk Hc].
      destruct (fold_left _ us (Done st1)) as [st2|e|]; [|exact I|exact I].
      destruct IH as [Hk2 Hf]. split; [intros x Hx; apply Hk2, Hk, Hx|].
      constructor; [|exact Hf].
      destruct Hc as (it & Hin & Hs & He). exists it. split; [apply Hk2, Hin|split; assumption].
    + assert (E : forall l, fold_left (fun acc u0 => match acc with
                                                     | Done st' => classify_line fuel an u0 st'
                                                     | other => other
                                                     end) l (Raised e) = Raised e)
        by (induction l; [reflexivity|assumption]).
      rewrite E. exact I.
    + assert (E : forall l, fold_left (fun acc u0 => match acc with
                                                     | Done st' => classify_line fuel an u0 st'
                                                     | other => other
                                                     end) l OutOfFuel = OutOfFuel)
        by (induction l; [reflexivity|assumption]).
      rewrite E. exact I.
Qed.

(** X14.  With fuel enough for the document, [clean_syllabus] does not
    run out of fuel: it returns, or it raises [IndexError], which it does
    only for an analyzer that reports a first person name of white space
    alone, or it raises [ValueError], which it does only when a merged
    line has more than [max_str_digits] characters that are not white
    space.  When it returns it has dropped no line: every merged line of
    the document has an item with its start and end on one of the five
    lists of headers, readings, instructions, uncertain items and too
    short items. *)
Theorem clean_syllabus_files_every_line : forall an body fuel,
  enough_fuel an (collect_raw_lines body) <= fuel ->
  match clean_syllabus fuel an body with
  | Done st =>
      exists merged_lines,
        merge_fragmented_lines an (collect_raw_lines body) = Ok merged_lines
        /\ Forall (fun u => covers st (u_start u) (u_end u)) merged_lines
  | Raised IndexError => blank_name an
  | Raised ValueError => max_str_digits < longest_line an (collect_raw_lines body)
  | OutOfFuel => False
  end.
Proof.
  intros an body fuel Hfuel. unfold clean_syllabus.
  pose proof (classify_document_outcome an (collect_raw_lines body) fuel Hfuel) as Ho.
  destruct (classify_document fuel an (collect_raw_lines body)) as [st|e|] eqn:Hst;
    [|exact Ho|exact Ho].
  unfold classify_document in Hst.
  destruct (merge_fragmented_lines an (collect_raw_lines body)) as [merged|e];
    [|discriminate].
  exists merged. split; [reflexivity|].
  pose proof (classify_lines_files fuel an merged initial_stats) as H.
  rewrite Hst in H. apply H.
Qed.

Lemma clean_syllabus_files_every_line_example :
  enough_fuel None (collect_raw_lines concatenated_document) <= 200
  /\ exists st merged_lines,
       clean_syllabus 200 None concatenated_document = Done st
       /\ merge_fragmented_lines None (collect_raw_lines concatenated_document)
          = Ok merged_lines
       /\ Forall (fun u => covers st (u_start u) (u_end u)) merged_lines.
Proof.
  assert (H : enough_fuel None (collect_raw_lines concatenated_document) <= 200)
    by (apply Nat.leb_le; vm_compute; reflexivity).
  split; [exact H|].
  pose proof (clean_syllabus_files_every_line None concatenated_document 200 H) as T.
  destruct (clean_syllabus 200 None concatenated_document) as [st|e|] eqn:E.
  - destruct T as (merged & Hm & Hc). exists st, merged. split; [reflexivity|]. split; assumption.
  - exfalso. vm_compute in E. discriminate E.
  - destruct T.
Defined.

(** X15.  The text that [normalize_pdf_text] returns holds none of the
    typographic characters it maps (curly quotes, the two dashes, the
    non-breaking space, the byte-order mark), its white space is single
    spaces only, and it has none at either end. *)
Theorem normalize_output_shape : forall t,
  Forall plain (normalize_pdf_text t)
  /\ tidy false (normalize_pdf_text t)
  /\ strip (normalize_pdf_text t) = normalize_pdf_text t.
Proof.
  intros t. split; [apply normalize_plain|]. split; [apply normalize_tidy|].
  apply normalize_stripped.
Qed.

(** *** The lines of the configuration file *)

Lemma all_space_app a b : all_space (a ++ b) = all_space a && all_space b.
Proof.
  induction a as [|x a IH]; simpl; [reflexivity|]. rewrite IH, andb_assoc. reflexivity.
Qed.

Lemma rstrip_app_space y p : all_space p = true -> rstrip (y ++ p) = rstrip y.
Proof.
  intros Hp. unfold rstrip. rewrite rev_app_distr, lstrip_app, all_space_rev, Hp.
  reflexivity.
Qed.

Lemma strip_pad p1 x p2 :
  all_space p1 = true -> all_space p2 = true -> strip (p1 ++ x ++ p2) = strip x.
Proof.
  intros H1 H2. unfold strip. rewrite lstrip_app, H1, lstrip_app.
  destruct (all_space x) eqn:Ex.
  - rewrite (lstrip_all_space p2 H2), (lstrip_all_space x Ex). reflexivity.
  - apply rstrip_app_space. exact H2.
Qed.

Lemma rstrip_snoc t c : is_space c = false -> rstrip (t ++ [c]) = t ++ [c].
Proof.
  intros Hc. unfold rstrip. rewrite rev_app_distr. cbn [rev app].
  rewrite lstrip_fixed by exact Hc.
  change (c :: rev t) with ([c] ++ rev t). rewrite rev_app_distr, rev_involutive.
  reflexivity.
Qed.

(** A text with clean ends has a first and a last character. *)
Lemma clean_ends_shape cs t :
  clean_ends cs t = true ->
  exists a m m' b,
    t = a :: m /\ is_space a = false /\ mem a cs = false
    /\ t = m' ++ [b] /\ is_space b = false /\ mem b cs = false.
Proof.
  unfold clean_ends, starts_bare. intros H. apply andb_true_iff in H. destruct H as [H1 H2].
  destruct t as [|a m]; [discriminate|].
  apply andb_true_iff in H1. destruct H1 as [Ha1 Ha2].
  apply negb_true_iff in Ha1. apply negb_true_iff in Ha2.
  destruct (rev (a :: m)) as [|b r] eqn:E; [discriminate|].
  apply andb_true_iff in H2. destruct H2 as [Hb1 Hb2].
  apply negb_true_iff in Hb1. apply negb_true_iff in Hb2.
  exists a, m, (rev r), b. repeat split; try assumption.
  rewrite <- (rev_involutive (a :: m)), E. reflexivity.
Qed.

Lemma strip_clean_ends cs t : clean_ends cs t = true -> strip t = t.
Proof.
  intros H. destruct (clean_ends_shape cs t H) as (a & m & m' & b & Ea & Ha & _ & E & Hb & _).
  unfold strip. rewrite Ea, lstrip_fixed by exact Ha. rewrite <- Ea, E.
  apply rstrip_snoc. exact Hb.
Qed.

Lemma partition_at_first c k rest :
  Forall (fun x => N.eqb x c = false) k ->
  partition_at c (k ++ c :: rest) = Some (k, rest).
Proof.
  induction 1 as [|x k Hx Hk IH]; cbn [app partition_at].
  - rewrite N.eqb_refl. reflexivity.
  - rewrite Hx, IH. reflexivity.
Qed.

Lemma lstrip_chars_app cs q t :
  forallb (fun c => mem c cs) q = true -> lstrip_chars cs (q ++ t) = lstrip_chars cs t.
Proof.
  induction q as [|c q IH]; intros H; [reflexivity|].
  cbn [forallb] in H. apply andb_true_iff in H. destruct H as [Hc Hq].
  cbn [app lstrip_chars]. rewrite Hc. apply IH. exact Hq.
Qed.

Lemma forallb_rev {A} (f : A -> bool) l : forallb f (rev l) = forallb f l.
Proof.
  induction l as [|x l IH]; [reflexivity|].
  cbn [rev forallb]. rewrite forallb_app, IH. cbn [forallb]. rewrite andb_true_r.
  apply andb_comm.
Qed.

Lemma strip_chars_quoted cs q1 v q2 :
  forallb (fun c => mem c cs) q1 = true -> forallb (fun c => mem c cs) q2 = true ->
  clean_ends cs v = true ->
  strip_chars cs (q1 ++ v ++ q2) = v.
Proof.
  intros H1 H2 Hv.
  destruct (clean_ends_shape cs v Hv) as (a & m & m' & b & Ea & _ & Ha & E & _ & Hb).
  unfold strip_chars. rewrite lstrip_chars_app by exact H1.
  assert (Hhead : lstrip_chars cs (v ++ q2) = v ++ q2).
  { rewrite Ea. cbn [app lstrip_chars]. rewrite Ha. reflexivity. }
  rewrite Hhead, rev_app_distr, lstrip_chars_app by (rewrite forallb_rev; exact H2).
  rewrite E, rev_app_distr. cbn [rev app lstrip_chars]. rewrite Hb.
  change (b :: rev m') with ([b] ++ rev m'). rewrite rev_app_distr, rev_involutive.
  reflexivity.
Qed.

Lemma space_not_equals c : is_space c = true -> N.eqb c 61 = false.
Proof.
  intros H. destruct (N.eqb_spec c 61) as [->|_]; [|reflexivity].
  vm_compute in H. discriminate.
Qed.

Lemma all_space_no_equals p : all_space p = true -> Forall (fun x => N.eqb x 61 = false) p.
Proof.
  induction p as [|c p IH]; intros H; [constructor|].
  cbn [all_space] in H. apply andb_true_iff in H. destruct H as [Hc Hp].
  constructor; [apply space_not_equals; exact Hc|apply IH; exact Hp].
Qed.

Lemma quote_not_space cs c :
  forallb (fun x => negb (is_space x)) cs = true -> mem c cs = true -> is_space c = false.
Proof.
  intros Hcs Hc. unfold mem in Hc. apply existsb_exists in Hc. destruct Hc as (x & Hx & E).
  apply N.eqb_eq in E. subst x. rewrite forallb_forall in Hcs.
  apply negb_true_iff. apply Hcs. exact Hx.
Qed.

Lemma dict_get_set k v : forall d, dict_get k (dict_set k v d) = Some v.
Proof.
  assert (Hk : text_eqb k k = true) by (apply text_eqb_eq; reflexivity).
  induction d as [|[k' v'] d IH]; cbn [dict_set dict_get]; [rewrite Hk; reflexivity|].
  destruct (text_eqb k' k) eqn:E; cbn [dict_get]; [rewrite Hk; reflexivity|].
  rewrite E. exact IH.
Qed.

Lemma strip_solid a m b :
  is_space a = false -> is_space b = false -> strip ((a :: m) ++ [b]) = (a :: m) ++ [b].
Proof.
  intros Ha Hb. unfold strip. cbn [app]. rewrite lstrip_fixed by exact Ha.
  apply (rstrip_snoc (a :: m) b Hb).
Qed.

(** The last character of a quoted value: the last quote, or the last
    character of the value. *)
Lemma quoted_last q1 v q2 :
  forallb (fun c => mem c config_quotes) q2 = true ->
  clean_ends config_quotes v = true ->
  exists m b, q1 ++ v ++ q2 = m ++ [b] /\ is_space b = false.
Proof.
  intros H2 Hv.
  destruct (clean_ends_shape _ v Hv) as (a & m & m' & b & _ & _ & _ & E & Hb & _).
  destruct (rev q2) as [|c r] eqn:Eq.
  - assert (q2 = []) by (rewrite <- (rev_involutive q2), Eq; reflexivity). subst q2.
    exists (q1 ++ m'), b. rewrite app_nil_r, E, app_assoc. split; [reflexivity|exact Hb].
  - assert (Eq2 : q2 = rev r ++ [c]) by (rewrite <- (rev_involutive q2), Eq; reflexivity).
    exists (q1 ++ v ++ rev r), c. split; [rewrite Eq2, <- !app_assoc; reflexivity|].
    apply (quote_not_space config_quotes); [reflexivity|].
    rewrite forallb_forall in H2. apply H2. rewrite Eq2. apply in_or_app. right. left.
    reflexivity.
Qed.

Lemma strip_ends a m mid m' b :
  is_space a = false -> is_space b = false ->
  strip ((a :: m) ++ mid ++ m' ++ [b]) = (a :: m) ++ mid ++ m' ++ [b].
Proof.
  intros Ha Hb.
  replace ((a :: m) ++ mid ++ m' ++ [b]) with ((a :: (m ++ mid ++ m')) ++ [b])
    by (cbn [app]; rewrite <- !app_assoc; reflexivity).
  apply strip_solid; assumption.
Qed.

Lemma strip_quoted q1 v q2 :
  forallb (fun c => mem c config_quotes) q1 = true ->
  forallb (fun c => mem c config_quotes) q2 = true ->
  clean_ends config_quotes v = true ->
  strip (q1 ++ v ++ q2) = q1 ++ v ++ q2.
Proof.
  intros Hq1 Hq2 Hv.
  destruct (quoted_last q1 v q2 Hq2 Hv) as (m' & b & Eb & Hb).
  destruct (clean_ends_shape _ v Hv) as (a' & n & _ & _ & Ea' & Ha' & _ & _ & _ & _).
  rewrite Eb. destruct m' as [|c m''].
  - unfold strip. cbn [app]. rewrite lstrip_fixed by exact Hb. apply (rstrip_snoc [] b Hb).
  - apply strip_solid; [|exact Hb].
    destruct q1 as [|q q1'].
    + cbn [app] in Eb. rewrite Ea' in Eb. cbn [app] in Eb. inversion Eb; subst. exact Ha'.
    + cbn [app] in Eb. inversion Eb; subst.
      apply (quote_not_space config_quotes); [reflexivity|].
      cbn [forallb] in Hq1. apply andb_true_iff in Hq1. apply Hq1.
Qed.

(** A line with a key, an equals sign and a value, padded and quoted or
    not, as [config_entry] reads it. *)
Lemma config_entry_padded pad1 k pad2 pad3 q1 v q2 pad4 :
  all_space pad1 = true -> all_space pad2 = true ->
  all_space pad3 = true -> all_space pad4 = true ->
  clean_ends [] k = true -> forallb (fun c => negb (N.eqb c 61)) k = true ->
  forallb (fun c => mem c config_quotes) q1 = true ->
  forallb (fun c => mem c config_quotes) q2 = true ->
  clean_ends config_quotes v = true ->
  config_entry (pad1 ++ k ++ pad2 ++ str "=" ++ pad3 ++ q1 ++ v ++ q2 ++ pad4)
  = Some (upper k, v).
Proof.
  intros P1 P2 P3 P4 Hk Hke Hq1 Hq2 Hv. unfold config_entry.
  assert (El : pad1 ++ k ++ pad2 ++ str "=" ++ pad3 ++ q1 ++ v ++ q2 ++ pad4
               = pad1 ++ (k ++ (pad2 ++ str "=" ++ pad3) ++ q1 ++ v ++ q2) ++ pad4)
    by (rewrite <- !app_assoc; reflexivity).
  rewrite El. clear El. rewrite strip_pad by assumption.
  destruct (clean_ends_shape _ k Hk) as (a & m & _ & _ & Ea & Ha & _ & _ & _ & _).
  destruct (quoted_last q1 v q2 Hq2 Hv) as (m' & b & Eb & Hb).
  assert (Ex : strip (k ++ (pad2 ++ str "=" ++ pad3) ++ q1 ++ v ++ q2)
               = (k ++ pad2) ++ 61%N :: (pad3 ++ (q1 ++ v ++ q2) ++ [])).
  { rewrite Eb, Ea, strip_ends by assumption.
    rewrite app_nil_r, <- !app_assoc. reflexivity. }
  rewrite Ex. clear Ex.
  rewrite partition_at_first.
  2:{ apply Forall_app. split; [|apply all_space_no_equals; exact P2].
      apply Forall_forall. intros x Hx. rewrite forallb_forall in Hke.
      apply negb_true_iff. apply Hke. exact Hx. }
  change (k ++ pad2) with ([] ++ k ++ pad2).
  rewrite (strip_pad [] k pad2) by (reflexivity || assumption).
  rewrite (strip_clean_ends [] k Hk).
  rewrite (strip_pad pad3 (q1 ++ v ++ q2) []) by (reflexivity || assumption).
  rewrite strip_quoted by assumption.
  fold config_quotes. rewrite strip_chars_quoted by assumption.
  reflexivity.
Qed.

(** X16.  A line of the configuration file that holds a key, an equals
    sign and a value, with white space around each and quotes around the
    value or not, sets the key in capitals to the value without the
    quotes; the value may hold equals signs, and a file that ends with
    the line gives that value for the key. *)
Theorem config_line_sets_key : forall pad1 k pad2 pad3 q1 v q2 pad4,
  all_space pad1 = true -> all_space pad2 = true ->
  all_space pad3 = true -> all_space pad4 = true ->
  clean_ends [] k = true -> forallb (fun c => negb (N.eqb c 61)) k = true ->
  forallb (fun c => mem c config_quotes) q1 = true ->
  forallb (fun c => mem c config_quotes) q2 = true ->
  clean_ends config_quotes v = true ->
  let line := pad1 ++ k ++ pad2 ++ str "=" ++ pad3 ++ q1 ++ v ++ q2 ++ pad4 in
  config_entry line = Some (upper k, v)
  /\ forall lines, dict_get (upper k) (load_config (lines ++ [line])) = Some v.
Proof.
  intros pad1 k pad2 pad3 q1 v q2 pad4 P1 P2 P3 P4 Hk Hke Hq1 Hq2 Hv line.
  assert (Hentry : config_entry line = Some (upper k, v))
    by (apply config_entry_padded; assumption).
  split; [exact Hentry|]. intros lines. unfold load_config.
  rewrite fold_left_app. cbn [fold_left]. rewrite Hentry. apply dict_get_set.
Qed.

Lemma config_line_sets_key_example :
  config_entry (str "api_key = 'a=b' ") = Some (str "API_KEY", str "a=b")
  /\ forall lines,
       dict_get (str "API_KEY") (load_config (lines ++ [str "api_key = 'a=b' "])) = Some (str "a=b").
Proof.
  apply (config_line_sets_key [] (str "api_key") (str " ") (str " ") (str "'") (str "a=b")
           (str "'") (str " ")); reflexivity.
Defined.

(** *** What a search finds *)

Lemma try_at_sound r pr sf i m :
  try_at r pr sf i = Some m ->
  exists s sf',
    sf = s ++ sf' /\ Matches r pr s sf' /\ m_start m = i /\ m_end m = i + List.length s.
Proof.
  unfold try_at. destruct (run r (MS pr sf i []) Some) as [st|] eqn:E; [|discriminate].
  intros H. inversion H; subst. clear H.
  apply run_sound in E. destruct E as (s & sf' & cs' & -> & Hm & Hk).
  inversion Hk; subst. exists s, sf'. repeat split. exact Hm.
Qed.

Lemma search_from_sound r : forall sf pr i m,
  search_from r pr sf i = Some m ->
  exists skipped s sf',
    sf = skipped ++ s ++ sf'
    /\ Matches r (rev skipped ++ pr) s sf'
    /\ m_start m = i + List.length skipped
    /\ m_end m = m_start m + List.length s.
Proof.
  induction sf as [|c sf IH]; intros pr i m H; cbn [search_from] in H.
  - destruct (try_at r pr [] i) as [m'|] eqn:E; [|discriminate].
    inversion H; subst. apply try_at_sound in E.
    destruct E as (s & sf' & E1 & Hm & Hs & He).
    exists [], s, sf'. cbn [app rev List.length]. rewrite Nat.add_0_r.
    repeat split; try assumption. lia.
  - destruct (try_at r pr (c :: sf) i) as [m'|] eqn:E.
    + inversion H; subst. apply try_at_sound in E.
      destruct E as (s & sf' & E1 & Hm & Hs & He).
      exists [], s, sf'. cbn [app rev List.length]. rewrite Nat.add_0_r.
      repeat split; try assumption. lia.
    + apply IH in H. destruct H as (skipped & s & sf' & -> & Hm & Hs & He).
      exists (c :: skipped), s, sf'. cbn [rev app List.length]. rewrite <- app_assoc.
      repeat split; try assumption. lia.
Qed.

(** The text of a match that [re.search] finds stands in the searched
    text, and the pattern matches it there. *)
Lemma re_search_sound r t m :
  re_search r t = Some m ->
  exists before s after,
    t = before ++ s ++ after /\ Matches r (rev before) s after /\ group0 t m = s.
Proof.
  unfold re_search. intros H. apply search_from_sound in H.
  destruct H as (skipped & s & sf' & -> & Hm & Hs & He).
  rewrite app_nil_r in Hm. exists skipped, s, sf'. repeat split; [exact Hm|].
  unfold group0, slice. rewrite He, Hs. cbn [Nat.add].
  replace (List.length skipped + List.length s - List.length skipped) with (List.length s)
    by lia.
  rewrite skipn_app, skipn_all, Nat.sub_diag. cbn [skipn app].
  rewrite firstn_app, firstn_all, Nat.sub_diag. cbn [firstn]. apply app_nil_r.
Qed.

Lemma Matches_lit_inv : forall w pr s sf,
  Matches (seq (map (fun c => Cls (one c)) w)) pr s sf -> s = w.
Proof.
  induction w as [|x w IH]; intros pr s sf H.
  - apply Matches_Eps_inv in H. exact H.
  - change (seq (map (fun c => Cls (one c)) (x :: w)))
      with (Cat (Cls (one x)) (seq (map (fun c => Cls (one c)) w))) in H.
    apply Matches_Cat_inv in H. destruct H as (s1 & s2 & -> & H1 & H2).
    apply Matches_Cls_inv in H1. destruct H1 as (c & -> & Hc).
    unfold one in Hc. apply N.eqb_eq in Hc. subst c.
    apply IH in H2. subst s2. reflexivity.
Qed.

(** The end of both URL patterns: characters that may stand in a URL,
    then one that may end it. *)
Lemma Matches_url_tail pr s sf :
  Matches (seq [plus (cnot url_stop); Cls (cnot url_end_stop)]) pr s sf ->
  exists body c,
    s = body ++ [c] /\ body <> []
    /\ Forall (fun x => url_stop x = false) body /\ url_end_stop c = false.
Proof.
  intros H. change (seq [plus (cnot url_stop); Cls (cnot url_end_stop)])
    with (Cat (plus (cnot url_stop)) (Cat (Cls (cnot url_end_stop)) Eps)) in H.
  apply Matches_Cat_inv in H. destruct H as (body & s2 & -> & H1 & H2).
  apply Matches_Cat_inv in H2. destruct H2 as (s3 & s4 & -> & H3 & H4).
  apply Matches_Eps_inv in H4. subst s4.
  apply Matches_Cls_inv in H3. destruct H3 as (c & -> & Hc).
  apply Matches_Rep_inv in H1. destruct H1 as (Hb & Hlen & _).
  exists body, c. rewrite app_nil_r. repeat split.
  - intros ->. simpl in Hlen. lia.
  - eapply Forall_impl; [|exact Hb]. intros x Hx. unfold cnot in Hx.
    apply negb_true_iff. exact Hx.
  - unfold cnot in Hc. apply negb_true_iff. exact Hc.
Qed.

(** X17.  A URL that [extract_url] returns starts with the scheme
    [http://] or [https://], goes on with at least one character, holds
    no white space, angle bracket, quote, closing parenthesis or closing
    bracket after the scheme, and does not end with a mark of
    punctuation; it stands in the text as it is, or without the scheme
    when the text had it start with [www.]. *)
Theorem extract_url_shape : forall t u,
  extract_url t = Some u ->
  exists scheme body c,
    u = scheme ++ body ++ [c]
    /\ (scheme = str "http://" \/ scheme = str "https://")
    /\ body <> []
    /\ Forall (fun x => url_stop x = false) body
    /\ url_end_stop c = false
    /\ exists before after,
         t = before ++ u ++ after
         \/ (scheme = str "https://" /\ t = before ++ (body ++ [c]) ++ after).
Proof.
  intros t u. unfold extract_url.
  destruct (re_search _ t) as [m|] eqn:E1.
  - intros H. inversion H; subst. clear H.
    apply re_search_sound in E1. destruct E1 as (before & s & after & Et & Hm & ->).
    change (seq [lit "http"; copt (of_set "s"); lit "://"; plus (cnot url_stop);
                 Cls (cnot url_end_stop)])
      with (Cat (lit "http") (Cat (copt (of_set "s"))
              (Cat (lit "://") (seq [plus (cnot url_stop); Cls (cnot url_end_stop)])))) in Hm.
    apply Matches_Cat_inv in Hm. destruct Hm as (s1 & r1 & -> & H1 & Hm).
    apply Matches_lit_inv in H1. subst s1.
    apply Matches_Cat_inv in Hm. destruct Hm as (s2 & r2 & -> & H2 & Hm).
    apply Matches_Cat_inv in Hm. destruct Hm as (s3 & r3 & -> & H3 & Hm).
    apply Matches_lit_inv in H3. subst s3.
    apply Matches_url_tail in Hm. destruct Hm as (body & c & -> & Hne & Hb & Hc).
    apply Matches_Rep_inv in H2. destruct H2 as (Hs & _ & Hle). cbn [within] in Hle.
    exists (str "http" ++ s2 ++ str "://"), body, c.
    split; [rewrite <- !app_assoc; reflexivity|]. split.
    { destruct s2 as [|x [|y s2]]; [left; reflexivity| |simpl in Hle; lia].
      inversion Hs; subst. unfold of_set, mem in H1. cbn in H1.
      rewrite orb_false_r in H1. apply N.eqb_eq in H1. subst x. right. reflexivity. }
    repeat split; try assumption.
    exists before, after. left. rewrite Et, <- !app_assoc. reflexivity.
  - clear E1. destruct (re_search _ t) as [m|] eqn:E2; [|discriminate].
    intros H. inversion H; subst. clear H.
    apply re_search_sound in E2. destruct E2 as (before & s & after & Et & Hm & ->).
    change (seq [lit "www."; plus (cnot url_stop); Cls (cnot url_end_stop)])
      with (Cat (lit "www.") (seq [plus (cnot url_stop); Cls (cnot url_end_stop)])) in Hm.
    apply Matches_Cat_inv in Hm. destruct Hm as (s1 & r1 & -> & H1 & Hm).
    apply Matches_lit_inv in H1. subst s1.
    apply Matches_url_tail in Hm. destruct Hm as (body & c & -> & Hne & Hb & Hc).
    exists (str "https://"), (str "www." ++ body), c.
    split; [rewrite <- !app_assoc; reflexivity|]. split; [right; reflexivity|].
    split; [intros Hx; apply (f_equal (@List.length char)) in Hx; discriminate Hx|]. split.
    { apply Forall_app. split; [|exact Hb]. repeat constructor. }
    split; [exact Hc|].
    exists before, after. right. split; [reflexivity|].
    rewrite Et, <- !app_assoc. reflexivity.
Qed.

Lemma extract_url_shape_example :
  exists scheme body c,
    str "https://example.org/a" = scheme ++ body ++ [c]
    /\ (scheme = str "http://" \/ scheme = str "https://")
    /\ body <> []
    /\ Forall (fun x => url_stop x = false) body
    /\ url_end_stop c = false
    /\ exists before after,
         str "See https://example.org/a." = before ++ str "https://example.org/a" ++ after
         \/ (scheme = str "https://"
             /\ str "See https://example.org/a." = before ++ (body ++ [c]) ++ after).
Proof.
  apply (extract_url_shape (str "See https://example.org/a.") (str "https://example.org/a")).
  vm_compute. reflexivity.
Defined.

(** *** The number of a week header *)

(** A greedy repetition takes the whole run of its class when the rest
    of the pattern succeeds after it. *)
Lemma rep_run_greedy p k : forall s sf lo pr i cs res,
  Forall (fun c => p c = true) s ->
  stops p sf ->
  lo <= List.length s ->
  k (MS (rev s ++ pr) sf (i + List.length s) cs) = Some res ->
  rep_run p lo None pr (s ++ sf) i cs k = Some res.
Proof.
  induction s as [|c s IH]; intros sf lo pr i cs res Hs Hsf Hlo Hk.
  - cbn [app]. cbn [List.length] in Hlo. assert (lo = 0) by lia. subst lo.
    cbn [rev app List.length] in Hk. rewrite Nat.add_0_r in Hk.
    destruct sf as [|c sf]; cbn [rep_run Nat.eqb]; [exact Hk|].
    cbn [stops] in Hsf. rewrite Hsf. exact Hk.
  - inversion Hs as [|c' s' Hc Hs']; subst. cbn [app rep_run]. rewrite Hc.
    cbn [may_take andb dec option_map].
    rewrite (IH sf (pred lo) (c :: pr) (S i) cs res); [reflexivity|exact Hs'|exact Hsf| |].
    + cbn [List.length] in Hlo. lia.
    + cbn [rev List.length] in Hk. rewrite <- app_assoc in Hk. cbn [app] in Hk.
      replace (S i + List.length s) with (i + S (List.length s)) by lia. exact Hk.
Qed.

Lemma ci_of_lower x c : lower_char c = x -> ci (one x) c = true.
Proof.
  intros <-. unfold ci, one. rewrite N.eqb_refl, orb_true_r. reflexivity.
Qed.

Lemma ci_space_intro c : is_space c = true -> ci is_space c = true.
Proof. intros H. unfold ci. rewrite H. reflexivity. Qed.

Lemma ci_digit_intro c : is_digit c = true -> ci is_digit c = true.
Proof. intros H. unfold ci. rewrite H. reflexivity. Qed.

Lemma ci_space_w c : lower_char c = 119%N -> ci is_space c = false.
Proof. intros H. apply not_true_is_false. intros F. char_facts. Qed.

Lemma ci_space_digit c : is_digit c = true -> ci is_space c = false.
Proof. intros H. apply not_true_is_false. intros F. char_facts. Qed.

Lemma ci_digit_stop c : is_digit c = false -> ci is_digit c = false.
Proof. intros H. apply not_true_is_false. intros F. char_facts. Qed.

Lemma int_of_nonneg : forall ds acc,
  Forall (fun c => is_digit c = true) ds -> (0 <= acc)%Z ->
  (0 <= fold_left (fun acc c => (acc * 10 + (Z.of_N c - 48))%Z) ds acc)%Z.
Proof.
  induction ds as [|d ds IH]; intros acc Hds Hacc; [exact Hacc|].
  inversion Hds as [|d' ds' Hd Hds']; subst. cbn [fold_left]. apply IH; [exact Hds'|].
  unfold is_digit, in_range in Hd. apply andb_true_iff in Hd. destruct Hd as [H1 H2].
  apply N.leb_le in H1. lia.
Qed.

Lemma forallb_Forall_true {A} (f : A -> bool) l :
  forallb f l = true -> Forall (fun x => f x = true) l.
Proof. intros H. apply Forall_forall. apply forallb_forall. exact H. Qed.

Lemma all_space_Forall_ci w :
  all_space w = true -> Forall (fun c => ci is_space c = true) w.
Proof.
  induction w as [|c w IH]; intros H; [constructor|].
  cbn [all_space] in H. apply andb_true_iff in H. destruct H as [Hc Hw].
  constructor; [apply ci_space_intro; exact Hc|apply IH; exact Hw].
Qed.

(** The group of digits of [week_pattern], run on the digits [ds]. *)
Lemma run_week_digits ds rest pr i cs :
  ds <> [] -> Forall (fun c => is_digit c = true) ds -> stops is_digit rest ->
  run (Cat (Grp 1 (Rep (ci is_digit) 1 None)) Eps) (MS pr (ds ++ rest) i cs) Some
  = Some (MS (rev ds ++ pr) rest (i + List.length ds)
             ((1, (i, i + List.length ds)) :: cs)).
Proof.
  intros Hne Hds Hrest. cbn [run pre suf idx caps].
  apply rep_run_greedy.
  - eapply Forall_impl; [|exact Hds]. intros c. apply ci_digit_intro.
  - destruct rest as [|c rest]; [exact I|]. cbn [stops] in *. apply ci_digit_stop. exact Hrest.
  - destruct ds; [congruence|cbn [List.length]; lia].
  - reflexivity.
Qed.

(** The white space and the digits after the word. *)
Lemma run_week_number w1 ds rest pr i cs :
  w1 <> [] -> all_space w1 = true ->
  ds <> [] -> Forall (fun c => is_digit c = true) ds -> stops is_digit rest ->
  run (Cat (Rep (ci is_space) 1 None) (Cat (Grp 1 (Rep (ci is_digit) 1 None)) Eps))
      (MS pr (w1 ++ ds ++ rest) i cs) Some
  = Some (MS (rev ds ++ rev w1 ++ pr) rest (i + List.length w1 + List.length ds)
             ((1, (i + List.length w1, i + List.length w1 + List.length ds)) :: cs)).
Proof.
  intros Hw Hsp Hne Hds Hrest. cbn [run pre suf idx caps].
  apply rep_run_greedy.
  - apply all_space_Forall_ci. exact Hsp.
  - destruct ds as [|d ds]; [congruence|]. cbn [app stops].
    inversion Hds; subst. apply ci_space_digit. assumption.
  - destruct w1; [congruence|cbn [List.length]; lia].
  - apply (run_week_digits ds rest (rev w1 ++ pr) (i + List.length w1) cs); assumption.
Qed.

Lemma skipn_length_app {A} (a b : list A) : skipn (List.length a) (a ++ b) = b.
Proof. rewrite skipn_app, skipn_all, Nat.sub_diag. reflexivity. Qed.

Lemma firstn_length_app {A} (a b : list A) : firstn (List.length a) (a ++ b) = a.
Proof. rewrite firstn_app, firstn_all, Nat.sub_diag. cbn [firstn]. apply app_nil_r. Qed.

(** X18.  For a text that starts, after white space or none, with the
    word [week] in any case, white space and digits, [is_week_header]
    returns the number that all the digits up to the first other
    character write, which is not negative, when there are at most
    [max_str_digits] of them; it raises [ValueError] when there are
    more. *)
Theorem week_header_number : forall w0 wk w1 ds rest,
  all_space w0 = true ->
  lower wk = str "week" ->
  w1 <> [] -> all_space w1 = true ->
  ds <> [] -> forallb is_digit ds = true ->
  no_more_digits rest = true ->
  is_week_header (w0 ++ wk ++ w1 ++ ds ++ rest)
  = (if max_str_digits <? List.length ds then Raise ValueError else Ok (Some (int_of ds)))
  /\ (0 <= int_of ds)%Z.
Proof.
  intros w0 wk w1 ds rest H0 Hwk Hw1 Hs1 Hne Hds Hrest'.
  assert (Hrest : stops is_digit rest).
  { destruct rest as [|c rest]; [exact I|]. cbn [stops no_more_digits] in *.
    apply andb_true_iff in Hrest'. destruct Hrest' as [H _].
    apply negb_true_iff in H. exact H. }
  apply forallb_Forall_true in Hds.
  split; [|apply int_of_nonneg; [exact Hds|lia]].
  destruct wk as [|c1 [|c2 [|c3 [|c4 [|c5 wk]]]]]; try discriminate Hwk.
  unfold lower in Hwk. cbn [map] in Hwk. injection Hwk as E1 E2 E3 E4.
  assert (Hrun : run week_pattern (MS [] (w0 ++ [c1; c2; c3; c4] ++ w1 ++ ds ++ rest) 0 []) Some
                 = Some (MS (rev ds ++ rev w1 ++ c4 :: c3 :: c2 :: c1 :: rev w0 ++ []) rest
                            (S (S (S (S (0 + List.length w0)))) + List.length w1
                             + List.length ds)
                            [(1, (S (S (S (S (0 + List.length w0)))) + List.length w1,
                                  S (S (S (S (0 + List.length w0)))) + List.length w1
                                  + List.length ds))])).
  { rewrite week_pattern_shape. cbn [run pre suf idx caps at_bol].
    apply rep_run_greedy.
    - apply all_space_Forall_ci. exact H0.
    - cbn [app stops]. apply ci_space_w. exact E1.
    - lia.
    - cbn [run pre suf idx caps app].
      rewrite (ci_of_lower _ c1 E1), (ci_of_lower _ c2 E2), (ci_of_lower _ c3 E3),
        (ci_of_lower _ c4 E4).
      apply (run_week_number w1 ds rest); assumption. }
  unfold is_week_header, re_match, try_at. rewrite Hrun. cbn [idx caps].
  match goal with
  | |- (week <- py_int ?g ;; _) = _ => assert (Hg : g = ds)
  end; [|rewrite Hg; unfold py_int; destruct (max_str_digits <? List.length ds); reflexivity].
  unfold group. cbn [m_caps cap_span Nat.eqb]. unfold slice.
  replace (S (S (S (S (0 + List.length w0)))) + List.length w1 + List.length ds
           - (S (S (S (S (0 + List.length w0)))) + List.length w1))
    with (List.length ds) by lia.
  replace (S (S (S (S (0 + List.length w0)))) + List.length w1)
    with (List.length (w0 ++ [c1; c2; c3; c4] ++ w1))
    by (rewrite !length_app; cbn [List.length]; lia).
  replace (w0 ++ [c1; c2; c3; c4] ++ w1 ++ ds ++ rest)
    with ((w0 ++ [c1; c2; c3; c4] ++ w1) ++ ds ++ rest)
    by (rewrite <- !app_assoc; reflexivity).
  rewrite skipn_length_app. apply firstn_length_app.
Qed.

Lemma week_header_number_example :
  is_week_header (str "  WEEK 12: Introduction") = Ok (Some 12%Z) /\ (0 <= 12)%Z.
Proof.
  apply (week_header_number (str "  ") (str "WEEK") (str " ") (str "12")
           (str ": Introduction")); try reflexivity; discriminate.
Defined.

(** *** The file matched to a reading *)

Lemma match_step_best reading_norm seen acc pdf :
  best_so_far reading_norm seen acc ->
  best_so_far reading_norm (seen ++ [pdf])
              (match_step reading_norm (keywords reading_norm) acc pdf).
Proof.
  intros H.
  assert (Hold : best_so_far reading_norm (seen ++ [pdf]) acc).
  { unfold best_so_far in *. destruct (snd acc) as [p|]; [|exact I].
    destruct H as (H1 & H2 & H3). repeat split; try assumption.
    apply in_or_app. left. exact H1. }
  unfold match_step.
  destruct (pdf_score reading_norm (keywords reading_norm) pdf) as [score|] eqn:E;
    [|exact Hold].
  destruct (PrimFloat.ltb (fst acc) score && PrimFloat.leb threshold score) eqn:E2;
    [|exact Hold].
  apply andb_true_iff in E2. destruct E2 as [_ E2].
  unfold best_so_far. cbn [fst snd]. repeat split; try assumption.
  apply in_or_app. right. left. reflexivity.
Qed.

Lemma match_loop_best reading_norm : forall pdfs seen acc,
  best_so_far reading_norm seen acc ->
  best_so_far reading_norm (seen ++ pdfs)
              (fold_left (match_step reading_norm (keywords reading_norm)) pdfs acc).
Proof.
  induction pdfs as [|pdf pdfs IH]; intros seen acc H.
  - rewrite app_nil_r. exact H.
  - cbn [fold_left]. replace (seen ++ pdf :: pdfs) with ((seen ++ [pdf]) ++ pdfs)
      by (rewrite <- app_assoc; reflexivity).
    apply IH. apply match_step_best. exact H.
Qed.

Lemma in_words_In w ws : in_words w ws = true -> In w ws.
Proof.
  unfold in_words. intros H. apply existsb_exists in H. destruct H as (x & Hx & E).
  apply text_eqb_eq in E. subst x. exact Hx.
Qed.

(** X19.  The file that [match_pdf_to_reading] returns is one of the
    files given; its name and the reading share a word that is no stop
    word, and its score, the share of the words of its name that the
    reading has plus the bonus for its first word, is at least the
    threshold of 0.4. *)
Theorem matched_file_shares_a_word : forall reading_text pdfs pdf,
  match_pdf_to_reading reading_text pdfs = Some pdf ->
  In pdf pdfs
  /\ (exists w,
        In w (pdf_words pdf)
        /\ In w (keywords (normalize_text reading_text))
        /\ in_words w stop_words = false)
  /\ exists score,
       pdf_score (normalize_text reading_text) (keywords (normalize_text reading_text)) pdf
       = Some score
       /\ PrimFloat.leb threshold score = true.
Proof.
  intros reading_text pdfs pdf. unfold match_pdf_to_reading.
  pose proof (match_loop_best (normalize_text reading_text) pdfs [] (float_of_nat 0, None) I)
    as H.
  cbn [app] in H. unfold best_so_far in H.
  destruct (fold_left _ pdfs _) as [best_score best_match]. cbn [fst snd] in *.
  intros ->. destruct H as (Hin & Hscore & Hthr).
  split; [exact Hin|]. split; [|exists best_score; split; assumption].
  unfold pdf_score in Hscore.
  destruct (pdf_words pdf) as [|w0 ws] eqn:Ew; [discriminate|].
  destruct (common_words (keywords (normalize_text reading_text)) pdf) as [|w cs] eqn:Ec;
    [discriminate|].
  assert (Hw : In w (common_words (keywords (normalize_text reading_text)) pdf))
    by (rewrite Ec; left; reflexivity).
  unfold common_words in Hw. apply filter_In in Hw. destruct Hw as [Hw1 Hw2].
  exists w. rewrite <- Ew. split; [exact Hw1|]. split; [apply in_words_In; exact Hw2|].
  unfold pdf_words, keywords in Hw1. apply filter_In in Hw1. destruct Hw1 as [_ Hw1].
  apply negb_true_iff. exact Hw1.
Qed.

Lemma matched_file_shares_a_word_example :
  In (PdfFile (str "Smith - The theory of everything.pdf") (str "link-2")) folder_files
  /\ (exists w,
        In w (pdf_words (PdfFile (str "Smith - The theory of everything.pdf") (str "link-2")))
        /\ In w (keywords (normalize_text (str "Smith, J. (2020). The theory of everything.")))
        /\ in_words w stop_words = false)
  /\ exists score,
       pdf_score (normalize_text (str "Smith, J. (2020). The theory of everything."))
                 (keywords (normalize_text (str "Smith, J. (2020). The theory of everything.")))
                 (PdfFile (str "Smith - The theory of everything.pdf") (str "link-2"))
       = Some score
       /\ PrimFloat.leb threshold score = true.
Proof.
  apply (matched_file_shares_a_word (str "Smith, J. (2020). The theory of everything.")
           folder_files).
  vm_compute. reflexivity.
Defined.

(** *** Lines that are not cut off *)

(** Without the analyzer, a line is merged only into a text that
    [is_incomplete_line] takes for cut off. *)
Lemma should_merge_needs_incomplete prev next :
  is_incomplete_line None prev = false -> should_merge_lines None prev next = Ok false.
Proof.
  intros H. unfold should_merge_lines, merge_by_shape. rewrite H.
  destruct (matches _ next); [reflexivity|].
  destruct (looks_like_author next && _); [reflexivity|].
  cbn [person_and_year bind].
  destruct (ends_terminal prev && _); [reflexivity|].
  cbn [andb]. rewrite andb_false_r. reflexivity.
Qed.

Lemma is_incomplete_line_strip an t :
  is_incomplete_line an (strip t) = is_incomplete_line an t.
Proof. unfold is_incomplete_line. rewrite strip_strip. reflexivity. Qed.

Lemma merge_step_apart merged current item :
  match current with
  | Some cur => is_incomplete_line None (u_full_text cur) = false
  | None => True
  end ->
  merge_step None (merged, current) item
  = Ok (if blank item then (merged, current)
        else (merged ++ pending current, Some (start_unit item (strip (f_text item))))).
Proof.
  intros Hc. unfold merge_step, blank.
  destruct (strip (f_text item)) as [|c t]; [reflexivity|].
  destruct current as [cur|].
  - rewrite should_merge_needs_incomplete by exact Hc. reflexivity.
  - cbn [pending]. rewrite app_nil_r. reflexivity.
Qed.

Lemma merge_loop_apart : forall lines merged current,
  Forall (fun f => is_incomplete_line None (f_text f) = false) lines ->
  match current with
  | Some cur => is_incomplete_line None (u_full_text cur) = false
  | None => True
  end ->
  exists acc,
    fold_each (merge_step None) lines (merged, current) = Ok acc
    /\ fst acc ++ pending (snd acc)
       = merged ++ pending current
           ++ map (fun f => start_unit f (strip (f_text f))) (kept lines).
Proof.
  induction lines as [|item lines IH]; intros merged current Hl Hc.
  - exists (merged, current). split; [reflexivity|].
    cbn [fst snd kept filter map]. rewrite app_nil_r. reflexivity.
  - inversion Hl as [|x l Hitem Hrest]; subst. cbn [fold_each].
    rewrite (merge_step_apart merged current item Hc). cbn [bind].
    unfold kept. cbn [filter]. fold (kept lines).
    destruct (blank item); cbn [negb].
    + apply IH; assumption.
    + destruct (IH (merged ++ pending current)
                  (Some (start_unit item (strip (f_text item)))) Hrest) as (acc & E & H).
      * cbn [start_unit u_full_text]. rewrite is_incomplete_line_strip. exact Hitem.
      * exists acc. split; [exact E|]. rewrite H.
        cbn [map pending]. rewrite <- !app_assoc. reflexivity.
Qed.

(** X20.  Without the analyzer, [merge_fragmented_lines] merges nothing
    when no line is cut off by the measure of [is_incomplete_line]: every
    line that is not blank becomes a unit of its own, with its stripped
    text and its own start and end. *)
Theorem complete_lines_stay_apart : forall lines,
  Forall (fun f => is_incomplete_line None (f_text f) = false) lines ->
  merge_fragmented_lines None lines
  = Ok (map (fun f => start_unit f (strip (f_text f))) (kept lines)).
Proof.
  intros lines H. unfold merge_fragmented_lines.
  destruct (merge_loop_apart lines [] None H I) as ([merged current] & -> & E).
  cbn [app pending fst snd bind] in *. rewrite <- E. destruct current; cbn [pending];
    [reflexivity|rewrite app_nil_r; reflexivity].
Qed.

Lemma complete_lines_stay_apart_example :
  merge_fragmented_lines None complete_lines
  = Ok (map (fun f => start_unit f (strip (f_text f))) (kept complete_lines)).
Proof.
  apply (complete_lines_stay_apart complete_lines).
  repeat constructor.
Defined.

(** *** The saved configuration is read back *)

Lemma id_char_bare c :
  id_char c = true -> negb (is_space c) && negb (mem c config_quotes) = true.
Proof.
  unfold id_char, cor, az, AZ, rng, of_set, mem. cbn [str existsb]. cbn.
  unfold is_space, in_range. intros H.
  repeat rewrite ?orb_true_iff, ?andb_true_iff, ?N.leb_le, ?N.eqb_eq in H.
  apply andb_true_iff. split; apply negb_true_iff.
  - repeat rewrite ?orb_false_iff, ?andb_false_iff, ?N.leb_gt, ?N.eqb_neq. lia.
  - repeat rewrite ?orb_false_iff, ?andb_false_iff, ?N.leb_gt, ?N.eqb_neq. unfold dq. lia.
Qed.

Lemma id_clean_ends v :
  v <> [] -> forallb id_char v = true -> clean_ends config_quotes v = true.
Proof.
  intros Hne Hv. unfold clean_ends, starts_bare.
  assert (Hr : forallb id_char (rev v) = true) by (rewrite forallb_rev; exact Hv).
  destruct v as [|a m]; [congruence|].
  destruct (rev (a :: m)) as [|b r] eqn:E.
  { apply (f_equal (@List.length char)) in E. rewrite length_rev in E. discriminate E. }
  cbn [forallb] in Hv, Hr.
  apply andb_true_iff in Hv. destruct Hv as [Ha _].
  apply andb_true_iff in Hr. destruct Hr as [Hb _].
  rewrite (id_char_bare a Ha), (id_char_bare b Hb). reflexivity.
Qed.

(** X21.  What [setup_resources] saves, [load_config] reads back: from
    the two lines written for a folder and a document whose identifiers
    are made of letters, digits, underscores and hyphens, it returns the
    folder under [FOLDER_ID] and the document under [DOC_ID]. *)
Theorem saved_config_is_read_back : forall folder_id doc_id,
  folder_id <> [] -> forallb id_char folder_id = true ->
  doc_id <> [] -> forallb id_char doc_id = true ->
  load_config (saved_config folder_id doc_id)
  = [(str "FOLDER_ID", folder_id); (str "DOC_ID", doc_id)].
Proof.
  intros folder_id doc_id Hf1 Hf2 Hd1 Hd2. unfold load_config, saved_config.
  cbn [fold_left].
  pose proof (config_entry_padded [] (str "FOLDER_ID") [] [] [] folder_id [] [10%N]
                eq_refl eq_refl eq_refl eq_refl eq_refl eq_refl eq_refl eq_refl
                (id_clean_ends folder_id Hf1 Hf2)) as E1.
  pose proof (config_entry_padded [] (str "DOC_ID") [] [] [] doc_id [] [10%N]
                eq_refl eq_refl eq_refl eq_refl eq_refl eq_refl eq_refl eq_refl
                (id_clean_ends doc_id Hd1 Hd2)) as E2.
  cbn [app] in E1, E2.
  change (str "FOLDER_ID=" ++ folder_id ++ [10%N])
    with (str "FOLDER_ID" ++ str "=" ++ folder_id ++ [10%N]).
  change (str "DOC_ID=" ++ doc_id ++ [10%N])
    with (str "DOC_ID" ++ str "=" ++ doc_id ++ [10%N]).
  rewrite E1. cbn [dict_set]. rewrite E2. reflexivity.
Qed.

Lemma saved_config_is_read_back_example :
  load_config (saved_config (str "1aB_c-9") (str "Zx-7_Q"))
  = [(str "FOLDER_ID", str "1aB_c-9"); (str "DOC_ID", str "Zx-7_Q")].
Proof.
  apply (saved_config_is_read_back (str "1aB_c-9") (str "Zx-7_Q"));
    try reflexivity; discriminate.
Defined.

(** *** The week of an item *)

Lemma announced_grows st st' w :
  (forall h, In h (headers st) -> In h (headers st')) ->
  announced st w -> announced st' w.
Proof.
  intros Hh [H|(h & Hin & Hw)]; [left; exact H|].
  right. exists h. split; [apply Hh; exact Hin|exact Hw].
Qed.

Lemma new_item_week an t start end_ is_split st :
  i_week (new_item an t start end_ is_split st) = current_week st
  /\ i_full_text (new_item an t start end_ is_split st) = t.
Proof.
  unfold new_item. destruct (get_reading_score an t), (classify_text_type an t).
  split; reflexivity.
Qed.

Lemma note_url_weeks it st : weeks_announced st -> weeks_announced (note_url it st).
Proof.
  unfold note_url. destruct (i_has_url it); [|exact (fun H => H)].
  intros [H1 H2]. split; [exact H1|exact H2].
Qed.

(** An item filed under the current week, on a list other than that of
    the headers. *)
Lemma filed_under_current (add : item -> stats -> stats) :
  (forall it st x, In x (all_items (add it st)) <-> x = it \/ In x (all_items st)) ->
  (forall it st, headers (add it st) = headers st) ->
  (forall it st, current_week (add it st) = current_week st) ->
  forall it it0 st,
    i_week it = current_week st ->
    weeks_announced st -> weeks_announced (add it (note_url it0 st)).
Proof.
  intros Hitems Hheaders Hweek it it0 st Hw Hst.
  apply (note_url_weeks it0) in Hst.
  assert (Hcw : current_week (note_url it0 st) = current_week st)
    by (unfold note_url; destruct (i_has_url it0); reflexivity).
  rewrite <- Hcw in Hw. revert Hst Hw. generalize (note_url it0 st). clear st Hcw.
  intros st [H1 H2] Hw.
  assert (Hgrow : forall w, announced st w -> announced (add it st) w).
  { intros w. apply announced_grows. intros h Hh. rewrite Hheaders. exact Hh. }
  split.
  - rewrite Hweek. apply Hgrow. exact H1.
  - apply Forall_forall. intros x Hx. apply Hitems in Hx. destruct Hx as [->|Hx].
    + rewrite Hw. apply Hgrow. exact H1.
    + apply Hgrow. rewrite Forall_forall in H2. apply H2. exact Hx.
Qed.

Lemma header_weeks it w it0 st :
  (i_week it = current_week st /\ w = current_week st
   \/ i_week it = w /\ is_week_header (i_full_text it) = Ok (Some w)) ->
  weeks_announced st -> weeks_announced (add_header it w (note_url it0 st)).
Proof.
  intros Hw Hst. apply (note_url_weeks it0) in Hst.
  assert (Hcw : current_week (note_url it0 st) = current_week st)
    by (unfold note_url; destruct (i_has_url it0); reflexivity).
  rewrite <- Hcw in Hw. revert Hst Hw. generalize (note_url it0 st). clear st Hcw.
  intros st [H1 H2] Hw.
  assert (Hgrow : forall w', announced st w' -> announced (add_header it w st) w').
  { intros w'. apply announced_grows. intros h Hh. cbn [add_header headers].
    apply in_or_app. left. exact Hh. }
  assert (Hnew : announced (add_header it w st) w /\ announced (add_header it w st) (i_week it)).
  { destruct Hw as [[E1 E2]|[E1 E2]].
    - rewrite E1, E2. split; apply Hgrow; exact H1.
    - rewrite E1. assert (Ha : announced (add_header it w st) w).
      { right. exists it. split; [|exact E2]. cbn [add_header headers].
        apply in_or_app. right. left. reflexivity. }
      split; exact Ha. }
  split.
  - cbn [add_header current_week]. apply Hnew.
  - apply Forall_forall. intros x Hx. apply add_header_items in Hx. destruct Hx as [->|Hx].
    + apply Hnew.
    + apply Hgrow. rewrite Forall_forall in H2. apply H2. exact Hx.
Qed.

Lemma fold_keeps_weeks {X} (f : stats -> X -> outcome) :
  (forall st x, weeks_announced st -> keeps_weeks (f st x)) ->
  forall l init, keeps_weeks init ->
  keeps_weeks (fold_left (fun acc x => match acc with
                                       | Done st' => f st' x
                                       | other => other
                                       end) l init).
Proof.
  intros Hf. induction l as [|x l IH]; intros init Hinit; [exact Hinit|].
  cbn [fold_left]. apply IH. destruct init; [apply Hf; exact Hinit|exact I|exact I].
Qed.

Lemma classify_single_text_weeks : forall fuel an t start end_ is_split st,
  weeks_announced st ->
  keeps_weeks (classify_single_text fuel an t start end_ is_split st).
Proof.
  induction fuel as [|fuel IH]; intros an t start end_ is_split st Hst; [exact I|].
  cbn [classify_single_text].
  set (it := new_item an t start end_ is_split st).
  destruct (new_item_week an t start end_ is_split st) as [Hw Ht]. fold it in Hw, Ht.
  destruct (List.length t <? 20).
  { apply (filed_under_current add_too_short); try reflexivity; try assumption.
    apply add_too_short_items. }
  destruct (is_header t).
  { destruct (is_week_header t) as [[week|]|e] eqn:Ew; [destruct (week =? 0)%Z| |exact I];
      cbn [keeps_weeks]; apply header_weeks; try assumption.
    - left. split; [exact Hw|reflexivity].
    - right. cbn [set_week i_week i_full_text]. rewrite Ht. split; [reflexivity|exact Ew].
    - left. split; [exact Hw|reflexivity]. }
  destruct (is_instruction an t).
  { apply (filed_under_current add_instruction); try reflexivity; try assumption.
    apply add_instruction_items. }
  assert (Hun : forall read_bar instr_bar kind,
            keeps_weeks (Done (classify_unsplit it read_bar instr_bar kind st))).
  { intros read_bar instr_bar kind. unfold classify_unsplit.
    destruct (i_semantic_class it).
    - destruct (_ <=? _)%Z.
      + apply (filed_under_current add_boosted_reading); try reflexivity; try assumption.
        apply add_boosted_reading_items.
      + apply (filed_under_current add_uncertain); try reflexivity; try assumption.
        apply add_uncertain_items.
    - destruct (_ <=? _)%Z.
      + apply (filed_under_current add_instruction); try reflexivity; try assumption.
        apply add_instruction_items.
      + apply (filed_under_current add_uncertain); try reflexivity; try assumption.
        apply add_uncertain_items.
    - apply (filed_under_current add_uncertain); try reflexivity; try assumption.
      apply add_uncertain_items. }
  destruct (3 <=? i_score it)%Z.
  { apply (filed_under_current add_reading); try reflexivity; try assumption.
    apply add_reading_items. }
  assert (Hseg : forall read_bar instr_bar kind,
            keeps_weeks
              match split_concatenated_readings t with
              | Raise e => Raised e
              | Ok split_texts =>
                  if 1 <? List.length split_texts then
                    fold_left (fun acc split_text =>
                                 match acc with
                                 | Done st' =>
                                     classify_single_text fuel an (strip split_text)
                                                          start end_ true st'
                                 | other => other
                                 end)
                              split_texts (Done (note_url it st))
                  else Done (classify_unsplit it read_bar instr_bar kind st)
              end).
  { intros read_bar instr_bar kind.
    destruct (split_concatenated_readings t) as [split_texts|]; [|exact I].
    destruct (1 <? List.length split_texts); [|apply Hun].
    apply (fold_keeps_weeks
             (fun st' split_text =>
                classify_single_text fuel an (strip split_text) start end_ true st')).
    - intros st' x Hst'. apply IH. exact Hst'.
    - apply note_url_weeks. exact Hst. }
  destruct (1 <=? i_score it)%Z; apply Hseg.
Qed.

Lemma classify_line_weeks fuel an u st :
  weeks_announced st -> keeps_weeks (classify_line fuel an u st).
Proof.
  intros Hst. unfold classify_line.
  pose proof (classify_single_text_weeks fuel an (u_full_text u) (u_start u) (u_end u)
                false st Hst) as Hwhole.
  destruct (60 <? _); [|exact Hwhole].
  destruct (_ || _); [|exact Hwhole].
  destruct (split_concatenated_readings _) as [split_texts|]; [|exact I].
  destruct (1 <? List.length split_texts); [|exact Hwhole].
  apply (fold_keeps_weeks
           (fun st' split_text =>
              classify_single_text fuel an (strip split_text) (u_start u) (u_end u) true st')).
  - intros st' x Hst'. apply classify_single_text_weeks. exact Hst'.
  - exact Hst.
Qed.

(** X22.  With fuel enough for the document, [clean_syllabus] does not
    run out of fuel: it returns, or it raises [IndexError], which it does
    only for an analyzer that reports a first person name of white space
    alone, or it raises [ValueError], which it does only when a merged
    line has more than [max_str_digits] characters that are not white
    space.  When it returns, the week of every item it files is
    announced: it is 0, for an item before any week header, or the number
    of a week header that is on the list of headers; so is the current
    week at the end. *)
Theorem clean_syllabus_weeks_announced : forall an body fuel,
  enough_fuel an (collect_raw_lines body) <= fuel ->
  match clean_syllabus fuel an body with
  | Done st => weeks_announced st
  | Raised IndexError => blank_name an
  | Raised ValueError => max_str_digits < longest_line an (collect_raw_lines body)
  | OutOfFuel => False
  end.
Proof.
  intros an body fuel Hfuel. unfold clean_syllabus.
  pose proof (classify_document_outcome an (collect_raw_lines body) fuel Hfuel) as Ho.
  destruct (classify_document fuel an (collect_raw_lines body)) as [st|e|] eqn:Hst;
    [|exact Ho|exact Ho].
  unfold classify_document in Hst.
  destruct (merge_fragmented_lines an (collect_raw_lines body)) as [merged|e];
    [|discriminate].
  pose proof (fold_keeps_weeks (fun st' u => classify_line fuel an u st')
                (fun st' u H => classify_line_weeks fuel an u st' H)
                merged (Done initial_stats))
    as H.
  change (keeps_weeks (Done initial_stats) ->
          keeps_weeks (classify_lines fuel an merged initial_stats)) in H.
  rewrite Hst in H. apply H. split; [left; reflexivity|constructor].
Qed.

Lemma clean_syllabus_weeks_announced_example :
  enough_fuel None (collect_raw_lines weekly_document) <= 200
  /\ exists st, clean_syllabus 200 None weekly_document = Done st /\ weeks_announced st.
Proof.
  assert (H : enough_fuel None (collect_raw_lines weekly_document) <= 200)
    by (apply Nat.leb_le; vm_compute; reflexivity).
  split; [exact H|].
  pose proof (clean_syllabus_weeks_announced None weekly_document 200 H) as T.
  destruct (clean_syllabus 200 None weekly_document) as [st|e|] eqn:E.
  - exists st. split; [reflexivity|exact T].
  - exfalso. vm_compute in E. discriminate E.
  - destruct T.
Defined.

(** *** The file of a linked reading *)

Lemma search_from_skip r pr c sf i :
  try_at r pr (c :: sf) i = None ->
  search_from r pr (c :: sf) i = search_from r (c :: pr) sf (S i).
Proof. intros H. cbn [search_from]. rewrite H. reflexivity. Qed.

(** The identifier of [drive_file_id], run on the characters [id]. *)
Lemma try_at_file_id pr i id rest :
  id <> [] -> forallb id_char id = true -> stops id_char rest ->
  try_at drive_file_id pr (str "/d/" ++ id ++ rest) i
  = Some (RM i (S (S (S i)) + List.length id)
             [(1, (S (S (S i)), S (S (S i)) + List.length id))]).
Proof.
  intros Hne Hid Hrest. unfold try_at.
  assert (Hrun : run drive_file_id (MS pr (str "/d/" ++ id ++ rest) i []) Some
                 = Some (MS (rev id ++ str "/d/" ++ pr) rest (S (S (S i)) + List.length id)
                            [(1, (S (S (S i)), S (S (S i)) + List.length id))])).
  { unfold drive_file_id. cbn [seq lit fold_right map str list_ascii_of_string N_of_ascii
                                 N_of_digits app run pre suf idx caps one].
    cbn.
    apply rep_run_greedy.
    - apply forallb_Forall_true. exact Hid.
    - exact Hrest.
    - destruct id; [congruence|cbn [List.length]; lia].
    - reflexivity. }
  rewrite Hrun. reflexivity.
Qed.

Lemma search_from_hit r pr sf i m :
  try_at r pr sf i = Some m -> search_from r pr sf i = Some m.
Proof. intros H. destruct sf; cbn [search_from]; rewrite H; reflexivity. Qed.

Lemma search_file_id id rest :
  id <> [] -> forallb id_char id = true -> stops id_char rest ->
  re_search drive_file_id (drive_file_link ++ id ++ rest)
  = Some (RM 29 (32 + List.length id) [(1, (32, 32 + List.length id))]).
Proof.
  intros Hne Hid Hrest. unfold re_search.
  change (drive_file_link ++ id ++ rest)
    with (str "https://drive.google.com/file" ++ str "/d/" ++ id ++ rest).
  cbn [str list_ascii_of_string N_of_ascii N_of_digits map app].
  cbn -[search_from drive_file_id List.length Nat.add].
  repeat (rewrite search_from_skip by reflexivity).
  apply search_from_hit.
  apply (try_at_file_id _ 29 id rest Hne Hid Hrest).
Qed.

Lemma week_set_In k v : forall d, In (k, v) (week_set k v d).
Proof.
  induction d as [|[k' v'] d IH]; cbn [week_set]; [left; reflexivity|].
  destruct (text_eqb k' k); [left; reflexivity|right; exact IH].
Qed.

(** X23.  A reading under a week above 0 whose link leads to a file of
    the Drive, the address being the start of such a link, the
    identifier of the file and anything that does not go on the
    identifier, is recorded by [organize_drive_folder] under that
    identifier, with the week and its text. *)
Theorem linked_reading_is_recorded : forall an week d c t id rest,
  is_reading an t = true -> (0 < week)%Z ->
  id <> [] -> forallb id_char id = true -> stops id_char rest ->
  organize_reading an (week, d) (TextRun c (Some (drive_file_link ++ id ++ rest))) t
  = (week, week_set id (week, t) d)
  /\ In (id, (week, t)) (week_set id (week, t) d).
Proof.
  intros an week d c t id rest Hr Hw Hne Hid Hrest.
  split; [|apply week_set_In].
  unfold organize_reading. rewrite Hr.
  assert (Hw' : (0 <? week)%Z = true) by (apply Z.ltb_lt; exact Hw).
  rewrite Hw'. cbn [andb run_link].
  assert (Hlink : exists x l, drive_file_link ++ id ++ rest = x :: l)
    by (eexists; eexists; reflexivity).
  destruct Hlink as (x & l & El).
  assert (Hc : contains (str "drive.google.com") (drive_file_link ++ id ++ rest) = true)
    by reflexivity.
  rewrite (search_file_id id rest Hne Hid Hrest) in *.
  assert (Hg : group (drive_file_link ++ id ++ rest)
                 (RM 29 (32 + List.length id) [(1, (32, 32 + List.length id))]) 1 = id).
  { unfold group. cbn [m_caps cap_span Nat.eqb]. unfold slice.
    replace (32 + List.length id - 32) with (List.length id) by lia.
    change (skipn 32 (drive_file_link ++ id ++ rest)) with (id ++ rest).
    apply firstn_length_app. }
  revert Hc Hg. rewrite El. intros Hc Hg. rewrite Hc, Hg. reflexivity.
Qed.

Lemma linked_reading_is_recorded_example :
  organize_reading None (3%Z, [])
    (TextRun None (Some (drive_file_link ++ str "1aB_c-9" ++ str "/view")))
    (str "Smith, J. (2020). The theory of everything. Oxford University Press.")
  = (3%Z, week_set (str "1aB_c-9")
            (3%Z, str "Smith, J. (2020). The theory of everything. Oxford University Press.")
            [])
  /\ In (str "1aB_c-9",
         (3%Z, str "Smith, J. (2020). The theory of everything. Oxford University Press."))
        (week_set (str "1aB_c-9")
           (3%Z, str "Smith, J. (2020). The theory of everything. Oxford University Press.")
           []).
Proof.
  apply (linked_reading_is_recorded None 3%Z [] None
           (str "Smith, J. (2020). The theory of everything. Oxford University Press.")
           (str "1aB_c-9") (str "/view")); try reflexivity; discriminate.
Defined.
